(* ===== verification/_CoqProject ===== *)
-Q . S2P
Prelude.v
Py.v
PyStr.v
Shell.v
PyTime.v
Regex.v
Base64.v
Base64Roundtrip.v
Sha256.v
Config.v
Asyncio.v
Effects.v
Monitors.v
ApiIO.v
ApiPool.v
Conditions.v
Contracts.v
Inventory.v
Ssh.v
Operations.v
Lifecycle.v
Locks.v
MachineStatus.v
Bootstrap.v
Diagnostics.v
Machine.v
SshHost.v
SshCluster.v
NamespaceAudit.v
Readiness.v
ChangelogMerge.v
Changelog.v
PackageVersion.v
VersionRoundtrip.v
FakeApi.v
ConditionsSafety.v
Disclosure.v
WriteFiles.v
KubeadmWiring.v
ContractSafety.v
ReconcileLocks.v
RemoteFence.v
LifecycleSafety.v
MachineWrites.v
InventorySafety.v
PublishSafety.v
ReadinessSafety.v
ChangelogSafety.v
MergeGate.v
Timekeeping.v
LeaseSafety.v
LockSafety.v
WriteFences.v
LockProtocol.v
MachineSafety.v
ResetSafety.v
RebootSafety.v
