(* ===== verification/Prelude.v ===== *)
(** * capi-provider-ssh: verification development

    The repository is a Kubernetes operator (Kopf, Python) that turns SSH hosts into
    Cluster API machines.  This library models its package
    src/python/capi_provider_ssh/ and the release scripts of src/python/scripts/.
    Handlers read and patch objects of the API server, take locks there, and run
    commands on a host; everything interesting is about what happens when replicas
    overlap, replies get lost, processes die and hosts reboot.

    ** How code becomes definitions

    - [Py], [PyStr], [PyTime], [Regex], [Base64], [Sha256], [Shell]: the Python the source
      computes with.  [value] is the type of JSON-like objects, [res] a result or the
      exception; dictionaries keep their order; [float] is a decimal number without binary
      rounding; text is its UTF-8 bytes, and methods that depend on characters know the
      ASCII ones ([splitlines] all of Python's boundaries).  [Regex] is a backtracking matcher in which the patterns of the source are written out.
    - [Effects]: a coroutine is a tree of calls to the outside world ([call]: the SDK,
      asyncssh, clocks, asyncio, processes, files), each node holding what is done with any
      reply, an exception included.  [M] adds the object [patch] that Kopf passes to a
      handler and the exceptions, with [try ... except] and [finally] as the source writes
      them; cancellation may arrive as the reply of any suspension point.
    - A theorem about a handler quantifies over all finite prefixes of all its runs: the
      replies are those of any API server, host, clock and concurrent controller.
      [Monitors] has the logic for this: [msafe] walks a program against a monitor that
      reads every call and reply; [yields] and [history_under] put the whole history in
      the hands of the property.
    - [Config]: constants read from the environment or drawn at random (a class).

    ** Parts and files

    - contracts.py, conditions.py: [Contracts], [Conditions].  api_io.py: [ApiIO] (an SDK
      call as its caller sees it) and [ApiPool] (the executor: its semaphore, its threads and
      the calls that share them, as a step relation over the futures of [Asyncio]).
    - inventory.py: [Inventory].  ssh.py: [Ssh].  operations.py: [Operations] (host
      Leases, the remote fence, the detached bootstrap job).  lifecycle.py: [Lifecycle]
      (reboot, deletion).
    - controllers/sshmachine.py: [Locks] (the lock annotation shared by replicas),
      [ReconcileLocks] (the table of asyncio locks as a step relation over concurrent
      invocations), [MachineStatus], [Bootstrap] (payload), [Diagnostics], [Machine] (the
      handlers).  controllers/sshhost.py: [SshHost].  controllers/sshcluster.py:
      [SshCluster].  namespace_audit.py: [NamespaceAudit].
    - readiness.py and main.py: [Readiness].
    - scripts/merge_changelog.py, scripts/generate_changelog.py, package_version.py with
      scripts/select_build_version.py: [ChangelogMerge], [Changelog], [PackageVersion].
    - [FakeApi]: the object store of tests/fake_api.py and the scripted host of the tests,
      as the environment of the witnesses.

    Handlers call [Contracts], [Inventory], [Operations] and [Lifecycle] through [ApiIO]'s
    [run_api]; [Machine] takes the lock of [ReconcileLocks], then that of [Locks], then
    reconciles.  YAML is the class [Yaml] of [Bootstrap]: what PyYAML parses and prints is
    a parameter.

    ** What the theorems show

    - Cleanup and allocation ([LifecycleSafety], [ResetSafety], [MachineSafety],
      [InventorySafety]): a host is freed only after this machine's cleanup receipt was
      accepted, reset only between the receipts, never twice; only free hosts are claimed,
      and an allocation never changes.
    - Touching hosts ([RemoteFence], [LeaseSafety], [MachineSafety], [RebootSafety],
      [MachineWrites]): only under a host Lease, only after ownership was recorded, through
      one flock-guarded command, over verified connections; one reboot per request.
    - Concurrency ([LockSafety], [LockProtocol], [ReconcileLocks], [ApiPool]): a live lock is not stolen or
      dropped by another replica, whatever the interleaving, and whoever acquired it has
      it stored, however late replies and writes arrive; handlers of a machine exclude
      each other in a process; waiting makes progress and the table does not leak;
      the executor of SDK calls is bounded and drains what it submitted.
    - What is published ([PublishSafety], [ConditionsSafety], [ContractSafety],
      [WriteFences], [Disclosure]): readiness only with a receipt; conditions keep other
      writers' entries and transition times; a status write carries the given changes,
      their conditions merged; every patch a handler sends is fenced by the UID and the
      resourceVersion of the object last shown to it; pause fails closed; logs and diagnostics are redacted and short.
    - The payload ([WriteFiles], [KubeadmWiring], on [Base64Roundtrip]): files are written
      with their content, kubeadm documents get exactly the wanted arguments.
    - Readiness, release scripts ([ReadinessSafety], [MergeGate], [ChangelogSafety],
      [VersionRoundtrip]): what has to be on record before the probe succeeds, the pull
      request is merged, the changelog replaced; versions are injective.
    - [Timekeeping]: the polling loops end.

    ** Bounds and fuel

    - The loops with a deadline ([observe_loop], [merge_loop]) take fuel computed from
      their timeout ([observe_fuel], [merge_fuel]); under a clock that advances at least as
      long as the code sleeps they end before it is used up ([Timekeeping]).  Without that
      assumption [OutOfFuel] marks the end of a finite prefix, which the safety theorems
      cover as well.
    - [heartbeat] runs for any number of wake-ups: theorems quantify over its fuel.
    - [star] of [Regex] gets the length of the text, which no repetition exceeds.
    - The retry rounds of [Locks] are the source's constants.  Integers are Python's,
      unbounded.

    ** Assumptions

    - [LockProtocol] assumes one clock for all replicas and the API server's
      compare-and-swap on resourceVersion; a call is served some time after it is issued,
      its reply arrives later or never, and a call that timed out may still be served,
      repeatedly.  That an acquired lock is stored also needs identities of the replicas
      to differ (each ends in a fresh uuid).  The other safety theorems assume none of this.
    - [External] operations that print JSON deliver it decoded.

    ** Not modelled

    - Logging (except its redaction), Kopf's scheduling and its handler registration,
      sockets and TLS: calls without logic of the program.
    - scripts/check_package.py and hatch_build.py drive pip, zip and the build backend;
      the test suite, Helm charts, CRDs and workflows are data or exercise the code above.
    - Objects shared through YAML anchors, which set_kubeadm_args would change at every
      place; case and blanks of non-ASCII text. *)

From Stdlib Require Export Ascii.
From stdpp Require Export base tactics option sets list strings.
From Stdlib Require Export ZArith Lia.
From Stdlib Require Ascii String.

Set Default Goal Selector "!".

(** ** Scope, hint databases *)

Declare Scope capi_scope.
Delimit Scope capi_scope with capi.
Open Scope capi_scope.

Create HintDb capi.
Create Rewrite HintDb capi.

(** ** Tactics of the development *)

(** Case analysis on the innermost scrutinee of the goal, keeping the equation. *)
Ltac case_goal :=
  match goal with
  | |- context [match ?x with _ => _ end] =>
      lazymatch x with
      | context [match _ with _ => _ end] => fail
      | _ => let E := fresh "E" in destruct x eqn:E
      end
  end.

Ltac case_hyp H :=
  match type of H with
  | context [match ?x with _ => _ end] =>
      lazymatch x with
      | context [match _ with _ => _ end] => fail
      | _ => let E := fresh "E" in destruct x eqn:E
      end
  end.

(** Splits boolean conjunctions and removes trivial boolean equations. *)
Ltac bool_hyps :=
  repeat match goal with
  | H : (_ && _)%bool = true |- _ =>
      let H1 := fresh H in apply andb_true_iff in H; destruct H as [H1 H]
  | H : (_ || _)%bool = false |- _ =>
      let H1 := fresh H in apply orb_false_iff in H; destruct H as [H1 H]
  | H : negb _ = true |- _ => apply negb_true_iff in H
  | H : negb _ = false |- _ => apply negb_false_iff in H
  | H : String.eqb _ _ = true |- _ => apply String.eqb_eq in H
  | H : String.eqb _ _ = false |- _ => apply String.eqb_neq in H
  end.

(** ** Generic lemmas *)

Section lists.
Context {A : Type}.
Implicit Types (l : list A) (P : A → Prop) (f : A → bool).

Lemma forallb_Forall f l : forallb f l = true ↔ Forall (λ x, f x = true) l.
Proof. rewrite forallb_forall, Forall_forall. by setoid_rewrite list_elem_of_In. Qed.

Lemma filter_nil_forallb f l :
  List.filter f l = [] ↔ Forall (λ x, f x = false) l.
Proof.
  induction l as [|x l IH]; simpl; [by split|].
  destruct (f x) eqn:E; rewrite Forall_cons; [naive_solver congruence|naive_solver].
Qed.

Lemma filter_In_elem f l x : x ∈ List.filter f l ↔ x ∈ l ∧ f x = true.
Proof. rewrite !list_elem_of_In. apply filter_In. Qed.
End lists.
