(* ===== verification/Py.v ===== *)
(** The fragment of Python the provider's modules compute with: exceptions as
    values of a result type, the JSON-like values of Kubernetes objects, and the
    operators the code applies to them ([dict.get], indexing, [in], truthiness,
    [==], [str]).  Dictionaries are association lists in insertion order, which
    is what [list(d.values())] and the YAML dump observe. *)

From S2P Require Import Prelude.
From Stdlib Require Import DecimalString.

(** ** Exceptions *)

Inductive exn :=
| TemporaryError (msg : string) (delay : Z)      (* kopf: retried later *)
| PermanentError (msg : string)                  (* kopf: not retried *)
| ApiException (status : Z) (msg : string)       (* kubernetes.client *)
| HTTPError (msg : string)                       (* urllib3 *)
| OSError (msg : string)
| TimeoutError (msg : string)                    (* a subclass of OSError *)
| KeyError (key : string)
| TypeError (msg : string)
| AttributeError (msg : string)
| ValueError (msg : string)
| RuntimeError (msg : string)
| NotReadyError (msg : string)                   (* readiness.py *)
| OtherError (class msg : string)                (* any other Exception subclass *)
| CancelledError                                 (* asyncio: a BaseException *)
| OutOfFuel.                                     (* bound of a model loop, not Python *)

(** [except Exception] *)
Definition is_Exception (e : exn) : bool :=
  match e with CancelledError | OutOfFuel => false | _ => true end.

Inductive res (A : Type) :=
| Ok (a : A)
| Err (e : exn).
Arguments Ok {_} _.
Arguments Err {_} _.

#[global] Instance res_ret : MRet res := λ A a, Ok a.
#[global] Instance res_bind : MBind res := λ A B f m,
  match m with Ok a => f a | Err e => Err e end.

#[global] Instance res_fmap : FMap res := λ A B f m,
  match m with Ok a => Ok (f a) | Err e => Err e end.

Definition is_ok {A} (r : res A) : bool := match r with Ok _ => true | Err _ => false end.

Lemma res_bind_ok {A B} (f : A → res B) m b :
  m ≫= f = Ok b ↔ ∃ a, m = Ok a ∧ f a = Ok b.
Proof. destruct m; simpl; split; [eauto|naive_solver|done|naive_solver]. Qed.

(** Inverts a computation that returned a value, one step at a time. *)
Ltac res_inv H :=
  repeat lazymatch type of H with
  | mbind _ _ = Ok _ =>
      let x := fresh "x" in let Hx := fresh "Hx" in
      apply res_bind_ok in H; destruct H as (x & Hx & H)
  | (if ?b then _ else _) = Ok _ => let Hb := fresh "Hb" in destruct b eqn:Hb
  | (let _ := _ in _) = Ok _ => cbv zeta in H
  | mret _ = Ok _ => injection H as H
  | Ok _ = Ok _ => injection H as H
  | Err _ = Ok _ => discriminate H
  end.

(** ** Values *)

Inductive value :=
| VNone
| VBool (b : bool)
| VInt (z : Z)
| VStr (s : string)
| VList (l : list value)
| VDict (d : list (string * value)).

Abbreviation dict := (list (string * value)).

Section value_ind.
Context (P : value → Prop).
Hypothesis HNone : P VNone.
Hypothesis HBool : ∀ b, P (VBool b).
Hypothesis HInt : ∀ z, P (VInt z).
Hypothesis HStr : ∀ s, P (VStr s).
Hypothesis HList : ∀ l, Forall P l → P (VList l).
Hypothesis HDict : ∀ d, Forall (λ kv, P (snd kv)) d → P (VDict d).

(** The induction principle that sees inside lists and dictionaries. *)
Fixpoint value_ind' (v : value) : P v :=
  match v with
  | VNone => HNone
  | VBool b => HBool b
  | VInt z => HInt z
  | VStr s => HStr s
  | VList l => HList l
      ((fix go l : Forall P l := match l return Forall P l with
        | [] => Forall_nil_2 P
        | v :: l => Forall_cons_2 P v l (value_ind' v) (go l) end) l)
  | VDict d => HDict d
      ((fix go d : Forall (λ kv, P (snd kv)) d := match d return Forall (λ kv, P (snd kv)) d with
        | [] => Forall_nil_2 _
        | kv :: d => Forall_cons_2 (λ kv, P (snd kv)) kv d (value_ind' (snd kv)) (go d) end) d)
  end.
End value_ind.

(** ** Dictionaries *)

Fixpoint dget (d : dict) (k : string) : option value :=
  match d with
  | [] => None
  | (k', v) :: d => if String.eqb k k' then Some v else dget d k
  end.

(** [d[k] = v]: an existing key keeps its position. *)
Fixpoint dset (d : dict) (k : string) (v : value) : dict :=
  match d with
  | [] => [(k, v)]
  | (k', v') :: d => if String.eqb k k' then (k', v) :: d else (k', v') :: dset d k v
  end.

(** [d.pop(k, None)] *)
Definition ddel (d : dict) (k : string) : dict :=
  List.filter (λ kv, negb (String.eqb k (fst kv))) d.

(** [d.update(e)] and [{**d, **e}] *)
Definition dupdate (d e : dict) : dict :=
  fold_left (λ d kv, dset d (fst kv) (snd kv)) e d.

Definition dict_wf (d : dict) : Prop := NoDup (map fst d).

Lemma dget_dset_eq d k v : dget (dset d k v) k = Some v.
Proof.
  induction d as [|[k' v'] d IH]; simpl; [by rewrite String.eqb_refl|].
  destruct (String.eqb k k') eqn:E; simpl; by rewrite E.
Qed.

Lemma dget_dset_ne d k k' v : k ≠ k' → dget (dset d k v) k' = dget d k'.
Proof.
  intros Hne. induction d as [|[k1 v1] d IH]; simpl.
  - destruct (String.eqb_spec k' k); congruence.
  - destruct (String.eqb_spec k k1); simpl.
    + subst. destruct (String.eqb_spec k' k1); congruence.
    + destruct (String.eqb k' k1); [done|]. apply IH.
Qed.

Lemma dget_ddel_eq d k : dget (ddel d k) k = None.
Proof.
  induction d as [|[k' v'] d IH]; simpl; [done|].
  destruct (String.eqb k k') eqn:E; simpl; [done|]. by rewrite E.
Qed.

Lemma dget_ddel_ne d k k' : k ≠ k' → dget (ddel d k) k' = dget d k'.
Proof.
  intros Hne. induction d as [|[k1 v1] d IH]; simpl; [done|].
  destruct (String.eqb_spec k k1); simpl.
  - subst. destruct (String.eqb_spec k' k1); congruence.
  - destruct (String.eqb k' k1); [done|]. apply IH.
Qed.

Lemma dget_Some_In d k v : dget d k = Some v → In (k, v) d.
Proof.
  induction d as [|[k' v'] d IH]; simpl; [done|].
  destruct (String.eqb_spec k k'); [|auto].
  intros [= ->]. left. congruence.
Qed.

Lemma dget_None_notin d k : dget d k = None ↔ k ∉ map fst d.
Proof.
  induction d as [|[k' v'] d IH]; simpl; [set_solver|].
  rewrite not_elem_of_cons. destruct (String.eqb_spec k k'); naive_solver.
Qed.

Lemma dset_keys d k v :
  map fst (dset d k v) = if dget d k is Some _ then map fst d else map fst d ++ [k].
Proof.
  induction d as [|[k' v'] d IH]; simpl; [done|].
  destruct (String.eqb k k'); simpl; [done|].
  rewrite IH. by destruct (dget d k).
Qed.

Lemma dset_wf d k v : dict_wf d → dict_wf (dset d k v).
Proof.
  unfold dict_wf. rewrite dset_keys. destruct (dget d k) eqn:E; [done|].
  intros Hd. apply NoDup_app. split_and!; [done| |apply NoDup_singleton].
  apply dget_None_notin in E. set_solver.
Qed.

Lemma dget_dupdate_other d e k : k ∉ map fst e → dget (dupdate d e) k = dget d k.
Proof.
  unfold dupdate. revert d. induction e as [|[k' v] e IH]; intros d; simpl; [done|].
  rewrite not_elem_of_cons. intros [Hk He]. rewrite IH by done. by apply dget_dset_ne.
Qed.

Lemma dget_dupdate d e k :
  dict_wf e → dget (dupdate d e) k = match dget e k with Some v => Some v | None => dget d k end.
Proof.
  unfold dupdate, dict_wf. revert d. induction e as [|[k' v'] e IH]; intros d Hw; [done|]. simpl in *.
  apply NoDup_cons in Hw as [Hnot Hw]. rewrite IH by done.
  destruct (String.eqb_spec k k') as [->|Hne].
  - apply dget_None_notin in Hnot. by rewrite Hnot, dget_dset_eq.
  - by rewrite dget_dset_ne.
Qed.

#[export] Hint Resolve dset_wf : capi.
#[export] Hint Rewrite dget_dset_eq dget_ddel_eq : capi.

(** ** Operators *)

Definition type_name (v : value) : string :=
  match v with
  | VNone => "NoneType" | VBool _ => "bool" | VInt _ => "int"
  | VStr _ => "str" | VList _ => "list" | VDict _ => "dict"
  end.

(** [bool(v)] *)
Definition truthy (v : value) : bool :=
  match v with
  | VNone => false
  | VBool b => b
  | VInt z => negb (Z.eqb z 0)
  | VStr s => negb (String.eqb s EmptyString)
  | VList l => match l with [] => false | _ => true end
  | VDict d => match d with [] => false | _ => true end
  end.

(** [a or b] on evaluated operands *)
Definition por (a b : value) : value := if truthy a then a else b.

Definition is_none (v : value) : bool := match v with VNone => true | _ => false end.
Definition is_str (v : value) : bool := match v with VStr _ => true | _ => false end.
Definition is_dict (v : value) : bool := match v with VDict _ => true | _ => false end.
Definition is_list (v : value) : bool := match v with VList _ => true | _ => false end.
(** [v is True], [v is False] *)
Definition is_True (v : value) : bool := match v with VBool true => true | _ => false end.
Definition is_False (v : value) : bool := match v with VBool false => true | _ => false end.

(** [a == b].  Dictionaries compare without order; a bool equals the integer 0 or 1. *)
Fixpoint py_eqb (a b : value) {struct a} : bool :=
  match a, b with
  | VNone, VNone => true
  | VBool x, VBool y => Bool.eqb x y
  | VBool x, VInt y => Z.eqb (Z.b2z x) y
  | VInt x, VBool y => Z.eqb x (Z.b2z y)
  | VInt x, VInt y => Z.eqb x y
  | VStr x, VStr y => String.eqb x y
  | VList x, VList y =>
      (fix go (x y : list value) : bool :=
        match x, y with
        | [], [] => true
        | v :: x, w :: y => py_eqb v w && go x y
        | _, _ => false
        end) x y
  | VDict x, VDict y =>
      (length x =? length y)%nat &&
      (fix go (x : dict) : bool :=
        match x with
        | [] => true
        | (k, v) :: x =>
            match dget y k with Some w => py_eqb v w | None => false end && go x
        end) x
  | _, _ => false
  end.

Definition py_neqb (a b : value) : bool := negb (py_eqb a b).

(** [v == 'text'] *)
Definition eq_str (v : value) (s : string) : bool := py_eqb v (VStr s).

Lemma eq_str_true v s : eq_str v s = true ↔ v = VStr s.
Proof. unfold eq_str. destruct v; simpl; rewrite ?String.eqb_eq; split; congruence. Qed.

Lemma eq_str_false v s : eq_str v s = false ↔ v ≠ VStr s.
Proof. rewrite <- not_true_iff_false, eq_str_true. done. Qed.

Lemma py_eqb_VStr_l s v : py_eqb (VStr s) v = true ↔ v = VStr s.
Proof. destruct v; simpl; rewrite ?String.eqb_eq; split; congruence. Qed.

(** [v.get(k, d)] and [v.get(k)] *)
Definition get_or (v : value) (k : string) (d : value) : res value :=
  match v with
  | VDict m => Ok (default d (dget m k))
  | _ => Err (AttributeError ("'" +:+ type_name v +:+ "' object has no attribute 'get'"))
  end.

Definition get (v : value) (k : string) : res value := get_or v k VNone.

(** [v.get(k1, {}).get(k2, {}) ... .get(kn)] *)
Fixpoint getp (v : value) (ks : list string) : res value :=
  match ks with
  | [] => Ok v
  | [k] => get v k
  | k :: ks => w ← get_or v k (VDict []); getp w ks
  end.

(** [v[k]] for a string key *)
Definition item (v : value) (k : string) : res value :=
  match v with
  | VDict m => match dget m k with Some w => Ok w | None => Err (KeyError k) end
  | VStr _ => Err (TypeError "string indices must be integers, not 'str'")
  | VList _ => Err (TypeError "list indices must be integers or slices, not str")
  | _ => Err (TypeError ("'" +:+ type_name v +:+ "' object is not subscriptable"))
  end.

(** [for x in v] *)
Definition iter (v : value) : res (list value) :=
  match v with
  | VList l => Ok l
  | VDict d => Ok (map (λ kv, VStr (fst kv)) d)
  | VStr s => Ok (map (λ c, VStr (String c EmptyString)) (String.list_ascii_of_string s))
  | _ => Err (TypeError ("'" +:+ type_name v +:+ "' object is not iterable"))
  end.

(** [[x for x in l if p(x)]] *)
Fixpoint filter_res (p : value → res bool) (l : list value) : res (list value) :=
  match l with
  | [] => mret []
  | x :: l => b ← p x; l ← filter_res p l; mret (if b : bool then x :: l else l)
  end.

Lemma filter_res_spec f l l' :
  filter_res f l = Ok l' → ∀ x, x ∈ l' ↔ x ∈ l ∧ f x = Ok true.
Proof.
  revert l'. induction l as [|y l IH]; simpl; intros l' H.
  { injection H as <-. intros x. split; [by intros []%not_elem_of_nil|by intros [[]%not_elem_of_nil _]]. }
  apply res_bind_ok in H as (b & Hb & H). apply res_bind_ok in H as (rest & Hr & H).
  injection H as <-. specialize (IH _ Hr). intros x.
  destruct b; rewrite ?elem_of_cons, IH; split.
  - intros [->|[Hx Hf]]; auto.
  - intros [[->|Hx] Hf]; auto.
  - intros [Hx Hf]; auto.
  - intros [[->|Hx] Hf]; [congruence|auto].
Qed.

(** [v in {'a', 'b', ...}]: a list or dictionary is not hashable. *)
Definition in_strs (v : value) (l : list string) : res bool :=
  match v with
  | VStr s => Ok (existsb (String.eqb s) l)
  | VList _ | VDict _ => Err (TypeError ("unhashable type: '" +:+ type_name v +:+ "'"))
  | _ => Ok false
  end.

(** [dict(v)] where the code expects a mapping *)
Definition as_dict (v : value) : res dict :=
  match v with
  | VDict d => Ok d
  | _ => Err (TypeError ("'" +:+ type_name v +:+ "' object is not a mapping"))
  end.

(** ** [str] and [repr] *)

Definition str_Z (z : Z) : string := NilZero.string_of_int (Z.to_int z).

Definition dquote : string := String (Ascii.ascii_of_nat 34) EmptyString.
Definition nl : string := String (Ascii.ascii_of_nat 10) EmptyString.

Fixpoint str_existsb (f : Ascii.ascii → bool) (s : string) : bool :=
  match s with EmptyString => false | String c s => f c || str_existsb f s end.

Definition hex_digit (n : nat) : string :=
  match String.get n "0123456789abcdef" with Some c => String c EmptyString | None => EmptyString end.

(** A string's [repr]: single quotes unless it holds one and no double quote. *)
Definition py_repr_str (s : string) : string :=
  let sq := Ascii.ascii_of_nat 39 in
  let dq := Ascii.ascii_of_nat 34 in
  let q := if str_existsb (Ascii.eqb sq) s && negb (str_existsb (Ascii.eqb dq) s) then dq else sq in
  let fix go s :=
    match s with
    | EmptyString => EmptyString
    | String c s =>
        let n := Ascii.nat_of_ascii c in
        (if Ascii.eqb c q || (n =? 92)%nat then String (Ascii.ascii_of_nat 92) (String c EmptyString)
         else if (n =? 10)%nat then "\n"
         else if (n =? 13)%nat then "\r"
         else if (n =? 9)%nat then "\t"
         else if (n <? 32)%nat || (n =? 127)%nat
              then "\x" +:+ hex_digit (n / 16) +:+ hex_digit (n mod 16)
         else String c EmptyString) +:+ go s
    end in
  String q EmptyString +:+ go s +:+ String q EmptyString.

Definition join (sep : string) (l : list string) : string := String.concat sep l.

Fixpoint py_repr (v : value) : string :=
  match v with
  | VNone => "None"
  | VBool true => "True"
  | VBool false => "False"
  | VInt z => str_Z z
  | VStr s => py_repr_str s
  | VList l => "[" +:+ join ", " (map py_repr l) +:+ "]"
  | VDict d => "{" +:+ join ", " (map (λ kv, py_repr_str (fst kv) +:+ ": " +:+ py_repr (snd kv)) d) +:+ "}"
  end.

(** [str(v)], and the value of an f-string's replacement field *)
Definition py_str (v : value) : string :=
  match v with VStr s => s | _ => py_repr v end.

(** [str(e)] of a caught exception *)
Definition exn_str (e : exn) : string :=
  match e with
  | TemporaryError m _ | PermanentError m | ApiException _ m | HTTPError m | OSError m
  | TimeoutError m | TypeError m | AttributeError m | ValueError m | RuntimeError m
  | NotReadyError m | OtherError _ m => m
  | KeyError k => py_repr_str k
  | CancelledError | OutOfFuel => EmptyString
  end.
