(* ===== verification/PyStr.v ===== *)
(** Python's string methods and the standard-library text functions the source
    uses ([int], [shlex.quote], [posixpath.dirname]), on ASCII text. *)

From S2P Require Import Prelude Py.
From Stdlib Require Import DecimalString DecimalZ.

Definition byte_between (lo hi : nat) (c : Ascii.ascii) : bool :=
  let n := Ascii.nat_of_ascii c in (lo <=? n)%nat && (n <=? hi)%nat.

(** ** Characters *)

(** [str.isspace] on ASCII *)
Definition is_space (c : Ascii.ascii) : bool :=
  byte_between 9 13 c || byte_between 28 32 c.
Definition is_digit : Ascii.ascii → bool := byte_between 48 57.
Definition is_upper : Ascii.ascii → bool := byte_between 65 90.
Definition is_lower : Ascii.ascii → bool := byte_between 97 122.
Definition is_word (c : Ascii.ascii) : bool :=
  is_digit c || is_upper c || is_lower c || Ascii.eqb c "_"%char.

Definition lower_char (c : Ascii.ascii) : Ascii.ascii :=
  if is_upper c then Ascii.ascii_of_nat (Ascii.nat_of_ascii c + 32) else c.

(** ** Methods *)

Fixpoint lower (s : string) : string :=
  match s with EmptyString => EmptyString | String c s => String (lower_char c) (lower s) end.

Fixpoint lstrip_by (p : Ascii.ascii → bool) (s : string) : string :=
  match s with
  | String c s' => if p c then lstrip_by p s' else s
  | EmptyString => EmptyString
  end.

Fixpoint rstrip_by (p : Ascii.ascii → bool) (s : string) : string :=
  match s with
  | EmptyString => EmptyString
  | String c s =>
      match rstrip_by p s with
      | EmptyString => if p c then EmptyString else String c EmptyString
      | s => String c s
      end
  end.

Definition strip (s : string) : string := rstrip_by is_space (lstrip_by is_space s).
Definition rstrip_char (c : Ascii.ascii) : string → string := rstrip_by (Ascii.eqb c).

Definition startswith (p s : string) : bool := String.prefix p s.

Fixpoint str_rev_app (s acc : string) : string :=
  match s with EmptyString => acc | String c s => str_rev_app s (String c acc) end.
Definition str_rev (s : string) : string := str_rev_app s EmptyString.

Definition endswith (p s : string) : bool := String.prefix (str_rev p) (str_rev s).

(** [sub in s] *)
Fixpoint str_contains (sub s : string) : bool :=
  String.prefix sub s ||
  match s with EmptyString => false | String _ s => str_contains sub s end.

(** [s.partition(c)] for a one-character separator: the text before the first
    occurrence and, when there is one, the text after it. *)
Fixpoint partition (c : Ascii.ascii) (s : string) : string * option string :=
  match s with
  | EmptyString => (EmptyString, None)
  | String x s =>
      if Ascii.eqb x c then (EmptyString, Some s)
      else let '(a, b) := partition c s in (String x a, b)
  end.

(** [s.rpartition(c)]: [None] without a separator. *)
Fixpoint rpartition (c : Ascii.ascii) (s : string) : option (string * string) :=
  match s with
  | EmptyString => None
  | String x s =>
      match rpartition c s with
      | Some (a, b) => Some (String x a, b)
      | None => if Ascii.eqb x c then Some (EmptyString, s) else None
      end
  end.

Definition char_in (c : Ascii.ascii) (s : string) : bool := str_existsb (Ascii.eqb c) s.

Definition removeprefix (p s : string) : string :=
  if String.prefix p s then String.substring (String.length p) (String.length s) s else s.

Fixpoint replace_char (c : Ascii.ascii) (by_ : string) (s : string) : string :=
  match s with
  | EmptyString => EmptyString
  | String x s => (if Ascii.eqb x c then by_ else String x EmptyString) +:+ replace_char c by_ s
  end.

(** [str.splitlines]: the ASCII line boundaries are LF, CR, CR LF, VT, FF and the three
    separators 0x1c to 0x1e.  [cur] is the current line, reversed. *)
Definition is_linebreak (c : Ascii.ascii) : bool :=
  byte_between 10 13 c || byte_between 28 30 c.

Fixpoint splitlines_go (cur : string) (started : bool) (s : string) : list string :=
  match s with
  | EmptyString => if started then [str_rev cur] else []
  | String c s' =>
      if is_linebreak c then
        str_rev cur ::
        match s' with
        | String c' s'' =>
            if (Ascii.nat_of_ascii c =? 13)%nat && (Ascii.nat_of_ascii c' =? 10)%nat
            then splitlines_go EmptyString false s''
            else splitlines_go EmptyString false s'
        | EmptyString => splitlines_go EmptyString false s'
        end
      else splitlines_go (String c cur) true s'
  end.

(** The other boundaries are U+0085 (in UTF-8 the bytes 194, 133), U+2028 and U+2029
    (226, 128 and 168 or 169).  Each ends a line on its own, as the separator 0x1c does. *)
Fixpoint ascii_breaks (s : string) : string :=
  match s with
  | String a ((String b r) as t) =>
      if byte_between 194 194 a && byte_between 133 133 b then String (Ascii.ascii_of_nat 28) (ascii_breaks r)
      else
        match r with
        | String c r' =>
            if byte_between 226 226 a && byte_between 128 128 b && byte_between 168 169 c
            then String (Ascii.ascii_of_nat 28) (ascii_breaks r')
            else String a (ascii_breaks t)
        | EmptyString => String a (ascii_breaks t)
        end
  | _ => s
  end.

Definition splitlines (s : string) : list string := splitlines_go EmptyString false (ascii_breaks s).

(** ** [int(text)] *)

(** Digits with single underscores between them; [prev] tells whether the
    previous character was a digit. *)
Fixpoint strip_underscores (prev : bool) (s : string) : option string :=
  match s with
  | EmptyString => if prev then Some EmptyString else None
  | String c s =>
      if Ascii.eqb c "_"%char then (if prev then strip_underscores false s else None)
      else if is_digit c then String c <$> strip_underscores true s
      else None
  end.

Definition py_uint (s : string) : option Z :=
  t ← strip_underscores false s; Z.of_uint <$> NilZero.uint_of_string t.

Definition py_int (s : string) : option Z :=
  match strip s with
  | String "-"%char t => Z.opp <$> py_uint t
  | String "+"%char t => py_uint t
  | t => py_uint t
  end.

(** ** [shlex.quote] *)

(** The characters of the regular expression [[^\w@%+=:,./-]] complement. *)
Definition shlex_safe (c : Ascii.ascii) : bool :=
  is_word c || char_in c "@%+=:,./-".

Definition sq : string := String (Ascii.ascii_of_nat 39) EmptyString.

Definition shlex_quote (s : string) : string :=
  match s with
  | EmptyString => sq +:+ sq
  | _ =>
      if negb (str_existsb (λ c, negb (shlex_safe c)) s) then s
      else sq +:+ replace_char (Ascii.ascii_of_nat 39) (sq +:+ dquote +:+ sq +:+ dquote +:+ sq) s +:+ sq
  end.

(** ** [posixpath.dirname] *)
Definition dirname (p : string) : string :=
  match rpartition "/"%char p with
  | None => EmptyString
  | Some (h, _) =>
      let head := h +:+ "/" in
      if str_existsb (λ c, negb (Ascii.eqb c "/"%char)) head then rstrip_char "/"%char head else head
  end.

(** ** Laws *)

Lemma str_app_cons c (s t : string) : String c s +:+ t = String c (s +:+ t).
Proof. done. Qed.

Lemma str_app_nil_l (s : string) : EmptyString +:+ s = s.
Proof. done. Qed.

Lemma str_app_nil_r (s : string) : s +:+ EmptyString = s.
Proof. induction s as [|c s IH]; [done|]. by rewrite str_app_cons, IH. Qed.

Lemma str_app_assoc (a b c : string) : (a +:+ b) +:+ c = a +:+ (b +:+ c).
Proof. induction a as [|x a IH]; [done|]. by rewrite !str_app_cons, IH. Qed.

Section characters.
Context (f : Ascii.ascii → bool).

Lemma str_existsb_app s t : str_existsb f (s +:+ t) = str_existsb f s || str_existsb f t.
Proof. induction s as [|c s IH]; [done|]. rewrite str_app_cons; simpl. by rewrite IH, orb_assoc. Qed.

Lemma lstrip_by_none s : str_existsb f s = false → lstrip_by f s = s.
Proof. destruct s as [|c s]; simpl; [done|]. intros H. bool_hyps. by rewrite H0. Qed.

Lemma rstrip_by_none s : str_existsb f s = false → rstrip_by f s = s.
Proof.
  induction s as [|c s IH]; simpl; [done|]. intros H. bool_hyps. rewrite (IH H), H0.
  by destruct s.
Qed.

Lemma rstrip_by_idemp s : rstrip_by f (rstrip_by f s) = rstrip_by f s.
Proof.
  induction s as [|c s IH]; simpl; [done|].
  destruct (rstrip_by f s) as [|c' s'] eqn:E.
  - destruct (f c) eqn:Ec; simpl; [done|]. by rewrite Ec.
  - cbn [rstrip_by]. cbn [rstrip_by] in IH. by rewrite IH.
Qed.

(** Only the last character decides whether anything is stripped. *)
Lemma rstrip_by_app s t : rstrip_by f t ≠ EmptyString → rstrip_by f (s +:+ t) = s +:+ rstrip_by f t.
Proof.
  intros Ht. induction s as [|c s IH]; [done|]. rewrite !str_app_cons. simpl. rewrite IH.
  assert (Hne : s +:+ rstrip_by f t ≠ EmptyString) by by destruct s.
  by destruct (s +:+ rstrip_by f t).
Qed.
End characters.

Lemma str_existsb_mono (f g : Ascii.ascii → bool) s :
  (∀ c, f c = true → g c = true) → str_existsb g s = false → str_existsb f s = false.
Proof.
  intros Hfg. induction s as [|c s IH]; simpl; [done|]. intros H. bool_hyps.
  rewrite IH by done. destruct (f c) eqn:E; [|done]. apply Hfg in E. congruence.
Qed.

Lemma partition_absent c s : char_in c s = false → partition c s = (s, None).
Proof.
  unfold char_in. induction s as [|x s IH]; simpl; [done|]. intros H. bool_hyps.
  rewrite (IH H). by rewrite Ascii.eqb_sym, H0.
Qed.

Lemma partition_first c a b : char_in c a = false → partition c (a +:+ String c b) = (a, Some b).
Proof.
  unfold char_in. induction a as [|x a IH]; [intros _; rewrite str_app_nil_l; simpl; by rewrite Ascii.eqb_refl|]. simpl.
  intros H. bool_hyps. rewrite (IH H). by rewrite Ascii.eqb_sym, H0.
Qed.

Lemma rpartition_absent c s : char_in c s = false → rpartition c s = None.
Proof.
  unfold char_in. induction s as [|x s IH]; simpl; [done|]. intros H. bool_hyps.
  rewrite (IH H). by rewrite Ascii.eqb_sym, H0.
Qed.

Lemma rpartition_last c a b : char_in c b = false → rpartition c (a +:+ String c b) = Some (a, b).
Proof.
  intros Hb. induction a as [|x a IH].
  - by rewrite str_app_nil_l; simpl; rewrite (rpartition_absent _ _ Hb), Ascii.eqb_refl.
  - simpl. by rewrite IH.
Qed.

(** *** [int(str(z)) == z] *)

Definition nondigit (c : Ascii.ascii) : bool := negb (is_digit c).

Lemma string_of_uint_digits d : str_existsb nondigit (NilEmpty.string_of_uint d) = false.
Proof. induction d; simpl; rewrite ?IHd; done. Qed.

Lemma uint_text_digits d : str_existsb nondigit (NilZero.string_of_uint d) = false.
Proof. destruct d; simpl; rewrite ?string_of_uint_digits; done. Qed.

Lemma uint_text_nonempty d : NilZero.string_of_uint d ≠ EmptyString.
Proof. by destruct d. Qed.

Lemma strip_underscores_digits s prev :
  str_existsb nondigit s = false → s ≠ EmptyString ∨ prev = true → strip_underscores prev s = Some s.
Proof.
  revert prev. induction s as [|c s IH]; simpl; intros prev.
  - by intros _ [? | ->].
  - intros H _. bool_hyps. unfold nondigit in H0. apply negb_false_iff in H0.
    rewrite H0, (IH true) by auto.
    assert (Ascii.eqb c "_"%char = false) as ->; [|done].
    destruct (Ascii.eqb_spec c "_"%char) as [->|]; done.
Qed.

Lemma digits_no_space s : str_existsb nondigit s = false → str_existsb is_space s = false.
Proof.
  apply str_existsb_mono. intros c. unfold nondigit, is_space, is_digit, byte_between.
  generalize (Ascii.nat_of_ascii c). intros n Hn. apply negb_true_iff, not_true_iff_false.
  rewrite orb_true_iff, !andb_true_iff, !Nat.leb_le in *. lia.
Qed.

Lemma strip_none s : str_existsb is_space s = false → strip s = s.
Proof. intros Hs. unfold strip. by rewrite lstrip_by_none, rstrip_by_none. Qed.

Lemma py_uint_text d : py_uint (NilZero.string_of_uint d) = Some (Z.of_uint d).
Proof.
  unfold py_uint. rewrite strip_underscores_digits; [|apply uint_text_digits|left; apply uint_text_nonempty].
  simpl. destruct d; rewrite ?NilZero.usu by done; done.
Qed.

Lemma py_int_str_Z z : py_int (str_Z z) = Some z.
Proof.
  assert (Hu : ∀ d, py_int (NilZero.string_of_uint d) = Some (Z.of_uint d)).
  { intros d. unfold py_int. rewrite strip_none by apply digits_no_space, uint_text_digits.
    pose proof (uint_text_digits d) as Hd. pose proof (py_uint_text d) as Hp.
    destruct (NilZero.string_of_uint d) as [|c s]; [done|].
    simpl in Hd. bool_hyps.
    destruct c as [[] [] [] [] [] [] [] []]; done. }
  rewrite <- (DecimalZ.of_to z) at 2. unfold str_Z. destruct (Z.to_int z) as [d|d]; simpl; [apply Hu|].
  unfold py_int.
  assert (strip (String "-"%char (NilZero.string_of_uint d)) = String "-"%char (NilZero.string_of_uint d)) as ->.
  { apply strip_none. simpl. apply digits_no_space, uint_text_digits. }
  rewrite py_uint_text. done.
Qed.

Lemma str_Z_chars z c : is_digit c = false → c ≠ "-"%char → char_in c (str_Z z) = false.
Proof.
  intros Hc Hm.
  assert (Hd : ∀ d, char_in c (NilZero.string_of_uint d) = false).
  { intros d. eapply str_existsb_mono, uint_text_digits. intros x. unfold nondigit.
    destruct (Ascii.eqb_spec c x) as [->|]; [by rewrite Hc|done]. }
  unfold str_Z. destruct (Z.to_int z); simpl; [done|].
  unfold char_in in *. simpl. rewrite Hd, orb_false_r. by apply Ascii.eqb_neq.
Qed.

(** *** The last character *)

Fixpoint last_char (s : string) : option Ascii.ascii :=
  match s with
  | EmptyString => None
  | String c EmptyString => Some c
  | String _ s => last_char s
  end.

Lemma last_char_app s c t : last_char (s +:+ String c t) = last_char (String c t).
Proof.
  induction s as [|x s IH]; [done|]. rewrite str_app_cons, <- IH. by destruct s.
Qed.
