(* ===== verification/Shell.v ===== *)
(** A reference reader of POSIX shell words: blanks separate, single quotes take
    everything literally, double quotes take what is neither an expansion nor an
    escape.  Any other special character is refused, so a text it reads as words
    is one simple command with exactly those arguments. *)

From S2P Require Import Prelude Py PyStr.

Inductive quoting := Plain | Single | Double.

Definition is_blank (c : Ascii.ascii) : bool := Ascii.eqb c " "%char || Ascii.eqb c (Ascii.ascii_of_nat 9).
Definition is_sq (c : Ascii.ascii) : bool := Ascii.eqb c (Ascii.ascii_of_nat 39).
Definition is_dq (c : Ascii.ascii) : bool := Ascii.eqb c (Ascii.ascii_of_nat 34).
(** [$], [`] and [\] stay special inside double quotes. *)
Definition is_expansion (c : Ascii.ascii) : bool := char_in c "$`\".

(** [cur] is the word being read, if one has begun. *)
Definition grow (cur : option string) (c : Ascii.ascii) : option string :=
  Some (default EmptyString cur +:+ String c EmptyString).
Definition opened (cur : option string) : option string := Some (default EmptyString cur).
Definition emit (cur : option string) (words : list string) : list string :=
  match cur with Some w => w :: words | None => words end.

Fixpoint sh_go (q : quoting) (cur : option string) (s : string) : option (list string) :=
  match s with
  | EmptyString => match q with Plain => Some (emit cur []) | _ => None end
  | String c s =>
      match q with
      | Plain =>
          if is_blank c then emit cur <$> sh_go Plain None s
          else if is_sq c then sh_go Single (opened cur) s
          else if is_dq c then sh_go Double (opened cur) s
          else if shlex_safe c then sh_go Plain (grow cur c) s
          else None
      | Single => if is_sq c then sh_go Plain cur s else sh_go Single (grow cur c) s
      | Double =>
          if is_dq c then sh_go Plain cur s
          else if is_expansion c then None
          else sh_go Double (grow cur c) s
      end
  end.

Definition sh_words (s : string) : option (list string) := sh_go Plain None s.

Example sh_words_plain : sh_words "flock -n '/a b' sh" = Some ["flock"; "-n"; "/a b"; "sh"].
Proof. reflexivity. Qed.
Example sh_words_refused : sh_words "a; b" = None.
Proof. reflexivity. Qed.

(** ** Reading what [shlex.quote] writes *)

Lemma safe_is_plain c : shlex_safe c = true → is_blank c = false ∧ is_sq c = false ∧ is_dq c = false.
Proof. by destruct c as [[] [] [] [] [] [] [] []]. Qed.

Lemma grow_app w c s : default EmptyString (grow (Some w) c) +:+ s = w +:+ String c s.
Proof. simpl. by rewrite str_app_assoc. Qed.

Lemma sh_go_safe w s rest :
  str_existsb (λ c, negb (shlex_safe c)) s = false →
  sh_go Plain (Some w) (s +:+ rest) = sh_go Plain (Some (w +:+ s)) rest.
Proof.
  revert w. induction s as [|c s IH]; intros w; [by rewrite str_app_nil_r|].
  simpl. intros H. bool_hyps. destruct (safe_is_plain c H0) as (Hb & Hs & Hd).
  rewrite Hb, Hs, Hd, H0. unfold grow. rewrite IH by done. simpl. by rewrite str_app_assoc.
Qed.

Lemma sh_go_replaced w s rest :
  sh_go Single (Some w)
    (replace_char (Ascii.ascii_of_nat 39) (sq +:+ dquote +:+ sq +:+ dquote +:+ sq) s +:+ sq +:+ rest) =
  sh_go Plain (Some (w +:+ s)) rest.
Proof.
  revert w. induction s as [|c s IH]; intros w; [by rewrite str_app_nil_r|].
  simpl. destruct (Ascii.eqb_spec c (Ascii.ascii_of_nat 39)) as [->|Hc].
  - rewrite str_app_assoc. simpl. unfold opened, grow. rewrite str_app_nil_l, IH. simpl. by rewrite str_app_assoc.
  - rewrite str_app_assoc. simpl. unfold is_sq. apply Ascii.eqb_neq in Hc. rewrite Hc.
    unfold grow. rewrite IH. simpl. by rewrite str_app_assoc.
Qed.

(** A quoted text extends the current word by exactly that text. *)
Lemma sh_go_quote w s rest :
  sh_go Plain (Some w) (shlex_quote s +:+ rest) = sh_go Plain (Some (w +:+ s)) rest.
Proof.
  unfold shlex_quote. destruct s as [|c s]; [simpl; by rewrite str_app_nil_r|].
  destruct (str_existsb _ (String c s)) eqn:E; simpl negb; cbv iota.
  - rewrite !str_app_assoc. apply (sh_go_replaced w (String c s) rest).
  - by apply sh_go_safe.
Qed.

Lemma sh_go_fresh_quote s rest :
  sh_go Plain None (shlex_quote s +:+ rest) = sh_go Plain (Some s) rest.
Proof.
  rewrite <- (str_app_nil_l s) at 2. rewrite <- sh_go_quote. unfold shlex_quote.
  destruct s as [|c s]; [done|].
  destruct (str_existsb _ (String c s)) eqn:E; simpl negb; cbv iota; [done|].
  simpl in E. bool_hyps. destruct (safe_is_plain c E0) as (Hb & Hs & Hd).
  simpl. by rewrite Hb, Hs, Hd, E0.
Qed.

(** A word of plain characters, and the blank after a word. *)
Lemma sh_go_word c s rest :
  shlex_safe c = true → str_existsb (λ c, negb (shlex_safe c)) s = false →
  sh_go Plain None (String c s +:+ rest) = sh_go Plain (Some (String c s)) rest.
Proof.
  intros Hc Hs. rewrite str_app_cons. simpl. destruct (safe_is_plain c Hc) as (-> & -> & ->). rewrite Hc.
  unfold grow. simpl. by rewrite sh_go_safe.
Qed.

Lemma sh_go_blank w rest : sh_go Plain (Some w) (" " +:+ rest) = cons w <$> sh_go Plain None rest.
Proof. done. Qed.
