(* ===== verification/PyTime.v ===== *)
(** The part of [datetime] the source uses.  An instant is a number of
    microseconds since 1970-01-01T00:00:00 UTC; a [datetime] is a wall clock with
    an optional UTC offset.  [isoformat] is that of an aware UTC datetime;
    [fromisoformat] reads the extended format (YYYY-MM-DD, then optionally one
    separator character, HH[:MM[:SS[.fraction]]] and Z or an offset). *)

From S2P Require Import Prelude Py PyStr.
Open Scope Z_scope.

Definition second : Z := 1000000.
Definition day : Z := 86400 * second.

(** ** The proleptic Gregorian calendar *)

Definition is_leap (y : Z) : bool :=
  (y mod 4 =? 0) && (negb (y mod 100 =? 0) || (y mod 400 =? 0)).

Definition days_in_month (y m : Z) : Z :=
  if m =? 2 then (if is_leap y then 29 else 28)
  else if (m =? 4) || (m =? 6) || (m =? 9) || (m =? 11) then 30 else 31.

(** Days since the epoch of a civil date, counting years from March. *)
Definition days_from_civil (y m d : Z) : Z :=
  let y := if m <=? 2 then y - 1 else y in
  let era := y / 400 in
  let yoe := y mod 400 in
  let mp := if m <=? 2 then m + 9 else m - 3 in
  let doy := (153 * mp + 2) / 5 + d - 1 in
  era * 146097 + (yoe * 365 + yoe / 4 - yoe / 100 + doy) - 719468.

Definition civil_from_days (n : Z) : Z * Z * Z :=
  let z := n + 719468 in
  let era := z / 146097 in
  let doe := z mod 146097 in
  let yoe := (doe - doe / 1460 + doe / 36524 - doe / 146096) / 365 in
  let doy := doe - (365 * yoe + yoe / 4 - yoe / 100) in
  let mp := (5 * doy + 2) / 153 in
  let d := doy - (153 * mp + 2) / 5 + 1 in
  let m := if mp <? 10 then mp + 3 else mp - 9 in
  let y := yoe + era * 400 + (if m <=? 2 then 1 else 0) in
  (y, m, d).

(** ** Printing *)

Definition digit_char (d : Z) : Ascii.ascii := Ascii.ascii_of_nat (48 + Z.to_nat d).

(** The [n] low decimal digits of [z]. *)
Fixpoint digits (n : nat) (z : Z) : string :=
  match n with
  | O => EmptyString
  | S n => digits n (z / 10) +:+ String (digit_char (z mod 10)) EmptyString
  end.

Definition isoformat (t : Z) : string :=
  let '(y, m, d) := civil_from_days (t / day) in
  let s := (t mod day) / second in
  let us := t mod second in
  digits 4 y +:+ "-" +:+ digits 2 m +:+ "-" +:+ digits 2 d +:+ "T" +:+
  digits 2 (s / 3600) +:+ ":" +:+ digits 2 (s / 60 mod 60) +:+ ":" +:+ digits 2 (s mod 60) +:+
  (if us =? 0 then EmptyString else "." +:+ digits 6 us) +:+ "+00:00".

(** ** Parsing *)

Record datetime := DateTime { wall : Z; utcoffset : option Z }.

Definition digit_value (c : Ascii.ascii) : option Z :=
  if is_digit c then Some (Z.of_nat (Ascii.nat_of_ascii c) - 48) else None.

Fixpoint read_digits (n : nat) (acc : Z) (s : string) : option (Z * string) :=
  match n with
  | O => Some (acc, s)
  | S n =>
      match s with
      | String c s => d ← digit_value c; read_digits n (acc * 10 + d) s
      | EmptyString => None
      end
  end.

Definition read_char (c : Ascii.ascii) (s : string) : option string :=
  match s with
  | String x s => if Ascii.eqb x c then Some s else None
  | EmptyString => None
  end.

(** Fraction digits: the first six count. *)
Fixpoint read_fraction (scale acc : Z) (s : string) : Z * string :=
  match s with
  | String c s' =>
      match digit_value c with
      | Some d => read_fraction (scale / 10) (acc + d * scale) s'
      | None => (acc, s)
      end
  | EmptyString => (acc, s)
  end.

Definition optional_fraction (s : string) : option (Z * string) :=
  match s with
  | String c s' =>
      if Ascii.eqb c "."%char || Ascii.eqb c ","%char then
        match s' with
        | String d _ => if is_digit d then Some (read_fraction 100000 0 s') else None
        | EmptyString => None
        end
      else Some (0, s)
  | EmptyString => Some (0, s)
  end.

(** HH[:MM[:SS[.fraction]]] in microseconds *)
Definition read_time (s : string) : option (Z * string) :=
  '(h, s) ← read_digits 2 0 s;
  if negb (h <? 24) then None else
  match read_char ":"%char s with
  | None => Some (h * 3600 * second, s)
  | Some s =>
      '(m, s) ← read_digits 2 0 s;
      if negb (m <? 60) then None else
      match read_char ":"%char s with
      | None => Some ((h * 3600 + m * 60) * second, s)
      | Some s =>
          '(x, s) ← read_digits 2 0 s;
          if negb (x <? 60) then None else
          '(f, s) ← optional_fraction s;
          Some ((h * 3600 + m * 60 + x) * second + f, s)
      end
  end.

Definition read_offset (s : string) : option (option Z) :=
  match s with
  | EmptyString => Some None
  | String c s =>
      if Ascii.eqb c "Z"%char then
        match s with EmptyString => Some (Some 0) | _ => None end
      else
        '(o, rest) ← read_time s;
        match rest with
        | EmptyString =>
            if Ascii.eqb c "+"%char then Some (Some o)
            else if Ascii.eqb c "-"%char then Some (Some (- o)) else None
        | _ => None
        end
  end.

Definition read_date (s : string) : option (Z * string) :=
  '(y, s) ← read_digits 4 0 s; s ← read_char "-"%char s;
  '(m, s) ← read_digits 2 0 s; s ← read_char "-"%char s;
  '(d, s) ← read_digits 2 0 s;
  if (1 <=? y) && (1 <=? m) && (m <=? 12) && (1 <=? d) && (d <=? days_in_month y m)
  then Some (days_from_civil y m d * day, s) else None.

Definition fromisoformat (text : string) : res datetime :=
  let invalid := Err (ValueError ("Invalid isoformat string: " +:+ py_repr_str text)) in
  match read_date text with
  | None => invalid
  | Some (date, EmptyString) => Ok (DateTime date None)
  | Some (date, String _ rest) =>
      match read_time rest with
      | None => invalid
      | Some (time, rest) =>
          match read_offset rest with
          | None => invalid
          | Some off => Ok (DateTime (date + time) off)
          end
      end
  end.

(** [datetime.fromisoformat(v)] of any value *)
Definition fromisoformat_value (v : value) : res datetime :=
  match v with
  | VStr s => fromisoformat s
  | _ => Err (TypeError "fromisoformat: argument must be str")
  end.

(** [a - d] for an aware UTC [a], in microseconds: a naive [d] is refused. *)
Definition since (a : Z) (d : datetime) : res Z :=
  match utcoffset d with
  | Some o => Ok (a - (wall d - o))
  | None => Err (TypeError "can't subtract offset-naive and offset-aware datetimes")
  end.

(** The instant of an aware datetime. *)
Definition instant (d : datetime) : option Z := (λ o, wall d - o) <$> utcoffset d.
