(* ===== verification/Regex.v ===== *)
(** The part of Python's [re] the bootstrap code uses: backtracking search with
    greedy repetition, groups, word boundaries and anchors. *)

From S2P Require Import Prelude Py PyStr.

Inductive re :=
| RChar (p : Ascii.ascii → bool)
| REmpty
| RSeq (a b : re)
| RAlt (a b : re)
| RStar (a : re)
| RGroup (n : nat) (a : re)
| RBoundary                        (* \b *)
| RStart                           (* ^ *)
| REnd.                            (* $ *)

(** A position: the character before it, the text after it, the groups so far. *)
Record position := Position {
  p_before : option Ascii.ascii;
  p_rest : string;
  p_groups : list (nat * string)
}.

Definition word_before (p : position) : bool :=
  match p_before p with Some c => is_word c | None => false end.
Definition word_after (p : position) : bool :=
  match p_rest p with String c _ => is_word c | EmptyString => false end.

(** The text between two positions of the same match. *)
Definition between (p q : position) : string :=
  String.substring 0 (String.length (p_rest p) - String.length (p_rest q)) (p_rest p).

(** [star fuel step p]: as many steps as possible first; a step that consumes
    nothing does not repeat. *)
Fixpoint star (fuel : nat) (step : position → list position) (p : position) : list position :=
  match fuel with
  | O => [p]
  | S fuel =>
      flat_map (λ q, if (String.length (p_rest q) <? String.length (p_rest p))%nat
                     then star fuel step q else []) (step p) ++ [p]
  end.

(** The end positions of the matches that start at [p], in order of preference. *)
Fixpoint matches (r : re) (p : position) : list position :=
  match r with
  | RChar f =>
      match p_rest p with
      | String c s => if f c then [Position (Some c) s (p_groups p)] else []
      | EmptyString => []
      end
  | REmpty => [p]
  | RSeq a b => flat_map (matches b) (matches a p)
  | RAlt a b => matches a p ++ matches b p
  | RStar a => star (String.length (p_rest p)) (matches a) p
  | RGroup n a =>
      map (λ q, Position (p_before q) (p_rest q) ((n, between p q) :: p_groups q)) (matches a p)
  | RBoundary => if xorb (word_before p) (word_after p) then [p] else []
  | RStart => match p_before p with None => [p] | Some _ => [] end
  | REnd => if String.eqb (p_rest p) EmptyString || String.eqb (p_rest p) nl then [p] else []
  end.

Definition match_at (r : re) (p : position) : option position := hd_error (matches r p).

(** [m.group(n)] of a match: the last time the group was set. *)
Definition group (n : nat) (p : position) : string :=
  match List.find (λ g, (fst g =? n)%nat) (p_groups p) with Some (_, s) => s | None => EmptyString end.

(** [re.match(r, s)] *)
Definition re_match (r : re) (s : string) : option position := match_at r (Position None s []).

(** [re.fullmatch(r, s)]: the first match that ends with the text *)
Definition re_fullmatch (r : re) (s : string) : option position :=
  List.find (λ q, String.eqb (p_rest q) EmptyString) (matches r (Position None s [])).

(** [re.search(r, s) is not None] *)
Fixpoint search_from (r : re) (before : option Ascii.ascii) (s : string) : bool :=
  match match_at r (Position before s []) with
  | Some _ => true
  | None => match s with EmptyString => false | String c s => search_from r (Some c) s end
  end.
Definition re_search (r : re) (s : string) : bool := search_from r None s.

(** [r.sub(repl, s)] for a pattern that matches no empty text; [skip] characters
    of the previous match are still to be passed over. *)
Fixpoint sub_from (r : re) (repl : position → string) (before : option Ascii.ascii) (skip : nat)
    (s : string) : string :=
  match s with
  | EmptyString => EmptyString
  | String c s' =>
      match skip with
      | S skip => sub_from r repl (Some c) skip s'
      | O =>
          match match_at r (Position before s []) with
          | Some q =>
              repl q +:+
              sub_from r repl (Some c) (String.length s - String.length (p_rest q) - 1) s'
          | None => String c (sub_from r repl (Some c) O s')
          end
      end
  end.
Definition re_sub (r : re) (repl : position → string) (s : string) : string := sub_from r repl None O s.

(** ** Patterns *)

Definition rchar (c : Ascii.ascii) : re := RChar (Ascii.eqb c).
Definition rspace : re := RChar is_space.                       (* \s *)
Definition rnonspace : re := RChar (λ c, negb (is_space c)).    (* \S *)
Definition rdigit : re := RChar is_digit.                       (* \d, [0-9] *)
Definition rplus (a : re) : re := RSeq a (RStar a).
Definition ropt (a : re) : re := RAlt a REmpty.
Definition rseq (l : list re) : re := foldr RSeq REmpty l.
Definition ralt (l : list re) : re := foldr RAlt (RChar (λ _, false)) l.

(** Literal text, and the same under [IGNORECASE]. *)
Fixpoint rtext (s : string) : re :=
  match s with EmptyString => REmpty | String c s => RSeq (rchar c) (rtext s) end.
Fixpoint rtext_i (s : string) : re :=
  match s with
  | EmptyString => REmpty
  | String c s => RSeq (RChar (λ x, Ascii.eqb (lower_char x) (lower_char c))) (rtext_i s)
  end.

Example sub_spaces : re_sub (rplus rspace) (λ _, " ") ("a" +:+ nl +:+ "  b c  ") = "a b c ".
Proof. reflexivity. Qed.
Example search_word : re_search (rseq [RBoundary; rtext_i "init"; RBoundary]) "kubeadm INIT now" = true.
Proof. reflexivity. Qed.
Example search_inside_word : re_search (rseq [RBoundary; rtext_i "init"; RBoundary]) "reinitialise" = false.
Proof. reflexivity. Qed.

(** Every match ends inside the text it started in. *)
Lemma star_shorter fuel step p q :
  (∀ p q, q ∈ step p → String.length (p_rest q) ≤ String.length (p_rest p)) →
  q ∈ star fuel step p → String.length (p_rest q) ≤ String.length (p_rest p).
Proof.
  intros Hs. revert p. induction fuel as [|fuel IH]; intros p; simpl.
  - intros ->%list_elem_of_singleton. done.
  - rewrite elem_of_app, list_elem_of_singleton. intros [Hq| ->]; [|done].
    rewrite list_elem_of_In, in_flat_map in Hq. destruct Hq as (p' & Hp & Hq).
    apply list_elem_of_In, Hs in Hp. case_match; [|done].
    apply list_elem_of_In, IH in Hq. lia.
Qed.

Lemma matches_shorter r p q : q ∈ matches r p → String.length (p_rest q) ≤ String.length (p_rest p).
Proof.
  revert p q. induction r as [f| |a IHa b IHb|a IHa b IHb|a IHa|n a IHa| | |]; intros p q; simpl.
  - destruct (p_rest p); [by intros []%not_elem_of_nil|].
    case_match; [|by intros []%not_elem_of_nil].
    intros ->%list_elem_of_singleton. simpl. lia.
  - by intros ->%list_elem_of_singleton.
  - rewrite list_elem_of_In, in_flat_map. intros (p' & Hp & Hq).
    apply list_elem_of_In, IHa in Hp. apply list_elem_of_In, IHb in Hq. lia.
  - rewrite elem_of_app. intros [?%IHa|?%IHb]; done.
  - by apply star_shorter.
  - rewrite list_elem_of_In, in_map_iff. intros (p' & <- & Hq).
    by apply list_elem_of_In, IHa in Hq.
  - case_match; [|by intros []%not_elem_of_nil]. by intros ->%list_elem_of_singleton.
  - case_match; [by intros []%not_elem_of_nil|]. by intros ->%list_elem_of_singleton.
  - case_match; [|by intros []%not_elem_of_nil]. by intros ->%list_elem_of_singleton.
Qed.

(** ** What a match reads *)

Lemma elem_flat_map {A B} (f : A → list B) l y : y ∈ flat_map f l ↔ ∃ x, x ∈ l ∧ y ∈ f x.
Proof.
  rewrite list_elem_of_In, in_flat_map. by setoid_rewrite list_elem_of_In.
Qed.

Lemma matches_seq a b p q : q ∈ matches (RSeq a b) p ↔ ∃ m, m ∈ matches a p ∧ q ∈ matches b m.
Proof. apply elem_flat_map. Qed.

Lemma matches_alt a b p q : q ∈ matches (RAlt a b) p ↔ q ∈ matches a p ∨ q ∈ matches b p.
Proof. apply elem_of_app. Qed.

Lemma matches_group n a p q :
  q ∈ matches (RGroup n a) p ↔
  ∃ m, q = Position (p_before m) (p_rest m) ((n, between p m) :: p_groups m) ∧ m ∈ matches a p.
Proof. simpl. by rewrite list_elem_of_fmap. Qed.

Lemma matches_char f p q :
  q ∈ matches (RChar f) p ↔
  ∃ c s, p_rest p = String c s ∧ f c = true ∧ q = Position (Some c) s (p_groups p).
Proof.
  simpl. destruct (p_rest p) as [|c s]; [split; [by intros []%not_elem_of_nil|naive_solver]|].
  destruct (f c) eqn:E; [rewrite list_elem_of_singleton|]; split.
  - intros ->. by exists c, s.
  - by intros (? & ? & [= <- <-] & _ & ->).
  - by intros []%not_elem_of_nil.
  - intros (? & ? & [= <- <-] & Hf & _). congruence.
Qed.

Lemma matches_empty p q : q ∈ matches REmpty p ↔ q = p.
Proof. apply list_elem_of_singleton. Qed.

(** A pattern without groups, all of whose characters satisfy [f]. *)
Fixpoint plain (f : Ascii.ascii → bool) (r : re) : Prop :=
  match r with
  | RChar g => ∀ c, g c = true → f c = true
  | RSeq a b | RAlt a b => plain f a ∧ plain f b
  | RStar a => plain f a
  | RGroup _ _ => False
  | _ => True
  end.

(** The text between two positions, of characters that satisfy [f]; no group is set. *)
Definition reads (f : Ascii.ascii → bool) (w : string) (p q : position) : Prop :=
  p_rest p = w +:+ p_rest q ∧ str_existsb (λ c, negb (f c)) w = false ∧ p_groups q = p_groups p.

Lemma reads_nil f p : reads f EmptyString p p.
Proof. done. Qed.

Lemma reads_app f u v p m q : reads f u p m → reads f v m q → reads f (u +:+ v) p q.
Proof.
  intros (Hp & Hu & Hg) (Hm & Hv & Hg'). split_and!; [by rewrite Hp, Hm, str_app_assoc| |congruence].
  by rewrite str_existsb_app, Hu, Hv.
Qed.

Lemma star_reads f fuel step p q :
  (∀ p q, q ∈ step p → ∃ w, reads f w p q) → q ∈ star fuel step p → ∃ w, reads f w p q.
Proof.
  intros Hs. revert p. induction fuel as [|fuel IH]; intros p; simpl.
  - intros ->%list_elem_of_singleton. exists EmptyString. apply reads_nil.
  - rewrite elem_of_app, list_elem_of_singleton, elem_flat_map. intros [(m & Hm & Hq)| ->].
    + destruct (Hs _ _ Hm) as [u Hu]. case_match; [|by apply not_elem_of_nil in Hq].
      destruct (IH _ Hq) as [v Hv]. exists (u +:+ v). by eapply reads_app.
    + exists EmptyString. apply reads_nil.
Qed.

Lemma matches_reads f r p q : plain f r → q ∈ matches r p → ∃ w, reads f w p q.
Proof.
  revert p q. induction r as [g| |a IHa b IHb|a IHa b IHb|a IHa|n a _| | |]; intros p q Hf.
  - rewrite matches_char. intros (c & s & Hp & Hc & ->). exists (String c EmptyString).
    split_and!; [done| |done]. simpl. by rewrite (Hf _ Hc).
  - rewrite matches_empty. intros ->. exists EmptyString. apply reads_nil.
  - destruct Hf as [Ha Hb]. rewrite matches_seq. intros (m & Hm & Hq).
    destruct (IHa _ _ Ha Hm) as [u Hu], (IHb _ _ Hb Hq) as [v Hv]. exists (u +:+ v). by eapply reads_app.
  - destruct Hf as [Ha Hb]. rewrite matches_alt. intros [Hq|Hq]; eauto.
  - apply star_reads. eauto.
  - done.
  - simpl. case_match; [|by intros []%not_elem_of_nil]. intros ->%list_elem_of_singleton. exists EmptyString. apply reads_nil.
  - simpl. case_match; [by intros []%not_elem_of_nil|]. intros ->%list_elem_of_singleton. exists EmptyString. apply reads_nil.
  - simpl. case_match; [|by intros []%not_elem_of_nil]. intros ->%list_elem_of_singleton. exists EmptyString. apply reads_nil.
Qed.

(** A pattern that never matches the empty text. *)
Fixpoint consumes (r : re) : bool :=
  match r with
  | RChar _ => true
  | RSeq a b => consumes a || consumes b
  | RAlt a b => consumes a && consumes b
  | RGroup _ a => consumes a
  | _ => false
  end.

Lemma matches_consumes r p q :
  consumes r = true → q ∈ matches r p → String.length (p_rest q) < String.length (p_rest p).
Proof.
  revert p q. induction r as [g| |a IHa b IHb|a IHa b IHb|a IHa|n a IHa| | |]; intros p q; try done; simpl consumes.
  - intros _. rewrite matches_char. intros (c & s & -> & _ & ->). simpl. lia.
  - rewrite matches_seq. intros [Hc|Hc]%orb_true_iff (m & Hm & Hq).
    + apply matches_shorter in Hq. specialize (IHa _ _ Hc Hm). lia.
    + apply matches_shorter in Hm. specialize (IHb _ _ Hc Hq). lia.
  - intros [Ha Hb]%andb_true_iff. rewrite matches_alt. intros [Hq|Hq]; eauto.
  - intros Hc. rewrite matches_group. intros (m & -> & Hm). simpl. eauto.
Qed.

(** What a group captures. *)
Lemma substring_prefix u v : String.substring 0 (String.length u) (u +:+ v) = u.
Proof. induction u as [|c u IH]; [by destruct v|]. rewrite str_app_cons. simpl. by rewrite IH. Qed.

Lemma str_length_app u v : String.length (u +:+ v) = String.length u + String.length v.
Proof. induction u as [|c u IH]; [done|]. rewrite str_app_cons. simpl. by rewrite IH. Qed.

Lemma between_reads w p q : p_rest p = w +:+ p_rest q → between p q = w.
Proof.
  intros Hp. unfold between. rewrite Hp, str_length_app, Nat.add_sub. apply substring_prefix.
Qed.

Lemma re_fullmatch_matches r s m :
  re_fullmatch r s = Some m → m ∈ matches r (Position None s []) ∧ p_rest m = EmptyString.
Proof.
  unfold re_fullmatch. intros [Hin Hr]%find_some. apply list_elem_of_In in Hin. by apply String.eqb_eq in Hr.
Qed.
