(* ===== verification/Base64.v ===== *)
(** [base64] and UTF-8 as the source uses them on Secret data.  A [str] is
    modelled by its UTF-8 bytes, so [decode('utf-8')] is a validity check. *)

From S2P Require Import Prelude Py PyStr.
Open Scope Z_scope.

Definition byte_of (z : Z) : Ascii.ascii := Ascii.ascii_of_nat (Z.to_nat z).
Definition of_byte (c : Ascii.ascii) : Z := Z.of_nat (Ascii.nat_of_ascii c).

(** ** Encoding *)

Definition sextet_char (z : Z) : Ascii.ascii :=
  byte_of (if z <? 26 then 65 + z else if z <? 52 then 71 + z else if z <? 62 then z - 4
           else if z =? 62 then 43 else 47).

Definition sextet_of (c : Ascii.ascii) : option Z :=
  let z := of_byte c in
  if is_upper c then Some (z - 65)
  else if is_lower c then Some (z - 71)
  else if is_digit c then Some (z + 4)
  else if z =? 43 then Some 62
  else if z =? 47 then Some 63
  else None.

Definition enc (z : Z) (s : string) : string := String (sextet_char z) s.

Fixpoint b64encode (s : string) : string :=
  match s with
  | EmptyString => EmptyString
  | String a EmptyString =>
      enc (of_byte a / 4) (enc (of_byte a mod 4 * 16) "==")
  | String a (String b EmptyString) =>
      enc (of_byte a / 4) (enc (of_byte a mod 4 * 16 + of_byte b / 16)
        (enc (of_byte b mod 16 * 4) "="))
  | String a (String b (String c s)) =>
      enc (of_byte a / 4) (enc (of_byte a mod 4 * 16 + of_byte b / 16)
        (enc (of_byte b mod 16 * 4 + of_byte c / 64) (enc (of_byte c mod 64) (b64encode s))))
  end.

(** ** Decoding: CPython's [binascii.a2b_base64] *)

Definition binascii_error (msg : string) : exn := ValueError msg.

(** [quad]: characters of the current group seen; [left]: pending bits. *)
Fixpoint a2b (strict : bool) (quad pads left : Z) (padding : bool) (s : string) : res string :=
  match s with
  | EmptyString =>
      if quad =? 0 then Ok EmptyString
      else if quad =? 1 then Err (binascii_error "Invalid base64-encoded string")
      else Err (binascii_error "Incorrect padding")
  | String c s =>
      if Ascii.eqb c "="%char then
        if 2 <=? quad then
          if 4 <=? quad + (pads + 1) then
            match s with
            | EmptyString => Ok EmptyString
            | _ => if strict then Err (binascii_error "Excess data after padding") else Ok EmptyString
            end
          else a2b strict quad (pads + 1) left true s
        else a2b strict quad pads left true s
      else
        match sextet_of c with
        | None => if strict then Err (binascii_error "Only base64 data is allowed")
                  else a2b strict quad pads left padding s
        | Some z =>
            if strict && padding then Err (binascii_error "Discontinuous padding not allowed")
            else if quad =? 0 then a2b strict 1 0 z padding s
            else if quad =? 1 then
              String (byte_of (left * 4 + z / 16)) <$> a2b strict 2 0 (z mod 16) padding s
            else if quad =? 2 then
              String (byte_of (left * 16 + z / 4)) <$> a2b strict 3 0 (z mod 4) padding s
            else
              String (byte_of (left * 64 + z)) <$> a2b strict 0 0 0 padding s
        end
  end.

(** [base64.b64decode(text, validate=validate)] *)
Definition b64decode (validate : bool) (text : string) : res string :=
  if str_existsb (λ c, 127 <? of_byte c) text
  then Err (ValueError "string argument should contain only ASCII characters")
  else match text with
       | String c _ => if validate && Ascii.eqb c "="%char
                       then Err (binascii_error "Leading padding not allowed")
                       else a2b validate 0 0 0 false text
       | EmptyString => Ok EmptyString
       end.

(** ** UTF-8 *)

Definition continuation (lo hi : Z) (c : Ascii.ascii) : bool := (lo <=? of_byte c) && (of_byte c <=? hi).

Fixpoint utf8_valid (s : string) : bool :=
  match s with
  | EmptyString => true
  | String a s =>
      let z := of_byte a in
      if z <? 128 then utf8_valid s
      else if (194 <=? z) && (z <=? 223) then
        match s with String b s => continuation 128 191 b && utf8_valid s | _ => false end
      else if (224 <=? z) && (z <=? 239) then
        match s with
        | String b (String c s) =>
            continuation (if z =? 224 then 160 else 128) (if z =? 237 then 159 else 191) b &&
            continuation 128 191 c && utf8_valid s
        | _ => false
        end
      else if (240 <=? z) && (z <=? 244) then
        match s with
        | String b (String c (String d s)) =>
            continuation (if z =? 240 then 144 else 128) (if z =? 244 then 143 else 191) b &&
            continuation 128 191 c && continuation 128 191 d && utf8_valid s
        | _ => false
        end
      else false
  end.

(** [b.decode('utf-8')] *)
Definition utf8_decode (b : string) : res string :=
  if utf8_valid b then Ok b else Err (ValueError "'utf-8' codec can't decode bytes: invalid data").

(** [base64.b64decode(text, validate=validate).decode('utf-8')] *)
Definition decode_text (validate : bool) (text : string) : res string :=
  b ← b64decode validate text; utf8_decode b.
