(* ===== verification/Base64Roundtrip.v ===== *)
(** Secrets and certificates survive their base64 transport. *)

From S2P Require Import Prelude Py PyStr Base64.
Open Scope Z_scope.

Lemma of_byte_bound c : 0 ≤ of_byte c < 256.
Proof. unfold of_byte. pose proof (Ascii.nat_ascii_bounded c). lia. Qed.

Lemma byte_of_byte c : byte_of (of_byte c) = c.
Proof. unfold byte_of, of_byte. rewrite Nat2Z.id. apply Ascii.ascii_nat_embedding. Qed.

(** What is true of each of the 64 characters. *)
Lemma each_sextet (P : Z → Prop) :
  Forall P (map Z.of_nat (seq 0 64)) → ∀ z, 0 ≤ z < 64 → P z.
Proof.
  intros HP z Hz. rewrite Forall_forall in HP. apply HP, list_elem_of_fmap. exists (Z.to_nat z).
  split; [lia|]. apply elem_of_seq. lia.
Qed.

Lemma sextet_of_char z : 0 ≤ z < 64 → sextet_of (sextet_char z) = Some z.
Proof. revert z. apply each_sextet. by repeat constructor. Qed.

Lemma sextet_char_no_pad z : 0 ≤ z < 64 → Ascii.eqb (sextet_char z) "="%char = false.
Proof. revert z. apply each_sextet. by repeat constructor. Qed.

Lemma sextet_char_ascii z : 0 ≤ z < 64 → (127 <? of_byte (sextet_char z)) = false.
Proof. revert z. apply each_sextet. by repeat constructor. Qed.

(** One character of the text, in each of the four positions of its group. *)
Section decode.
Context (strict : bool).

Lemma a2b_first z s : 0 ≤ z < 64 → a2b strict 0 0 0 false (enc z s) = a2b strict 1 0 z false s.
Proof.
  intros Hz. unfold enc. cbn [a2b]. rewrite sextet_char_no_pad, sextet_of_char by done.
  by rewrite andb_false_r.
Qed.

Lemma a2b_second z left s : 0 ≤ z < 64 →
  a2b strict 1 0 left false (enc z s) = String (byte_of (left * 4 + z / 16)) <$> a2b strict 2 0 (z mod 16) false s.
Proof.
  intros Hz. unfold enc. cbn [a2b]. rewrite sextet_char_no_pad, sextet_of_char by done.
  by rewrite andb_false_r.
Qed.

Lemma a2b_third z left s : 0 ≤ z < 64 →
  a2b strict 2 0 left false (enc z s) = String (byte_of (left * 16 + z / 4)) <$> a2b strict 3 0 (z mod 4) false s.
Proof.
  intros Hz. unfold enc. cbn [a2b]. rewrite sextet_char_no_pad, sextet_of_char by done.
  by rewrite andb_false_r.
Qed.

Lemma a2b_fourth z left s : 0 ≤ z < 64 →
  a2b strict 3 0 left false (enc z s) = String (byte_of (left * 64 + z)) <$> a2b strict 0 0 0 false s.
Proof.
  intros Hz. unfold enc. cbn [a2b]. rewrite sextet_char_no_pad, sextet_of_char by done.
  by rewrite andb_false_r.
Qed.

(** Padding at the end of the text. *)
Lemma a2b_two_pads left : a2b strict 2 0 left false "==" = Ok EmptyString.
Proof. reflexivity. Qed.

Lemma a2b_one_pad left : a2b strict 3 0 left false "=" = Ok EmptyString.
Proof. reflexivity. Qed.
End decode.

(** The sextets of three bytes, and the bytes put together again. *)
Lemma first_byte a b : 0 ≤ a < 256 → 0 ≤ b < 256 → a / 4 * 4 + (a mod 4 * 16 + b / 16) / 16 = a.
Proof. intros. Z.to_euclidean_division_equations. lia. Qed.
Lemma second_byte b c k : 0 ≤ b < 256 → 0 ≤ c < 256 → 0 ≤ k →
  (k * 16 + b / 16) mod 16 * 16 + (b mod 16 * 4 + c / 64) / 4 = b.
Proof. intros. Z.to_euclidean_division_equations. lia. Qed.
Lemma third_byte c k : 0 ≤ c < 256 → 0 ≤ k → (k * 4 + c / 64) mod 4 * 64 + c mod 64 = c.
Proof. intros. Z.to_euclidean_division_equations. lia. Qed.
Lemma sextet_bounds a b k : 0 ≤ a < 256 → 0 ≤ b < 256 → 0 ≤ k < 4 →
  0 ≤ a / 4 < 64 ∧ 0 ≤ a mod 4 * 16 + b / 16 < 64 ∧ 0 ≤ a mod 16 * 4 + b / 64 < 64 ∧ 0 ≤ a mod 64 < 64.
Proof. intros. Z.to_euclidean_division_equations. lia. Qed.

(** Three bytes at a time. *)
Lemma triple_ind (P : string → Prop) :
  P EmptyString → (∀ a, P (String a EmptyString)) → (∀ a b, P (String a (String b EmptyString))) →
  (∀ a b c s, P s → P (String a (String b (String c s)))) → ∀ s, P s.
Proof.
  intros H0 H1 H2 H3 s. remember (String.length s) as n eqn:Hn. revert s Hn.
  induction n as [n IH] using lt_wf_ind. intros [|a [|b [|c s]]] ->; auto.
  apply H3. eapply IH; [|reflexivity]. simpl. lia.
Qed.

Lemma of_byte_mod c : of_byte c mod 256 = of_byte c.
Proof. apply Z.mod_small, of_byte_bound. Qed.

Lemma a2b_b64encode strict s : a2b strict 0 0 0 false (b64encode s) = Ok s.
Proof.
  induction s as [|a|a b|a b c s IH] using triple_ind; cbn [b64encode]; [done|..].
  - pose proof (of_byte_bound a) as Ha. pose proof (first_byte (of_byte a) 0 Ha ltac:(lia)) as Hf.
    destruct (sextet_bounds (of_byte a) 0 0) as (H1 & H2 & _); [lia..|].
    rewrite Z.div_0_l, Z.add_0_r in H2, Hf by lia.
    rewrite a2b_first, a2b_second, a2b_two_pads, Hf, byte_of_byte by done. done.
  - pose proof (of_byte_bound a) as Ha. pose proof (of_byte_bound b) as Hb.
    destruct (sextet_bounds (of_byte a) (of_byte b) 0) as (H1 & H2 & _); [lia..|].
    destruct (sextet_bounds (of_byte b) 0 0) as (_ & _ & H3 & _); [lia..|].
    pose proof (second_byte (of_byte b) 0 (of_byte a mod 4) Hb ltac:(lia) ltac:(apply Z.mod_pos_bound; lia)) as Hs.
    rewrite Z.div_0_l, Z.add_0_r in H3, Hs by lia.
    rewrite a2b_first, a2b_second, a2b_third, a2b_one_pad, first_byte, Hs, !byte_of_byte by done. done.
  - pose proof (of_byte_bound a) as Ha. pose proof (of_byte_bound b) as Hb. pose proof (of_byte_bound c) as Hc.
    destruct (sextet_bounds (of_byte a) (of_byte b) 0) as (H1 & H2 & _); [lia..|].
    destruct (sextet_bounds (of_byte b) (of_byte c) 0) as (_ & _ & H3 & _); [lia..|].
    destruct (sextet_bounds (of_byte c) 0 0) as (_ & _ & _ & H4); [lia..|].
    rewrite a2b_first, a2b_second, a2b_third, a2b_fourth, IH by done.
    rewrite first_byte, second_byte, third_byte, !byte_of_byte by (done || apply Z.mod_pos_bound; lia). done.
Qed.

(** ** The characters of an encoding *)

(** Neither white space nor beyond ASCII. *)
Definition foreign (c : Ascii.ascii) : bool := is_space c || (127 <? of_byte c).

Lemma sextet_char_not_foreign z : 0 ≤ z < 64 → foreign (sextet_char z) = false.
Proof. revert z. apply each_sextet. by repeat constructor. Qed.

Lemma b64encode_foreign s : str_existsb foreign (b64encode s) = false.
Proof.
  induction s as [|a|a b|a b c s IH] using triple_ind; cbn [b64encode enc str_existsb]; [done|..];
    repeat (match goal with |- context [foreign (sextet_char ?z)] => rewrite (sextet_char_not_foreign z) end;
            [|pose proof (of_byte_bound a); try pose proof (of_byte_bound b); try pose proof (of_byte_bound c);
              Z.to_euclidean_division_equations; lia]); done.
Qed.

Lemma b64decode_encode validate s : b64decode validate (b64encode s) = Ok s.
Proof.
  unfold b64decode. rewrite (str_existsb_mono _ foreign), <- (a2b_b64encode validate s) at 1.
  2:{ intros c Hc. unfold foreign. by rewrite Hc, orb_true_r. }
  2:{ apply b64encode_foreign. }
  destruct s as [|a [|b [|c s]]]; cbn [b64encode enc]; [done|..];
    (rewrite sextet_char_no_pad; [by rewrite andb_false_r|]);
    pose proof (of_byte_bound a); Z.to_euclidean_division_equations; lia.
Qed.
