(* ===== verification/Sha256.v ===== *)
(** [hashlib.sha256(text.encode()).hexdigest()], by FIPS 180-4. *)

From S2P Require Import Prelude Py.
Open Scope Z_scope.

Definition mask32 (z : Z) : Z := Z.land z 4294967295.
Definition add32 (a b : Z) : Z := mask32 (a + b).
Definition rotr (n x : Z) : Z := Z.lor (Z.shiftr x n) (mask32 (Z.shiftl x (32 - n))).
Definition xor3 (a b c : Z) : Z := Z.lxor a (Z.lxor b c).
Definition not32 (x : Z) : Z := Z.lxor x 4294967295.

Definition Sigma0 x := xor3 (rotr 2 x) (rotr 13 x) (rotr 22 x).
Definition Sigma1 x := xor3 (rotr 6 x) (rotr 11 x) (rotr 25 x).
Definition sigma0 x := xor3 (rotr 7 x) (rotr 18 x) (Z.shiftr x 3).
Definition sigma1 x := xor3 (rotr 17 x) (rotr 19 x) (Z.shiftr x 10).
Definition Ch x y z := Z.lxor (Z.land x y) (Z.land (not32 x) z).
Definition Maj x y z := xor3 (Z.land x y) (Z.land x z) (Z.land y z).

Definition K : list Z :=
  [1116352408; 1899447441; 3049323471; 3921009573; 961987163; 1508970993; 2453635748; 2870763221;
   3624381080; 310598401; 607225278; 1426881987; 1925078388; 2162078206; 2614888103; 3248222580;
   3835390401; 4022224774; 264347078; 604807628; 770255983; 1249150122; 1555081692; 1996064986;
   2554220882; 2821834349; 2952996808; 3210313671; 3336571891; 3584528711; 113926993; 338241895;
   666307205; 773529912; 1294757372; 1396182291; 1695183700; 1986661051; 2177026350; 2456956037;
   2730485921; 2820302411; 3259730800; 3345764771; 3516065817; 3600352804; 4094571909; 275423344;
   430227734; 506948616; 659060556; 883997877; 958139571; 1322822218; 1537002063; 1747873779;
   1955562222; 2024104815; 2227730452; 2361852424; 2428436474; 2756734187; 3204031479; 3329325298].

Definition initial_hash : list Z :=
  [1779033703; 3144134277; 1013904242; 2773480762; 1359893119; 2600822924; 528734635; 1541459225].

Definition bytes_of (s : string) : list Z :=
  map (λ c, Z.of_nat (Ascii.nat_of_ascii c)) (String.list_ascii_of_string s).

Fixpoint big_endian (n : nat) (z : Z) : list Z :=
  match n with O => [] | S n => big_endian n (z / 256) ++ [z mod 256] end.

(** The message, 0x80, zeros up to 56 modulo 64, and the bit length. *)
Definition pad (m : list Z) : list Z :=
  let n := length m in
  m ++ [128] ++ repeat 0 ((119 - n mod 64) mod 64) ++ big_endian 8 (8 * Z.of_nat n).

Fixpoint words (l : list Z) : list Z :=
  match l with
  | a :: b :: c :: d :: l => ((a * 256 + b) * 256 + c) * 256 + d :: words l
  | _ => []
  end.

Definition nthZ (l : list Z) (n : nat) : Z := List.nth n l 0.

(** The message schedule, newest word first. *)
Fixpoint schedule (n : nat) (rev_w : list Z) : list Z :=
  match n with
  | O => rev_w
  | S n =>
      let w := add32 (add32 (sigma1 (nthZ rev_w 1)) (nthZ rev_w 6))
                     (add32 (sigma0 (nthZ rev_w 14)) (nthZ rev_w 15)) in
      schedule n (w :: rev_w)
  end.

Definition round (h : list Z) (kw : Z * Z) : list Z :=
  match h with
  | [a; b; c; d; e; f; g; h] =>
      let t1 := add32 (add32 h (Sigma1 e)) (add32 (Ch e f g) (add32 (fst kw) (snd kw))) in
      let t2 := add32 (Sigma0 a) (Maj a b c) in
      [add32 t1 t2; a; b; c; add32 d t1; e; f; g]
  | _ => h
  end.

Definition compress (h block : list Z) : list Z :=
  let w := List.rev (schedule 48 (List.rev block)) in
  zip_with add32 h (fold_left round (combine K w) h).

Fixpoint blocks (fuel : nat) (l : list Z) : list (list Z) :=
  match fuel, l with
  | O, _ | _, [] => []
  | S fuel, _ => firstn 16 l :: blocks fuel (skipn 16 l)
  end.

Definition hex_byte (z : Z) : string :=
  hex_digit (Z.to_nat (z / 16)) +:+ hex_digit (Z.to_nat (z mod 16)).

Definition sha256_hex (s : string) : string :=
  let w := words (pad (bytes_of s)) in
  let h := fold_left compress (blocks (length w) w) initial_hash in
  join EmptyString (map hex_byte (concat (map (big_endian 4) h))).
