(* ===== verification/Config.v ===== *)
(** Process configuration: the constants the modules read from the environment
    (or draw at random) when they are loaded. *)

From S2P Require Import Prelude Py.
Open Scope Z_scope.

Class Config := {
  DEFAULT_CONNECT_TIMEOUT : Z;                        (* ssh.py *)
  DEFAULT_COMMAND_TIMEOUT : Z;
  LEASE_NAMESPACE : string;                           (* operations.py *)
  SSHMACHINE_DISTRIBUTED_LOCK_ENABLED : bool;         (* sshmachine.py *)
  SSHMACHINE_DISTRIBUTED_LOCK_TTL_SECONDS : Z;
  SSHMACHINE_DISTRIBUTED_LOCK_RETRY_DELAY_SECONDS : Z;
  RECONCILE_LOCK_HOLDER : string;
  SSHHOST_PROBE_TIMEOUT : Z                           (* sshhost.py *)
}.

(** With no variable set; the holder identity is the caller's. *)
Definition default_config (holder : string) : Config := {|
    DEFAULT_CONNECT_TIMEOUT := 30;
    DEFAULT_COMMAND_TIMEOUT := 300;
    LEASE_NAMESPACE := "capi-provider-ssh-system";
    SSHMACHINE_DISTRIBUTED_LOCK_ENABLED := true;
    SSHMACHINE_DISTRIBUTED_LOCK_TTL_SECONDS := 120;
    SSHMACHINE_DISTRIBUTED_LOCK_RETRY_DELAY_SECONDS := 5;
    RECONCILE_LOCK_HOLDER := holder;
    SSHHOST_PROBE_TIMEOUT := 10
  |}.
