(* ===== verification/Asyncio.v ===== *)
(** The futures of asyncio on which tasks wait, and [asyncio.Semaphore], as in the
    Python 3.13 that pyproject.toml requires. *)

From S2P Require Import Prelude.
Open Scope nat_scope.

(** A future that only wakes: not done, with a result, or cancelled. *)
Inductive future := Pending | Woken | FutureCancelled.

Definition is_cancelled (f : future) : bool := if f is FutureCancelled then true else false.
Definition is_pending (f : future) : bool := if f is Pending then true else false.
Definition is_woken (f : future) : bool := if f is Woken then true else false.

(** [future.cancel()] *)
Definition cancel_future (f : future) : future := if f is Pending then FutureCancelled else f.

(** ** [asyncio.Semaphore] *)

(** The counter, and the waiters in the order of their arrival. *)
Record semaphore := Semaphore { count : nat; queue : list (nat * future) }.

(** [locked()]: waiters that are not cancelled go first. *)
Definition sem_locked (s : semaphore) : bool :=
  (count s =? 0) || existsb (λ w, negb (is_cancelled (snd w))) (queue s).

Fixpoint wake_first (q : list (nat * future)) : option (list (nat * future)) :=
  match q with
  | [] => None
  | (i, Pending) :: q => Some ((i, Woken) :: q)
  | w :: q => cons w <$> wake_first q
  end.

(** [_wake_up_next()]: hands a slot over to the first waiter that is not done. *)
Definition wake_up_next (s : semaphore) : bool * semaphore :=
  match wake_first (queue s) with
  | Some q => (true, Semaphore (pred (count s)) q)
  | None => (false, s)
  end.

Definition sem_release (s : semaphore) : semaphore := snd (wake_up_next (Semaphore (S (count s)) (queue s))).

(** [while self._value > 0: if not self._wake_up_next(): break]: a round that goes on
    lowers the counter, so that it bounds the rounds. *)
Fixpoint wake_rounds (n : nat) (s : semaphore) : semaphore :=
  match n with
  | O => s
  | S n => let '(woke, s') := wake_up_next s in if woke : bool then wake_rounds n s' else s'
  end.
Definition wake_waiters (s : semaphore) : semaphore := wake_rounds (count s) s.

Definition sem_take (s : semaphore) : semaphore := Semaphore (pred (count s)) (queue s).
Definition sem_enqueue (s : semaphore) (i : nat) : semaphore := Semaphore (count s) (queue s ++ [(i, Pending)]).
Definition without (q : list (nat * future)) (i : nat) : list (nat * future) :=
  List.filter (λ w, negb (fst w =? i)) q.
Definition sem_cancel (s : semaphore) (i : nat) : semaphore :=
  Semaphore (count s) (map (λ w, if fst w =? i then (fst w, cancel_future (snd w)) else w) (queue s)).

(** The end of a waiting [acquire]: [given_back] when the task was cancelled after its
    future was woken. *)
Definition sem_leave (s : semaphore) (i : nat) (given_back : bool) : semaphore :=
  wake_waiters (Semaphore (if given_back then S (count s) else count s) (without (queue s) i)).

(** ** Laws *)

Definition woken (q : list (nat * future)) : nat := length (List.filter (λ w, is_woken (snd w)) q).

(** The slots that are free or handed over. *)
Definition spare (s : semaphore) : nat := count s + woken (queue s).

(** While a slot is free, somebody waits only behind a waiter that was woken and will
    hand the free slots on when it runs. *)
Definition served (s : semaphore) : Prop :=
  0 < count s → ∀ i, (i, Pending) ∈ queue s → ∃ j, (j, Woken) ∈ queue s.

Lemma wake_first_some q q' : wake_first q = Some q' → map fst q' = map fst q ∧ woken q' = S (woken q).
Proof.
  revert q'. induction q as [|[i f] q IH]; simpl; [done|]. intros q'.
  destruct f; [intros [= <-]; done|..]; destruct (wake_first q) as [q1|]; try done; intros [= <-];
    destruct (IH _ eq_refl) as [Hids Hw]; unfold woken in *; simpl; by rewrite Hids, ?Hw.
Qed.

Lemma wake_first_none q i : wake_first q = None → (i, Pending) ∉ q.
Proof.
  induction q as [|[j f] q IH]; simpl; intros H; [by apply not_elem_of_nil|].
  destruct f; [done|..]; destruct (wake_first q); try done;
    (apply not_elem_of_cons; split; [by intros [=]|by apply IH]).
Qed.

Lemma wake_first_woken q q' : wake_first q = Some q' → ∃ j, (j, Woken) ∈ q'.
Proof.
  revert q'. induction q as [|[i f] q IH]; simpl; [done|]. intros q'.
  destruct f; [intros [= <-]; exists i; left|..]; (destruct (wake_first q) as [q1|]; [|done]); intros [= <-];
    (destruct (IH _ eq_refl) as [j Hj]; exists j; by right).
Qed.

Lemma wake_up_next_spec s woke s' :
  wake_up_next s = (woke, s') → 0 < count s →
  map fst (queue s') = map fst (queue s) ∧ spare s' = spare s ∧ served s' ∧
  (if woke then count s' = pred (count s) else s' = s).
Proof.
  unfold wake_up_next, spare, served. destruct (wake_first (queue s)) as [q|] eqn:E; intros [= <- <-] Hc.
  - destruct (wake_first_some _ _ E) as [Hids Hw]. apply wake_first_woken in E. simpl. rewrite Hw.
    split_and!; [done|lia|done..].
  - split_and!; [done..| |done]. intros _ i Hi. by apply wake_first_none in Hi.
Qed.

Lemma wake_waiters_spec s :
  map fst (queue (wake_waiters s)) = map fst (queue s) ∧ spare (wake_waiters s) = spare s ∧ served (wake_waiters s).
Proof.
  unfold wake_waiters. remember (count s) as n eqn:Hn. revert s Hn.
  induction n as [|n IH]; intros s Hn; simpl.
  { split_and!; [done..|]. intros H. lia. }
  destruct (wake_up_next s) as [woke s'] eqn:E. apply wake_up_next_spec in E as (Hids & Hs & Hserved & Hw); [|lia].
  destruct woke; [|by subst s'].
  destruct (IH s') as (Hids' & Hs' & Hserved'); [lia|]. split_and!; [congruence..|done].
Qed.

Lemma sem_release_spec s :
  map fst (queue (sem_release s)) = map fst (queue s) ∧ spare (sem_release s) = S (spare s) ∧ served (sem_release s).
Proof.
  unfold sem_release. destruct (wake_up_next _) as [woke s'] eqn:E. simpl.
  apply wake_up_next_spec in E as (Hids & Hsp & Hserved & _); [|simpl; lia]. done.
Qed.

Lemma sem_take_spec s :
  sem_locked s = false → spare s = S (spare (sem_take s)) ∧ served (sem_take s).
Proof.
  unfold sem_locked, spare, served. intros [Hc Hq]%orb_false_iff. apply Nat.eqb_neq in Hc. simpl.
  split; [lia|]. intros _ i Hi. exfalso. apply not_true_iff_false in Hq. apply Hq, existsb_exists.
  exists (i, Pending). by rewrite <- list_elem_of_In.
Qed.

Lemma woken_app q q' : woken (q ++ q') = woken q + woken q'.
Proof. unfold woken. by rewrite List.filter_app, length_app. Qed.

Lemma sem_enqueue_spec s i :
  sem_locked s = true → served s → spare (sem_enqueue s i) = spare s ∧ served (sem_enqueue s i).
Proof.
  unfold sem_locked, spare, served. simpl. rewrite woken_app. intros Hl Hs. split; [unfold woken at 2; simpl; lia|].
  intros Hc j _. apply orb_true_iff in Hl as [Hl|Hl]; [apply Nat.eqb_eq in Hl; lia|].
  apply existsb_exists in Hl as ([k f] & Hk & Hf). apply list_elem_of_In in Hk.
  setoid_rewrite elem_of_app. destruct f; [|by eauto|discriminate Hf].
  destruct (Hs Hc k Hk) as [w Hw]. eauto.
Qed.

Lemma sem_cancel_spec s i :
  map fst (queue (sem_cancel s i)) = map fst (queue s) ∧ spare (sem_cancel s i) = spare s ∧
  (served s → served (sem_cancel s i)) ∧ ∀ j, (j, Woken) ∈ queue (sem_cancel s i) ↔ (j, Woken) ∈ queue s.
Proof.
  assert (Hw : ∀ j, (j, Woken) ∈ queue (sem_cancel s i) ↔ (j, Woken) ∈ queue s).
  { intros j. simpl. rewrite list_elem_of_fmap. split.
    - intros ([k f] & He & Hk). simpl in He. destruct (k =? i); [|by rewrite He]. by destruct f; simplify_eq/=.
    - intros Hj. exists (j, Woken). simpl. by destruct (j =? i). }
  split_and!; [| | |done].
  - simpl. rewrite map_map. apply map_ext. intros [k f]. simpl. by destruct (k =? i).
  - unfold spare. simpl. f_equal. unfold woken. clear Hw. induction (queue s) as [|[k f] q IH]; [done|]. simpl.
    destruct (k =? i), f; cbn [is_woken fst snd cancel_future length]; auto.
  - intros Hs Hc j Hj. setoid_rewrite Hw. apply (Hs Hc j). simpl in Hj.
    apply list_elem_of_fmap in Hj as ([k f] & He & Hk). simpl in He.
    destruct (k =? i); [|by rewrite He]. by destruct f; simplify_eq/=.
Qed.

Lemma without_elem q i w : w ∈ without q i ↔ w ∈ q ∧ fst w ≠ i.
Proof.
  unfold without. rewrite filter_In_elem, negb_true_iff, Nat.eqb_neq. naive_solver.
Qed.

Lemma without_absent q i : i ∉ map fst q → without q i = q.
Proof.
  induction q as [|[j f] q IH]; simpl; [done|]. intros [Hne Hi]%not_elem_of_cons.
  destruct (Nat.eqb_spec j i); [congruence|]. simpl. by rewrite IH.
Qed.

Lemma woken_without q i f :
  NoDup (map fst q) → (i, f) ∈ q → woken q = woken (without q i) + (if is_woken f then 1 else 0).
Proof.
  unfold woken. induction q as [|[j g] q IH]; simpl; intros Hn Hi; [by apply not_elem_of_nil in Hi|].
  apply NoDup_cons in Hn as [Hj Hn]. apply elem_of_cons in Hi as [[= <- <-]|Hi].
  - rewrite Nat.eqb_refl. cbn [negb]. fold (without q i). rewrite without_absent by done.
    destruct (is_woken f); simpl; lia.
  - destruct (Nat.eqb_spec j i) as [->|Hne].
    { destruct Hj. apply list_elem_of_fmap. by exists (i, f). }
    cbn [negb]. specialize (IH Hn Hi). fold (without q i) in *. destruct g; simpl; lia.
Qed.

(** A waiter that leaves gives back the slot it was handed, if any and if it says so. *)
Lemma sem_leave_spec s i f given_back :
  NoDup (map fst (queue s)) → (i, f) ∈ queue s → (given_back = true → f = Woken) →
  map fst (queue (sem_leave s i given_back)) = map fst (without (queue s) i) ∧
  spare s = spare (sem_leave s i given_back) + (if is_woken f && negb given_back then 1 else 0) ∧
  served (sem_leave s i given_back).
Proof.
  intros Hn Hi Hg. unfold sem_leave.
  destruct (wake_waiters_spec (Semaphore (if given_back then S (count s) else count s) (without (queue s) i)))
    as (Hids & Hsp & Hs). split_and!; [exact Hids| |exact Hs]. rewrite Hsp. unfold spare. simpl.
  rewrite (woken_without _ _ _ Hn Hi). destruct given_back; [rewrite Hg by done|]; destruct f; simpl; lia.
Qed.
