(* ===== verification/Effects.v ===== *)
(** Effectful code.  A program is a tree of calls to the outside world (the
    Kubernetes SDK, asyncssh, the clock, asyncio), each node holding the
    continuation for every possible reply.  Nothing is assumed of a reply: another
    controller, the host or the network may have acted between any two calls.

    Handlers stage changes in Kopf's patch object, which Kopf applies after the
    handler even when it raised; the monad [M] therefore threads the patch through
    exceptions.  The second half is a program logic: [safe] is the weakest
    precondition of a program under a monitor that watches every call. *)

From S2P Require Import Prelude Py.

(** ** Calls *)

(** A coordination.k8s.io Lease, its times in microseconds since the epoch. *)
Record lease := Lease {
  l_name : string;
  l_namespace : string;
  l_resourceVersion : option string;
  l_holder : option string;
  l_duration : option Z;
  l_acquire : option Z;
  l_renew : option Z;
  l_labels : list (string * string)
}.

Inductive api_op :=
| GetObject (group version namespace plural : string) (name : value)
| ListObjects (group version namespace plural : string)
| PatchObject (group version namespace plural : string) (name body : value)
| PatchObjectStatus (group version namespace plural : string) (name body : value)
| ReadSecret (namespace : string) (name : value)
| ReadLease (name namespace : string)
| CreateLease (namespace : string) (l : lease)
| ReplaceLease (name namespace : string) (l : lease)
| GetClusterObject (group version plural name : string)
| ListClusterObjects (group version plural : string) (limit : Z)
| ListNamespaces (label_selector : string).

(** A Secret's [data]: [None], or base64 text per key. *)
Definition secret := option (list (string * string)).

Definition api_answer (op : api_op) : Type :=
  match op with
  | ReadSecret _ _ => secret
  | ReadLease _ _ | CreateLease _ _ | ReplaceLease _ _ _ => lease
  | _ => value
  end.

(** The wrapped asyncssh connection. *)
Record connection := Connection { c_address : value; c_port : value }.

(** What [asyncssh]'s [run(check=False)] returns. *)
Record completed := Completed {
  exit_status : option Z;
  completed_stdout : option string;
  completed_stderr : option string
}.

(** A text and what [json.loads] makes of it. *)
Record payload := Payload { text : string; json : res value }.

(** What the readiness probe and the release scripts ask of the system. *)
Inductive external :=
| Getenv (name : string)
| ReadFile (path : string)
| LoadConfig (file : option string)               (* kubernetes.config; None: in the cluster *)
| Monotonic                                       (* microseconds *)
| HttpGet (tls : bool) (host : string) (port : Z) (path : string) (token : option string) (timeout : Z * Z)
| Run (directory : option string) (args : list string) (timeout : option Z)   (* subprocess.run(check=True) *)
| MakeDirectory (prefix : string)                 (* tempfile.TemporaryDirectory *)
| RemoveTree (path : string)
| CreateTemporary (directory : string)            (* NamedTemporaryFile(delete=False) *)
| WriteFile (path content : string)
| ReplaceFile (source destination : string)       (* os.replace *)
| Unlink (path : string)
| AppendFile (path content : string)
| Pause (microseconds : Z)                        (* time.sleep *)
| WriteLine (line : string).                      (* print *)

Definition external_reply (op : external) : Type :=
  match op with
  | Getenv _ => option string
  | ReadFile _ | Run _ _ _ => res payload
  | Monotonic => Z
  | HttpGet _ _ _ _ _ _ => res (Z * payload)
  | MakeDirectory _ | CreateTemporary _ => res string
  | LoadConfig _ | RemoveTree _ | WriteFile _ _ | ReplaceFile _ _ | Unlink _ | AppendFile _ _ => res unit
  | Pause _ | WriteLine _ => unit
  end.

Inductive call :=
(* kubernetes.client, with the [_request_timeout] pair *)
| Api (timeout : Z * Z) (op : api_op)
(* asyncssh *)
| ImportPrivateKey (key : string)
| ImportKnownHosts (text : string)
| SshConnect (address port user : value) (key known_hosts : string) (timeout : Z)
| SshRun (conn : connection) (command : string) (timeout : Z)
| SshUpload (conn : connection) (content path : string) (mode : Z)
| SshClose (conn : connection)
(* clocks, in microseconds, and random identifiers *)
| Now
| LoopTime
| Uuid4
(* asyncio *)
| Sleep (seconds : Z)
| Await                     (* a suspension point: is the task cancelled there? *)
| HeartbeatLost             (* the [lost] flag the renewal task sets *)
| WaitStopped (seconds : Z) (* is the [stopped] event set before the timeout? *)
| CancelParent
(* the operating system, for the processes that are not the operator *)
| External (op : external).

Definition reply (c : call) : Type :=
  match c with
  | Api _ op => res (api_answer op)
  | ImportPrivateKey _ | ImportKnownHosts _ => res unit
  | SshConnect _ _ _ _ _ _ => res unit
  | SshRun _ _ _ => res completed
  | SshUpload _ _ _ _ | SshClose _ => res unit
  | Now | LoopTime => Z
  | Uuid4 => string
  | Sleep _ => res unit
  | Await | HeartbeatLost | WaitStopped _ => bool
  | CancelParent => unit
  | External op => external_reply op
  end.

(** ** Programs *)

Inductive prog (A : Type) : Type :=
| Ret (a : A)
| Call (c : call) (k : reply c → prog A).
Arguments Ret {_} _.
Arguments Call {_} _ _.

Fixpoint pbind {A B} (p : prog A) (f : A → prog B) : prog B :=
  match p with
  | Ret a => f a
  | Call c k => Call c (λ r, pbind (k r) f)
  end.

(** What outlives an exception in a handler: Kopf's patch object, the staged changes
    of [spec] and [status], and the handler's local variables that an [except]
    clause reads. *)
Record patch := Patch { p_spec : dict; p_status : dict; p_locals : dict }.
Definition empty_patch : patch := Patch [] [] [].

(** A Python function: it may raise, and the patch survives the exception. *)
Definition M (A : Type) : Type := patch → prog (res A * patch).

#[export] Instance M_ret : MRet M := λ A a s, Ret (Ok a, s).
#[export] Instance M_bind : MBind M := λ A B f m s,
  pbind (m s) (λ '(r, s'), match r with Ok a => f a s' | Err e => Ret (Err e, s') end).

Definition raise {A} (e : exn) : M A := λ s, Ret (Err e, s).
Definition lift {A} (r : res A) : M A := λ s, Ret (r, s).
Definition get_patch : M patch := λ s, Ret (Ok s, s).
Definition put_patch (s : patch) : M unit := λ _, Ret (Ok tt, s).

(** A call whose reply is a value, and one whose reply may be an exception. *)
Definition perform (c : call) : M (reply c) := λ s, Call c (λ r, Ret (Ok r, s)).
Definition api_call (t : Z * Z) (op : api_op) : M (api_answer op) :=
  λ s, Call (Api t op) (λ r, Ret (r, s)).
Definition attempt_call {A} (c : call) (conv : reply c → res A) : M A :=
  λ s, Call c (λ r, Ret (conv r, s)).

(** [try: m  except E as e: h e], where [h] answers [None] for an exception the
    clauses do not catch. *)
Definition try_except {A} (m : M A) (h : exn → option (M A)) : M A := λ s,
  pbind (m s) (λ '(r, s'),
    match r with
    | Ok a => Ret (Ok a, s')
    | Err e => match h e with Some m' => m' s' | None => Ret (Err e, s') end
    end).

Definition except_Exception {A} (m : M A) (h : exn → M A) : M A :=
  try_except m (λ e, if is_Exception e then Some (h e) else None).

(** [try: m  finally: f]: an exception of [f] replaces the outcome of [m]. *)
Definition try_finally {A} (m : M A) (f : M unit) : M A := λ s,
  pbind (m s) (λ '(r, s'),
    pbind (f s') (λ '(r', s''),
      match r' with Ok _ => Ret (r, s'') | Err e => Ret (Err e, s'') end)).

(** The outcome of [m] as a value. *)
Definition outcome {A} (m : M A) : M (res A) := λ s,
  pbind (m s) (λ '(r, s'), Ret (Ok r, s')).

Notation "x '←?' r ; k" := (mbind (λ x, k) (lift r))
  (at level 20, r at level 100, k at level 200, format "x  '←?'  r ;  '/' k") : capi_scope.

(** ** Executions *)

Inductive event := Ev (c : call) (r : reply c).

(** [steps p t p']: after the calls and replies of [t], [p'] is left to run. *)
Inductive steps {A} : prog A → list event → prog A → Prop :=
| steps_nil p : steps p [] p
| steps_call c k r t p : steps (k r) t p → steps (Call c k) (Ev c r :: t) p.

(** After the history [t] the program is about to issue the call [c]. *)
Definition issues {A} (p : prog A) (t : list event) (c : call) : Prop :=
  ∃ k, steps p t (Call c k).

Definition finishes {A} (p : prog A) (t : list event) (a : A) : Prop := steps p t (Ret a).

(** A deterministic environment runs a program to its end. *)
Section run.
Context {W : Type} (handler : ∀ c, W → reply c * W).

Fixpoint run {A} (p : prog A) (w : W) : A * W :=
  match p with
  | Ret a => (a, w)
  | Call c k => let '(r, w') := handler c w in run (k r) w'
  end.

Fixpoint run_trace {A} (p : prog A) (w : W) : list event :=
  match p with
  | Ret _ => []
  | Call c k => let '(r, w') := handler c w in Ev c r :: run_trace (k r) w'
  end.

Lemma run_finishes {A} (p : prog A) w : finishes p (run_trace p w) (fst (run p w)).
Proof.
  revert w. induction p as [a|c k IH]; intros w; simpl; [constructor|].
  destruct (handler c w) as [r w']. constructor. apply IH.
Qed.
End run.

(** ** Monitors *)

Record monitor := Monitor {
  ghost : Type;
  allowed : ghost → call → Prop;                 (* what the program may do *)
  assumed : ghost → ∀ c, reply c → Prop;         (* what the environment does *)
  observe : ∀ c, reply c → ghost → ghost
}.

Section safe.
Context (m : monitor).

Fixpoint safe {A} (p : prog A) (g : ghost m) (Q : A → ghost m → Prop) : Prop :=
  match p with
  | Ret a => Q a g
  | Call c k => allowed m g c ∧ ∀ r, assumed m g c r → safe (k r) (observe m c r g) Q
  end.

Lemma safe_mono {A} (p : prog A) g (Q Q' : A → ghost m → Prop) :
  safe p g Q → (∀ a g', Q a g' → Q' a g') → safe p g Q'.
Proof.
  revert g. induction p as [a|c k IH]; intros g; simpl; [eauto|].
  intros [Ha Hk] HQ. split; [done|]. intros r Hr. eapply IH; eauto.
Qed.

Lemma safe_conj {A} (p : prog A) g (Q Q' : A → ghost m → Prop) :
  safe p g Q → safe p g Q' → safe p g (λ a g', Q a g' ∧ Q' a g').
Proof.
  revert g. induction p as [a|c k IH]; intros g; simpl; [by split|].
  intros [Ha Hk] [_ Hk']. split; [done|]. intros r Hr. apply IH; auto.
Qed.

Lemma safe_pbind {A B} (p : prog A) (f : A → prog B) g Q :
  safe p g (λ a g', safe (f a) g' Q) → safe (pbind p f) g Q.
Proof.
  revert g. induction p as [a|c k IH]; intros g; simpl; [done|].
  intros [Ha Hk]. split; [done|]. intros r Hr. apply IH; auto.
Qed.

(** *** Adequacy *)

Definition observe_all (t : list event) (g : ghost m) : ghost m :=
  fold_left (λ g '(Ev c r), observe m c r g) t g.

Fixpoint assumed_all (t : list event) (g : ghost m) : Prop :=
  match t with
  | [] => True
  | Ev c r :: t => assumed m g c r ∧ assumed_all t (observe m c r g)
  end.

Lemma safe_steps {A} (p : prog A) t p' g Q :
  steps p t p' → assumed_all t g → safe p g Q → safe p' (observe_all t g) Q.
Proof.
  intros H. revert g. induction H as [p|c k r t p H IH]; intros g; simpl; [done|].
  intros [Hr Ht] [_ Hs]. apply IH; auto.
Qed.

Lemma safe_issues {A} (p : prog A) t c g Q :
  issues p t c → assumed_all t g → safe p g Q → allowed m (observe_all t g) c.
Proof.
  intros [k Hk] Ht Hs. pose proof (safe_steps _ _ _ _ _ Hk Ht Hs) as Hs'.
  by destruct Hs'.
Qed.

Lemma safe_finishes {A} (p : prog A) t a g Q :
  finishes p t a → assumed_all t g → safe p g Q → Q a (observe_all t g).
Proof. intros Hf Ht Hs. apply (safe_steps _ _ _ _ _ Hf Ht Hs). Qed.

(** *** Rules for [M] *)

Definition msafe {A} (p : M A) (s : patch) (g : ghost m)
    (Q : res A → patch → ghost m → Prop) : Prop :=
  safe (p s) g (λ rs g', Q (fst rs) (snd rs) g').

Lemma msafe_mono {A} (p : M A) s g (Q Q' : res A → patch → ghost m → Prop) :
  msafe p s g Q → (∀ r s' g', Q r s' g' → Q' r s' g') → msafe p s g Q'.
Proof. intros H HQ. eapply safe_mono; [exact H|]. intros [r s'] g'. apply HQ. Qed.

Lemma msafe_conj {A} (p : M A) s g (Q' Q : res A → patch → ghost m → Prop) :
  msafe p s g Q → msafe p s g Q' → msafe p s g (λ r s' g', Q r s' g' ∧ Q' r s' g').
Proof. apply safe_conj. Qed.

Lemma msafe_ret {A} (a : A) s g (Q : res A → patch → ghost m → Prop) :
  Q (Ok a) s g → msafe (mret a) s g Q.
Proof. done. Qed.

Lemma msafe_raise {A} e s g (Q : res A → patch → ghost m → Prop) :
  Q (Err e) s g → msafe (raise e) s g Q.
Proof. done. Qed.

Lemma msafe_lift {A} (r : res A) s g (Q : res A → patch → ghost m → Prop) :
  Q r s g → msafe (lift r) s g Q.
Proof. done. Qed.

Lemma msafe_get_patch s g (Q : res patch → patch → ghost m → Prop) :
  Q (Ok s) s g → msafe get_patch s g Q.
Proof. done. Qed.

Lemma msafe_put_patch s' s g (Q : res unit → patch → ghost m → Prop) :
  Q (Ok tt) s' g → msafe (put_patch s') s g Q.
Proof. done. Qed.

Lemma msafe_bind {A B} (p : M A) (f : A → M B) s g Q :
  msafe p s g (λ r s' g', match r with
                          | Ok a => msafe (f a) s' g' Q
                          | Err e => Q (Err e) s' g'
                          end) →
  msafe (mbind f p) s g Q.
Proof.
  intros H. apply safe_pbind. eapply safe_mono; [exact H|].
  intros [[a|e] s'] g' Hq; exact Hq.
Qed.

Lemma msafe_try {A} (p : M A) h s g Q :
  msafe p s g (λ r s' g', match r with
                          | Ok a => Q (Ok a) s' g'
                          | Err e => match h e with
                                     | Some p' => msafe p' s' g' Q
                                     | None => Q (Err e) s' g'
                                     end
                          end) →
  msafe (try_except p h) s g Q.
Proof.
  intros H. apply safe_pbind. eapply safe_mono; [exact H|].
  intros [[a|e] s'] g' Hq; [exact Hq|]. simpl in Hq. simpl.
  destruct (h e); exact Hq.
Qed.

Lemma msafe_except {A} (p : M A) h s g Q :
  msafe p s g (λ r s' g', match r with
                          | Ok a => Q (Ok a) s' g'
                          | Err e => if is_Exception e then msafe (h e) s' g' Q
                                     else Q (Err e) s' g'
                          end) →
  msafe (except_Exception p h) s g Q.
Proof.
  intros H. apply msafe_try. eapply msafe_mono; [exact H|]. intros [a|e] s' g'; [done|].
  by destruct (is_Exception e).
Qed.

Lemma msafe_finally {A} (p : M A) f s g Q :
  msafe p s g (λ r s' g',
    msafe f s' g' (λ r' s'' g'', match r' with
                                 | Ok _ => Q r s'' g''
                                 | Err e => Q (Err e) s'' g''
                                 end)) →
  msafe (try_finally p f) s g Q.
Proof.
  intros H. apply safe_pbind. eapply safe_mono; [exact H|].
  intros [r s'] g' Hq. apply safe_pbind. eapply safe_mono; [exact Hq|].
  intros [[[]|e] s''] g''; done.
Qed.

Lemma msafe_outcome {A} (p : M A) s g (Q : res (res A) → patch → ghost m → Prop) :
  msafe p s g (λ r s' g', Q (Ok r) s' g') → msafe (outcome p) s g Q.
Proof.
  intros H. apply safe_pbind. eapply safe_mono; [exact H|]. intros [r s'] g'; done.
Qed.

Lemma msafe_perform c s g (Q : res (reply c) → patch → ghost m → Prop) :
  allowed m g c → (∀ r, assumed m g c r → Q (Ok r) s (observe m c r g)) →
  msafe (perform c) s g Q.
Proof. done. Qed.

Lemma msafe_api t op s g (Q : res (api_answer op) → patch → ghost m → Prop) :
  allowed m g (Api t op) →
  (∀ r : res (api_answer op), assumed m g (Api t op) r → Q r s (observe m (Api t op) r g)) →
  msafe (api_call t op) s g Q.
Proof. done. Qed.

Lemma msafe_attempt {A} c (conv : reply c → res A) s g (Q : res A → patch → ghost m → Prop) :
  allowed m g c →
  (∀ r, assumed m g c r → Q (conv r) s (observe m c r g)) →
  msafe (attempt_call c conv) s g Q.
Proof. done. Qed.
End safe.

(** ** Footprints *)

(** Every call a program can issue, under any replies, satisfies [P]. *)
Fixpoint calls_in {A} (P : call → Prop) (p : prog A) : Prop :=
  match p with
  | Ret _ => True
  | Call c k => P c ∧ ∀ r, calls_in P (k r)
  end.

Definition footprint {A} (P : call → Prop) (p : M A) : Prop := ∀ s, calls_in P (p s).

Lemma calls_in_pbind {A B} P (p : prog A) (f : A → prog B) :
  calls_in P p → (∀ a, calls_in P (f a)) → calls_in P (pbind p f).
Proof. induction p as [a|c k IH]; simpl; [eauto|]. intros [? ?] ?. split; auto. Qed.

Lemma calls_in_mono {A} (P P' : call → Prop) (p : prog A) :
  (∀ c, P c → P' c) → calls_in P p → calls_in P' p.
Proof. intros HP. induction p as [a|c k IH]; simpl; [done|]. intros [? ?]. split; auto. Qed.

Section footprint.
Context (P : call → Prop).

Lemma footprint_mono {A} (P' : call → Prop) (p : M A) :
  footprint P' p → (∀ c, P' c → P c) → footprint P p.
Proof. intros H HP s. eapply calls_in_mono; [exact HP|apply H]. Qed.

Lemma footprint_ret {A} (a : A) : footprint P (mret a : M A).
Proof. done. Qed.
Lemma footprint_raise {A} e : footprint P (raise e : M A).
Proof. done. Qed.
Lemma footprint_lift {A} (r : res A) : footprint P (lift r).
Proof. done. Qed.
Lemma footprint_get_patch : footprint P get_patch.
Proof. done. Qed.
Lemma footprint_put_patch s : footprint P (put_patch s).
Proof. done. Qed.
Lemma footprint_bind {A B} (p : M A) (f : A → M B) :
  footprint P p → (∀ a, footprint P (f a)) → footprint P (mbind f p).
Proof.
  intros Hp Hf s. apply calls_in_pbind; [apply Hp|].
  intros [[a|e] s']; [apply Hf|done].
Qed.
Lemma footprint_bind_lift {A B} (r : res A) (f : A → M B) :
  (∀ a, r = Ok a → footprint P (f a)) → footprint P (mbind f (lift r)).
Proof. intros Hf s. destruct r as [a|e]; [by apply Hf|done]. Qed.
Lemma footprint_try {A} (p : M A) h :
  footprint P p → (∀ e p', h e = Some p' → footprint P p') → footprint P (try_except p h).
Proof.
  intros Hp Hh s. apply calls_in_pbind; [apply Hp|].
  intros [[a|e] s']; [done|]. destruct (h e) eqn:E; [by eapply Hh|done].
Qed.
Lemma footprint_except {A} (p : M A) h :
  footprint P p → (∀ e, footprint P (h e)) → footprint P (except_Exception p h).
Proof.
  intros Hp Hh. apply footprint_try; [done|]. intros e p'.
  destruct (is_Exception e); [|done]. intros [= <-]. apply Hh.
Qed.
Lemma footprint_finally {A} (p : M A) f :
  footprint P p → footprint P f → footprint P (try_finally p f).
Proof.
  intros Hp Hf s. apply calls_in_pbind; [apply Hp|]. intros [r s'].
  apply calls_in_pbind; [apply Hf|]. by intros [[]].
Qed.
Lemma footprint_outcome {A} (p : M A) : footprint P p → footprint P (outcome p).
Proof. intros Hp s. apply calls_in_pbind; [apply Hp|]. by intros []. Qed.
Lemma footprint_perform c : P c → footprint P (perform c).
Proof. done. Qed.
Lemma footprint_api t op : P (Api t op) → footprint P (api_call t op).
Proof. done. Qed.
Lemma footprint_attempt {A} c (conv : reply c → res A) :
  P c → footprint P (attempt_call c conv).
Proof. done. Qed.
Lemma footprint_issues {A} (p : M A) s t c : footprint P p → issues (p s) t c → P c.
Proof.
  intros Hp [k Hk]. specialize (Hp s). remember (Call c k) as q eqn:Eq.
  revert Eq Hp. induction Hk as [q|c' k' r t q Hk IH]; intros ->; simpl.
  - by intros [].
  - intros [_ Hr]. eauto.
Qed.
End footprint.

(** Calls a monitor lets through without noticing them. *)
Definition quiet (m : monitor) (c : call) : Prop :=
  ∀ g, allowed m g c ∧ ∀ r, observe m c r g = g.

Lemma quiet_safe {A} m (p : prog A) g Q :
  calls_in (quiet m) p → (∀ a, Q a g) → safe m p g Q.
Proof.
  intros Hc HQ. revert Hc. induction p as [a|c k IH]; simpl; [intros _; apply HQ|].
  intros [Hq Hk]. destruct (Hq g) as [Ha Ho].
  split; [done|]. intros r _. rewrite Ho. auto.
Qed.

Lemma quiet_msafe {A} m (p : M A) s g (Q : res A → patch → ghost m → Prop) :
  footprint (quiet m) p → (∀ r s', Q r s' g) → msafe m p s g Q.
Proof. intros Hf HQ. apply quiet_safe; [apply Hf|]. intros [r s']; apply HQ. Qed.

#[export] Hint Resolve footprint_ret footprint_raise footprint_lift footprint_get_patch
  footprint_put_patch : capi.

(** Walks a program's syntax to establish a footprint; leaves the calls. *)
Ltac footprint_step :=
  first
    [ assumption
    | lazymatch goal with
      | |- ∀ _, _ => intro
      | |- footprint _ (mbind _ (lift _)) =>
          apply footprint_bind_lift; let a := fresh "a" in let Ha := fresh "Ha" in intros a Ha
      | |- footprint _ (mbind _ _) => apply footprint_bind
      | |- footprint _ (except_Exception _ _) => apply footprint_except
      | |- footprint _ (try_finally _ _) => apply footprint_finally
      | |- footprint _ (outcome _) => apply footprint_outcome
      | |- footprint _ (perform _) => apply footprint_perform
      | |- footprint _ (api_call _ _) => apply footprint_api
      | |- footprint _ (attempt_call _ _) => apply footprint_attempt
      | |- footprint _ (match ?x with _ => _ end) => destruct x
      end
    | solve [auto with capi nocore] ].
Ltac footprint := repeat footprint_step.
