(* ===== verification/Monitors.v ===== *)
(** Monitors and call classes shared by the components' safety theorems. *)

From S2P Require Import Prelude Py Effects.

(** ** Calls that change nothing outside the process *)

Definition is_read (op : api_op) : Prop :=
  match op with
  | GetObject _ _ _ _ _ | ListObjects _ _ _ _ | ReadSecret _ _ | ReadLease _ _
  | GetClusterObject _ _ _ _ | ListClusterObjects _ _ _ _ | ListNamespaces _ => True
  | _ => False
  end.

Definition benign (c : call) : Prop :=
  match c with
  | Api _ op => is_read op
  | Now | LoopTime | Uuid4 | Sleep _ | Await | HeartbeatLost | WaitStopped _ => True
  | External (Getenv _ | ReadFile _ | LoadConfig _ | Monotonic | HttpGet _ _ _ _ _ _ | Pause _ | WriteLine _) => True
  | _ => False
  end.

Definition covers (P : call → Prop) : Prop := ∀ c, benign c → P c.

Lemma covers_benign : covers benign.
Proof. by intros c. Qed.

Lemma covers_read P t op : covers P → is_read op → P (Api t op).
Proof. intros HP Ho. by apply HP. Qed.

(** ** Latches: a guarded call needs a triggering event before it *)

Definition latch (trigger : event → bool) (guarded : call → bool) : monitor := {|
    ghost := bool;
    allowed g c := guarded c = true → g = true;
    assumed _ _ _ := True;
    observe c r g := g || trigger (Ev c r)
  |}.

Section latch.
Context (trigger : event → bool) (guarded : call → bool).
Let m := latch trigger guarded.

Lemma latch_open {A} (p : M A) s (Q : res A → patch → bool → Prop) :
  (∀ r s', Q r s' true) → msafe m p s true Q.
Proof.
  intros HQ. unfold msafe. induction (p s) as [[r s']|c k IH]; simpl; [apply HQ|].
  split; [done|]. intros r _. apply IH.
Qed.

Lemma latch_unguarded {A} (p : M A) s g (Q : res A → patch → bool → Prop) :
  footprint (λ c, guarded c = false) p →
  (∀ r s' g', (g = true → g' = true) → Q r s' g') →
  msafe m p s g Q.
Proof.
  intros Hf HQ. specialize (Hf s). unfold msafe. revert g Hf HQ.
  induction (p s) as [[r s']|c k IH]; simpl; intros g Hf HQ.
  - by apply HQ.
  - destruct Hf as [Hc Hk]. split; [congruence|]. intros r _. apply IH; [done|].
    intros r' s' g' Hg. apply HQ. intros ->. by apply Hg.
Qed.

Lemma latch_covers :
  (∀ c, benign c → guarded c = false) → (∀ c r, benign c → trigger (Ev c r) = false) →
  covers (quiet m).
Proof.
  intros Hg Ht c Hb g. split.
  - intros Hc. rewrite Hg in Hc; done.
  - intros r. simpl. by rewrite (Ht _ _ Hb), orb_false_r.
Qed.

Lemma latch_observe_all t g :
  observe_all m t g = true → g = true ∨ ∃ e, In e t ∧ trigger e = true.
Proof.
  revert g. induction t as [|[c r] t IH]; simpl; intros g; [auto|].
  intros [Hg|(e & He & Ht)]%IH; [|eauto].
  apply orb_true_iff in Hg as [Hg|Hg]; eauto.
Qed.

Lemma latch_assumed t g : assumed_all m t g.
Proof. revert g. induction t as [|[c r] t IH]; simpl; auto. Qed.

Lemma latch_issues {A} (p : M A) s t c :
  msafe m p s false (λ _ _ _, True) → issues (p s) t c → guarded c = true →
  ∃ e, In e t ∧ trigger e = true.
Proof.
  intros Hs Hi Hg. pose proof (safe_issues m _ _ _ _ _ Hi (latch_assumed t false) Hs Hg) as Ho.
  apply latch_observe_all in Ho as [?|?]; [done|auto].
Qed.

Lemma latch_finishes {A} (p : M A) s t r s' (R : res A → Prop) :
  msafe m p s false (λ r _ g, R r → g = true) → finishes (p s) t (r, s') → R r →
  ∃ e, In e t ∧ trigger e = true.
Proof.
  intros Hs Hf HR.
  pose proof (safe_finishes m _ _ _ _ _ Hf (latch_assumed t false) Hs HR) as Ho.
  apply latch_observe_all in Ho as [?|?]; [done|auto].
Qed.
End latch.

(** ** At most one guarded call, after a triggering event

    The ghost state tells whether the trigger fired and whether the guarded call
    was made. *)

Definition single (trigger : event → bool) (guarded : call → bool) : monitor := {|
    ghost := bool * bool;
    allowed g c := guarded c = true → g = (true, false);
    assumed _ _ _ := True;
    observe c r g := (fst g || trigger (Ev c r), snd g || guarded c)
  |}.

Section single.
Context (trigger : event → bool) (guarded : call → bool).
Let m := single trigger guarded.

Lemma single_unguarded {A} (p : M A) s (g : bool * bool) (Q : res A → patch → bool * bool → Prop) :
  footprint (λ c, guarded c = false) p →
  (∀ r s' g', (fst g = true → fst g' = true) → snd g' = snd g → Q r s' g') →
  msafe m p s g Q.
Proof.
  intros Hf HQ. specialize (Hf s). unfold msafe. revert g Hf HQ.
  induction (p s) as [[r s']|c k IH]; simpl; intros g Hf HQ; [by apply HQ|].
  destruct Hf as [Hc Hk]. split; [congruence|]. intros r _. apply IH; [done|]. simpl.
  intros r' s' g' H1 H2. apply HQ; [intros Hg; apply H1; by rewrite Hg|].
  by rewrite H2, Hc, orb_false_r.
Qed.

Lemma single_covers :
  (∀ c, benign c → guarded c = false) → (∀ c r, benign c → trigger (Ev c r) = false) →
  covers (quiet m).
Proof.
  intros Hg Ht c Hb g. split.
  - intros Hc. rewrite Hg in Hc; done.
  - intros r. simpl. rewrite (Ht _ _ Hb), (Hg _ Hb), !orb_false_r. by destruct g.
Qed.

Lemma single_observe_all t g g' :
  observe_all m t g = g' →
  (fst g' = true → fst g = true ∨ ∃ e, In e t ∧ trigger e = true) ∧
  (snd g' = false → snd g = false ∧ Forall (λ '(Ev c _), guarded c = false) t).
Proof.
  revert g. induction t as [|[c r] t IH]; simpl; intros g; [intros ->; auto|].
  intros [H1 H2]%IH. simpl in *. split.
  - intros [Hg|(e & He & Ht)]%H1; [|eauto].
    apply orb_true_iff in Hg as [Hg|Hg]; eauto.
  - intros [Hg Ht]%H2. apply orb_false_iff in Hg as [Hg Hc]. auto.
Qed.

Lemma single_issues {A} (p : M A) s t c :
  msafe m p s (false, false) (λ _ _ _, True) → issues (p s) t c → guarded c = true →
  (∃ e, In e t ∧ trigger e = true) ∧ Forall (λ '(Ev c _), guarded c = false) t.
Proof.
  intros Hs Hi Hg.
  assert (Ha : assumed_all m t (false, false)).
  { generalize (false, false). clear. induction t as [|[c r] t IH]; simpl; auto. }
  pose proof (safe_issues m _ _ _ _ _ Hi Ha Hs Hg) as Ho.
  destruct (single_observe_all _ _ _ Ho) as [H1 H2].
  destruct (H1 eq_refl) as [?|?]; [done|]. by destruct (H2 eq_refl).
Qed.
End single.

(** ** Histories: a call judged by everything that happened before it

    The ghost state is the reversed trace, most recent event first. *)

Definition history (ok : list event → call → Prop) : monitor := {|
    ghost := list event;
    allowed h c := ok h c;
    assumed _ _ _ := True;
    observe c r h := Ev c r :: h
  |}.

Section history.
Context (ok : list event → call → Prop).

Lemma history_observe_all t h : observe_all (history ok) t h = rev t ++ h.
Proof.
  revert h. induction t as [|[c r] t IH]; simpl; intros h; [done|].
  rewrite IH. by rewrite <- app_assoc.
Qed.

Lemma history_assumed t h : assumed_all (history ok) t h.
Proof. revert h. induction t as [|[c r] t IH]; simpl; auto. Qed.

Lemma history_issues {A} (p : M A) s t c :
  msafe (history ok) p s [] (λ _ _ _, True) → issues (p s) t c → ok (rev t) c.
Proof.
  intros Hs Hi. pose proof (safe_issues _ _ _ _ _ _ Hi (history_assumed t []) Hs) as Ha.
  by rewrite history_observe_all, app_nil_r in Ha.
Qed.

Lemma history_finishes {A} (p : M A) s t r s' (Q : res A → patch → list event → Prop) :
  msafe (history ok) p s [] Q → finishes (p s) t (r, s') → Q r s' (rev t).
Proof.
  intros Hs Hf. pose proof (safe_finishes _ _ _ _ _ _ Hf (history_assumed t []) Hs) as Ha.
  by rewrite history_observe_all, app_nil_r in Ha.
Qed.

(** Code none of whose calls is guarded only lengthens the history. *)
Lemma history_free {A} (p : M A) s h (Q : res A → patch → list event → Prop) :
  footprint (λ c, ∀ h, ok h c) p → (∀ r s' h', Q r s' h') → msafe (history ok) p s h Q.
Proof.
  intros Hf HQ. specialize (Hf s). unfold msafe. revert h.
  induction (p s) as [[r s']|c k IH]; simpl; intros h; [apply HQ|].
  destruct Hf as [Hc Hk]. split; [apply Hc|]. intros r _. by apply IH.
Qed.

(** The rule that also remembers what the calls were. *)
Lemma history_calls {A} (P : call → Prop) (p : M A) s h (Q : res A → patch → list event → Prop) :
  footprint P p → (∀ c, P c → ∀ h, ok h c) →
  (∀ r s' t, Forall (λ '(Ev c _), P c) t → Q r s' (t ++ h)) → msafe (history ok) p s h Q.
Proof.
  intros Hf HP. specialize (Hf s). unfold msafe. revert h.
  induction (p s) as [[r s']|c k IH]; simpl; intros h HQ; [by apply (HQ _ _ [])|].
  destruct Hf as [Hc Hk]. split; [by apply HP|]. intros r _. apply IH; [done|].
  intros r' s' t Ht. change (Ev c r :: h) with ([Ev c r] ++ h). rewrite app_assoc. apply HQ.
  apply Forall_app. by split; [|constructor].
Qed.

(** *** What is known when a program returns; an exception ends the story *)

Definition yields {A} (p : M A) s h (R : A → list event → Prop) : Prop :=
  msafe (history ok) p s h (λ r _ h', ∀ a, r = Ok a → R a h').

Lemma yields_mono {A} (p : M A) s h (R R' : A → list event → Prop) :
  yields p s h R → (∀ a h', R a h' → R' a h') → yields p s h R'.
Proof. intros Hp HR. eapply msafe_mono; [exact Hp|]. intros r s' h' Hr a ->. by apply HR, Hr. Qed.

Lemma yields_any {A} (p : M A) s h R : yields p s h R → msafe (history ok) p s h (λ _ _ _, True).
Proof. intros Hp. eapply msafe_mono; [exact Hp|]. by intros. Qed.

Lemma yields_ret {A} (a : A) s h (R : A → list event → Prop) : R a h → yields (mret a) s h R.
Proof. intros Ha. by intros ? [= <-]. Qed.

Lemma yields_raise {A} e s h (R : A → list event → Prop) : yields (raise e) s h R.
Proof. by intros ? ?. Qed.

Lemma yields_lift {A} (r : res A) s h (R : A → list event → Prop) :
  (∀ a, r = Ok a → R a h) → yields (lift r) s h R.
Proof. done. Qed.

Lemma yields_bind {A B} (p : M A) (f : A → M B) s h R R' :
  yields p s h R → (∀ a s' h', R a h' → yields (f a) s' h' R') → yields (mbind f p) s h R'.
Proof.
  intros Hp Hf. apply msafe_bind. eapply msafe_mono; [exact Hp|].
  intros [a|e] s' h' Ha; [|done]. by apply Hf, Ha.
Qed.

Lemma yields_bind_lift {A B} (r : res A) (f : A → M B) s h R :
  (∀ a, r = Ok a → yields (f a) s h R) → yields (mbind f (lift r)) s h R.
Proof. intros Hf. apply msafe_bind, msafe_lift. destruct r; [by apply Hf|done]. Qed.

Lemma yields_try {A} (p : M A) clauses s h (R : A → list event → Prop) :
  msafe (history ok) p s h (λ r s' h', match r with
    | Ok a => R a h'
    | Err e => ∀ p', clauses e = Some p' → yields p' s' h' R
    end) →
  yields (try_except p clauses) s h R.
Proof.
  intros Hp. apply msafe_try. eapply msafe_mono; [exact Hp|].
  intros [a|e] s' h' Ha; [by intros ? [= <-]|]. destruct (clauses e); [by apply Ha|done].
Qed.

Lemma yields_perform c s h (R : reply c → list event → Prop) :
  ok h c → (∀ r, R r (Ev c r :: h)) → yields (perform c) s h R.
Proof. intros Hok HR. apply msafe_perform; [done|]. by intros r _ ? [= <-]. Qed.

Lemma yields_attempt {A} c (conv : reply c → res A) s h (R : A → list event → Prop) :
  ok h c → (∀ r a, conv r = Ok a → R a (Ev c r :: h)) → yields (attempt_call c conv) s h R.
Proof. intros Hok HR. apply msafe_attempt; [done|]. intros r _ a Ha. by apply HR. Qed.
End history.

(** A judgement may use what is already known of the history, once and for all. *)
Lemma history_under {A} (ok ok' : list event → call → Prop) (known : list event → Prop) (p : M A) s h
    (Q : res A → patch → list event → Prop) :
  (∀ h e, known h → known (e :: h)) → (∀ h c, known h → ok h c → ok' h c) →
  known h → msafe (history ok) p s h Q → msafe (history ok') p s h Q.
Proof.
  intros Hcons Hok. unfold msafe. revert h.
  induction (p s) as [a|c k IH]; simpl; intros h Hh; [done|].
  intros [Hc Hk]. split; [by apply Hok|]. intros r Hr. apply IH; [by apply Hcons|by apply Hk].
Qed.

(** A judgement may use what calls the program makes at all. *)
Lemma history_narrow {A} (ok ok' : list event → call → Prop) (P : call → Prop) (p : M A) s h
    (Q : res A → patch → list event → Prop) :
  (∀ h c, ok h c → P c → ok' h c) → footprint P p →
  msafe (history ok) p s h Q → msafe (history ok') p s h Q.
Proof.
  intros Hok Hf. specialize (Hf s). unfold msafe. revert h.
  induction (p s) as [a|c k IH]; simpl; intros h; [done|].
  destruct Hf as [Hc Hk]. intros [Ha Hs]. split; [by apply Hok|]. intros r Hr. by apply IH, Hs.
Qed.

(** ** Partial correctness: what every finished run returns *)

Definition any_run : monitor := {|
    ghost := unit; allowed _ _ := True; assumed _ _ _ := True; observe _ _ _ := tt
  |}.

Definition returns {A} (p : M A) (s : patch) (Q : res A → patch → Prop) : Prop :=
  ∀ t r s', finishes (p s) t (r, s') → Q r s'.

Lemma returns_msafe {A} (p : M A) s (Q : res A → patch → Prop) :
  msafe any_run p s tt (λ r s' _, Q r s') → returns p s Q.
Proof.
  intros Hs t r s' Hf.
  refine (safe_finishes any_run _ _ _ tt _ Hf _ Hs).
  clear. induction t as [|[c r] t IH]; simpl; auto.
Qed.

Lemma quiet_any_run c : quiet any_run c.
Proof. intros []; split; done. Qed.

Lemma any_run_msafe {A} (p : M A) s (Q : res A → patch → unit → Prop) :
  (∀ r s', Q r s' tt) → msafe any_run p s tt Q.
Proof.
  intros HQ. unfold msafe. induction (p s) as [[r s']|c k IH]; simpl; [apply HQ|].
  split; [done|]. intros r _. apply IH.
Qed.

(** A postcondition for every [x] is one for all of them. *)
Lemma any_run_forall {A X} (p : M A) s (Q : X → res A → patch → unit → Prop) :
  (∀ x, msafe any_run p s tt (Q x)) → msafe any_run p s tt (λ r s' g, ∀ x, Q x r s' g).
Proof.
  unfold msafe. induction (p s) as [a|c k IH]; simpl; intros Hx; [done|].
  split; [done|]. intros r _. apply IH. intros x. by apply Hx.
Qed.

(** What a program can return, whatever the replies. *)
Definition values {A} (p : M A) (R : A → Prop) : Prop :=
  ∀ s, msafe any_run p s tt (λ r _ _, ∀ a, r = Ok a → R a).

Lemma values_ret {A} (a : A) (R : A → Prop) : R a → values (mret a) R.
Proof. intros Ha s. by intros ? [= <-]. Qed.

Lemma values_any {A} (p : M A) (R : A → Prop) : (∀ a, R a) → values p R.
Proof. intros HR s. apply any_run_msafe. auto. Qed.

Lemma values_bind {A B} (p : M A) (f : A → M B) R : (∀ a, values (f a) R) → values (mbind f p) R.
Proof.
  intros Hf s. apply msafe_bind, any_run_msafe. intros [a|e] s'; [apply Hf|done].
Qed.

Lemma values_bind_post {A B} (p : M A) (f : A → M B) R R' :
  values p R → (∀ a, R a → values (f a) R') → values (mbind f p) R'.
Proof.
  intros Hp Hf s. apply msafe_bind. eapply msafe_mono; [apply Hp|].
  intros [a|e] s' [] Ha; [|done]. by apply Hf, Ha.
Qed.

(** [footprint_bind] where the continuation relies on what was returned. *)
Lemma footprint_bind_values {A B} P (p : M A) (f : A → M B) R :
  footprint P p → values p R → (∀ a, R a → footprint P (f a)) → footprint P (mbind f p).
Proof.
  intros Hp Hv Hf s. specialize (Hp s). specialize (Hv s).
  unfold msafe in Hv. unfold mbind, M_bind.
  induction (p s) as [[[a|e] s']|c k IH]; simpl in *.
  - by apply Hf, Hv.
  - done.
  - destruct Hp as [Hc Hk]. split; [done|]. intros r. by apply IH, Hv.
Qed.

(** A quiet program under a monitor, knowing what it can return. *)
Lemma msafe_values {A} m (p : M A) (R : A → Prop) s g (Q : res A → patch → ghost m → Prop) :
  footprint (quiet m) p → values p R →
  (∀ e s', Q (Err e) s' g) → (∀ a s', R a → Q (Ok a) s' g) →
  msafe m p s g Q.
Proof.
  intros Hf Hv He Ho. specialize (Hf s). specialize (Hv s). unfold msafe in *.
  induction (p s) as [[[a|e] s']|c k IH]; simpl in *.
  - by apply Ho, Hv.
  - apply He.
  - destruct Hf as [Hc Hk], Hv as [_ Hv]. destruct (Hc g) as [Ha Hob].
    split; [done|]. intros r _. rewrite Hob. by apply IH, Hv.
Qed.

(** Adds what is known of the returned value. *)
Lemma msafe_with_values {A} m (p : M A) (R : A → Prop) s g (Q : res A → patch → ghost m → Prop) :
  values p R → msafe m p s g Q →
  msafe m p s g (λ r s' g', (∀ a, r = Ok a → R a) ∧ Q r s' g').
Proof.
  intros Hv. specialize (Hv s). unfold msafe in *. revert g.
  induction (p s) as [[r s']|c k IH]; simpl in *; intros g; [by split|].
  intros [Ha Hk]. split; [done|]. intros r Hr. apply IH; [by apply Hv|by apply Hk].
Qed.

(** A [try_except] whose clauses only raise other exceptions. *)
Lemma msafe_try_raise {A} m (p : M A) h s g (Q : res A → patch → ghost m → Prop) :
  (∀ e p', h e = Some p' → ∃ e', p' = raise e') →
  msafe m p s g (λ r s' g', match r with
                            | Ok a => Q (Ok a) s' g'
                            | Err _ => ∀ e, Q (Err e) s' g'
                            end) →
  msafe m (try_except p h) s g Q.
Proof.
  intros Hh Hp. apply msafe_try. eapply msafe_mono; [exact Hp|].
  intros [a|e] s' g' Hq; [done|]. destruct (h e) as [p'|] eqn:E; [|done].
  destruct (Hh _ _ E) as [e' ->]. by apply msafe_raise.
Qed.

(** ** Histories that only record *)

Abbreviation observed := (history (λ _ _, True)).

Lemma any_observed {A} (p : M A) s h (Q : res A → patch → list event → Prop) :
  (∀ r s' t, Q r s' (t ++ h)) → msafe observed p s h Q.
Proof.
  intros HQ. apply (history_calls _ (λ _, True)); [|done|by intros].
  intros s'. induction (p s') as [a|c k IH]; simpl; [done|]. split; [done|]. intros r. apply IH.
Qed.

Lemma any_run_observed {A} (p : M A) s h (Q : res A → patch → Prop) :
  msafe any_run p s tt (λ r s' _, Q r s') →
  msafe observed p s h (λ r s' h', Q r s' ∧ ∃ t, h' = t ++ h).
Proof.
  unfold msafe. revert h. induction (p s) as [[r s']|c k IH]; simpl; intros h.
  - intros HQ. split; [done|]. by exists [].
  - intros [_ Hk]. split; [done|]. intros r _. eapply safe_mono; [by apply IH, Hk|].
    intros [r' s'] h' [HQ [t ->]]. split; [done|]. exists (t ++ [Ev c r]). by rewrite <- app_assoc.
Qed.

(** An event once observed stays observed. *)
Lemma yields_keep {A} (p : M A) s h (P : event → Prop) :
  Exists P h → yields (λ _ _, True) p s h (λ _ h', Exists P h').
Proof. intros Hh. apply any_observed. intros r s' t a _. apply Exists_app. by right. Qed.

Lemma yields_finally {A} (p : M A) f s h (R : A → list event → Prop) :
  (∀ a h t, R a h → R a (t ++ h)) →
  yields (λ _ _, True) p s h R → yields (λ _ _, True) (try_finally p f) s h R.
Proof.
  intros HR Hp. apply msafe_finally. eapply msafe_mono; [exact Hp|]. intros r s' h' Hr.
  apply any_observed. intros [[]|e] s'' t a Ha; [|done]. by apply HR, Hr.
Qed.

(** Code before the part that matters. *)
Lemma yields_after {A B} (p : M A) (f : A → M B) s h (R : B → list event → Prop) :
  (∀ a s h, yields (λ _ _, True) (f a) s h R) → yields (λ _ _, True) (mbind f p) s h R.
Proof.
  intros Hf. apply (yields_bind _ _ _ _ _ (λ _ _, True)); [by apply any_observed|]. auto.
Qed.

(** ** Security: safe from any state of the monitor *)

Definition secure {A} (m : monitor) (p : M A) : Prop := ∀ s g, msafe m p s g (λ _ _ _, True).

Section secure.
Context (m : monitor).

Lemma secure_ret {A} (a : A) : secure m (mret a).
Proof. done. Qed.
Lemma secure_raise {A} e : secure m (raise e : M A).
Proof. done. Qed.
Lemma secure_lift {A} (r : res A) : secure m (lift r).
Proof. done. Qed.
Lemma secure_bind {A B} (p : M A) (f : A → M B) :
  secure m p → (∀ a, secure m (f a)) → secure m (mbind f p).
Proof.
  intros Hp Hf s g. apply msafe_bind. eapply msafe_mono; [apply Hp|]. intros [a|e] s' g' _; [apply Hf|done].
Qed.
Lemma secure_bind_lift {A B} (r : res A) (f : A → M B) :
  (∀ a, r = Ok a → secure m (f a)) → secure m (mbind f (lift r)).
Proof. intros Hf s g. apply msafe_bind, msafe_lift. destruct r; [by apply Hf|done]. Qed.
Lemma secure_try {A} (p : M A) h :
  secure m p → (∀ e p', h e = Some p' → secure m p') → secure m (try_except p h).
Proof.
  intros Hp Hh s g. apply msafe_try. eapply msafe_mono; [apply Hp|]. intros [a|e] s' g' _; [done|].
  destruct (h e) eqn:E; [by apply (Hh e)|done].
Qed.
Lemma secure_except {A} (p : M A) h :
  secure m p → (∀ e, secure m (h e)) → secure m (except_Exception p h).
Proof.
  intros Hp Hh. apply secure_try; [done|]. intros e p'. destruct (is_Exception e); [|done].
  intros [= <-]. apply Hh.
Qed.
Lemma secure_finally {A} (p : M A) f : secure m p → secure m f → secure m (try_finally p f).
Proof.
  intros Hp Hf s g. apply msafe_finally. eapply msafe_mono; [apply Hp|]. intros r s' g' _.
  eapply msafe_mono; [apply Hf|]. by intros [] ? ?.
Qed.
Lemma secure_outcome {A} (p : M A) : secure m p → secure m (outcome p).
Proof. intros Hp s g. apply msafe_outcome. eapply msafe_mono; [apply Hp|done]. Qed.
Lemma secure_get_patch : secure m get_patch.
Proof. done. Qed.
Lemma secure_put_patch s : secure m (put_patch s).
Proof. done. Qed.
Lemma secure_perform c : (∀ g, allowed m g c) → secure m (perform c).
Proof. intros Hc s g. by apply msafe_perform. Qed.
Lemma secure_api t op : (∀ g, allowed m g (Api t op)) → secure m (api_call t op).
Proof. intros Hc s g. by apply msafe_api. Qed.
Lemma secure_attempt {A} c (conv : reply c → res A) : (∀ g, allowed m g c) → secure m (attempt_call c conv).
Proof. intros Hc s g. by apply msafe_attempt. Qed.
(** Code that makes no guarded call. *)
Lemma secure_footprint {A} (p : M A) : footprint (λ c, ∀ g, allowed m g c) p → secure m p.
Proof.
  intros Hf s g. specialize (Hf s). unfold msafe. revert g.
  induction (p s) as [a|c k IH]; simpl; intros g; [done|].
  destruct Hf as [Hc Hk]. split; [apply Hc|]. intros r _. by apply IH.
Qed.
End secure.

#[export] Hint Resolve secure_ret secure_raise secure_lift : capi.

Lemma secure_latch_open {A} trigger guarded (p : M A) s :
  msafe (latch trigger guarded) p s true (λ _ _ _, True).
Proof. by apply latch_open. Qed.

Ltac head_of t := lazymatch t with ?f _ => head_of f | _ => t end.

(** Walks a program's syntax; leaves the parts that are neither pure nor unguarded. *)
Ltac secure_step :=
  first
    [ assumption
    | lazymatch goal with
      | |- ∀ _, _ => intro
      | |- secure _ (mbind _ _) => apply secure_bind
      | |- secure _ (except_Exception _ _) => apply secure_except
      | |- secure _ (try_finally _ _) => apply secure_finally
      | |- secure _ (outcome _) => apply secure_outcome
      | |- secure _ (let _ := _ in _) => cbv zeta
      | |- secure _ (match ?x with _ => _ end) => destruct x
      end
    | solve [auto with capi nocore] ].

(** ** Symbolic execution *)

(** One step of a goal [msafe m p s g Q] by the rule of [p]'s head. *)
Ltac msafe_step :=
  lazymatch goal with
  | |- msafe _ (mbind _ _) _ _ _ => apply msafe_bind
  | |- msafe _ (mret _) _ _ _ => apply msafe_ret
  | |- msafe _ (raise _) _ _ _ => apply msafe_raise
  | |- msafe _ (lift _) _ _ _ => apply msafe_lift
  | |- msafe _ get_patch _ _ _ => apply msafe_get_patch
  | |- msafe _ (put_patch _) _ _ _ => apply msafe_put_patch
  | |- msafe _ (try_except _ _) _ _ _ => apply msafe_try
  | |- msafe _ (except_Exception _ _) _ _ _ => apply msafe_except
  | |- msafe _ (try_finally _ _) _ _ _ => apply msafe_finally
  | |- msafe _ (outcome _) _ _ _ => apply msafe_outcome
  | |- msafe _ (match ?x with _ => _ end) _ _ _ =>
      let E := fresh "E" in destruct x eqn:E
  | |- match ?x with _ => _ end => let E := fresh "E" in destruct x eqn:E
  end.

(** Footprints of code that only makes benign calls, given [covers P]. *)
Ltac benign_call :=
  match goal with
  | HP : covers ?P |- ?P _ => apply HP; exact I
  end.

(** The clauses of a [try_except]. *)
Ltac fp_handler :=
  lazymatch goal with
  | |- footprint _ (try_except _ _) =>
      apply footprint_try;
      [| let e := fresh "e" in let p' := fresh "p" in let He := fresh "He" in
         intros e p' He; destruct e; simplify_eq He;
         try (intros <-); repeat case_match; simplify_eq ]
  end.
