(* ===== verification/ApiIO.v ===== *)
(** api_io.py: bounded, cancellation-safe execution of Kubernetes SDK calls. *)

From S2P Require Import Prelude Py Effects Monitors.

Definition API_TIMEOUT : Z * Z := (5, 10)%Z.

(** [except (HTTPError, OSError)]: [TimeoutError] is an [OSError]. *)
Definition is_transport (e : exn) : bool :=
  match e with HTTPError _ | OSError _ | TimeoutError _ => true | _ => false end.

Definition transport_failed : exn :=
  TemporaryError "Kubernetes API transport failed; retrying reconciliation" 15.

Definition request (op : api_op) : M (api_answer op) :=
  try_except (api_call API_TIMEOUT op) (λ e,
    if is_transport e then Some (raise transport_failed) else None).

(** [APIExecutor.run]: waiting for a slot can be cancelled; submitted work is
    drained, and a cancellation that arrived meanwhile then replaces its outcome. *)
Definition run_api {A} (function : M A) : M A :=
  waiting ← perform Await;
  if (waiting : bool) then raise CancelledError else
  r ← outcome function;
  cancelled ← perform Await;
  if (cancelled : bool) then raise CancelledError else
  lift r.

(** The second executor serves Lease renewals; it runs functions the same way. *)
Definition run_coordination {A} (function : M A) : M A := run_api function.

(** ** Laws *)

(** What [request] raises is never a transport exception. *)
Lemma msafe_request m op s g Q :
  allowed m g (Api API_TIMEOUT op) →
  (∀ r : res (api_answer op), assumed m g (Api API_TIMEOUT op) r →
     match r with
     | Ok a => Q (Ok a) s (observe m (Api API_TIMEOUT op) r g)
     | Err e => if is_transport e
                then Q (Err transport_failed) s (observe m (Api API_TIMEOUT op) r g)
                else Q (Err e) s (observe m (Api API_TIMEOUT op) r g)
     end) →
  msafe m (request op) s g Q.
Proof.
  intros Ha Hr. apply msafe_try, msafe_api; [exact Ha|]. intros [a|e] Hx; specialize (Hr _ Hx); [done|].
  simpl in Hr. destruct (is_transport e); exact Hr.
Qed.

Lemma footprint_request P op : P (Api API_TIMEOUT op) → footprint P (request op).
Proof.
  intros H. apply footprint_try; [by apply footprint_api|].
  intros e p'. destruct (is_transport e); [|done]. intros [= <-]. apply footprint_raise.
Qed.

Lemma footprint_run_api {A} P (f : M A) : P Await → footprint P f → footprint P (run_api f).
Proof. intros Ha Hf. unfold run_api. footprint; done. Qed.

Lemma msafe_run_api {A} m (f : M A) s g Q :
  quiet m Await →
  msafe m f s g (λ r s' g', Q r s' g' ∧ Q (Err CancelledError) s' g') →
  Q (Err CancelledError) s g →
  msafe m (run_api f) s g Q.
Proof.
  intros Hq Hf Hc. apply msafe_bind, msafe_perform; [apply Hq|]. intros w _.
  destruct (Hq g) as [_ ->]. destruct w; [done|].
  apply msafe_bind, msafe_outcome. eapply msafe_mono; [exact Hf|]. intros r s' g' [Hr Hr'].
  apply msafe_bind, msafe_perform; [apply Hq|]. intros c _.
  destruct (Hq g') as [_ ->]. by destruct c.
Qed.

Ltac fp_api :=
  lazymatch goal with
  | |- footprint ?P (request ?op) =>
      change (@footprint (api_answer op) P (request op)); apply footprint_request
  | |- footprint _ (run_api _) => apply footprint_run_api
  | |- footprint _ (run_coordination _) => apply footprint_run_api
  end.

(** Establishes a footprint up to the calls that are not benign. *)
Ltac fp := repeat first [ benign_call | footprint_step | fp_api | fp_handler ].

(** Steps through a bind whose first part is a pure result, or quiet code. *)
Ltac bind_lift :=
  apply msafe_bind; apply msafe_lift;
  lazymatch goal with
  | |- match ?r with Ok _ => _ | Err _ => _ end => let E := fresh "Hr" in destruct r eqn:E
  end.

(** The branches of the conditional at the head of the program. *)
Ltac split_if :=
  lazymatch goal with
  | |- msafe _ (if ?b then _ else _) _ _ _ => let E := fresh "Hb" in destruct b eqn:E
  end.
Ltac bind_quiet :=
  apply msafe_bind; apply quiet_msafe; [solve [fp; eauto with capi]|intros [?|?] ?].
