(* ===== verification/ApiPool.v ===== *)
(** api_io.py, [APIExecutor]: the calls of one executor on one event loop, as a step
    relation between the event loop, its callers and the worker threads.  [run_api] of
    [ApiIO] is what one caller sees of it.  A function returns or raises an [Exception];
    its future is cancelled by nobody, being shielded. *)

From stdpp Require Import gmap.
From S2P Require Import Prelude Py Asyncio.
Open Scope nat_scope.

Section executor.
Context {A : Type} (workers : nat).

(** ** State *)

(** A submitted function: it runs, it ended, or it ended and the event loop has set its
    future ([future.done()]). *)
Inductive thread := Running | Finished (r : res A) | Told (r : res A).

(** What a caller suspended on the shielded future will find when it goes on: nothing
    yet, the future's outcome, or a cancellation. *)
Inductive shielded := Sleeping | Notified | Interrupted.

(** A call of [run]: in [async with slots] ([true] once it was cancelled after its future
    was woken), in the loop with the variable [cancelled], or ended. *)
Inductive caller :=
| Queued (must_cancel : bool)
| Draining (shield : shielded) (cancelled : bool)
| Ended (outcome : res A).

Record executor := Executor {
  slots : semaphore;
  callers : gmap nat caller;
  threads : gmap nat thread
}.

Definition idle_executor : executor := Executor (Semaphore workers []) ∅ ∅.

(** ** Steps *)

Definition with_caller (st : executor) (i : nat) (c : caller) : executor :=
  Executor (slots st) (<[i := c]> (callers st)) (threads st).
Definition with_slots (st : executor) (s : semaphore) : executor := Executor s (callers st) (threads st).
Definition with_thread (st : executor) (i : nat) (t : thread) : executor :=
  Executor (slots st) (callers st) (<[i := t]> (threads st)).

(** [run_in_executor], up to the first [await asyncio.shield(future)]. *)
Definition submit (st : executor) (i : nat) : executor :=
  with_thread (with_caller st i (Draining Sleeping false)) i Running.

(** A new call up to its first suspension. *)
Definition run_call (st : executor) (i : nat) : executor :=
  if sem_locked (slots st)
  then with_caller (with_slots st (sem_enqueue (slots st) i)) i (Queued false)
  else submit (with_slots st (sem_take (slots st))) i.

(** [return] or [raise] out of [async with slots]. *)
Definition leave_slots (st : executor) (i : nat) (outcome : res A) : executor :=
  with_caller (with_slots st (sem_release (slots st))) i (Ended outcome).

(** The loop's body after [await asyncio.shield(future)]. *)
Definition wake_up (st : executor) (i : nat) (shield : shielded) (cancelled : bool) : option executor :=
  match shield, threads st !! i with
  | Interrupted, Some (Told _) => Some (leave_slots st i (Err CancelledError))
  | Interrupted, _ => Some (with_caller st i (Draining Sleeping true))
  | Notified, Some (Told r) => Some (leave_slots st i (if cancelled then Err CancelledError else r))
  | _, _ => None
  end.

Inductive pool_step (st : executor) : executor → Prop :=
| pool_call i : callers st !! i = None → pool_step st (run_call st i)
| pool_enter i :
    callers st !! i = Some (Queued false) → (i, Woken) ∈ queue (slots st) →
    pool_step st (submit (with_slots st (sem_leave (slots st) i false)) i)
| pool_cancel_queued i mc f :
    callers st !! i = Some (Queued mc) → (i, f) ∈ queue (slots st) →
    pool_step st (with_caller (with_slots st (sem_cancel (slots st) i)) i (Queued (if f is Woken then true else mc)))
| pool_give_up i mc f :
    callers st !! i = Some (Queued mc) → (i, f) ∈ queue (slots st) →
    f = FutureCancelled ∨ f = Woken ∧ mc = true →
    pool_step st (with_caller (with_slots st (sem_leave (slots st) i (is_woken f))) i (Ended (Err CancelledError)))
| pool_thread_ends i r : threads st !! i = Some Running → pool_step st (with_thread st i (Finished r))
| pool_told i r : threads st !! i = Some (Finished r) → pool_step st (with_thread st i (Told r))
| pool_notify i c r :
    callers st !! i = Some (Draining Sleeping c) → threads st !! i = Some (Told r) →
    pool_step st (with_caller st i (Draining Notified c))
| pool_cancel i w c :
    callers st !! i = Some (Draining w c) → pool_step st (with_caller st i (Draining Interrupted c))
| pool_wake_up i w c st' :
    callers st !! i = Some (Draining w c) → wake_up st i w c = Some st' → pool_step st st'.

Definition pool_reachable (st : executor) : Prop := rtc pool_step idle_executor st.

(** ** Counting *)

Definition is_draining (c : caller) : bool := if c is Draining _ _ then true else false.
Definition is_running (t : thread) : bool := if t is Running then true else false.

End executor.

Arguments caller : clear implicits.
Arguments thread : clear implicits.
Arguments executor : clear implicits.

Section counting.
Context {V : Type} (P : V → bool).

(** How many entries of a map satisfy a test. *)
Definition tally (m : gmap nat V) : nat := size (filter (λ kv, P kv.2 = true) m).

Lemma tally_insert_new m i x : m !! i = None → tally (<[i := x]> m) = tally m + (if P x then 1 else 0).
Proof.
  intros Hi. unfold tally. destruct (P x) eqn:E.
  - rewrite map_filter_insert_True, map_size_insert_None by (done || by apply map_lookup_filter_None; left). lia.
  - rewrite map_filter_insert_False by (simpl; congruence). rewrite delete_id by done. lia.
Qed.

Lemma tally_insert m i x y :
  m !! i = Some y → tally (<[i := x]> m) + (if P y then 1 else 0) = tally m + (if P x then 1 else 0).
Proof.
  intros Hi. rewrite <- insert_delete_eq. rewrite tally_insert_new by apply lookup_delete_eq.
  rewrite <- (insert_delete_id m i y) at 2 by done. rewrite tally_insert_new by apply lookup_delete_eq. lia.
Qed.
End counting.

Lemma tally_le {V W} (P : V → bool) (Q : W → bool) (m : gmap nat V) (m' : gmap nat W) :
  (∀ i x, m !! i = Some x → P x = true → ∃ y, m' !! i = Some y ∧ Q y = true) → tally P m ≤ tally Q m'.
Proof.
  intros H. unfold tally. rewrite <- !size_dom. apply subseteq_size. intros i Hi.
  apply elem_of_dom in Hi as [x [Hx Hp]%map_lookup_filter_Some]. destruct (H i x Hx Hp) as (y & Hy & Hq).
  apply elem_of_dom. exists y. by apply map_lookup_filter_Some.
Qed.

Lemma tally_or_empty {V} (P : V → bool) (m : gmap nat V) : (∃ i x, m !! i = Some x ∧ P x = true) ∨ tally P m = 0.
Proof.
  unfold tally. destruct (map_choose_or_empty (filter (λ kv, P kv.2 = true) m)) as [(i & x & Hx)|He].
  - apply map_lookup_filter_Some in Hx. left. by exists i, x.
  - right. by rewrite He.
Qed.

Lemma woken_or_none q : (∃ j, (j, Woken) ∈ q) ∨ woken q = 0.
Proof.
  induction q as [|[j f] q [[k Hk]|IH]]; [by right|left; exists k; by right|].
  destruct f; [by right|left; exists j; left|by right].
Qed.

(** ** The invariant *)

Section invariant.
Context {A : Type} (workers : nat).
Abbreviation executor := (executor A).

Definition is_queued (c : option (caller A)) : Prop := if c is Some (Queued _) then True else False.

(** A caller and its function. *)
Definition agree (c : option (caller A)) (t : option (thread A)) : Prop :=
  match c with
  | None | Some (Queued _) => t = None
  | Some (Draining w _) =>
      match t with Some (Told _) => True | Some _ => w ≠ Notified | None => False end
  | Some (Ended o) =>
      match t with
      | None => o = Err CancelledError
      | Some (Told r) => o = r ∨ o = Err CancelledError
      | Some _ => False
      end
  end.

Record pool_ok (st : executor) : Prop := {
  pool_slots : spare (slots st) + tally is_draining (callers st) = workers;
  pool_served : served (slots st);
  pool_nodup : NoDup (map fst (queue (slots st)));
  pool_queued : ∀ i, i ∈ map fst (queue (slots st)) ↔ is_queued (callers st !! i);
  pool_agree : ∀ i, agree (callers st !! i) (threads st !! i)
}.

(** The state of the caller [i], its function and the slots change. *)
Lemma pool_update (st : executor) i c (t : option (thread A)) s :
  pool_ok st →
  spare s + tally is_draining (<[i := c]> (callers st)) = workers → served s → NoDup (map fst (queue s)) →
  (∀ j, j ∈ map fst (queue s) ↔ if decide (j = i) then is_queued (Some c) else j ∈ map fst (queue (slots st))) →
  agree (Some c) (if t is Some _ then t else threads st !! i) →
  pool_ok (Executor s (<[i := c]> (callers st)) (if t is Some t then <[i := t]> (threads st) else threads st)).
Proof.
  intros Hok Hs Hserved Hn Hq Ha. split; simpl; [done..| |].
  - intros j. rewrite Hq. destruct (decide (j = i)) as [->|Hne]; [by rewrite lookup_insert_eq|].
    rewrite lookup_insert_ne by done. apply Hok.
  - intros j. destruct (decide (j = i)) as [->|Hne].
    + rewrite lookup_insert_eq. destruct t; [by rewrite lookup_insert_eq|done].
    + rewrite lookup_insert_ne by done. destruct t; [rewrite lookup_insert_ne by done|]; apply Hok.
Qed.

Lemma queue_other (st : executor) i c :
  pool_ok st → ¬ is_queued (callers st !! i) → ¬ is_queued (Some c) →
  ∀ j, j ∈ map fst (queue (slots st)) ↔ if decide (j = i) then is_queued (Some c) else j ∈ map fst (queue (slots st)).
Proof.
  intros Hok Hi Hc j. destruct (decide (j = i)) as [->|]; [|done]. rewrite (pool_queued _ Hok). naive_solver.
Qed.

Lemma without_ids q i j : j ∈ map fst (without q i) ↔ j ∈ map fst q ∧ j ≠ i.
Proof.
  rewrite !list_elem_of_fmap. setoid_rewrite without_elem. naive_solver.
Qed.

Lemma without_nodup q i : NoDup (map fst q) → NoDup (map fst (without q i)).
Proof.
  induction q as [|[j f] q IH]; simpl; [done|]. intros [Hj Hn]%NoDup_cons.
  destruct (Nat.eqb_spec j i); simpl; [by apply IH|]. constructor; [|by apply IH].
  fold (without q i). rewrite without_ids. naive_solver.
Qed.

(** A waiter leaves the queue, to start its function or to raise. *)
Lemma leave_queue (st : executor) i f given_back c (t : option (thread A)) mc :
  pool_ok st → callers st !! i = Some (Queued mc) → (i, f) ∈ queue (slots st) →
  given_back && negb (is_woken f) = false →
  (if is_draining c then 1 else 0) = (if is_woken f && negb given_back then 1 else 0) →
  ¬ is_queued (Some c) → agree (Some c) t →
  pool_ok (Executor (sem_leave (slots st) i given_back) (<[i := c]> (callers st))
             (if t is Some t then <[i := t]> (threads st) else threads st)).
Proof.
  intros Hok Hi Hf Hg Hd Hc Ha.
  destruct (sem_leave_spec (slots st) i f given_back (pool_nodup _ Hok) Hf) as (Hids & Hsp & Hserved).
  { intros ->. by destruct f. }
  pose proof (tally_insert is_draining (callers st) i c _ Hi) as Ht. simpl in Ht.
  pose proof (pool_slots _ Hok) as Hs. apply pool_update; [done|lia|done|..].
  - rewrite Hids. apply without_nodup, Hok.
  - intros j. rewrite Hids, without_ids. destruct (decide (j = i)); naive_solver.
  - pose proof (pool_agree _ Hok i) as Hi'. rewrite Hi in Hi'. simpl in Hi'. destruct t; [done|by rewrite Hi'].
Qed.

(** A caller in the loop stays there. *)
Lemma stay_draining (st : executor) i w c w' c' :
  pool_ok st → callers st !! i = Some (Draining w c) → agree (Some (Draining w' c')) (threads st !! i) →
  pool_ok (with_caller st i (Draining w' c')).
Proof.
  intros Hok Hi Ha. pose proof (tally_insert is_draining (callers st) i (Draining w' c') _ Hi) as Ht. simpl in Ht.
  pose proof (pool_slots _ Hok). apply (pool_update st i (Draining w' c') None); try apply Hok; [lia| |done].
  apply queue_other; [done| |by intros []]. rewrite Hi. by intros [].
Qed.

Lemma exit_ok (st : executor) i w c o :
  pool_ok st → callers st !! i = Some (Draining w c) → agree (Some (Ended o)) (threads st !! i) → pool_ok (leave_slots st i o).
Proof.
  intros Hok Hi Ha. pose proof (tally_insert is_draining (callers st) i (Ended o) _ Hi) as Ht. simpl in Ht.
  destruct (sem_release_spec (slots st)) as (Hids & Hsp & Hserved). pose proof (pool_slots _ Hok).
  apply (pool_update st i (Ended o) None (sem_release (slots st))); rewrite ?Hids; [done|lia|done|apply Hok| |done].
  apply queue_other; [done| |by intros []]. rewrite Hi. by intros [].
Qed.

Lemma thread_step (st : executor) i t t' :
  pool_ok st → threads st !! i = Some t → (∀ c, agree c (Some t) → agree c (Some t')) → pool_ok (with_thread st i t').
Proof.
  intros Hok Hi Ha. split; simpl; try apply Hok. intros j. pose proof (pool_agree _ Hok j) as Hj.
  destruct (decide (i = j)) as [<-|]; [|by rewrite lookup_insert_ne].
  rewrite lookup_insert_eq. rewrite Hi in Hj. by apply Ha.
Qed.

Lemma run_call_ok (st : executor) i : pool_ok st → callers st !! i = None → pool_ok (run_call st i).
Proof.
  intros Hok Hi. pose proof (pool_slots _ Hok) as Hs. pose proof (pool_agree _ Hok i) as Ha. rewrite Hi in Ha.
  assert (Hq : i ∉ map fst (queue (slots st))) by (rewrite (pool_queued _ Hok), Hi; by intros []).
  unfold run_call. destruct (sem_locked (slots st)) eqn:El.
  - destruct (sem_enqueue_spec (slots st) i El (pool_served _ Hok)) as [Hsp Hserved].
    apply (pool_update st i (Queued false) None (sem_enqueue (slots st) i)); [done| |done|..].
    + rewrite tally_insert_new by done. simpl. lia.
    + simpl. rewrite map_app. apply NoDup_app. split_and!; [apply Hok| |apply NoDup_singleton].
      by intros j Hj ->%list_elem_of_singleton.
    + intros j. simpl. rewrite map_app, elem_of_app. cbn [map fst]. rewrite list_elem_of_singleton. destruct (decide (j = i)); naive_solver.
    + done.
  - destruct (sem_take_spec (slots st) El) as [Hsp Hserved].
    apply (pool_update st i (Draining Sleeping false) (Some Running) (sem_take (slots st))); [done| |done|apply Hok|..].
    + rewrite tally_insert_new by done. simpl. lia.
    + apply queue_other; [done|rewrite Hi|]; by intros [].
    + done.
Qed.

Lemma pool_step_ok (st st' : executor) : pool_ok st → pool_step st st' → pool_ok st'.
Proof.
  intros Hok Hstep. destruct Hstep as [i Hi|i Hi Hw|i mc f Hi Hf|i mc f Hi Hf Hc|i r Hi|i r Hi|i c r Hi Ht|i w c Hi|i w c st' Hi Hw].
  - by apply run_call_ok.
  - by apply (leave_queue st i Woken false (Draining Sleeping false) (Some Running) false); [..|intros []|].
  - destruct (sem_cancel_spec (slots st) i) as (Hids & Hsp & Hserved & _). pose proof (pool_slots _ Hok).
    pose proof (tally_insert is_draining (callers st) i (Queued (if f is Woken then true else mc)) _ Hi) as Ht. simpl in Ht.
    apply (pool_update st i (Queued _) None (sem_cancel (slots st) i)); rewrite ?Hids; [done|lia|apply Hserved, Hok|apply Hok|..].
    + intros j. destruct (decide (j = i)) as [->|]; [|done]. rewrite (pool_queued _ Hok), Hi. done.
    + pose proof (pool_agree _ Hok i) as Ha. by rewrite Hi in Ha.
  - apply (leave_queue st i f (is_woken f) (Ended (Err CancelledError)) None mc);
      [done|done|done|by destruct f|by destruct f|by intros []|done].
  - eapply thread_step; [done|exact Hi|]. by intros [[|w c|o]|].
  - eapply thread_step; [done|exact Hi|]. by intros [[|w c|o]|].
  - eapply stay_draining; [done..|]. by rewrite Ht.
  - pose proof (pool_agree _ Hok i) as Ha. rewrite Hi in Ha. eapply stay_draining; [done..|].
    simpl in *. by destruct (threads st !! i) as [[]|].
  - pose proof (pool_agree _ Hok i) as Ha. rewrite Hi in Ha. unfold wake_up in Hw.
    destruct w; [done|..]; destruct (threads st !! i) as [[]|] eqn:Ht; try done; injection Hw as <-;
      first [eapply exit_ok; [done..|]; rewrite Ht; simpl; by destruct c; auto
            |eapply stay_draining; [done..|]; by rewrite Ht].
Qed.

Lemma pool_reachable_ok (st : executor) : pool_reachable workers st → pool_ok st.
Proof.
  apply (rtc_ind_r pool_ok); [|intros; by eapply pool_step_ok]. split; simpl.
  - unfold spare, tally. simpl. rewrite map_filter_empty, map_size_empty. unfold woken. simpl. lia.
  - intros _ i Hi. by apply not_elem_of_nil in Hi.
  - constructor.
  - intros i. rewrite lookup_empty. split; [by intros ?%not_elem_of_nil|by intros []].
  - intros i. by rewrite !lookup_empty.
Qed.
End invariant.

(** The event loop has not yet seen the end of the function. *)
Definition in_flight {A} (t : thread A) : bool := if t is Told _ then false else true.

(** C20.  The executor of SDK calls keeps its bound and drains what it submitted, whatever
    is cancelled and whenever: in every state the event loop can reach, at most [workers]
    functions are in flight; a call has ended only without having submitted anything, by
    its cancellation, or after its function ended, with that function's outcome or with
    the cancellation; and a call waits for a slot only while another one holds a slot or
    was just handed one. *)
Theorem executor_bounded_and_drained {A} workers (st : executor A) :
  pool_reachable workers st →
  tally in_flight (threads st) ≤ workers ∧
  (∀ i o, callers st !! i = Some (Ended o) →
     match threads st !! i with
     | None => o = Err CancelledError
     | Some (Told r) => o = r ∨ o = Err CancelledError
     | Some _ => False
     end) ∧
  (0 < workers → ∀ i, (i, Pending) ∈ queue (slots st) →
     ∃ j, (∃ w c, callers st !! j = Some (Draining w c)) ∨ (j, Woken) ∈ queue (slots st)).
Proof.
  intros Hok%pool_reachable_ok. split_and!.
  - transitivity (tally is_draining (callers st)); [|pose proof (pool_slots _ _ Hok); lia].
    apply tally_le. intros i t Ht Hf. pose proof (pool_agree _ _ Hok i) as Ha. rewrite Ht in Ha.
    destruct (callers st !! i) as [[|w c|o]|]; [done|by exists (Draining w c)|by destruct t|done].
  - intros i o Hi. pose proof (pool_agree _ _ Hok i) as Ha. by rewrite Hi in Ha.
  - intros Hpos i Hi. pose proof (pool_slots _ _ Hok) as Hs. unfold spare in Hs.
    destruct (decide (0 < count (slots st))) as [Hc|Hc].
    { destruct (pool_served _ _ Hok Hc i Hi) as [j Hj]. exists j. by right. }
    destruct (tally_or_empty is_draining (callers st)) as [(j & [|w c|o] & Hj & Hd)|Hz]; try done.
    { exists j. left. by exists w, c. }
    destruct (woken_or_none (queue (slots st))) as [[j Hj]|Hw]; [|lia]. exists j. by right.
Qed.

(** *** Witness: one worker; a running call is cancelled, another one waits *)

Definition busy : executor unit :=
  let st := run_call (run_call (idle_executor 1) 0) 1 in
  with_caller (with_caller st 0 (Draining Interrupted false)) 0 (Draining Sleeping true).

Lemma busy_reachable : pool_reachable 1 busy.
Proof.
  eapply rtc_l; [apply (pool_call _ 0); reflexivity|]. eapply rtc_l; [apply (pool_call _ 1); reflexivity|].
  eapply rtc_l; [apply (pool_cancel _ 0 Sleeping false); reflexivity|].
  eapply rtc_l; [apply (pool_wake_up _ 0 Interrupted false); reflexivity|]. apply rtc_refl.
Qed.

Lemma executor_bounded_and_drained_witness :
  pool_reachable 1 busy ∧ tally in_flight (threads busy) = 1 ∧
  ∃ j, (∃ w c, callers busy !! j = Some (Draining w c)) ∨ (j, Woken) ∈ queue (slots busy).
Proof.
  split; [exact busy_reachable|]. split; [vm_compute; reflexivity|].
  destruct (executor_bounded_and_drained 1 busy busy_reachable) as (_ & _ & Hlive).
  apply (Hlive ltac:(lia) 1). left.
Defined.
