(* ===== verification/Conditions.v ===== *)
(** conditions.py: condition updates that preserve other writers and meaningful
    transition times. *)

From S2P Require Import Prelude Py PyStr PyTime Effects Monitors ApiIO.

(** ** The patch object *)

(** [patch.status[k] = v], [patch.status.get(k, d)], [patch.status.pop(k, None)]
    and the same for [patch.spec]. *)
Definition status_set (k : string) (v : value) : M unit :=
  s ← get_patch; put_patch (Patch (p_spec s) (dset (p_status s) k v) (p_locals s)).
Definition status_get (k : string) (d : value) : M value :=
  s ← get_patch; mret (default d (dget (p_status s) k)).
Definition status_pop (k : string) : M unit :=
  s ← get_patch; put_patch (Patch (p_spec s) (ddel (p_status s) k) (p_locals s)).
Definition spec_set (k : string) (v : value) : M unit :=
  s ← get_patch; put_patch (Patch (dset (p_spec s) k v) (p_status s) (p_locals s)).
Definition spec_get (k : string) (d : value) : M value :=
  s ← get_patch; mret (default d (dget (p_spec s) k)).

(** A local variable that outlives an exception. *)
Definition local_set (k : string) (v : value) : M unit :=
  s ← get_patch; put_patch (Patch (p_spec s) (p_status s) (dset (p_locals s) k v)).
Definition local_get (k : string) : M value :=
  s ← get_patch; mret (default VNone (dget (p_locals s) k)).

(** [datetime.datetime.now(datetime.UTC).isoformat()] *)
Definition now_iso : M string := t ← perform Now; mret (isoformat t).

(** ** Conditions *)

Definition condition (kind status reason message : string) : value :=
  VDict [("type", VStr kind); ("status", VStr status); ("reason", VStr reason);
         ("message", VStr message)].

(** A condition's type as a dictionary key; the schema admits only strings. *)
Definition as_key (v : value) : res string :=
  match v with
  | VStr s => Ok s
  | _ => Err (TypeError ("condition type: '" +:+ type_name v +:+ "'"))
  end.

(** [{item['type']: item for item in items if item.get('type')}], in order; the
    comprehension of [patch_conditions] has no filter. *)
Fixpoint by_type (filtered : bool) (items : list value) (acc : dict) : res dict :=
  match items with
  | [] => Ok acc
  | item' :: items =>
      keep ← (if filtered then truthy <$> get item' "type" else mret true);
      if negb keep then by_type filtered items acc else
      kind ← item item' "type";
      key ← as_key kind;
      by_type filtered items (dset acc key item')
  end.

(** One update of [merge_conditions]: the transition time survives when the
    status is the same and is the current time otherwise. *)
Definition merge_update (result : dict) (update generation : value) : M dict :=
  kind ←? item update "type";
  key ←? as_key kind;
  fields ←? as_dict update;
  let previous := default (VDict []) (dget result key) in
  previous_status ←? get previous "status";
  status ←? item update "status";
  previous_time ←? get previous "lastTransitionTime";
  fields ← (if py_eqb previous_status status && truthy previous_time
            then mret (dset fields "lastTransitionTime" previous_time)
            else now ← now_iso;
                 mret (match dget fields "lastTransitionTime" with
                       | Some _ => fields
                       | None => dset fields "lastTransitionTime" (VStr now)
                       end));
  let fields := if is_none generation then fields
                else dset fields "observedGeneration" generation in
  mret (dset result key (VDict fields)).

Fixpoint merge_updates (result : dict) (updates : list value) (generation : value) : M dict :=
  match updates with
  | [] => mret result
  | update :: updates =>
      result ← merge_update result update generation;
      merge_updates result updates generation
  end.

(** [merge_conditions(existing, updates, generation)] *)
Definition merge_conditions (existing updates : list value) (generation : value) : M (list value) :=
  result ←? by_type true existing [];
  result ← merge_updates result updates generation;
  mret (map snd result).

(** [(meta or {}).get('generation')] *)
Definition generation_of (meta : value) : res value := get (por meta (VDict [])) "generation".

Definition patch_conditions (status meta : value) (updates : list value) : M unit :=
  persisted ←? (c ← get_or status "conditions" (VList []); iter c);
  staged ← status_get "conditions" (VList []);
  staged ←? iter staged;
  existing ←? by_type false (persisted ++ staged) [];
  generation ←? generation_of meta;
  merged ← merge_conditions (map snd existing) updates generation;
  status_set "conditions" (VList merged).

(** [report_pause(patch, status, meta, check)] *)
Definition report_pause (status meta : value) (check : M bool) : M bool :=
  paused ← except_Exception check (λ e,
    patch_conditions status meta
      [condition "Paused" "Unknown" "PauseCheckFailed"
         "Cannot establish CAPI pause and owner state"] ;;
    raise e);
  patch_conditions status meta
    [condition "Paused"
       (if paused : bool then "True" else "False")
       (if paused then "Paused" else "NotPaused")
       (if paused then "Reconciliation is paused or awaiting a referenced CAPI owner"
        else "Reconciliation is not paused")] ;;
  mret paused.

(** ** Footprints *)

Section footprints.
Context (P : call → Prop) (HP : covers P).

Lemma status_set_fp k v : footprint P (status_set k v).
Proof. unfold status_set. fp. Qed.
Lemma status_get_fp k v : footprint P (status_get k v).
Proof. unfold status_get. fp. Qed.
Lemma status_pop_fp k : footprint P (status_pop k).
Proof. unfold status_pop. fp. Qed.
Lemma spec_set_fp k v : footprint P (spec_set k v).
Proof. unfold spec_set. fp. Qed.
Lemma spec_get_fp k v : footprint P (spec_get k v).
Proof. unfold spec_get. fp. Qed.
Lemma local_set_fp k v : footprint P (local_set k v).
Proof. unfold local_set. fp. Qed.
Lemma local_get_fp k : footprint P (local_get k).
Proof. unfold local_get. fp. Qed.

Lemma merge_update_fp r u g : footprint P (merge_update r u g).
Proof. unfold merge_update, now_iso. fp. Qed.

Lemma merge_updates_fp r us g : footprint P (merge_updates r us g).
Proof.
  revert r. induction us as [|u us IH]; intros r; simpl; fp. apply merge_update_fp.
Qed.
End footprints.

#[export] Hint Resolve status_set_fp status_get_fp status_pop_fp spec_set_fp spec_get_fp
  local_set_fp local_get_fp merge_updates_fp : capi.

Section patch_footprints.
Context (P : call → Prop) (HP : covers P).

Lemma merge_conditions_fp e us g : footprint P (merge_conditions e us g).
Proof. unfold merge_conditions. fp. Qed.

Lemma patch_conditions_fp st me us : footprint P (patch_conditions st me us).
Proof. unfold patch_conditions, merge_conditions. fp. Qed.

Lemma report_pause_fp st me check : footprint P check → footprint P (report_pause st me check).
Proof. intros Hc. unfold report_pause. fp; apply patch_conditions_fp. Qed.
End patch_footprints.

#[export] Hint Resolve merge_conditions_fp patch_conditions_fp report_pause_fp : capi.
