(* ===== verification/Contracts.v ===== *)
(** contracts.py: CAPI pause and ownership, UID/version-fenced status
    persistence, and host trust. *)

From S2P Require Import Prelude Py PyStr Base64 Effects Monitors ApiIO Conditions.

(** __init__.py *)
Definition API_GROUP : string := "infrastructure.alpininsight.ai".
Definition API_VERSION : string := "v1beta1".

Definition PAUSED_ANNOTATION : string := "cluster.x-k8s.io/paused".
Definition CLUSTER_LABEL : string := "cluster.x-k8s.io/cluster-name".
Definition CAPI_GROUP : string := "cluster.x-k8s.io".

(** The version of an owner reference in the CAPI group, else [None]. *)
Definition capi_owner_api_version (owner : value) : res (option string) :=
  api_version ← get owner "apiVersion";
  match api_version with
  | VStr s =>
      match partition "/"%char s with
      | (group, Some version) =>
          mret (if String.eqb group CAPI_GROUP && negb (String.eqb version EmptyString)
                   && negb (char_in "/"%char version)
                then Some version else None)
      | (_, None) => mret None
      end
  | _ => mret None
  end.

Definition get_object (plural namespace : string) (name : value) (group version : string) : M value :=
  request (GetObject group version namespace plural name).

Definition get_provider_object (plural namespace : string) (name : value) : M value :=
  get_object plural namespace name API_GROUP API_VERSION.

(** [PAUSED_ANNOTATION in (meta.get('annotations') or {})]: on a mapping, a key. *)
Definition has_key (k : string) (v : value) : res bool :=
  match v with
  | VDict d => mret (match dget d k with Some _ => true | None => false end)
  | VList l => mret (existsb (λ x, eq_str x k) l)
  | VStr s => mret (str_contains k s)
  | _ => Err (TypeError ("argument of type '" +:+ type_name v +:+ "' is not iterable"))
  end.

Definition paused_annotation (meta : value) : res bool :=
  a ← get meta "annotations"; has_key PAUSED_ANNOTATION (por a (VDict [])).

(** [spec.get('paused') or PAUSED_ANNOTATION in (meta.get('annotations') or {})] *)
Definition paused_marker (spec meta : value) : res bool :=
  p ← get spec "paused"; if truthy p then mret true else paused_annotation meta.

(** One owner reference: [inl b] returns [b] from the function; [inr] continues
    with the Cluster name and API version. *)
Definition pause_of_owner (owner : value) (namespace : string) (cluster_name : value)
    (cluster_version : string) : M (bool + value * string) :=
  version ←? capi_owner_api_version owner;
  match version with
  | None => mret (inr (cluster_name, cluster_version))
  | Some version =>
      kind ←? get owner "kind";
      known ←? in_strs kind ["Machine"; "Cluster"];
      if negb known then mret (inr (cluster_name, cluster_version)) else
      obj ← try_except
        (name ←? item owner "name";
         obj ← get_object (lower (py_str kind) +:+ "s") namespace name CAPI_GROUP version;
         mret (Some obj))
        (λ e, match e with
              | ApiException status _ => Some
                  (if (status =? 404)%Z then mret None
                   else raise (TemporaryError "Cannot establish CAPI owner pause state" 15))
              | _ => None
              end);
      match obj with
      | None => mret (inl true)
      | Some obj =>
          owner_uid ←? get owner "uid";
          changed ←? (if truthy owner_uid
                      then meta ← item obj "metadata"; uid ← get meta "uid"; mret (py_neqb uid owner_uid)
                      else mret false);
          if changed : bool
          then raise (TemporaryError "CAPI owner UID changed; waiting for a current owner reference" 15)
          else
          paused ←? (p ← getp obj ["spec"; "paused"];
                     if truthy p then mret true
                     else meta ← item obj "metadata"; paused_annotation meta);
          if paused : bool then mret (inl true)
          else if eq_str kind "Cluster" then mret (inl false)
          else
          name ←? getp obj ["spec"; "clusterName"];
          mret (inr (por name cluster_name, version))
      end
  end.

Fixpoint pause_of_owners (owners : list value) (namespace : string) (cluster_name : value)
    (cluster_version : string) : M (bool + value * string) :=
  match owners with
  | [] => mret (inr (cluster_name, cluster_version))
  | owner :: owners =>
      r ← pause_of_owner owner namespace cluster_name cluster_version;
      match r with
      | inl b => mret (inl b)
      | inr (cluster_name, cluster_version) =>
          pause_of_owners owners namespace cluster_name cluster_version
      end
  end.

Definition pause_of_cluster (namespace : string) (cluster_name : value) (cluster_version : string)
    : M bool :=
  if negb (truthy cluster_name) then mret false else
  cluster ← try_except
    (c ← get_object "clusters" namespace cluster_name CAPI_GROUP cluster_version; mret (Some c))
    (λ e, match e with
          | ApiException status _ => Some
              (if (status =? 404)%Z then mret None
               else raise (TemporaryError "Cannot establish Cluster pause state" 15))
          | _ => None
          end);
  match cluster with
  | None => mret true
  | Some cluster =>
      lift (p ← getp cluster ["spec"; "paused"];
            if truthy p then mret true
            else meta ← get_or cluster "metadata" (VDict []); paused_annotation meta)
  end.

(** Standard CAPI pause along the owner chain; a missing owner blocks work. *)
Definition is_paused (spec meta : value) (namespace : string) : M bool :=
  marked ←? paused_marker spec meta;
  if marked : bool then mret true else
  cluster_name ←? (labels ← get meta "labels"; get (por labels (VDict [])) CLUSTER_LABEL);
  owners ←? (o ← get_or meta "ownerReferences" (VList []); iter o);
  r ← pause_of_owners owners namespace cluster_name "v1beta1";
  match r with
  | inl b => mret b
  | inr (cluster_name, cluster_version) => pause_of_cluster namespace cluster_name cluster_version
  end.

(** The changes, their conditions merged into the persisted ones. *)
Definition merged_changes (current : value) (changes : dict) : M dict :=
  match dget changes "conditions" with
  | Some updates =>
      existing ←? (s ← get_or current "status" (VDict []);
                   c ← get_or s "conditions" (VList []); iter c);
      updates ←? iter updates;
      merged ← merge_conditions existing updates VNone;
      mret (dset changes "conditions" (VList merged))
  | None => mret changes
  end.

(** Commits status changes, fenced by the object's UID and resourceVersion. *)
Definition persist_machine_status (namespace : string) (name : string) (uid : value) (changes : dict)
    : M value :=
  if negb (truthy uid)
  then raise (PermanentError "SSHMachine metadata.uid is required for lifecycle operations")
  else
  current ← get_provider_object "sshmachines" namespace (VStr name);
  meta ←? item current "metadata";
  current_uid ←? get meta "uid";
  if py_neqb current_uid uid
  then raise (TemporaryError "SSHMachine UID changed before status persistence" 15)
  else
  changes ← merged_changes current changes;
  try_except
    (version ←? item meta "resourceVersion";
     request (PatchObjectStatus API_GROUP API_VERSION namespace "sshmachines" (VStr name)
       (VDict [("metadata", VDict [("uid", uid); ("resourceVersion", version)]);
               ("status", VDict changes)])))
    (λ e, match e with
          | ApiException _ _ => Some (raise (TemporaryError
              "Lifecycle state could not be persisted; no new remote operation started" 15))
          | _ => None
          end).

(** [secret.data.get(key)]: [None] for an absent key; a list or dictionary is no key. *)
Definition secret_get (s : secret) (key : value) : res (option string) :=
  match s with
  | None | Some [] => mret None
  | Some d =>
      match key with
      | VStr k => mret (snd <$> List.find (λ kv, String.eqb k (fst kv)) d)
      | VList _ | VDict _ => Err (TypeError ("unhashable type: '" +:+ type_name key +:+ "'"))
      | _ => mret None
      end
  end.

(** Independently verified OpenSSH known_hosts entries, including host CAs. *)
Definition read_known_hosts (namespace : string) (spec : value) : M string :=
  ref ←? get spec "sshHostKeyRef";
  let ref := por ref (VDict []) in
  name ←? get ref "name";
  if negb (truthy name)
  then raise (PermanentError "spec.sshHostKeyRef.name is required; automatic host-key trust is disabled")
  else
  key ←? get_or ref "key" (VStr "known_hosts");
  name ←? item ref "name";
  secret ← request (ReadSecret namespace name);
  data ←? secret_get secret key;
  match data with
  | None => raise (PermanentError "Host trust Secret does not contain the configured known_hosts entry")
  | Some data =>
      if String.eqb data EmptyString
      then raise (PermanentError "Host trust Secret does not contain the configured known_hosts entry")
      else lift (decode_text true data)
  end.

(** ** Footprints *)

(** The body [persist_machine_status] sends: the changes, with their conditions
    merged into the persisted ones. *)
Definition status_body (uid version : value) (changes : dict) : value :=
  VDict [("metadata", VDict [("uid", uid); ("resourceVersion", version)]);
         ("status", VDict changes)].

Definition persist_op (namespace name : string) (uid version : value) (changes : dict) : api_op :=
  PatchObjectStatus API_GROUP API_VERSION namespace "sshmachines" (VStr name)
    (status_body uid version changes).

Definition sent (changes changes' : dict) : Prop :=
  match dget changes "conditions" with
  | Some _ => ∃ l, changes' = dset changes "conditions" (VList l)
  | None => changes' = changes
  end.

Lemma merged_changes_sent cur ch : values (merged_changes cur ch) (sent ch).
Proof.
  unfold merged_changes, sent. destruct (dget ch "conditions"); [|by apply values_ret].
  repeat (apply values_bind; intro). apply values_ret. by eexists.
Qed.

Section footprints.
Context (P : call → Prop) (HP : covers P).

Lemma get_object_fp pl ns n g v : footprint P (get_object pl ns n g v).
Proof. unfold get_object. fp. Qed.

Lemma get_provider_object_fp pl ns n : footprint P (get_provider_object pl ns n).
Proof. apply get_object_fp. Qed.

Lemma pause_of_owner_fp o ns cn cv : footprint P (pause_of_owner o ns cn cv).
Proof. unfold pause_of_owner. fp; apply get_object_fp. Qed.

Lemma pause_of_owners_fp os ns cn cv : footprint P (pause_of_owners os ns cn cv).
Proof.
  revert cn cv. induction os as [|o os IH]; intros cn cv; simpl; fp. apply pause_of_owner_fp.
Qed.

Lemma pause_of_cluster_fp ns cn cv : footprint P (pause_of_cluster ns cn cv).
Proof. unfold pause_of_cluster. fp; apply get_object_fp. Qed.

Lemma is_paused_fp sp me ns : footprint P (is_paused sp me ns).
Proof.
  unfold is_paused. fp; [apply pause_of_owners_fp|apply pause_of_cluster_fp].
Qed.

Lemma read_known_hosts_fp ns sp : footprint P (read_known_hosts ns sp).
Proof. unfold read_known_hosts. fp. Qed.

Lemma merged_changes_fp cur ch : footprint P (merged_changes cur ch).
Proof. unfold merged_changes. fp. Qed.

Lemma persist_machine_status_fp ns n uid ch :
  (∀ version ch', sent ch ch' → P (Api API_TIMEOUT (persist_op ns n uid version ch'))) →
  footprint P (persist_machine_status ns n uid ch).
Proof.
  intros Hw. unfold persist_machine_status.
  destruct (negb (truthy uid)); [fp|].
  apply footprint_bind; [apply get_provider_object_fp|]. intros current.
  do 2 (apply footprint_bind_lift; intros ? _). case_match; [fp|].
  eapply footprint_bind_values; [by apply merged_changes_fp|apply merged_changes_sent|].
  intros ch' Hch. fp. by apply Hw.
Qed.
End footprints.

#[export] Hint Resolve get_object_fp get_provider_object_fp is_paused_fp read_known_hosts_fp : capi.

(** ** Execution of [persist_machine_status] under a monitor *)

Lemma persist_machine_status_msafe m ns n uid ch s g Q :
  covers (quiet m) →
  (∀ e s', Q (Err e) s' g) →
  (∀ version ch', sent ch ch' →
     let c := Api API_TIMEOUT (persist_op ns n uid version ch') in
     allowed m g c ∧
     (∀ a s', Q (Ok a) s' (observe m c (Ok a : res value) g)) ∧
     (∀ x e s', Q (Err e) s' (observe m c (Err x : res value) g))) →
  msafe m (persist_machine_status ns n uid ch) s g Q.
Proof.
  intros Hq He Hp. unfold persist_machine_status.
  destruct (negb (truthy uid)); [by apply msafe_raise|].
  apply msafe_bind, quiet_msafe; [by apply get_provider_object_fp|]. intros [cur|e] s1; [|done].
  do 2 (apply msafe_bind, msafe_lift; case_match; [|done]).
  case_match; [by apply msafe_raise|].
  apply msafe_bind. eapply msafe_values; [by apply merged_changes_fp|apply merged_changes_sent|done|].
  intros ch' s2 Hs. apply msafe_try_raise.
  { intros e p'. destruct e; try done. intros [= <-]. by eexists. }
  apply msafe_bind, msafe_lift. case_match; [|by auto].
  destruct (Hp a1 ch' Hs) as (Ha & Ho & He').
  apply msafe_request; [done|]. intros [r|x] _; [by apply Ho|].
  case_match; intros ?; apply He'.
Qed.
