(* ===== verification/Inventory.v ===== *)
(** inventory.py: UID-bound host allocation and cleanup state. *)

From S2P Require Import Prelude Py PyStr Effects Monitors ApiIO Conditions Contracts.

Definition CONNECTION_FIELDS : list string :=
  ["address"; "port"; "user"; "sshKeyRef"; "sshHostKeyRef"].

Definition consumer_ref (name namespace : string) (uid : value) : res value :=
  if negb (truthy uid) then Err (PermanentError "Machine UID is required to claim a host")
  else mret (VDict [("kind", VStr "SSHMachine"); ("name", VStr name);
                    ("namespace", VStr namespace); ("uid", uid)]).

(** [bool(a and b and ...)]: the first operand that is false or raises decides. *)
Fixpoint all_of (l : list (unit → res bool)) : res bool :=
  match l with
  | [] => mret true
  | c :: l => b ← c tt; if (b : bool) then all_of l else mret false
  end.

Definition same_consumer (ref : value) (name namespace : string) (uid : value) : res bool :=
  all_of
    [ (λ _, mret (truthy ref));
      (λ _, mret (truthy uid));
      (λ _, u ← get ref "uid"; mret (py_eqb u uid));
      (λ _, k ← get ref "kind"; mret (eq_str k "SSHMachine"));
      (λ _, n ← get ref "name"; mret (eq_str n name));
      (λ _, n ← get ref "namespace"; mret (eq_str n namespace)) ].

Definition connection_spec (spec : value) : res dict :=
  address ← get spec "address";
  port ← get_or spec "port" (VInt 22);
  user ← get_or spec "user" (VStr "root");
  key_ref ← get_or spec "sshKeyRef" (VDict []);
  host_key_ref ← get_or spec "sshHostKeyRef" (VDict []);
  mret [("address", address); ("port", port); ("user", user); ("sshKeyRef", key_ref);
        ("sshHostKeyRef", host_key_ref)].

(** [host['spec'].get('consumerRef')] with a missing spec as [{}] *)
Definition consumer_of (host : value) : res value := getp host ["spec"; "consumerRef"].

Definition claimed_by (host : value) (name namespace : string) (uid : value) : res bool :=
  ref ← consumer_of host; same_consumer ref name namespace uid.

(** Patches an SSHHost under its UID and resourceVersion. *)
Definition host_patch (host : value) (namespace : string) (body : dict) (status : bool) : M value :=
  meta ←? item host "metadata";
  uid ←? item meta "uid";
  version ←? item meta "resourceVersion";
  name ←? item meta "name";
  let body := VDict (dset body "metadata" (VDict [("uid", uid); ("resourceVersion", version)])) in
  if status
  then request (PatchObjectStatus API_GROUP API_VERSION namespace "sshhosts" name body)
  else request (PatchObject API_GROUP API_VERSION namespace "sshhosts" name body).

(** [host_ns, host_name = binding['hostRef'].split('/', 1)] *)
Definition split_host_ref (binding : value) : res (string * string) :=
  ref ← item binding "hostRef";
  match ref with
  | VStr s =>
      match partition "/"%char s with
      | (ns, Some host_name) => mret (ns, host_name)
      | (_, None) => Err (ValueError "not enough values to unpack (expected 2, got 1)")
      end
  | _ => Err (AttributeError ("'" +:+ type_name ref +:+ "' object has no attribute 'split'"))
  end.

Definition set_host_phase (binding : value) (name namespace : string) (uid : value)
    (phase reason : string) : M unit :=
  ref ←? get binding "hostRef";
  if negb (truthy ref) then mret tt else
  host_ref ←? split_host_ref binding;
  let '(host_ns, host_name) := host_ref in
  host ← get_provider_object "sshhosts" host_ns (VStr host_name);
  refused ←? (meta ← item host "metadata";
              host_uid ← item meta "uid";
              bound_uid ← item binding "hostUID";
              if py_neqb host_uid bound_uid then mret true
              else mine ← claimed_by host name namespace uid; mret (negb mine));
  if refused : bool
  then raise (TemporaryError "Host ownership changed; refusing lifecycle state mutation" 15)
  else
  host_patch host host_ns
    [("status", VDict [("phase", VStr phase); ("inUse", VBool true); ("cleanupReason", VStr reason)])]
    true ;;
  mret tt.

(** Clears the claim, last; idempotent once the claim is gone. *)
Definition release_host (binding : value) (name namespace : string) (uid : value) : M unit :=
  ref ←? get binding "hostRef";
  if negb (truthy ref) then mret tt else
  host_ref ←? split_host_ref binding;
  let '(host_ns, host_name) := host_ref in
  host ← get_provider_object "sshhosts" host_ns (VStr host_name);
  moved ←? (meta ← item host "metadata";
            host_uid ← item meta "uid";
            bound_uid ← item binding "hostUID";
            mret (py_neqb host_uid bound_uid));
  if moved : bool then raise (TemporaryError "Host UID changed before release" 15) else
  consumer ←? consumer_of host;
  if negb (truthy consumer) then mret tt else
  mine ←? same_consumer consumer name namespace uid;
  if negb mine then raise (TemporaryError "Cannot release another Machine UID's host" 15) else
  host ← host_patch host host_ns
    [("status", VDict [("phase", VStr "Available"); ("inUse", VBool false);
                       ("cleanupReason", VStr EmptyString)])] true;
  host_patch host host_ns [("spec", VDict [("consumerRef", VNone)])] false ;;
  mret tt.

Definition list_hosts (namespace : string) : M (list value) :=
  hosts ← request (ListObjects API_GROUP API_VERSION namespace "sshhosts");
  items ←? item hosts "items";
  lift (iter items).

Definition own_hosts (hosts : list value) (name namespace : string) (uid : value) : res (list value) :=
  filter_res (λ h, claimed_by h name namespace uid) hosts.

(** The allocation of a pool host. *)
Definition host_binding (host : value) (namespace : string) (uid : value) : res value :=
  spec ← item host "spec";
  target ← connection_spec spec;
  meta ← item host "metadata";
  host_uid ← item meta "uid";
  host_name ← item meta "name";
  mret (VDict (dupdate target
    [("machineUID", uid); ("hostUID", host_uid);
     ("hostRef", VStr (namespace +:+ "/" +:+ py_str host_name))])).

(** Recovers only an existing claim of this UID; never selects another host. *)
Definition recover_unstarted_claim (name namespace : string) (uid : value) : M value :=
  hosts ← list_hosts namespace;
  own ←? own_hosts hosts name namespace uid;
  match own with
  | [] => mret (VDict [])
  | [host] => lift (host_binding host namespace uid)
  | _ => raise (TemporaryError "Multiple UID claims require inventory recovery before deletion" 30)
  end.

(** *** Selection *)

(** [(h.get('status', {}).get('ready') is not True, h['metadata']['name'])] *)
Definition candidate_key (h : value) : res (bool * string) :=
  ready ← getp h ["status"; "ready"];
  meta ← item h "metadata";
  name ← item meta "name";
  match name with
  | VStr s => mret (negb (is_True ready), s)
  | _ => Err (TypeError "'<' not supported between host names")
  end.

Definition key_leb (a b : bool * string) : bool :=
  match fst a, fst b with
  | false, true => true
  | true, false => false
  | _, _ => negb (String.ltb (snd b) (snd a))
  end.

(** [sorted] is stable: an element stays before the equal ones that follow it. *)
Fixpoint insert_host (x : (bool * string) * value) (l : list ((bool * string) * value))
    : list ((bool * string) * value) :=
  match l with
  | [] => [x]
  | y :: l => if key_leb (fst x) (fst y) then x :: y :: l else y :: insert_host x l
  end.

Fixpoint keyed (hosts : list value) : res (list ((bool * string) * value)) :=
  match hosts with
  | [] => mret []
  | h :: hosts => k ← candidate_key h; l ← keyed hosts; mret ((k, h) :: l)
  end.

Definition sort_hosts (hosts : list value) : res (list value) :=
  l ← keyed hosts; mret (map snd (foldr insert_host [] l)).

Definition labels_match (labels meta : value) : res bool :=
  wanted ← match labels with
           | VDict d => mret d
           | _ => Err (AttributeError ("'" +:+ type_name labels +:+ "' object has no attribute 'items'"))
           end;
  all_of (map (λ kv (_ : unit),
    have ← get_or meta "labels" (VDict []); v ← get have (fst kv); mret (py_eqb v (snd kv))) wanted).

(** The guards of the selection loop: [true] when the host may be claimed. *)
Definition eligible (labels host : value) : res bool :=
  meta ← item host "metadata";
  spec ← get_or host "spec" (VDict []);
  status ← get_or host "status" (VDict []);
  deleted ← get meta "deletionTimestamp";
  if truthy deleted then mret false else
  matching ← labels_match labels meta;
  if negb matching then mret false else
  consumer ← get spec "consumerRef";
  if truthy consumer then mret false else
  phase ← get status "phase";
  free ← (if is_none phase then mret true else in_strs phase ["Available"]);
  if negb free then mret false else
  ready ← get status "ready";
  mret (negb (is_False ready)).

(** Claims the first eligible candidate; a lost race moves on to the next. *)
Fixpoint claim_first (candidates : list value) (labels : value) (name namespace : string) (uid : value)
    : M value :=
  match candidates with
  | [] => raise (TemporaryError "No available SSHHost matches the selector" 30)
  | host :: candidates =>
      ok ←? eligible labels host;
      if negb ok then claim_first candidates labels name namespace uid else
      claimed ← try_except
        (ref ←? consumer_ref name namespace uid;
         h ← host_patch host namespace [("spec", VDict [("consumerRef", ref)])] false;
         mret (Some h))
        (λ e, match e with
              | ApiException status _ =>
                  if (status =? 404)%Z || (status =? 409)%Z then Some (mret None) else None
              | _ => None
              end);
      match claimed with
      | Some h => mret h
      | None => claim_first candidates labels name namespace uid
      end
  end.

Definition select_host (spec status : value) (name namespace : string) (uid : value) : M value :=
  hosts ← list_hosts namespace;
  own ←? own_hosts hosts name namespace uid;
  match own with
  | [host] => mret host
  | _ :: _ :: _ => raise (PermanentError
      "Multiple hosts claimed by this Machine UID; explicit inventory repair required")
  | [] =>
      bound ←? (host_ref ← get spec "hostRef";
                if truthy host_ref then mret true else
                provider_id ← get spec "providerID";
                if truthy provider_id then mret true else
                p ← getp status ["initialization"; "provisioned"]; mret (truthy p));
      if bound : bool
      then raise (PermanentError
        "Existing machine has no matching UID-bound host claim; automatic replacement is forbidden")
      else
      labels ←? getp spec ["hostSelector"; "matchLabels"];
      let labels := por labels (VDict []) in
      if negb (truthy labels) then raise (PermanentError "hostSelector.matchLabels must not be empty")
      else
      candidates ←? sort_hosts hosts;
      claim_first candidates labels name namespace uid
  end.

(** *** Binding *)

(** [for field in ('address', 'port', 'hostRef')]: what the spec asks for must be
    what was allocated. *)
Fixpoint check_fields (fields : list string) (spec binding : value) : res unit :=
  match fields with
  | [] => mret tt
  | field :: fields =>
      wanted ← get spec field;
      allocated ← get binding field;
      if negb (is_none wanted) && py_neqb wanted allocated
      then Err (PermanentError ("Allocated " +:+ field +:+ " is immutable; create a replacement Machine"))
      else check_fields fields spec binding
  end.

(** [f"ssh://{binding['address']}"] *)
Definition provider_id_of (address : value) : string := "ssh://" +:+ py_str address.

Definition check_provider_id (spec binding : value) (message : string) : res unit :=
  provider_id ← get spec "providerID";
  if truthy provider_id then
    address ← item binding "address";
    if py_neqb provider_id (VStr (provider_id_of address)) then Err (PermanentError message) else mret tt
  else mret tt.

Fixpoint check_target (fields : list string) (target binding : value) : res unit :=
  match fields with
  | [] => mret tt
  | field :: fields =>
      current ← item target field;
      allocated ← item binding field;
      if py_neqb current allocated
      then Err (PermanentError ("SSHHost " +:+ field +:+ " changed after allocation"))
      else check_target fields target binding
  end.

(** The guards on an allocated pool host; its current connection fields. *)
Definition allocated_target (host binding : value) (name namespace : string) (uid : value) : res value :=
  meta ← item host "metadata";
  host_uid ← item meta "uid";
  bound_uid ← get binding "hostUID";
  mine ← (if py_neqb host_uid bound_uid then mret false else claimed_by host name namespace uid);
  if negb mine
  then Err (PermanentError "Allocated SSHHost identity/claim changed; replacement is forbidden")
  else
  host_spec ← item host "spec";
  target ← connection_spec host_spec;
  check_target ["address"; "port"] (VDict target) binding ;;
  phase ← getp host ["status"; "phase"];
  blocked ← in_strs phase ["Quarantined"; "Cleaning"];
  if (blocked : bool)
  then Err (TemporaryError "Allocated host awaits cleanup or quarantine recovery" 30)
  else mret (VDict target).

(** [binding.update({k: target[k] for k in ('user', 'sshKeyRef', 'sshHostKeyRef')})] *)
Definition refresh_credentials (binding target : value) : res value :=
  user ← item target "user";
  key_ref ← item target "sshKeyRef";
  host_key_ref ← item target "sshHostKeyRef";
  d ← as_dict binding;
  mret (VDict (dupdate d [("user", user); ("sshKeyRef", key_ref); ("sshHostKeyRef", host_key_ref)])).

Definition bind_existing (spec binding : value) (name namespace : string) (uid : value) : M value :=
  machine_uid ←? get binding "machineUID";
  if py_neqb machine_uid uid
  then raise (PermanentError "Allocation belongs to a different Machine UID") else
  lift (check_fields ["address"; "port"; "hostRef"] spec binding) ;;
  lift (check_provider_id spec binding "providerID does not match the allocated target") ;;
  host_ref ←? get binding "hostRef";
  target ← (if truthy host_ref then
              ref ←? split_host_ref binding;
              host ← get_provider_object "sshhosts" (fst ref) (VStr (snd ref));
              lift (allocated_target host binding name namespace uid)
            else target ←? connection_spec spec; mret (VDict target));
  lift (refresh_credentials binding target).

Definition bind_pool (spec status : value) (name namespace : string) (uid : value) : M value :=
  host ← select_host spec status name namespace uid;
  phase ←? getp host ["status"; "phase"];
  blocked ←? in_strs phase ["Quarantined"; "Cleaning"];
  if blocked : bool then raise (TemporaryError "Host claim is quarantined or cleaning" 30)
  else lift (host_binding host namespace uid).

Definition bind_direct (spec uid : value) : res value :=
  address ← get spec "address";
  if negb (truthy address)
  then Err (PermanentError "Either address or hostSelector must be provided")
  else
  target ← connection_spec spec;
  let binding := VDict (dupdate target [("machineUID", uid)]) in
  check_provider_id spec binding "providerID does not match the target" ;;
  mret binding.

Fixpoint selected_fields (fields : list string) (binding : value) : res dict :=
  match fields with
  | [] => mret []
  | field :: fields => v ← item binding field; l ← selected_fields fields binding; mret ((field, v) :: l)
  end.

(** Commits the connection fields, then the allocation. *)
Definition commit_binding (binding : value) (name namespace : string) (uid : value) : M unit :=
  current ← get_provider_object "sshmachines" namespace (VStr name);
  meta ←? item current "metadata";
  current_uid ←? get meta "uid";
  if py_neqb current_uid uid
  then raise (TemporaryError "Machine identity changed during allocation" 15) else
  selected ←? selected_fields CONNECTION_FIELDS binding;
  host_ref ←? get binding "hostRef";
  let selected := if truthy host_ref then dset selected "hostRef" host_ref else selected in
  version ←? item meta "resourceVersion";
  request (PatchObject API_GROUP API_VERSION namespace "sshmachines" (VStr name)
    (VDict [("metadata", VDict [("uid", uid); ("resourceVersion", version)]);
            ("spec", VDict selected)])) ;;
  persist_machine_status namespace name uid [("allocation", binding)] ;;
  mret tt.

Fixpoint stage_fields (fields : list string) (binding : value) : M unit :=
  match fields with
  | [] => mret tt
  | field :: fields => v ←? item binding field; spec_set field v ;; stage_fields fields binding
  end.

Definition stage_binding (binding : value) (name namespace : string) (uid : value) : M unit :=
  status_set "allocation" binding ;;
  stage_fields CONNECTION_FIELDS binding ;;
  host_ref ←? get binding "hostRef";
  if truthy host_ref then
    spec_set "hostRef" host_ref ;; set_host_phase binding name namespace uid "Claimed" EmptyString
  else mret tt.

(** Persists an immutable target before bootstrap; never changes an allocation. *)
Definition bind_machine (spec status : value) (name namespace : string) (uid : value) : M value :=
  if negb (truthy uid) then raise (PermanentError "SSHMachine metadata.uid is required") else
  allocation ←? get status "allocation";
  binding ← (if truthy allocation then bind_existing spec allocation name namespace uid
             else
               pool ←? (selector ← get spec "hostSelector";
                        if truthy selector then mret true
                        else host_ref ← get spec "hostRef"; mret (truthy host_ref));
               if pool : bool then bind_pool spec status name namespace uid
               else lift (bind_direct spec uid));
  (if py_neqb allocation binding then commit_binding binding name namespace uid else mret tt) ;;
  stage_binding binding name namespace uid ;;
  mret binding.

(** ** Footprints *)

Definition host_meta (uid version : value) : value :=
  VDict [("uid", uid); ("resourceVersion", version)].

Definition host_status_op (namespace : string) (name uid version : value) (status : dict) : api_op :=
  PatchObjectStatus API_GROUP API_VERSION namespace "sshhosts" name
    (VDict [("status", VDict status); ("metadata", host_meta uid version)]).

Definition host_spec_op (namespace : string) (name uid version : value) (consumer : value) : api_op :=
  PatchObject API_GROUP API_VERSION namespace "sshhosts" name
    (VDict [("spec", VDict [("consumerRef", consumer)]); ("metadata", host_meta uid version)]).

Definition phase_fields (phase reason : string) : dict :=
  [("phase", VStr phase); ("inUse", VBool true); ("cleanupReason", VStr reason)].
Definition available_fields : dict :=
  [("phase", VStr "Available"); ("inUse", VBool false); ("cleanupReason", VStr EmptyString)].

(** The connection fields [commit_binding] writes to the machine. *)
Definition machine_spec_op (namespace name : string) (uid version : value) (selected : dict) : api_op :=
  PatchObject API_GROUP API_VERSION namespace "sshmachines" (VStr name)
    (VDict [("metadata", host_meta uid version); ("spec", VDict selected)]).

Section footprints.
Context (P : call → Prop) (HP : covers P).

Lemma host_patch_status_fp h ns st :
  (∀ n u v, P (Api API_TIMEOUT (host_status_op ns n u v st))) →
  footprint P (host_patch h ns [("status", VDict st)] true).
Proof. intros Hw. unfold host_patch. fp. apply Hw. Qed.

Lemma host_patch_spec_fp h ns ref :
  (∀ n u v, P (Api API_TIMEOUT (host_spec_op ns n u v ref))) →
  footprint P (host_patch h ns [("spec", VDict [("consumerRef", ref)])] false).
Proof. intros Hw. unfold host_patch. fp. apply Hw. Qed.

Lemma set_host_phase_fp b n ns uid phase reason :
  (∀ ns n u v, P (Api API_TIMEOUT (host_status_op ns n u v (phase_fields phase reason)))) →
  footprint P (set_host_phase b n ns uid phase reason).
Proof. intros Hw. unfold set_host_phase. fp. by apply host_patch_status_fp. Qed.

Lemma list_hosts_fp ns : footprint P (list_hosts ns).
Proof. unfold list_hosts. fp. Qed.

Lemma recover_unstarted_claim_fp n ns uid : footprint P (recover_unstarted_claim n ns uid).
Proof. unfold recover_unstarted_claim. fp. apply list_hosts_fp. Qed.

Lemma claim_first_fp hs l n ns uid :
  (∀ ref hn u v, consumer_ref n ns uid = Ok ref → P (Api API_TIMEOUT (host_spec_op ns hn u v ref))) →
  footprint P (claim_first hs l n ns uid).
Proof.
  intros Hw. induction hs as [|h hs IH]; simpl; fp. apply host_patch_spec_fp. eauto.
Qed.

Lemma select_host_fp sp st n ns uid :
  (∀ ref hn u v, consumer_ref n ns uid = Ok ref → P (Api API_TIMEOUT (host_spec_op ns hn u v ref))) →
  footprint P (select_host sp st n ns uid).
Proof. intros Hw. unfold select_host. fp; [apply list_hosts_fp|by apply claim_first_fp]. Qed.

Lemma stage_fields_fp fs b : footprint P (stage_fields fs b).
Proof. induction fs as [|f fs IH]; simpl; fp. Qed.
End footprints.

(** The writes of [bind_machine]. *)
Inductive binding_write (ns n : string) (uid : value) : call → Prop :=
| bw_spec w selected : binding_write ns n uid (Api API_TIMEOUT (machine_spec_op ns n uid w selected))
| bw_claim hn u w ref : consumer_ref n ns uid = Ok ref →
    binding_write ns n uid (Api API_TIMEOUT (host_spec_op ns hn u w ref))
| bw_allocation w b : binding_write ns n uid
    (Api API_TIMEOUT (persist_op ns n uid w [("allocation", b)]))
| bw_claimed ns' hn u w : binding_write ns n uid
    (Api API_TIMEOUT (host_status_op ns' hn u w (phase_fields "Claimed" EmptyString))).

Section bind_footprints.
Context (P : call → Prop) (HP : covers P).
Context (ns n : string) (uid : value).
Context (HW : ∀ c, binding_write ns n uid c → P c).

Lemma bind_existing_fp sp b : footprint P (bind_existing sp b n ns uid).
Proof. unfold bind_existing. fp. Qed.

Lemma bind_pool_fp sp st : footprint P (bind_pool sp st n ns uid).
Proof.
  unfold bind_pool. fp. apply select_host_fp; [done|]. intros ref hn u v Href.
  by apply HW, bw_claim.
Qed.

Lemma commit_binding_fp b : footprint P (commit_binding b n ns uid).
Proof.
  unfold commit_binding. fp; [apply HW; constructor|].
  apply persist_machine_status_fp; [done|]. intros v ch' ->. apply HW. constructor.
Qed.

Lemma stage_binding_fp b : footprint P (stage_binding b n ns uid).
Proof.
  unfold stage_binding. fp; [by apply stage_fields_fp|].
  apply set_host_phase_fp; [done|]. intros. apply HW. constructor.
Qed.

Lemma bind_machine_fp sp st : footprint P (bind_machine sp st n ns uid).
Proof.
  unfold bind_machine. fp;
    [apply bind_existing_fp|apply bind_pool_fp|apply commit_binding_fp|apply stage_binding_fp].
Qed.
End bind_footprints.
