(* ===== verification/Ssh.v ===== *)
(** ssh.py: verified SSH connections and command execution.  asyncssh itself is
    the environment: importing a key, connecting and running are calls. *)

From S2P Require Import Prelude Py PyStr Config Effects Monitors ApiIO.
Open Scope Z_scope.

Definition REDACT_PATTERNS : list string :=
  ["token"; "certificate-key"; "discovery-token-ca-cert-hash"].

Definition redact_line (line : string) : string :=
  let low := lower line in
  if existsb (λ p, str_contains p low) REDACT_PATTERNS then "[REDACTED]" else line.

(** [_redact]: what reaches the logs. *)
Definition redact (text : string) : string := join nl (map redact_line (splitlines text)).

Record SSHResult := { exit_code : Z; stdout : string; stderr : string }.

Definition success (r : SSHResult) : bool := exit_code r =? 0.

(** [timeout or DEFAULT] *)
Definition timeout_or (timeout : option Z) (d : Z) : Z :=
  match timeout with Some t => if t =? 0 then d else t | None => d end.

Section ssh.
Context `{Config}.

(** [SSHConnection.execute] *)
Definition execute (self : connection) (command : string) (timeout : option Z) : M SSHResult :=
  result ← attempt_call (SshRun self command (timeout_or timeout DEFAULT_COMMAND_TIMEOUT))
             (λ r : res completed, r);
  mret {| exit_code := default (-1) (exit_status result);
          stdout := default EmptyString (completed_stdout result);
          stderr := default EmptyString (completed_stderr result) |}.

(** [SSHConnection.upload]: mode 0600 is 384. *)
Definition upload (self : connection) (content path : string) : M unit :=
  attempt_call (SshUpload self content path 384) (λ r : res unit, r).

(** [SSHConnection.close] *)
Definition close (self : connection) : M unit := attempt_call (SshClose self) (λ r : res unit, r).

(** [SSHClient.connect]: known_hosts entries are required before any connection. *)
Definition ssh_connect (address port user : value) (key : string) (timeout : option Z)
    (known_hosts : string) : M connection :=
  let timeout := timeout_or timeout DEFAULT_CONNECT_TIMEOUT in
  try_except (attempt_call (ImportPrivateKey key) (λ r : res unit, r)) (λ e,
    match e with
    | OtherError cls m =>
        if String.eqb cls "KeyImportError"
        then Some (raise (ValueError ("Failed to parse SSH private key: " +:+ m))) else None
    | _ => None
    end) ;;
  if String.eqb known_hosts EmptyString || String.eqb (strip known_hosts) EmptyString
  then raise (ValueError "Verified SSH known_hosts entries are required") else
  attempt_call (ImportKnownHosts known_hosts) (λ r : res unit, r) ;;
  attempt_call (SshConnect address port user key known_hosts timeout) (λ r : res unit, r) ;;
  mret {| c_address := address; c_port := port |}.

(** [async with await connect as conn: body conn] *)
Definition with_connection {A} (connecting : M connection) (body : connection → M A) : M A :=
  conn ← connecting; try_finally (body conn) (close conn).
End ssh.

(** ** Footprints *)

(** Opening and closing connections, as opposed to running commands on them. *)
Definition ssh_setup (c : call) : Prop :=
  match c with
  | SshConnect _ _ _ _ known_hosts _ => strip known_hosts ≠ EmptyString
  | ImportPrivateKey _ | ImportKnownHosts _ | SshClose _ => True
  | _ => False
  end.

Section footprints.
Context `{Config} (P : call → Prop).

Lemma execute_fp conn cmd t : (∀ t, P (SshRun conn cmd t)) → footprint P (execute conn cmd t).
Proof. intros Hc. unfold execute. by fp. Qed.

Context (HS : ∀ c, ssh_setup c → P c).

Lemma ssh_connect_fp a p u k t kh : footprint P (ssh_connect a p u k t kh).
Proof.
  unfold ssh_connect.
  destruct (String.eqb kh EmptyString || String.eqb (strip kh) EmptyString) eqn:E; [fp; by apply HS|].
  apply orb_false_iff in E as [_ E]. apply String.eqb_neq in E. fp; by apply HS.
Qed.

Lemma with_connection_fp {A} connecting (body : connection → M A) :
  footprint P connecting → (∀ c, footprint P (body c)) → footprint P (with_connection connecting body).
Proof. intros Hc Hb. unfold with_connection, close. fp. by apply HS. Qed.
End footprints.
