(* ===== verification/Operations.v ===== *)
(** operations.py: cross-replica host Leases, the remote UID fence, and the
    detached bootstrap job with its receipt. *)

From S2P Require Import Prelude Py PyStr Sha256 Config Effects Monitors ApiIO Ssh.
Open Scope Z_scope.

Definition OWNER_PATH : string := "/var/lib/capi-provider-ssh/owner".
Definition REMOTE_LOCK : string := "/var/lib/capi-provider-ssh-operation.lock".
Definition LEASE_SECONDS : Z := 60.
Definition LEASE_RENEW_SECONDS : Z := LEASE_SECONDS / 4.

(** ** Host Leases *)

Section leases.
Context `{Config}.

Record HostLease := { hl_name : string; holder : string }.

(** [HostLease.__init__]: the Lease of a normalized address and port. *)
Definition lease_target (address : string) (port : value) : string :=
  rstrip_char "."%char (lower address) +:+ ":" +:+ py_str port.

Definition lease_name (address : string) (port : value) : string :=
  "ssh-host-" +:+ String.substring 0 40 (sha256_hex (lease_target address port)).

Definition new_lease (address port machine_uid : value) : M HostLease :=
  text ←? match address with
          | VStr s => mret s
          | _ => Err (AttributeError ("'" +:+ type_name address +:+ "' object has no attribute 'lower'"))
          end;
  id ← perform Uuid4;
  mret {| hl_name := lease_name text port; holder := py_str machine_uid +:+ "/" +:+ id |}.

Definition lease_read (self : HostLease) : M lease := request (ReadLease (hl_name self) LEASE_NAMESPACE).

(** [datetime.timedelta(seconds=n)] in microseconds *)
Definition timedelta (seconds : Z) : Z := seconds * 1000000.

(** [a or b] on an optional attribute whose false values are [None] and 0 *)
Definition or_default (o : option Z) (d : Z) : Z :=
  match o with Some 0 | None => d | Some z => z end.

Definition first_some {A} (a b : option A) : option A := match a with Some _ => a | None => b end.

(** Whether a Lease is held at [now]. *)
Definition lease_held (l : lease) (now : Z) : bool :=
  match l_holder l, first_some (l_renew l) (l_acquire l) with
  | Some h, Some renewed =>
      negb (String.eqb h EmptyString) && (now <? renewed + timedelta (or_default (l_duration l) 60))
  | _, _ => false
  end.

Definition fresh_lease (self : HostLease) (version : option string) (now : Z) : lease :=
  {| l_name := hl_name self; l_namespace := LEASE_NAMESPACE; l_resourceVersion := version;
     l_holder := Some (holder self); l_duration := Some LEASE_SECONDS;
     l_acquire := Some now; l_renew := Some now;
     l_labels := [("app.kubernetes.io/name", "capi-provider-ssh")] |}.

(** [HostLease.acquire] *)
Definition lease_acquire (self : HostLease) : M bool :=
  now ← perform Now;
  current ← try_except (l ← lease_read self; mret (Some l))
    (λ e, match e with
          | ApiException status _ => if status =? 404 then Some (mret None) else None
          | _ => None
          end);
  let held := match current with Some l => lease_held l now | None => false end in
  if held then mret false else
  try_except
    (match current with
     | Some l => request (ReplaceLease (hl_name self) LEASE_NAMESPACE
                            (fresh_lease self (l_resourceVersion l) now))
     | None => request (CreateLease LEASE_NAMESPACE (fresh_lease self None now))
     end ;;
     mret true)
    (λ e, match e with
          | ApiException status _ => if status =? 409 then Some (mret false) else None
          | _ => None
          end).

Definition holds (self : HostLease) (l : lease) : bool :=
  match l_holder l with Some h => String.eqb h (holder self) | None => false end.

Definition with_renew (l : lease) (now : Z) : lease :=
  {| l_name := l_name l; l_namespace := l_namespace l; l_resourceVersion := l_resourceVersion l;
     l_holder := l_holder l; l_duration := l_duration l; l_acquire := l_acquire l;
     l_renew := Some now; l_labels := l_labels l |}.

Definition without_holder (l : lease) : lease :=
  {| l_name := l_name l; l_namespace := l_namespace l; l_resourceVersion := l_resourceVersion l;
     l_holder := None; l_duration := l_duration l; l_acquire := l_acquire l;
     l_renew := l_renew l; l_labels := l_labels l |}.

(** [HostLease.renew] *)
Definition lease_renew (self : HostLease) : M bool :=
  current ← lease_read self;
  if negb (holds self current) then mret false else
  now ← perform Now;
  request (ReplaceLease (hl_name self) LEASE_NAMESPACE (with_renew current now)) ;;
  mret true.

(** [HostLease.check] *)
Definition lease_check (self : HostLease) : M unit :=
  ok ← run_coordination (lease_renew self);
  if ok : bool then mret tt else raise (TemporaryError "Host operation Lease was lost" 15).

(** [HostLease.release] *)
Definition lease_release (self : HostLease) : M unit :=
  current ← lease_read self;
  if negb (holds self current) then mret tt else
  request (ReplaceLease (hl_name self) LEASE_NAMESPACE (without_holder current)) ;;
  mret tt.

(** The [heartbeat] task of [host_operation], for at most [fuel] wake-ups.  Its
  result is the [lost] flag; losing the Lease cancels the parent task. *)
Fixpoint heartbeat (fuel : nat) (self : HostLease) : M bool :=
  match fuel with
  | O => raise OutOfFuel
  | S fuel =>
      stopped ← perform (WaitStopped LEASE_RENEW_SECONDS);
      if (stopped : bool) then mret false else
      renewed ← except_Exception (run_coordination (lease_renew self)) (λ _, mret false);
      if (renewed : bool) then heartbeat fuel self
      else perform CancelParent ;; mret true
  end.

(** [suppress(Exception)] *)
Definition suppress_Exception (m : M unit) : M unit := except_Exception m (λ _, mret tt).

(** [async with host_operation(binding, uid) as operation: body] *)
Definition host_operation {A} (binding machine_uid : value) (body : HostLease → M A) : M A :=
  address ←? item binding "address";
  port ←? get_or binding "port" (VInt 22);
  lease ← new_lease address port machine_uid;
  acquired ← except_Exception (run_coordination (lease_acquire lease))
    (λ _, raise (TemporaryError "Cannot acquire host operation Lease" 15));
  if negb acquired then raise (TemporaryError "Another operation owns this host" 15) else
  try_finally
    (try_except (body lease) (λ e,
       match e with
       | CancelledError => Some (
           lost ← perform HeartbeatLost;
           if (lost : bool) then raise (TemporaryError "Lost host Lease; interrupted local operation" 15)
           else raise CancelledError)
       | _ => None
       end))
    (cancelled ← perform Await;          (* await renewal *)
     if (cancelled : bool) then raise CancelledError else
     suppress_Exception (run_coordination (lease_release lease))).

End leases.

(** ** The remote fence *)

Definition refuse_unowned : string :=
  "echo 'No provider ownership record; refusing mutation' >&2; exit 78".

Definition claim_absent (owner expected : string) : string :=
  "if test -e /etc/kubernetes/kubelet.conf || test -e /var/lib/kubelet/config.yaml " +:+
  "|| test -e /etc/kubernetes/manifests/kube-apiserver.yaml || test -d /var/lib/etcd/member " +:+
  "|| test -e /run/cluster-api/bootstrap-success.complete; then " +:+
  "echo 'Existing Kubernetes state has no matching owner' >&2; exit 78; fi; " +:+
  "install -d -m 0700 /var/lib/capi-provider-ssh; umask 077; printf '%s' " +:+ expected +:+ " > " +:+ owner +:+ ".tmp; " +:+
  "mv " +:+ owner +:+ ".tmp " +:+ owner.

Definition cleaned_absent : string :=
  "if ! test -e /etc/kubernetes/kubelet.conf && ! test -e /var/lib/kubelet/config.yaml " +:+
  "&& ! test -e /etc/kubernetes/manifests/kube-apiserver.yaml && ! test -d /var/lib/etcd/member " +:+
  "&& ! test -e /run/cluster-api/bootstrap-success.complete; then exit 0; fi; " +:+ refuse_unowned.

(** The script run under the remote lock. *)
Definition fenced_script (uid command : string) (claim cleaned_retry : bool) : string :=
  let owner := shlex_quote OWNER_PATH in
  let expected := shlex_quote uid in
  let absent := if claim then claim_absent owner expected
                else if cleaned_retry then cleaned_absent else refuse_unowned in
  "if test -f " +:+ owner +:+ "; then test " +:+ dquote +:+ "$(cat " +:+ owner +:+ ")" +:+ dquote +:+
  " = " +:+ expected +:+ " || " +:+
  "{ echo 'Host belongs to another Machine UID' >&2; exit 78; }; " +:+
  "else " +:+ absent +:+ "; fi; " +:+ command.

Definition owned_command (uid : value) (command : string) (claim cleaned_retry blocking : bool)
    : res string :=
  if negb (truthy uid) then Err (PermanentError "Machine UID is required for remote execution")
  else
  let option := if blocking then EmptyString else "-n " in
  uid ← match uid with VStr s => mret s | _ => Err (TypeError "expected string or bytes-like object") end;
  mret ("flock " +:+ option +:+ shlex_quote REMOTE_LOCK +:+ " sh -ceu " +:+
        shlex_quote (fenced_script uid command claim cleaned_retry)).

(** ** Durable bootstrap *)

Definition BOOTSTRAP_DIRECTORY : string := "/var/lib/capi-provider-ssh".
Definition started_path : string := BOOTSTRAP_DIRECTORY +:+ "/bootstrap-started".
Definition receipt_path : string := BOOTSTRAP_DIRECTORY +:+ "/bootstrap-exit-code".
Definition output_path : string := BOOTSTRAP_DIRECTORY +:+ "/bootstrap-output".

(** The detached job: at most one execution per Machine UID, one receipt. *)
Definition bootstrap_job (path command : string) : string :=
  "if test -f " +:+ receipt_path +:+ "; then rm -f " +:+ shlex_quote path +:+ "; exit 0; fi; " +:+
  "if test -f " +:+ started_path +:+ "; then " +:+
  "printf '%s\n' 'Bootstrap process interrupted; cleanup/replacement required' > " +:+ output_path +:+ "; " +:+
  "printf '123\n' > " +:+ receipt_path +:+ "; rm -f " +:+ shlex_quote path +:+ "; exit 0; fi; " +:+
  "umask 077; touch " +:+ started_path +:+ "; set +e; (" +:+ command +:+ ") > " +:+ output_path +:+ " 2>&1; result=$?; " +:+
  "printf '%s\n' " +:+ dquote +:+ "$result" +:+ dquote +:+ " > " +:+ receipt_path +:+ ".tmp; mv " +:+
  receipt_path +:+ ".tmp " +:+ receipt_path.

Definition observe_command (uid : string) : string :=
  "test " +:+ dquote +:+ "$(cat " +:+ shlex_quote OWNER_PATH +:+ ")" +:+ dquote +:+ " = " +:+ shlex_quote uid +:+ " || exit 78; " +:+
  "if test -f " +:+ receipt_path +:+ "; then printf 'CAPI_EXIT='; cat " +:+ receipt_path +:+ "; tail -c 8192 " +:+ output_path +:+ "; " +:+
  "else printf 'CAPI_PENDING\n'; fi".

(** What one observation says: a result, still pending, or an error. *)
Definition read_observation (result : SSHResult) : res (option SSHResult) :=
  if negb (success result)
  then Err (TemporaryError "Cannot observe the UID-owned bootstrap job" 15) else
  let '(first, rest) := partition (Ascii.ascii_of_nat 10) (stdout result) in
  let log := default EmptyString rest in
  if startswith "CAPI_EXIT=" first then
    match py_int (removeprefix "CAPI_EXIT=" first) with
    | None => Err (TemporaryError "Invalid bootstrap receipt; refusing replay" 15)
    | Some code => mret (Some {| exit_code := code;
                                 stdout := if code =? 0 then log else EmptyString;
                                 stderr := if code =? 0 then EmptyString else log |})
    end
  else if String.eqb first "CAPI_PENDING" then mret None
  else Err (TemporaryError "Unrecognized bootstrap state; refusing replay" 15).

Section bootstrap.
Context `{Config}.

(** [while loop.time() < deadline], at most [fuel] times. *)
Fixpoint observe_loop (fuel : nat) (conn : connection) (observe : string) (deadline : Z) : M SSHResult :=
  now ← perform LoopTime;
  if negb ((now : Z) <? deadline)
  then raise (TemporaryError "Bootstrap is still running; observe its receipt on retry" 15) else
  match fuel with
  | O => raise OutOfFuel
  | S fuel =>
      result ← execute conn observe None;
      seen ←? read_observation result;
      match seen with
      | Some r => mret r
      | None =>
          attempt_call (Sleep 2) (λ r : res unit, r) ;;
          observe_loop fuel conn observe deadline
      end
  end.

(** Each round sleeps two seconds, so this many rounds reach the deadline. *)
Definition observe_fuel (timeout : Z) : nat := Z.to_nat (timeout / 2 + 1).

(** Detaches bootstrap from the SSH session and waits for its single receipt. *)
Definition durable_bootstrap (conn : connection) (uid : value) (path command : string) (timeout : Z)
    : M SSHResult :=
  fenced ←? owned_command uid (bootstrap_job path command) false false true;
  submitted ← execute conn ("nohup " +:+ fenced +:+ " </dev/null >/dev/null 2>&1 &") None;
  if negb (success submitted)
  then raise (TemporaryError "Cannot submit the fenced bootstrap job" 15) else
  start ← perform LoopTime;
  observe_loop (observe_fuel timeout) conn (observe_command (py_str uid)) ((start : Z) + timedelta timeout).
End bootstrap.

(** ** Footprints *)

Definition lease_write (c : call) : Prop :=
  match c with
  | Api _ (CreateLease _ _) | Api _ (ReplaceLease _ _ _) => True
  | _ => False
  end.

Section footprints.
Context `{Config} (P : call → Prop) (HP : covers P) (HL : ∀ c, lease_write c → P c).

Lemma lease_acquire_fp l : footprint P (lease_acquire l).
Proof. unfold lease_acquire, lease_read. fp; by apply HL. Qed.

Lemma lease_renew_fp l : footprint P (lease_renew l).
Proof. unfold lease_renew, lease_read. fp; by apply HL. Qed.

Lemma lease_check_fp l : footprint P (lease_check l).
Proof. unfold lease_check. fp. apply lease_renew_fp. Qed.

Lemma lease_release_fp l : footprint P (lease_release l).
Proof. unfold lease_release, lease_read. fp; by apply HL. Qed.

Lemma host_operation_fp {A} b uid (body : HostLease → M A) :
  (∀ l, footprint P (body l)) → footprint P (host_operation b uid body).
Proof.
  intros Hb. unfold host_operation, new_lease, suppress_Exception.
  fp; [apply lease_acquire_fp|apply lease_release_fp].
Qed.

Lemma observe_loop_fp fuel conn cmd deadline :
  (∀ text t, P (SshRun conn text t)) → footprint P (observe_loop fuel conn cmd deadline).
Proof.
  intros HR. induction fuel as [|fuel IH]; simpl; fp; try (by apply execute_fp; eauto).
Qed.

Lemma durable_bootstrap_fp conn uid path cmd timeout :
  (∀ text t, P (SshRun conn text t)) → footprint P (durable_bootstrap conn uid path cmd timeout).
Proof.
  intros HR. unfold durable_bootstrap.
  fp; [apply execute_fp; eauto|by apply observe_loop_fp].
Qed.
End footprints.
