(* ===== verification/Lifecycle.v ===== *)
(** lifecycle.py: restart-safe reboot and cleanup, run under the Machine's
    reconcile lock. *)

From S2P Require Import Prelude Py PyStr PyTime Base64 Config Effects ApiIO Conditions Contracts.
From S2P Require Import Inventory Ssh Operations.
Open Scope Z_scope.

Section lifecycle.
Context `{Config}.

(** ** Connecting *)

(** [secret.data[key]] *)
Definition secret_item (s : secret) (key : value) : res string :=
  match s with
  | None => Err (TypeError "'NoneType' object is not subscriptable")
  | Some _ =>
      found ← secret_get s key;
      match found with Some data => mret data | None => Err (KeyError (py_str key)) end
  end.

Definition connect (binding : value) (namespace : string) : M connection :=
  ref ←? get binding "sshKeyRef";
  let ref := por ref (VDict []) in
  name ←? get ref "name";
  if negb (truthy name) then raise (PermanentError "Allocated target has no SSH key reference") else
  secret ← run_api (request (ReadSecret namespace name));
  key_name ←? get_or ref "key" (VStr "value");
  key ←? (data ← secret_item secret key_name; decode_text true data);
  address ←? item binding "address";
  port ←? get_or binding "port" (VInt 22);
  user ←? get_or binding "user" (VStr "root");
  known_hosts ← run_api (read_known_hosts namespace binding);
  ssh_connect address port user key None known_hosts.

(** The object as it is now: same UID, not paused. *)
Definition check_current (namespace name : string) (uid : value) : M value :=
  current ← get_provider_object "sshmachines" namespace (VStr name);
  meta ←? item current "metadata";
  current_uid ←? get meta "uid";
  if py_neqb current_uid uid
  then raise (TemporaryError "Machine identity changed before remote execution" 15) else
  spec ←? item current "spec";
  paused ← is_paused spec meta namespace;
  if paused : bool then raise (TemporaryError "Machine operation is paused by CAPI" 15)
  else mret current.

(** ** Reboot *)

(** [patch.status.setdefault('remediation', {})['reboot'] = state] *)
Definition stage_reboot (state : value) : M unit :=
  remediation ← status_get "remediation" (VDict []);
  d ←? as_dict remediation;
  status_set "remediation" (VDict (dset d "reboot" state)).

Definition write_reboot (namespace name : string) (uid : value) (state : value) : M unit :=
  persist_machine_status namespace name uid
    [("remediation", VDict [("reboot", state)])] ;;
  stage_reboot state.

(** [re.fullmatch(r'[0-9a-fA-F-]{36}', boot_id)] *)
Definition is_boot_id (s : string) : bool :=
  (String.length s =? 36)%nat &&
  negb (str_existsb (λ c, negb (is_digit c || byte_between 97 102 c || byte_between 65 70 c
                                || Ascii.eqb c "-"%char)) s).

Definition REBOOT_COMMAND : string :=
  "nohup sh -c 'sleep 2; (systemctl reboot || reboot)' >/dev/null 2>&1 &".
Definition BOOT_ID_COMMAND : string := "cat /proc/sys/kernel/random/boot_id".

Definition execute_owned (conn : connection) (uid : value) (command : string) (cleaned_retry : bool)
    : M SSHResult :=
  fenced ←? owned_command uid command false cleaned_retry false;
  execute conn fenced None.

(** Reads the host's boot identity under the remote fence. *)
Definition observe_boot_id (conn : connection) (uid : value) : M string :=
  observed ← execute_owned conn uid BOOT_ID_COMMAND false;
  let boot_id := strip (stdout observed) in
  if negb (success observed) || negb (is_boot_id boot_id)
  then raise (TemporaryError "Cannot establish host boot identity" 15)
  else mret boot_id.

Definition rebooted_state (previous : dict) (now boot_id : string) : value :=
  VDict (dupdate previous
    [("phase", VStr "Succeeded"); ("success", VBool true); ("lastCompletedAt", VStr now);
     ("observedBootID", VStr boot_id); ("message", VStr "A new host boot ID was observed")]).

Definition unknown_state (previous : dict) : value :=
  VDict (dupdate previous
    [("phase", VStr "Unknown"); ("success", VBool false);
     ("message", VStr "No new boot observed; request will not be replayed automatically")]).

(** A pending reboot: [true] when the function returns, [false] when the request
  at hand may be submitted. *)
Definition resolve_pending (previous : value) (same_request : bool) (boot_id : string)
    (namespace name : string) (uid : value) : M bool :=
  previous_boot ←? get previous "previousBootID";
  d ←? as_dict previous;
  if py_neqb (VStr boot_id) previous_boot then
    now ← now_iso;
    run_api (write_reboot namespace name uid (rebooted_state d now boot_id)) ;;
    mret true
  else if same_request then
    now ← perform Now;
    started ←? item previous "startedAt";
    age ←? (t ← fromisoformat_value started; since now t);
    if 300 * second <=? age then
      run_api (write_reboot namespace name uid (unknown_state d)) ;;
      mret true
    else raise (TemporaryError "Waiting to observe the requested host reboot" 15)
  else
    phase ←? get previous "phase";
    if negb (eq_str phase "Unknown")
    then raise (TemporaryError "A previous reboot is still in progress" 15)
    else mret false.

Definition prepared_state (requested : value) (boot_id now : string) : dict :=
  [("lastRequestedAt", requested); ("phase", VStr "Prepared"); ("previousBootID", VStr boot_id);
   ("startedAt", VStr now); ("success", VBool false); ("lastCompletedAt", VNone);
   ("message", VStr "Reboot intent persisted before command submission")].

Definition state_update (state : dict) (phase message : string) : value :=
  VDict (dupdate state [("phase", VStr phase); ("message", VStr message)]).

(** Persists the intent, submits once, records the outcome.  The patch holds the
  very [state] object, so [state.update] shows in it before the next write. *)
Definition submit_reboot (operation : HostLease) (conn : connection) (requested : value)
    (boot_id : string) (namespace name : string) (uid : value) : M unit :=
  now ← now_iso;
  let state := prepared_state requested boot_id now in
  run_api (write_reboot namespace name uid (VDict state)) ;;
  lease_check operation ;;
  result ← except_Exception (execute_owned conn uid REBOOT_COMMAND false) (λ _,
    let state := state_update state "Unknown" "Command outcome unknown; observe boot ID before retrying" in
    stage_reboot state ;;
    run_api (write_reboot namespace name uid state) ;;
    raise (TemporaryError "Reboot submission outcome is unknown" 15));
  let state := if success result
               then state_update state "Submitted" "Reboot submitted; completion not yet observed"
               else state_update state "Failed"
                      ("Reboot command rejected (exit " +:+ str_Z (exit_code result) +:+ ")") in
  stage_reboot state ;;
  run_api (write_reboot namespace name uid state).

(** The body run on the host. *)
Definition reboot_on_host (previous requested : value) (same_request pending observe_only : bool)
    (namespace name : string) (uid : value) (operation : HostLease) (conn : connection) : M unit :=
  run_api (check_current namespace name uid) ;;
  lease_check operation ;;
  boot_id ← observe_boot_id conn uid;
  resolved ← (if pending then resolve_pending previous same_request boot_id namespace name uid
              else mret false);
  if resolved : bool then mret tt
  else if observe_only then mret tt
  else submit_reboot operation conn requested boot_id namespace name uid.

Definition reconcile_reboot (spec status : value) (name namespace : string) (meta : value)
    (observe_only : bool) : M unit :=
  previous ←? getp status ["remediation"; "reboot"];
  let previous := por previous (VDict []) in
  requested ←? getp spec ["remediation"; "reboot"; "requestedAt"];
  requested ←? (if observe_only then get previous "lastRequestedAt" else mret requested);
  if negb (truthy requested) then mret tt else
  paused ← run_api (is_paused spec meta namespace);
  if paused : bool then mret tt else
  dry_run ←? get spec "dryRun";
  if truthy dry_run && negb observe_only then mret tt else
  uid ←? item meta "uid";
  ownership ←? get status "bootstrapOwnership";
  let ownership := por ownership (VDict []) in
  unowned ←? (owner_uid ← get ownership "machineUID";
              if py_neqb owner_uid uid then mret true
              else p ← getp status ["initialization"; "provisioned"]; mret (negb (truthy p)));
  if unowned : bool
  then raise (TemporaryError "Reboot requires a provisioned, UID-owned allocation" 15) else
  binding ← run_api (bind_machine spec status name namespace uid);
  last_requested ←? get previous "lastRequestedAt";
  let same_request := py_eqb last_requested requested in
  phase ←? get previous "phase";
  finished ←? (if same_request then in_strs phase ["Succeeded"; "Failed"] else mret false);
  if finished : bool then mret tt else
  pending ←? in_strs phase ["Prepared"; "Submitted"; "Unknown"];
  host_operation binding uid (λ operation,
    with_connection (connect binding namespace)
      (reboot_on_host previous requested same_request pending observe_only namespace name uid operation)).

(** ** Cleanup *)

Definition cleanup_conditions (reason message : string) (succeeded : bool) : list value :=
  let finished := succeeded && existsb (String.eqb reason) ["Deleting"; "DeletionPaused"] in
  [condition "Ready" "False" reason message;
   condition "InfrastructureReady" "False" reason message;
   condition "CleanupSucceeded" (if succeeded then "True" else "False")
     (if finished then "CleanupCompleted" else reason)
     (if finished then "Host cleanup completed" else message)].

(** [[c for c in conditions if c['type'] == 'Paused']] *)
Definition paused_conditions (conditions : value) : res (list value) :=
  l ← iter conditions;
  filter_res (λ c, t ← item c "type"; mret (eq_str t "Paused")) l.

(** Publishes status and the durable receipt together before the next side effect. *)
Definition record_cleanup (namespace name : string) (meta status : value)
    (phase reason message : string) : M unit :=
  staged ← status_get "conditions" (VList []);
  paused ←? paused_conditions staged;
  let updates := cleanup_conditions reason message (String.eqb phase "Succeeded") ++ paused in
  status_pop "cleanup" ;;
  (if existsb (String.eqb phase) ["Succeeded"; "Failed"] then status_pop "conditions" else mret tt) ;;
  uid ←? item meta "uid";
  generation ←? get meta "generation";
  merged ← merge_conditions [] updates generation;
  current ← persist_machine_status namespace name uid
    [("ready", VBool false); ("cleanup", VDict [("phase", VStr phase)]); ("conditions", VList merged)];
  status_set "ready" (VBool false) ;;
  conditions ←? (s ← item current "status"; item s "conditions");
  status_set "conditions" conditions.

(** A failed release keeps the durable receipt and asks for a retry. *)
Definition release_cleaned_host (binding : value) (name namespace : string) (meta status : value)
    : M unit :=
  except_Exception
    (uid ←? item meta "uid"; release_host binding name namespace uid)
    (λ _,
      patch_conditions status meta
        [condition "Ready" "False" "HostReleasePending" "Cleanup completed; host claim release is pending";
         condition "InfrastructureReady" "False" "HostReleasePending"
           "Cleanup completed; host claim release is pending"] ;;
      raise (TemporaryError "Cleanup completed; retrying host claim release without another reset" 30)).

(** [raise blocked(message)] *)
Definition raise_blocked {A} (status meta : value) (message : string) : M A :=
  patch_conditions status meta (cleanup_conditions "CleanupBlocked" message false) ;;
  raise (TemporaryError message 30).

Definition cleanup_phase (status : value) : res value := getp status ["cleanup"; "phase"].

(** The status published first, and the pause check. *)
Definition delete_prologue (spec status : value) (namespace : string) (meta : value) : M unit :=
  status_set "ready" (VBool false) ;;
  phase ←? cleanup_phase status;
  patch_conditions status meta
    (cleanup_conditions "Deleting" "Deletion is awaiting cleanup checks" (eq_str phase "Succeeded")) ;;
  paused ← run_api (report_pause status meta (is_paused spec meta namespace));
  if paused : bool then
    patch_conditions status meta
      (cleanup_conditions "DeletionPaused" "Deletion is paused by CAPI" (eq_str phase "Succeeded")) ;;
    raise (TemporaryError "Deletion is paused by CAPI" 15)
  else mret tt.

(** A claim made before any allocation was recorded. *)
Definition recover_binding (spec status : value) (name namespace : string) (meta uid : value)
    : M value :=
  binding ← run_api (recover_unstarted_claim name namespace uid);
  if truthy binding then
    wanted ←? get spec "hostRef";
    differs ←? (if truthy wanted then r ← item binding "hostRef"; mret (py_neqb wanted r) else mret false);
    (if differs : bool then raise_blocked status meta "Unstarted host claim differs from the selected host"
     else mret tt) ;;
    run_api (persist_machine_status namespace name uid [("allocation", binding)]) ;;
    mret binding
  else mret binding.

(** Deletion with no record of bootstrap ownership: nothing ran on a host. *)
Definition delete_unowned (spec status binding : value) (name namespace : string) (meta uid : value)
    : M unit :=
  provisioned ←? (p ← getp status ["initialization"; "provisioned"];
                  if truthy p then mret p else get spec "providerID");
  host_ref ←? get spec "hostRef";
  wants_host ←? (if truthy host_ref then mret true
                 else s ← get spec "hostSelector"; mret (truthy s));
  binding ← (if negb (truthy provisioned) && negb (truthy binding) && wants_host
             then recover_binding spec status name namespace meta uid
             else mret binding);
  if truthy provisioned || (truthy host_ref && negb (truthy binding)) then
    (if truthy binding
     then run_api (set_host_phase binding name namespace uid "Quarantined" "LegacyOwnershipUnverified")
     else mret tt) ;;
    raise_blocked status meta "Legacy host ownership is unverified; explicit recovery required"
  else
  run_api (record_cleanup namespace name meta status "Succeeded" "CleanupNotRequired"
    "No remote mutation was recorded; host cleanup is not required") ;;
  run_api (release_cleaned_host binding name namespace meta status).

(** [for field in ('address', 'port', 'hostUID')]: some field differs. *)
Fixpoint fields_differ (fields : list string) (ownership binding : value) : res bool :=
  match fields with
  | [] => mret false
  | field :: fields =>
      a ← get ownership field; b ← get binding field;
      if py_neqb a b then mret true else fields_differ fields ownership binding
  end.

Definition RESET_COMMAND : string :=
  "kubeadm reset -f && test ! -d /var/lib/etcd/member && rm -rf /etc/kubernetes /var/lib/kubelet " +:+
  "/run/cluster-api/bootstrap-success.complete && " +:+
  "rm -rf /var/lib/capi-provider-ssh".

Definition record_succeeded (name namespace : string) (meta status : value) : M unit :=
  run_api (record_cleanup namespace name meta status "Succeeded" "CleanupCompleted"
    "Host cleanup completed").

(** The body run on the host; its result is the [succeeded] flag. *)
Definition reset_on_host (status : value) (name namespace : string) (meta uid : value)
    (operation : HostLease) (conn : connection) : M unit :=
  run_api (check_current namespace name uid) ;;
  lease_check operation ;;
  result ← execute_owned conn uid RESET_COMMAND true;
  if negb (success result)
  then raise (TemporaryError ("Host cleanup failed (exit " +:+ str_Z (exit_code result) +:+ ")") 30) else
  record_succeeded name namespace meta status.

(** The receipt may have been committed although its response was lost. *)
Definition receipt_committed (name namespace : string) (uid : value) : M bool :=
  current ← run_api (get_provider_object "sshmachines" namespace (VStr name));
  meta ←? item current "metadata";
  current_uid ←? get meta "uid";
  if py_neqb current_uid uid
  then raise (TemporaryError "Machine identity changed during cleanup finalization" 15) else
  phase ←? getp current ["status"; "cleanup"; "phase"];
  if eq_str phase "Succeeded" then
    conditions ←? (s ← item current "status"; item s "conditions");
    status_set "conditions" conditions ;; mret true
  else mret false.

(** The [except Exception] clause around the reset. *)
Definition cleanup_failed (status binding : value) (name namespace : string) (meta uid : value) : M unit :=
  flag ← local_get "succeeded";
  succeeded ← (if truthy flag then mret true else receipt_committed name namespace uid);
  if succeeded : bool
  then raise (TemporaryError "Cleanup completed; retrying finalization without another reset" 30) else
  run_api (set_host_phase binding name namespace uid "Quarantined" "CleanupFailed") ;;
  run_api (record_cleanup namespace name meta status "Failed" "CleanupFailed"
    "Cleanup incomplete; host remains claimed and quarantined") ;;
  raise (TemporaryError "Cleanup incomplete; host remains claimed and quarantined" 30).

(** The guarded reset: leaving the connection or the Lease can still raise after
  [succeeded] was set. *)
Definition cleanup_host (status binding : value) (name namespace : string) (meta uid : value) : M unit :=
  local_set "succeeded" (VBool false) ;;
  except_Exception
    (host_operation binding uid (λ operation,
       with_connection (connect binding namespace) (λ conn,
         reset_on_host status name namespace meta uid operation conn ;;
         local_set "succeeded" (VBool true))))
    (λ _, cleanup_failed status binding name namespace meta uid).

(** Deletion of a machine whose bootstrap ownership was recorded. *)
Definition delete_owned (spec status binding ownership : value) (name namespace : string)
    (meta uid : value) : M unit :=
  foreign ←? (if negb (truthy binding) then mret true
              else u ← get ownership "machineUID"; mret (py_neqb u uid));
  if foreign : bool
  then raise_blocked status meta "Cannot establish bootstrap ownership for cleanup" else
  differs ←? fields_differ ["address"; "port"; "hostUID"] ownership binding;
  if differs : bool
  then raise_blocked status meta "Cleanup target differs from bootstrap ownership" else
  phase ←? cleanup_phase status;
  if eq_str phase "Succeeded" then
    record_succeeded name namespace meta status ;;
    run_api (release_cleaned_host binding name namespace meta status)
  else
  reboot ←? getp status ["remediation"; "reboot"];
  reboot_phase ←? get (por reboot (VDict [])) "phase";
  pending ←? in_strs reboot_phase ["Prepared"; "Submitted"; "Unknown"];
  if pending : bool then
    patch_conditions status meta
      (cleanup_conditions "WaitingForReboot" "Cleanup waits for a resolved reboot outcome" false) ;;
    reconcile_reboot spec status name namespace meta true ;;
    raise (TemporaryError "Cleanup waits for a resolved reboot outcome" 15)
  else
  run_api (set_host_phase binding name namespace uid "Cleaning" EmptyString) ;;
  run_api (record_cleanup namespace name meta status "Running" "CleanupInProgress"
    "Host cleanup is in progress") ;;
  cleanup_host status binding name namespace meta uid ;;
  run_api (release_cleaned_host binding name namespace meta status).

(** Retains claim and finalizer until cleanup succeeds. *)
Definition delete_machine (spec status : value) (name namespace : string) (meta : value) : M unit :=
  delete_prologue spec status namespace meta ;;
  uid ←? item meta "uid";
  binding ←? get status "allocation";
  let binding := por binding (VDict []) in
  ownership ←? get status "bootstrapOwnership";
  let ownership := por ownership (VDict []) in
  foreign ←? (if truthy binding then u ← get binding "machineUID"; mret (py_neqb u uid) else mret false);
  if foreign : bool
  then raise_blocked status meta "Cannot delete a different Machine UID's allocation"
  else if negb (truthy ownership)
  then delete_unowned spec status binding name namespace meta uid
  else delete_owned spec status binding ownership name namespace meta uid.
End lifecycle.
