(* ===== verification/Locks.v ===== *)
(** controllers/sshmachine.py, the reconcile lock shared by replicas: an
    annotation of the SSHMachine holding [holder|expiry], written under the
    object's resourceVersion. *)

From S2P Require Import Prelude Py PyStr PyTime Config Effects Monitors ApiIO Contracts.
Open Scope Z_scope.

Definition SSHMACHINE_DISTRIBUTED_LOCK_ANNOTATION : string :=
  "infrastructure.cluster.x-k8s.io/reconcile-lock".

Definition reconcile_lock_key (namespace name : string) : string := namespace +:+ "/" +:+ name.

Definition distributed_reconcile_lock_value (holder : string) (expires_epoch : Z) : string :=
  holder +:+ "|" +:+ str_Z expires_epoch.

Definition parse_distributed_reconcile_lock_value (v : value) : res (option (string * Z)) :=
  if negb (truthy v) then mret None else
  match v with
  | VStr s =>
      mret (match rpartition "|"%char s with
            | None => None
            | Some (holder, raw_expires) =>
                if String.eqb holder EmptyString then None
                else (λ e, (holder, e)) <$> py_int raw_expires
            end)
  | _ => Err (AttributeError ("'" +:+ type_name v +:+ "' object has no attribute 'rpartition'"))
  end.

(** [int(time.time())] *)
Definition epoch (now : Z) : Z := Z.quot now second.

Section locks.
Context `{Config}.

Definition lock_ttl : Z := Z.max 30 SSHMACHINE_DISTRIBUTED_LOCK_TTL_SECONDS.

(** The object's resourceVersion and parsed lock annotation; [None] when the
  object has no resourceVersion. *)
Definition lock_state (obj : value) : res (option (value * option (string * Z))) :=
  metadata ← get_or obj "metadata" (VDict []);
  version ← get metadata "resourceVersion";
  if negb (truthy version) then mret None else
  annotations ← get metadata "annotations";
  lock_value ← get (por annotations (VDict [])) SSHMACHINE_DISTRIBUTED_LOCK_ANNOTATION;
  parsed ← parse_distributed_reconcile_lock_value lock_value;
  mret (Some (version, parsed)).

Definition lock_body (version annotation : value) : value :=
  VDict [("metadata", VDict [("resourceVersion", version);
    ("annotations", VDict [(SSHMACHINE_DISTRIBUTED_LOCK_ANNOTATION, annotation)])])].

Definition lock_op (namespace name : string) (version annotation : value) : api_op :=
  PatchObject API_GROUP API_VERSION namespace "sshmachines" (VStr name) (lock_body version annotation).

(** Another controller's lock that has not expired. *)
Definition held_elsewhere (parsed : option (string * Z)) (now_epoch : Z) : bool :=
  match parsed with
  | Some (current_holder, expires_epoch) =>
      negb (String.eqb current_holder RECONCILE_LOCK_HOLDER) && (now_epoch <? expires_epoch)
  | None => false
  end.

(** One round: [None] on a conflict, which asks for another round. *)
Definition lock_patch (namespace name : string) (version annotation : value) (gone : bool)
    : M (option bool) :=
  try_except
    (request (lock_op namespace name version annotation) ;; mret (Some true))
    (λ e, match e with
          | ApiException status _ =>
              if status =? 409 then Some (mret None)
              else if status =? 404 then Some (mret (Some gone)) else None
          | _ => None
          end).

Definition acquire_round (namespace name : string) : M (option bool) :=
  obj ← get_provider_object "sshmachines" namespace (VStr name);
  state ←? lock_state obj;
  match state with
  | None => mret (Some false)
  | Some (version, parsed) =>
      now ← perform Now;
      let now_epoch := epoch now in
      if held_elsewhere parsed now_epoch then mret (Some false) else
      lock_patch namespace name version
        (VStr (distributed_reconcile_lock_value RECONCILE_LOCK_HOLDER (now_epoch + lock_ttl))) false
  end.

(** [for _ in range(n)]: the first round that decides; [False] after the last. *)
Fixpoint rounds (n : nat) (round : M (option bool)) : M bool :=
  match n with
  | O => mret false
  | S n => r ← round; match r with Some b => mret b | None => rounds n round end
  end.

Definition acquire_distributed_reconcile_lock (namespace name : string) : M bool :=
  if negb SSHMACHINE_DISTRIBUTED_LOCK_ENABLED then mret true
  else rounds 5 (acquire_round namespace name).

Definition release_round (namespace name : string) : M (option bool) :=
  obj ← try_except (o ← get_provider_object "sshmachines" namespace (VStr name); mret (Some o))
    (λ e, match e with
          | ApiException status _ => if status =? 404 then Some (mret None) else None
          | _ => None
          end);
  match obj with
  | None => mret (Some true)
  | Some obj =>
      state ←? lock_state obj;
      match state with
      | None => mret (Some false)
      | Some (_, None) => mret (Some true)
      | Some (version, Some (current_holder, _)) =>
          if negb (String.eqb current_holder RECONCILE_LOCK_HOLDER) then mret (Some false)
          else lock_patch namespace name version VNone true
      end
  end.

Definition release_distributed_reconcile_lock (namespace name : string) : M bool :=
  if negb SSHMACHINE_DISTRIBUTED_LOCK_ENABLED then mret true
  else rounds 5 (release_round namespace name).

Definition acquire_distributed_lock_or_requeue (namespace name operation : string) : M unit :=
  acquired ← except_Exception (acquire_distributed_reconcile_lock namespace name) (λ e,
    raise (TemporaryError
      ("distributed reconcile lock acquisition failed during " +:+ operation +:+ ": " +:+ exn_str e)
      SSHMACHINE_DISTRIBUTED_LOCK_RETRY_DELAY_SECONDS));
  if acquired : bool then mret tt
  else raise (TemporaryError
    ("distributed reconcile lock is held by another controller during " +:+ operation)
    SSHMACHINE_DISTRIBUTED_LOCK_RETRY_DELAY_SECONDS).

(** Failures are logged only. *)
Definition release_distributed_lock_with_logging (namespace name operation : string) : M unit :=
  except_Exception (release_distributed_reconcile_lock namespace name ;; mret tt) (λ _, mret tt).

Definition read_current_sshmachine (namespace name : string) : M (option value) :=
  try_except (o ← get_provider_object "sshmachines" namespace (VStr name); mret (Some o))
    (λ e, match e with
          | ApiException status _ => if status =? 404 then Some (mret None) else None
          | _ => None
          end).
End locks.

(** ** Footprints *)

Section footprints.
Context `{Config} (P : call → Prop) (HP : covers P).

Lemma rounds_fp n round : footprint P round → footprint P (rounds n round).
Proof. intros Hr. induction n as [|n IH]; simpl; fp. Qed.

Lemma read_current_sshmachine_fp ns n : footprint P (read_current_sshmachine ns n).
Proof. unfold read_current_sshmachine. fp. Qed.

Context (ns n : string).
Context (HW : ∀ w v, P (Api API_TIMEOUT (lock_op ns n w v))).

Lemma lock_patch_fp w v gone : footprint P (lock_patch ns n w v gone).
Proof. unfold lock_patch. fp; apply HW. Qed.

Lemma acquire_distributed_lock_or_requeue_fp op :
  footprint P (acquire_distributed_lock_or_requeue ns n op).
Proof.
  unfold acquire_distributed_lock_or_requeue, acquire_distributed_reconcile_lock.
  fp. apply rounds_fp. unfold acquire_round. fp. apply lock_patch_fp.
Qed.

Lemma release_distributed_lock_with_logging_fp op :
  footprint P (release_distributed_lock_with_logging ns n op).
Proof.
  unfold release_distributed_lock_with_logging, release_distributed_reconcile_lock.
  fp. apply rounds_fp. unfold release_round. fp; apply lock_patch_fp.
Qed.
End footprints.

#[export] Hint Resolve read_current_sshmachine_fp : capi.
