(* ===== verification/MachineStatus.v ===== *)
(** controllers/sshmachine.py: condition builders, owner references, the Secrets
    a Machine refers to, and the status of an already provisioned Machine. *)

From S2P Require Import Prelude Py PyStr PyTime Base64 Effects Monitors ApiIO Conditions Contracts Inventory.
Open Scope Z_scope.

Definition MACHINE_INFRASTRUCTURE_READY_CONDITION : string := "InfrastructureReady".
Definition MACHINE_BOOTSTRAP_EXEC_SUCCEEDED_CONDITION : string := "BootstrapExecSucceeded".

(** ** Conditions *)

(** [_condition]: unlike [conditions.condition], stamped with the current time. *)
Definition stamped_condition (condition_type status reason message : string) : M value :=
  now ← now_iso;
  mret (VDict [("type", VStr condition_type); ("status", VStr status);
               ("lastTransitionTime", VStr now); ("reason", VStr reason); ("message", VStr message)]).

Definition ready_condition (message : string) : M value :=
  stamped_condition "Ready" "True" "Provisioned" message.
Definition not_ready_condition (reason message : string) : M value :=
  stamped_condition "Ready" "False" reason message.
Definition info_condition (condition_type reason message : string) : M value :=
  stamped_condition condition_type "True" reason message.

Definition status_text (b : bool) : string := if b then "True" else "False".

(** The keyword arguments of [_machine_lifecycle_conditions], one triple each. *)
Record facet := Facet { f_true : bool; f_reason : string; f_message : string }.

Definition machine_lifecycle_conditions (ready infrastructure bootstrap : facet) (extras : list value)
    : M (list value) :=
  a ← stamped_condition "Ready" (status_text (f_true ready)) (f_reason ready) (f_message ready);
  b ← stamped_condition MACHINE_INFRASTRUCTURE_READY_CONDITION (status_text (f_true infrastructure))
        (f_reason infrastructure) (f_message infrastructure);
  c ← stamped_condition MACHINE_BOOTSTRAP_EXEC_SUCCEEDED_CONDITION (status_text (f_true bootstrap))
        (f_reason bootstrap) (f_message bootstrap);
  mret ([a; b; c] ++ extras).

(** ** Spec and owners *)

Definition BOOTSTRAP_CHECK_STRATEGY_SSH : string := "ssh".
Definition BOOTSTRAP_CHECK_STRATEGY_NONE : string := "none".
Definition BOOTSTRAP_CHECK_STRATEGY_DEFAULT : string := "ssh".

Definition normalize_bootstrap_check_strategy (spec : value) : res string :=
  raw ← get spec "bootstrapCheckStrategy";
  match raw with
  | VNone => mret BOOTSTRAP_CHECK_STRATEGY_DEFAULT
  | VStr s =>
      let strategy := lower (strip s) in
      if existsb (String.eqb strategy) [BOOTSTRAP_CHECK_STRATEGY_SSH; BOOTSTRAP_CHECK_STRATEGY_NONE]
      then mret strategy
      else Err (PermanentError "spec.bootstrapCheckStrategy must be one of: ssh, none")
  | _ => Err (PermanentError "spec.bootstrapCheckStrategy must be a string (`ssh` or `none`)")
  end.

(** [capi_owner_api_version(ref) is not None and ref.get('kind') == kind] *)
Definition capi_owner_of_kind (kind : string) (ref : value) : res bool :=
  version ← capi_owner_api_version ref;
  match version with
  | None => mret false
  | Some _ => k ← get ref "kind"; mret (eq_str k kind)
  end.

(** The first element that satisfies [p]. *)
Fixpoint find_res (p : value → res bool) (l : list value) : res (option value) :=
  match l with
  | [] => mret None
  | x :: l => b ← p x; if b : bool then mret (Some x) else find_res p l
  end.

Definition get_machine_owner_ref (owner_references : value) : res (option value) :=
  if negb (truthy owner_references) then mret None
  else l ← iter owner_references; find_res (capi_owner_of_kind "Machine") l.

Definition has_machine_owner (owner_references : value) : res bool :=
  if negb (truthy owner_references) then mret false
  else l ← iter owner_references;
       found ← find_res (capi_owner_of_kind "Machine") l;
       mret (match found with Some _ => true | None => false end).

(** ** Secrets *)

(** [None] when [secret.data is None or key not in secret.data] *)
Definition secret_entry (s : secret) (key : value) : res (option string) :=
  match s with
  | None => mret None
  | Some d =>
      match key with
      | VStr k => mret (snd <$> List.find (λ kv, String.eqb k (fst kv)) d)
      | VList _ | VDict _ => Err (TypeError ("unhashable type: '" +:+ type_name key +:+ "'"))
      | _ => mret None
      end
  end.

Definition read_secret_value (namespace : string) (secret_name secret_key : value) : M string :=
  secret ← run_api (request (ReadSecret namespace secret_name));
  data ←? secret_entry secret secret_key;
  match data with
  | None => raise (PermanentError ("Secret " +:+ namespace +:+ "/" +:+ py_str secret_name +:+
                                   " missing key '" +:+ py_str secret_key +:+ "'"))
  | Some data => lift (decode_text false data)
  end.

(** [_read_ssh_key] has the same body. *)
Definition read_ssh_key (namespace : string) (secret_name secret_key : value) : M string :=
  read_secret_value namespace secret_name secret_key.

(** [None] on a 404 *)
Definition or_404 {A} (m : M A) : M (option A) :=
  try_except (a ← m; mret (Some a)) (λ e,
    match e with
    | ApiException status _ => if status =? 404 then Some (mret None) else None
    | _ => None
    end).

Definition read_bootstrap_data (namespace : string) (machine_name : value) : M (option string) :=
  machine ← or_404 (run_api (request (GetObject "cluster.x-k8s.io" "v1beta1" namespace "machines" machine_name)));
  match machine with
  | None => mret None
  | Some machine =>
      bootstrap_ref ←? getp machine ["spec"; "bootstrap"; "dataSecretName"];
      if negb (truthy bootstrap_ref) then mret None else
      secret ← or_404 (run_api (request (ReadSecret namespace bootstrap_ref)));
      match secret with
      | None => mret None
      | Some secret =>
          data ←? secret_entry secret (VStr "value");
          match data with
          | None => mret None
          | Some data => text ←? decode_text false data; mret (Some text)
          end
      end
  end.

(** ** An already provisioned Machine *)

Definition is_already_provisioned (status : value) : res bool :=
  p ← getp status ["initialization"; "provisioned"]; mret (truthy p).

(** [str(condition.get('status', '')).lower() == condition_status.lower()] *)
Fixpoint any_condition (condition_type condition_status : string) (l : list value) : res bool :=
  match l with
  | [] => mret false
  | c :: l =>
      t ← get c "type";
      if negb (eq_str t condition_type) then any_condition condition_type condition_status l else
      s ← get_or c "status" (VStr EmptyString);
      if String.eqb (lower (py_str s)) (lower condition_status) then mret true
      else any_condition condition_type condition_status l
  end.

Definition conditions_of (status : value) : res (list value) :=
  c ← get_or status "conditions" (VList []); iter c.

Definition has_condition_status (status : value) (condition_type condition_status : string) : res bool :=
  l ← conditions_of status; any_condition condition_type condition_status l.

(** A lifecycle condition observed at another generation. *)
Fixpoint any_stale (generation : value) (l : list value) : res bool :=
  match l with
  | [] => mret false
  | c :: l =>
      t ← item c "type";
      owned ← in_strs t ["Ready"; MACHINE_INFRASTRUCTURE_READY_CONDITION;
                         MACHINE_BOOTSTRAP_EXEC_SUCCEEDED_CONDITION];
      if negb owned then any_stale generation l else
      g ← get c "observedGeneration";
      if py_neqb g generation then mret true else any_stale generation l
  end.

Definition conditions_outdated (status meta : value) : res bool :=
  ready ← has_condition_status status "Ready" "True";
  if negb ready then mret true else
  infrastructure ← has_condition_status status MACHINE_INFRASTRUCTURE_READY_CONDITION "True";
  if negb infrastructure then mret true else
  bootstrap ← has_condition_status status MACHINE_BOOTSTRAP_EXEC_SUCCEEDED_CONDITION "True";
  if negb bootstrap then mret true else
  l ← conditions_of status;
  generation ← generation_of meta;
  any_stale generation l.

(** Clears a status field that holds a value; tells whether it did. *)
Definition clear_field (status : value) (field : string) : M bool :=
  v ←? get status field;
  if is_none v then mret false else status_set field VNone ;; mret true.

Definition backfill_provisioned_fields (spec status meta : value) (provider_id : string) (address : value)
    : M bool :=
  current_id ←? get spec "providerID";
  let id_changed := negb (eq_str current_id provider_id) in
  (if id_changed then spec_set "providerID" (VStr provider_id) else mret tt) ;;
  status_set "ready" (VBool true) ;;
  ready ←? get status "ready";
  provisioned ←? is_already_provisioned status;
  (if negb provisioned then status_set "initialization" (VDict [("provisioned", VBool true)]) else mret tt) ;;
  outdated ←? conditions_outdated status meta;
  (if outdated : bool then
     let ready_message :=
       "Machine " +:+ py_str address +:+ " already provisioned with providerID " +:+ provider_id in
     conditions ← machine_lifecycle_conditions (Facet true "Provisioned" ready_message)
       (Facet true "Provisioned" ready_message)
       (Facet true "BootstrapCompleted" "Bootstrap execution has completed for this machine") [];
     patch_conditions status meta conditions
   else mret tt) ;;
  reason ← clear_field status "failureReason";
  message ← clear_field status "failureMessage";
  diagnostics ← clear_field status "bootstrapDiagnostics";
  mret (id_changed || negb (is_True ready) || negb provisioned || outdated || reason || message || diagnostics).

(** ** Footprints *)

Section footprints.
Context (P : call → Prop) (HP : covers P).

Lemma stamped_condition_fp t s r m : footprint P (stamped_condition t s r m).
Proof. unfold stamped_condition, now_iso. fp. Qed.

Lemma machine_lifecycle_conditions_fp a b c l : footprint P (machine_lifecycle_conditions a b c l).
Proof. unfold machine_lifecycle_conditions. fp; apply stamped_condition_fp. Qed.

Lemma info_condition_fp t r m : footprint P (info_condition t r m).
Proof. apply stamped_condition_fp. Qed.

Lemma read_ssh_key_fp ns n k : footprint P (read_ssh_key ns n k).
Proof. unfold read_ssh_key, read_secret_value. fp. Qed.

Lemma or_404_fp {A} (m : M A) : footprint P m → footprint P (or_404 m).
Proof. intros Hm. unfold or_404. fp. Qed.

Lemma read_bootstrap_data_fp ns n : footprint P (read_bootstrap_data ns n).
Proof. unfold read_bootstrap_data. fp; apply or_404_fp; fp. Qed.

Lemma backfill_provisioned_fields_fp sp st me id a :
  footprint P (backfill_provisioned_fields sp st me id a).
Proof.
  unfold backfill_provisioned_fields, clear_field. fp; try apply machine_lifecycle_conditions_fp;
    eauto with capi.
Qed.
End footprints.

#[export] Hint Resolve stamped_condition_fp machine_lifecycle_conditions_fp info_condition_fp
  read_ssh_key_fp read_bootstrap_data_fp backfill_provisioned_fields_fp : capi.
