(* ===== verification/Bootstrap.v ===== *)
(** controllers/sshmachine.py: the bootstrap payload.  Cloud-config is rendered to
    a shell script, kubeadm configuration is wired to the provider ID and an
    external etcd, and failures are classified.  PyYAML is a parameter. *)

From S2P Require Import Prelude Py PyStr Regex Base64 Effects Monitors ApiIO Ssh MachineStatus.
Open Scope Z_scope.

(** What parsing YAML gives: documents, a [YAMLError] with the line and column of
    its mark, or another exception. *)
Inductive loaded (A : Type) :=
| Loaded (a : A)
| YamlError (mark : option (Z * Z))
| LoadError (e : exn).
Arguments Loaded {_} _.
Arguments YamlError {_} _.
Arguments LoadError {_} _.

(** [yaml.safe_load], [safe_load_all], and the dumps with [sort_keys=False]. *)
Class Yaml := {
  safe_load : string → loaded value;
  safe_load_all : string → loaded (list value);
  safe_dump : value → string;
  safe_dump_all : list value → string
}.

Definition rstrip_nl (s : string) : string := rstrip_char (Ascii.ascii_of_nat 10) s.

(** [sep.join(lines)] with a newline; the text ends with one when the source did. *)
Definition rejoin (lines : list string) (source : string) : string :=
  join nl lines +:+ (if endswith nl source then nl else EmptyString).

(** ** External etcd configuration *)

Definition DEFAULT_EXTERNAL_ETCD_CA_FILE : string := "/etc/kubernetes/pki/etcd-external/ca.crt".
Definition DEFAULT_EXTERNAL_ETCD_CERT_FILE : string := "/etc/kubernetes/pki/etcd-external/client.crt".
Definition DEFAULT_EXTERNAL_ETCD_KEY_FILE : string := "/etc/kubernetes/pki/etcd-external/client.key".

Record external_etcd := ExternalEtcd {
  endpoints : list string;
  ca_ref : value * string;
  cert_ref : value * string;
  key_ref : value * string;
  ca_file : string;
  cert_file : string;
  key_file : string
}.

(** [','.join(normalized_endpoints)] *)
Definition servers (e : external_etcd) : string := join "," (endpoints e).

Definition required_secret_ref (config : value) (field : string) : res (value * string) :=
  ref ← get_or config field (VDict []);
  if negb (is_dict ref)
  then Err (PermanentError ("externalEtcd." +:+ field +:+ " must be an object with name/key")) else
  name ← get ref "name";
  if negb (truthy name)
  then Err (PermanentError ("externalEtcd." +:+ field +:+ ".name is required")) else
  key ← get_or ref "key" (VStr "value");
  match key with
  | VStr k => if String.eqb k EmptyString
              then Err (PermanentError ("externalEtcd." +:+ field +:+ ".key must be a non-empty string"))
              else mret (name, k)
  | _ => Err (PermanentError ("externalEtcd." +:+ field +:+ ".key must be a non-empty string"))
  end.

Fixpoint normalized_endpoints (l : list value) : res (list string) :=
  match l with
  | [] => mret []
  | VStr s :: l =>
      if String.eqb s EmptyString
      then Err (PermanentError "externalEtcd.endpoints entries must be non-empty strings")
      else ss ← normalized_endpoints l; mret (s :: ss)
  | _ :: _ => Err (PermanentError "externalEtcd.endpoints entries must be non-empty strings")
  end.

Definition absolute_file (field : string) (path : value) : res string :=
  match path with
  | VStr s => if startswith "/" s then mret s
              else Err (PermanentError ("externalEtcd.files." +:+ field +:+ " must be an absolute path"))
  | _ => Err (PermanentError ("externalEtcd.files." +:+ field +:+ " must be an absolute path"))
  end.

Definition normalize_external_etcd (spec : value) : res (option external_etcd) :=
  config ← get spec "externalEtcd";
  if negb (truthy config) then mret None else
  if negb (is_dict config) then Err (PermanentError "externalEtcd must be an object") else
  listed ← get config "endpoints";
  endpoints ← match listed with
              | VList (_ :: _ as l) => normalized_endpoints l
              | _ => Err (PermanentError "externalEtcd.endpoints must be a non-empty list")
              end;
  files ← get_or config "files" (VDict []);
  let files := por files (VDict []) in
  if negb (is_dict files) then Err (PermanentError "externalEtcd.files must be an object when set") else
  ca_file ← get_or files "caFile" (VStr DEFAULT_EXTERNAL_ETCD_CA_FILE);
  cert_file ← get_or files "certFile" (VStr DEFAULT_EXTERNAL_ETCD_CERT_FILE);
  key_file ← get_or files "keyFile" (VStr DEFAULT_EXTERNAL_ETCD_KEY_FILE);
  ca_file ← absolute_file "caFile" ca_file;
  cert_file ← absolute_file "certFile" cert_file;
  key_file ← absolute_file "keyFile" key_file;
  ca_ref ← required_secret_ref config "caCertRef";
  cert_ref ← required_secret_ref config "clientCertRef";
  key_ref ← required_secret_ref config "clientKeyRef";
  mret (Some (ExternalEtcd endpoints ca_ref cert_ref key_ref ca_file cert_file key_file)).

(** ** kubeadm documents *)

Definition V1BETA3 : string := "kubeadm.k8s.io/v1beta3".
Definition V1BETA4 : string := "kubeadm.k8s.io/v1beta4".

(** A name/value pair of v1beta4. *)
Definition is_arg (arg : value) : bool :=
  match arg with
  | VDict d => match dget d "name", dget d "value" with Some (VStr _), Some (VStr _) => true | _, _ => false end
  | _ => false
  end.

Definition arg_named (names : list string) (arg : value) : bool :=
  match item arg "name" with Ok (VStr n) => existsb (String.eqb n) names | _ => false end.

Definition new_arg (kv : string * string) : value :=
  VDict [("name", VStr (fst kv)); ("value", VStr (snd kv))].

(** The value of [parent[field]] afterwards, and whether it changed. *)
Definition set_kubeadm_args (doc : value) (parent : dict) (field : string) (desired : list (string * string))
    : res (dict * bool) :=
  version ← get doc "apiVersion";
  let before := default VNone (dget parent field) in
  after ←
    (if eq_str version V1BETA4 then
       match default (VList []) (dget parent field) with
       | VList args =>
           if forallb is_arg args
           then mret (VList (List.filter (λ a, negb (arg_named (map fst desired) a)) args ++ map new_arg desired))
           else Err (PermanentError ("kubeadm v1beta4 " +:+ field +:+ " must be a list of name/value strings"))
       | _ => Err (PermanentError ("kubeadm v1beta4 " +:+ field +:+ " must be a list of name/value strings"))
       end
     else if eq_str version V1BETA3 then
       match default (VDict []) (dget parent field) with
       | VDict args => mret (VDict (dupdate args (map (λ kv, (fst kv, VStr (snd kv))) desired)))
       | _ => Err (PermanentError ("kubeadm v1beta3 " +:+ field +:+ " must be a mapping"))
       end
     else Err (PermanentError "Unsupported kubeadm configuration API; expected v1beta3 or v1beta4"));
  mret (dset parent field after, py_neqb before after).

(** One document: the document afterwards, whether it is of the wanted kind, and
    whether it changed. *)
Definition patched_doc : Type := value * bool * bool.

Definition desired_etcd (e : external_etcd) : value :=
  VDict [("external", VDict [("endpoints", VList (map VStr (endpoints e))); ("caFile", VStr (ca_file e));
                             ("certFile", VStr (cert_file e)); ("keyFile", VStr (key_file e))])].

Definition etcd_args (e : external_etcd) : list (string * string) :=
  [("etcd-servers", servers e); ("etcd-cafile", ca_file e); ("etcd-certfile", cert_file e);
   ("etcd-keyfile", key_file e)].

(** A control-plane join downloads its ClusterConfiguration from the existing API. *)
Definition control_plane_join (d : dict) : res bool :=
  if eq_str (default VNone (dget d "kind")) "JoinConfiguration" &&
     match dget d "controlPlane" with Some _ => true | None => false end
  then
    known ← in_strs (default VNone (dget d "apiVersion")) [V1BETA3; V1BETA4];
    if negb known
    then Err (PermanentError "Unsupported kubeadm configuration API for control-plane join") else mret true
  else mret false.

Definition etcd_doc (e : external_etcd) (doc : value) : res patched_doc :=
  match doc with
  | VDict d =>
      join ← control_plane_join d;
      if negb (eq_str (default VNone (dget d "kind")) "ClusterConfiguration") then mret (doc, join, false) else
      match default (VDict []) (dget d "apiServer") with
      | VDict api_server =>
          set ← set_kubeadm_args doc api_server "extraArgs" (etcd_args e);
          let d := dset d "apiServer" (VDict (fst set)) in
          if py_neqb (default VNone (dget d "etcd")) (desired_etcd e)
          then mret (VDict (dset d "etcd" (desired_etcd e)), true, true)
          else mret (VDict d, true, snd set)
      | _ => Err (PermanentError "kubeadm ClusterConfiguration.apiServer must be a mapping")
      end
  | _ => mret (doc, false, false)
  end.

Definition provider_id_doc (provider_id : string) (doc : value) : res patched_doc :=
  match doc with
  | VDict d =>
      let kind := default VNone (dget d "kind") in
      node ← in_strs kind ["InitConfiguration"; "JoinConfiguration"];
      if negb node then mret (doc, false, false) else
      match default (VDict []) (dget d "nodeRegistration") with
      | VDict registration =>
          set ← set_kubeadm_args doc registration "kubeletExtraArgs" [("provider-id", provider_id)];
          mret (VDict (dset d "nodeRegistration" (VDict (fst set))), true, snd set)
      | _ => Err (PermanentError ("kubeadm " +:+ py_str kind +:+ " nodeRegistration must be a mapping"))
      end
  | _ => mret (doc, false, false)
  end.

(** The loop over the documents: what they become, and the two flags. *)
Fixpoint patch_docs (patch : value → res patched_doc) (docs : list value)
    : res (list value * bool * bool) :=
  match docs with
  | [] => mret ([], false, false)
  | doc :: docs =>
      one ← patch doc;
      rest ← patch_docs patch docs;
      let '(doc, saw, changed) := one in
      let '(docs, saw', changed') := rest in
      mret (doc :: docs, saw || saw', changed || changed')
  end.

Section yaml.
Context `{Yaml}.

(** [_patch_external_etcd_in_kubeadm_yaml] and [_patch_provider_id_in_kubeadm_yaml]:
  the text, whether it holds a wanted document, and whether it changed. *)
Definition patch_kubeadm_yaml (patch : value → res patched_doc) (yaml_text : string)
    : res (string * bool * bool) :=
  match safe_load_all yaml_text with
  | LoadError e => Err e
  | YamlError _ => mret (yaml_text, false, false)
  | Loaded docs =>
      let docs := List.filter (λ d, negb (is_none d)) docs in
      patched ← patch_docs patch docs;
      let '(docs, saw, changed) := patched in
      if negb changed then mret (yaml_text, saw, false)
      else mret (rstrip_nl (safe_dump_all docs), saw, true)
  end.

Definition patch_external_etcd_in_kubeadm_yaml (yaml_text : string) (e : external_etcd) :=
  patch_kubeadm_yaml (etcd_doc e) yaml_text.
Definition patch_provider_id_in_kubeadm_yaml (yaml_text provider_id : string) :=
  patch_kubeadm_yaml (provider_id_doc provider_id) yaml_text.
End yaml.

(** ** Payload formats *)

Fixpoint detect_format_lines (lines : list string) : string :=
  match lines with
  | [] => "unknown"
  | line :: lines =>
      let stripped := strip line in
      if String.eqb stripped EmptyString || startswith "## template:" stripped
      then detect_format_lines lines
      else if startswith "#cloud-config" stripped || startswith "write_files:" stripped
              || startswith "runcmd:" stripped
      then "cloud-config" else "shell"
  end.

Definition detect_bootstrap_format (bootstrap_data : string) : string :=
  detect_format_lines (splitlines bootstrap_data).

(** *** Cloud-config *)

Definition indexed (what : string) (index : nat) (rest : string) : string :=
  "bootstrap cloud-config " +:+ what +:+ "[" +:+ str_Z (Z.of_nat index) +:+ "]" +:+ rest.

Fixpoint check_write_files (index : nat) (l : list value) : res unit :=
  match l with
  | [] => mret tt
  | entry :: l =>
      match entry with
      | VDict d =>
          match dget d "path" with
          | Some (VStr (String _ _)) => check_write_files (S index) l
          | _ => Err (PermanentError (indexed "write_files" index ".path must be a non-empty string"))
          end
      | _ => Err (PermanentError (indexed "write_files" index " must be an object"))
      end
  end.

Definition is_scalar (v : value) : bool :=
  match v with VStr _ | VInt _ | VBool _ => true | _ => false end.

Fixpoint check_runcmd (index : nat) (l : list value) : res unit :=
  match l with
  | [] => mret tt
  | VStr _ :: l => check_runcmd (S index) l
  | VList parts :: l =>
      if forallb is_scalar parts then check_runcmd (S index) l
      else Err (PermanentError (indexed "runcmd" index " list entries must be scalar values"))
  | _ :: _ => Err (PermanentError (indexed "runcmd" index " must be string or list"))
  end.

(** A list field; null counts as an empty list. *)
Definition list_field (config : dict) (field : string) : res (list value) :=
  match default (VList []) (dget config field) with
  | VNone => mret []
  | VList l => mret l
  | _ => Err (PermanentError ("bootstrap cloud-config " +:+ field +:+ " must be a list"))
  end.

Definition yaml_error_message (mark : option (Z * Z)) : string :=
  "bootstrap cloud-config YAML is invalid" +:+
  match mark with
  | Some (line, column) => " at line " +:+ str_Z (line + 1) +:+ ", column " +:+ str_Z (column + 1)
  | None => EmptyString
  end.

Definition parse_cloud_config `{Yaml} (bootstrap_data : string) : res dict :=
  match safe_load bootstrap_data with
  | LoadError e => Err e
  | YamlError mark => Err (PermanentError (yaml_error_message mark))
  | Loaded config =>
      match por config (VDict []) with
      | VDict config =>
          write_files ← list_field config "write_files";
          check_write_files 0 write_files ;;
          runcmd ← list_field config "runcmd";
          check_runcmd 0 runcmd ;;
          mret (dset (dset config "write_files" (VList write_files)) "runcmd" (VList runcmd))
      | _ => Err (PermanentError "bootstrap cloud-config must be a mapping")
      end
  end.

(** [''.join(content.split())] *)
Fixpoint without_spaces (s : string) : string :=
  match s with
  | EmptyString => EmptyString
  | String c s => if is_space c then without_spaces s else String c (without_spaces s)
  end.

Definition is_base64_encoding (encoding : string) : bool :=
  existsb (String.eqb (lower (strip encoding))) ["b64"; "base64"].

Definition decode_cloud_write_file_content (entry : dict) (index : nat) : res string :=
  content ← match default (VStr EmptyString) (dget entry "content") with
            | VNone => mret EmptyString
            | VStr s => mret s
            | _ => Err (PermanentError (indexed "write_files" index ".content must be a string when set"))
            end;
  match default VNone (dget entry "encoding") with
  | VNone => mret content
  | VStr encoding =>
      if existsb (String.eqb (lower (strip encoding))) [EmptyString; "text"; "plain"] then mret content
      else if is_base64_encoding encoding then
        match decode_text true (without_spaces content) with
        | Ok text => mret text
        | Err _ => Err (PermanentError (indexed "write_files" index " has invalid base64 or UTF-8 content"))
        end
      else Err (PermanentError (indexed "write_files" index
                  " encoding is unsupported; expected text or base64"))
  | _ => Err (PermanentError (indexed "write_files" index ".encoding must be a string when set"))
  end.

Definition store_cloud_write_file_content (entry : dict) (text : string) : dict :=
  match dget entry "encoding" with
  | Some (VStr encoding) =>
      if is_base64_encoding encoding then dset entry "content" (VStr (b64encode text))
      else dset entry "content" (VStr text)
  | _ => dset entry "content" (VStr text)
  end.

(** [format(z, 'o')] *)
Fixpoint octal_digits (fuel : nat) (z : Z) : string :=
  match fuel with
  | O => EmptyString
  | S fuel => (if z <? 8 then EmptyString else octal_digits fuel (z / 8)) +:+ str_Z (z mod 8)
  end.
Definition format_octal (z : Z) : string :=
  let digits a := octal_digits (S (Z.to_nat (Z.log2 a))) a in
  if z <? 0 then "-" +:+ digits (- z) else digits z.

Definition is_quote (c : Ascii.ascii) : bool := char_in c (sq +:+ dquote).

Definition format_cloud_file_mode (mode : value) (index : nat) : res string :=
  let invalid := Err (PermanentError
    (indexed "write_files" index ".permissions must be a non-empty string or integer")) in
  match mode with
  | VInt z => mret (format_octal z)
  | VBool b => mret (format_octal (Z.b2z b))
  | VStr s =>
      let normalized := rstrip_by is_quote (lstrip_by is_quote (strip s)) in
      if String.eqb normalized EmptyString then invalid else mret normalized
  | _ => invalid
  end.

(** The lines that write one file. *)
Definition render_write_file (index : nat) (entry : value) : res (list string) :=
  d ← as_dict entry;
  path ← (p ← item entry "path"; match p with VStr s => mret s | _ => Err (TypeError "path") end);
  let directory := if String.eqb (dirname path) EmptyString then "/" else dirname path in
  let marker := "__CAPI_BOOTSTRAP_FILE_" +:+ str_Z (Z.of_nat index) +:+ "__" in
  content ← decode_cloud_write_file_content d index;
  let body := ["install -d -m 0755 " +:+ shlex_quote directory;
               "cat <<'" +:+ marker +:+ "' > " +:+ shlex_quote path] ++ splitlines content ++ [marker] in
  permissions ← match default VNone (dget d "permissions") with
                | VNone => mret []
                | mode => m ← format_cloud_file_mode mode index;
                          mret ["chmod " +:+ shlex_quote m +:+ " " +:+ shlex_quote path]
                end;
  owner ← match default VNone (dget d "owner") with
          | VNone => mret []
          | VStr (String _ _ as o) => mret ["chown " +:+ shlex_quote o +:+ " " +:+ shlex_quote path]
          | _ => Err (PermanentError (indexed "write_files" index ".owner must be a non-empty string"))
          end;
  mret (body ++ permissions ++ owner).

Fixpoint render_write_files (index : nat) (l : list value) : res (list string) :=
  match l with
  | [] => mret []
  | entry :: l =>
      lines ← render_write_file index entry;
      rest ← render_write_files (S index) l;
      mret (lines ++ rest)
  end.

Fixpoint render_runcmd (index : nat) (l : list value) : res (list string) :=
  match l with
  | [] => mret []
  | VStr command :: l => rest ← render_runcmd (S index) l; mret (command :: rest)
  | VList [] :: l => render_runcmd (S index) l
  | VList parts :: l =>
      let rendered := join " " (map (λ p, shlex_quote (py_str p)) parts) in
      if String.eqb rendered EmptyString
      then Err (PermanentError (indexed "runcmd" index " cannot be empty"))
      else rest ← render_runcmd (S index) l; mret (rendered :: rest)
  | _ :: _ => Err (TypeError "runcmd")
  end.

Definition render_cloud_config_to_shell `{Yaml} (bootstrap_data : string) : res string :=
  config ← parse_cloud_config bootstrap_data;
  write_files ← list_field config "write_files";
  runcmd ← list_field config "runcmd";
  files ← render_write_files 0 write_files;
  commands ← render_runcmd 0 runcmd;
  mret (rstrip_nl (join nl (["#!/bin/bash"; "set -euo pipefail"] ++ files ++ commands)) +:+ nl).

Definition prepare_bootstrap_script `{Yaml} (bootstrap_data : string) : res (string * string) :=
  let format := detect_bootstrap_format bootstrap_data in
  if String.eqb format "cloud-config" then
    script ← render_cloud_config_to_shell bootstrap_data; mret (script, format)
  else if String.eqb format "shell" then
    if String.eqb (strip bootstrap_data) EmptyString then Err (PermanentError "bootstrap data is empty")
    else mret (bootstrap_data, format)
  else Err (PermanentError "bootstrap data format is not supported").

(** *** Shell heredocs *)

Definition heredoc_tag : re :=
  rseq [ropt (RChar is_quote);
        RGroup 2 (RSeq (RChar (λ c, is_upper c || is_lower c || Ascii.eqb c "_"%char)) (RStar (RChar is_word)));
        ropt (RChar is_quote)].
Definition heredoc_path : re := RGroup 1 (rplus rnonspace).

Definition direct_heredoc : re :=
  rseq [RStart; RStar rspace; rtext "cat"; rplus rspace; rtext ">"; RStar rspace; heredoc_path;
        rplus rspace; rtext "<<"; RStar rspace; heredoc_tag; RStar rspace; REnd].
Definition reverse_heredoc : re :=
  rseq [RStart; RStar rspace; rtext "cat"; rplus rspace; rtext "<<"; RStar rspace; heredoc_tag;
        rplus rspace; rtext ">"; RStar rspace; heredoc_path; RStar rspace; REnd].

(** The path and the tag. *)
Definition parse_heredoc_start (line : string) : option (string * string) :=
  match re_match direct_heredoc line with
  | Some m => Some (group 1 m, group 2 m)
  | None =>
      match re_match reverse_heredoc line with
      | Some m => Some (group 1 m, group 2 m)
      | None => None
      end
  end.

(** ['kubeadm' in path and path.endswith(('.yaml', '.yml'))] *)
Definition is_kubeadm_file (path : string) : bool :=
  str_contains "kubeadm" path && (endswith ".yaml" path || endswith ".yml" path).

(** The body of a finished heredoc. *)
Definition patch_body (patch : string → res (string * bool * bool)) (path : string) (body : list string)
    : res (list string * bool * bool) :=
  if is_kubeadm_file path then
    p ← patch (join nl body);
    let '(text, saw, changed) := p in
    mret (if saw : bool then splitlines text else body, saw, changed)
  else mret (body, false, false).

(** The scan over the lines; inside a heredoc [open] holds its path, tag and
    reversed body.  An unterminated heredoc is copied. *)
Fixpoint inject_lines (patch : string → res (string * bool * bool)) (lines : list string)
    (open : option (string * string * list string)) : res (list string * bool * bool) :=
  match lines, open with
  | [], None => mret ([], false, false)
  | [], Some (_, _, body) => mret (rev body, false, false)
  | line :: lines, None =>
      rest ← inject_lines patch lines
               (match parse_heredoc_start line with Some (path, tag) => Some (path, tag, []) | None => None end);
      let '(output, saw, changed) := rest in mret (line :: output, saw, changed)
  | line :: lines, Some (path, tag, body) =>
      if String.eqb (strip line) tag then
        patched ← patch_body patch path (rev body);
        rest ← inject_lines patch lines None;
        let '(body, saw, changed) := patched in
        let '(output, saw', changed') := rest in
        mret (body ++ line :: output, saw || saw', changed || changed')
      else inject_lines patch lines (Some (path, tag, line :: body))
  end.

(** *** Injection *)

Definition no_cluster_configuration : exn := PermanentError
  "externalEtcd is configured but bootstrap data has no kubeadm ClusterConfiguration to wire".

(** The loop over [write_files]. *)
Fixpoint inject_files (patch : string → res (string * bool * bool)) (index : nat) (l : list value)
    : res (list value * bool * bool) :=
  match l with
  | [] => mret ([], false, false)
  | entry :: l =>
      one ← match entry with
            | VDict d =>
                match dget d "path" with
                | Some (VStr path) =>
                    if is_kubeadm_file path then
                      content ← decode_cloud_write_file_content d index;
                      p ← patch content;
                      let '(text, saw, changed) := p in
                      mret (if saw : bool then VDict (store_cloud_write_file_content d text) else entry,
                            saw, changed)
                    else mret (entry, false, false)
                | _ => mret (entry, false, false)
                end
            | _ => mret (entry, false, false)
            end;
      rest ← inject_files patch (S index) l;
      let '(entry, saw, changed) := one in
      let '(l, saw', changed') := rest in
      mret (entry :: l, saw || saw', changed || changed')
  end.

Section injection.
Context `{Yaml}.

Definition render_cloud_config (config : dict) (write_files : list value) (source : string) : string :=
  "#cloud-config" +:+ nl +:+ rstrip_nl (safe_dump (VDict (dset config "write_files" (VList write_files)))) +:+
  (if endswith nl source then nl else EmptyString).

Definition inject_external_etcd_into_shell_bootstrap_data (bootstrap_data : string) (e : external_etcd)
    : res (string * bool) :=
  r ← inject_lines (λ t, patch_external_etcd_in_kubeadm_yaml t e) (splitlines bootstrap_data) None;
  let '(output, saw, changed) := r in
  if negb saw then Err no_cluster_configuration else mret (rejoin output bootstrap_data, changed).

Definition inject_external_etcd_into_cloud_config_bootstrap_data (bootstrap_data : string)
    (e : external_etcd) : res (string * bool) :=
  config ← parse_cloud_config bootstrap_data;
  write_files ← list_field config "write_files";
  r ← inject_files (λ t, patch_external_etcd_in_kubeadm_yaml t e) 0 write_files;
  let '(write_files, saw, changed) := r in
  if negb saw then Err no_cluster_configuration
  else mret (render_cloud_config config write_files bootstrap_data, changed).

Definition inject_external_etcd_into_bootstrap_data (bootstrap_data : string) (e : external_etcd)
    : res (string * bool) :=
  if String.eqb (detect_bootstrap_format bootstrap_data) "cloud-config"
  then inject_external_etcd_into_cloud_config_bootstrap_data bootstrap_data e
  else inject_external_etcd_into_shell_bootstrap_data bootstrap_data e.

Definition inject_provider_id_into_shell_bootstrap_data (bootstrap_data provider_id : string)
    : res (string * bool) :=
  r ← inject_lines (λ t, patch_provider_id_in_kubeadm_yaml t provider_id) (splitlines bootstrap_data) None;
  let '(output, _, changed) := r in
  if negb changed then mret (bootstrap_data, false) else mret (rejoin output bootstrap_data, true).

Definition inject_provider_id_into_cloud_config_bootstrap_data (bootstrap_data provider_id : string)
    : res (string * bool) :=
  config ← parse_cloud_config bootstrap_data;
  write_files ← list_field config "write_files";
  r ← inject_files (λ t, patch_provider_id_in_kubeadm_yaml t provider_id) 0 write_files;
  let '(write_files, _, changed) := r in
  if negb changed then mret (bootstrap_data, false)
  else mret (render_cloud_config config write_files bootstrap_data, true).

Definition inject_provider_id_into_bootstrap_data (bootstrap_data provider_id : string)
    : res (string * bool) :=
  if String.eqb (detect_bootstrap_format bootstrap_data) "cloud-config"
  then inject_provider_id_into_cloud_config_bootstrap_data bootstrap_data provider_id
  else inject_provider_id_into_shell_bootstrap_data bootstrap_data provider_id.
End injection.
