(* ===== verification/Diagnostics.v ===== *)
(** controllers/sshmachine.py: the commands run on the host, and what a failed one
    says in the Machine's status, with secrets redacted. *)

From S2P Require Import Prelude Py PyStr Regex Ssh Operations.
Open Scope Z_scope.

Definition BOOTSTRAP_SUCCESS_SENTINEL_PATH : string := "/run/cluster-api/bootstrap-success.complete".
Definition BOOTSTRAP_SENTINEL_HIT_OUTPUT : string := "__CAPI_PROVIDER_SSH_BOOTSTRAP_SENTINEL_HIT__".
Definition KUBELET_READY_SENTINEL_OUTPUT : string := "__CAPI_PROVIDER_SSH_KUBELET_READY__".
Definition BOOTSTRAP_DIAGNOSTIC_MAX_EXCERPT : nat := 240.

(** ** Commands *)

Definition bootstrap_execution_command (path : string) : string :=
  let script_path := shlex_quote path in
  let sentinel_path := shlex_quote BOOTSTRAP_SUCCESS_SENTINEL_PATH in
  let sentinel_dir := shlex_quote (dirname BOOTSTRAP_SUCCESS_SENTINEL_PATH) in
  let sentinel_hit := shlex_quote BOOTSTRAP_SENTINEL_HIT_OUTPUT in
  "trap 'rm -f -- " +:+ script_path +:+ "' EXIT; " +:+
  "if [ -f " +:+ sentinel_path +:+ " ]; then printf '%s\n' " +:+ sentinel_hit +:+ "; exit 0; fi && " +:+
  "chmod 0700 " +:+ script_path +:+ " && " +:+ script_path +:+ " && " +:+
  "install -d -m 0755 " +:+ sentinel_dir +:+ " && touch " +:+ sentinel_path.

Definition post_bootstrap_readiness_command : string :=
  "if ! command -v systemctl >/dev/null 2>&1; then " +:+
  "echo 'systemctl command not found on host' >&2; " +:+
  "exit 31; " +:+
  "fi && " +:+
  "if systemctl is-active --quiet kubelet; then " +:+
  "printf '%s\n' " +:+ shlex_quote KUBELET_READY_SENTINEL_OUTPUT +:+ "; " +:+
  "else " +:+
  "(systemctl is-active kubelet || true) >&2; " +:+
  "(systemctl --no-pager --full status kubelet 2>/dev/null | tail -n 20 || true) >&2; " +:+
  "exit 32; " +:+
  "fi".

(** ** Redaction *)

(** [(--flag(?:=|\s+))\S+] *)
Definition flag_pattern (flag : string) : re :=
  rseq [RGroup 1 (rseq [rtext_i ("--" +:+ flag); RAlt (rchar "="%char) (rplus rspace)]); rplus rnonspace].

Definition assignment_pattern : re :=
  rseq [RBoundary;
        RGroup 1 (ralt [rtext_i "token"; rtext_i "certificate-key"; rtext_i "discovery-token-ca-cert-hash"]);
        RBoundary; RStar rspace; RChar (λ c, char_in c ":="); RStar rspace; rplus rnonspace].

Definition BOOTSTRAP_DIAGNOSTIC_REDACTIONS : list (re * string) :=
  [(flag_pattern "token", "[REDACTED]"); (flag_pattern "certificate-key", "[REDACTED]");
   (flag_pattern "discovery-token-ca-cert-hash", "[REDACTED]"); (assignment_pattern, "=[REDACTED]")].

Definition sanitize_bootstrap_diagnostic_text (text : string) : string :=
  let sanitized := fold_left (λ t p, re_sub (fst p) (λ m, group 1 m +:+ snd p) t)
                     BOOTSTRAP_DIAGNOSTIC_REDACTIONS text in
  strip (re_sub (rplus rspace) (λ _, " ") sanitized).

Definition shorten (excerpt : string) : string :=
  if (String.length excerpt <=? BOOTSTRAP_DIAGNOSTIC_MAX_EXCERPT)%nat then excerpt
  else rstrip_by is_space (String.substring 0 (BOOTSTRAP_DIAGNOSTIC_MAX_EXCERPT - 3) excerpt) +:+ "...".

(** The first of stderr and stdout that is not empty once sanitized. *)
Definition excerpt_command_output (result : SSHResult) : string :=
  let err := sanitize_bootstrap_diagnostic_text (stderr result) in
  if negb (String.eqb err EmptyString) then shorten err else
  let out := sanitize_bootstrap_diagnostic_text (stdout result) in
  if negb (String.eqb out EmptyString) then shorten out else EmptyString.

(** ** Classification *)

(** [\bkubeadm\s+verb\b] *)
Definition kubeadm_pattern (verb : string) : re :=
  rseq [RBoundary; rtext_i "kubeadm"; rplus rspace; rtext_i verb; RBoundary].
Definition word_pattern (word : string) : re := rseq [RBoundary; rtext_i word; RBoundary].

Definition phase_signatures : list (string * list re) :=
  [("reset", [kubeadm_pattern "reset"; rtext_i "[reset]";
              rseq [RBoundary; rtext_i "failed"; rplus rspace; rtext_i "to"; rplus rspace; rtext_i "reset"; RBoundary]]);
   ("init", [kubeadm_pattern "init"; rtext_i "[init]"; word_pattern "initconfiguration"; word_pattern "control-plane"]);
   ("join", [kubeadm_pattern "join"; rtext_i "[join]"; word_pattern "discovery-token";
             rseq [RBoundary; rtext_i "node"; rplus rspace; rtext_i "join"; RBoundary]])].

(** The phase whose signature the output shows first. *)
Definition phase_of_output (output : string) : option string :=
  fst <$> List.find (λ p, existsb (λ r, re_search r output) (snd p)) phase_signatures.

(** The fallback prefers the primary operation over optional cleanup commands. *)
Definition phase_of_script (script : string) : string :=
  let script_lower := lower script in
  let has_init := str_contains "kubeadm init" script_lower in
  let has_join := str_contains "kubeadm join" script_lower in
  let has_reset := str_contains "kubeadm reset" script_lower in
  if has_init && negb has_join then "init"
  else if has_join && negb has_init then "join"
  else if has_reset && negb (has_init || has_join) then "reset"
  else if has_init then "init"
  else if has_join then "join"
  else if has_reset then "reset"
  else "unknown".

Definition detect_bootstrap_failure_phase (stderr stdout bootstrap_script : string) : string :=
  let combined_output := join nl (List.filter (λ s, negb (String.eqb s EmptyString)) [stderr; stdout]) in
  match phase_of_output combined_output with
  | Some phase => phase
  | None => phase_of_script bootstrap_script
  end.

Definition failure_reason_of (phase : string) : string :=
  if String.eqb phase "reset" then "BootstrapResetFailed"
  else if String.eqb phase "init" then "BootstrapInitFailed"
  else if String.eqb phase "join" then "BootstrapJoinFailed"
  else "BootstrapFailed".

Definition phase_label (phase : string) : string :=
  if existsb (String.eqb phase) ["reset"; "init"; "join"] then phase +:+ " phase" else "execution".

Record failure := Failure {
  fl_reason : string;
  fl_phase : string;
  fl_message : string;
  fl_excerpt : string
}.

Definition classify_bootstrap_failure (result : SSHResult) (bootstrap_script : string) : failure :=
  let phase := detect_bootstrap_failure_phase (stderr result) (stdout result) bootstrap_script in
  let excerpt := excerpt_command_output result in
  let message := "Bootstrap " +:+ phase_label phase +:+ " failed (exit " +:+ str_Z (exit_code result) +:+ ")" in
  Failure (failure_reason_of phase) phase
    (if String.eqb excerpt EmptyString
     then message +:+ ". Inspect kubeadm and cloud-init logs on the host."
     else message +:+ ": " +:+ excerpt)
    excerpt.

Definition classify_kubelet_not_ready (result : SSHResult) : string * string :=
  let excerpt := excerpt_command_output result in
  let message := "Bootstrap completed, but kubelet is not ready (exit " +:+ str_Z (exit_code result) +:+ ")" in
  ("KubeletNotReady",
   if String.eqb excerpt EmptyString then message +:+ ". Waiting for kubelet to become active."
   else message +:+ ": " +:+ excerpt).

Example sanitized : sanitize_bootstrap_diagnostic_text
    ("kubeadm join --Token  abc.def --certificate-key=k" +:+ nl +:+ " token : x") =
    "kubeadm join --Token [REDACTED] --certificate-key=[REDACTED] token=[REDACTED]".
Proof. vm_compute. reflexivity. Qed.

Example classified : fl_reason (classify_bootstrap_failure
    {| exit_code := 1; stdout := EmptyString; stderr := "error execution phase: [Init] failed" |} "kubeadm join") =
    "BootstrapInitFailed".
Proof. vm_compute. reflexivity. Qed.
