(* ===== verification/Machine.v ===== *)
(** controllers/sshmachine.py: the reconciliation of an SSHMachine and its Kopf
    handlers. *)

From S2P Require Import Prelude Py PyStr PyTime Base64 Config Effects Monitors ApiIO Conditions Contracts.
From S2P Require Import Inventory Ssh Operations Lifecycle Locks MachineStatus Bootstrap Diagnostics.
Open Scope Z_scope.

Section machine.
Context `{Config} `{Yaml}.

(** ** Published status *)

Definition not_provisioned : value := VDict [("provisioned", VBool false)].

(** Not ready, for a reason the Ready and InfrastructureReady conditions share. *)
Definition publish_unready (status meta : value) (reason message : string) (bootstrap : facet)
    (extras : list value) : M unit :=
  conditions ← machine_lifecycle_conditions (Facet false reason message) (Facet false reason message)
                 bootstrap extras;
  patch_conditions status meta conditions.

(** A failure also recorded in [failureReason] and [failureMessage]. *)
Definition stage_failure (status meta : value) (reason failure_message message : string)
    (bootstrap : facet) : M unit :=
  status_set "failureReason" (VStr reason) ;;
  status_set "failureMessage" (VStr failure_message) ;;
  status_set "ready" (VBool false) ;;
  status_set "initialization" not_provisioned ;;
  publish_unready status meta reason message bootstrap [].

(** [try: r  except kopf.PermanentError as e: publish e; raise] *)
Definition or_stage {A} (status meta : value) (reason bootstrap_message : string) (r : res A) : M A :=
  try_except (lift r) (λ e,
    match e with
    | PermanentError message => Some (
        stage_failure status meta reason message message
          (Facet false "BootstrapNotStarted" bootstrap_message) ;;
        raise e)
    | _ => None
    end).

(** ** On the host *)

(** [latest] is the machine the handler works on, and tells whether it may go on. *)
Definition may_proceed (namespace name : string) (uid : value) (changed : string) : M bool :=
  latest ← run_api (read_current_sshmachine namespace name);
  match latest with
  | None => raise (TemporaryError changed 15)
  | Some latest =>
      if negb (truthy latest) then raise (TemporaryError changed 15) else
      meta ←? item latest "metadata";
      live_uid ←? get meta "uid";
      if py_neqb live_uid uid then raise (TemporaryError changed 15) else
      spec ←? item latest "spec";
      paused ← run_api (is_paused spec meta namespace);
      if paused : bool then mret false else
      deleted ←? get meta "deletionTimestamp";
      mret (negb (truthy deleted))
  end.

Definition new_ownership (binding uid : value) : M value :=
  now ← now_iso;
  d ←? as_dict binding;
  mret (VDict (dupdate [("machineUID", uid); ("startedAt", VStr now)] d)).

Definition ensure_bootstrap_ownership (conn : connection) (binding uid : value) (namespace name : string)
    (status : value) : M unit :=
  recorded ←? get status "bootstrapOwnership";
  ownership ← (if truthy recorded then mret recorded else new_ownership binding uid);
  owner_uid ←? get ownership "machineUID";
  if py_neqb owner_uid uid
  then raise (PermanentError "Bootstrap ownership belongs to a different Machine UID") else
  run_api (persist_machine_status namespace name uid [("bootstrapOwnership", ownership)]) ;;
  status_set "bootstrapOwnership" ownership ;;
  claim ←? owned_command uid "true" true false false;
  claim_result ← execute conn claim None;
  if success claim_result then mret tt
  else if exit_code claim_result =? 78 then
    run_api (set_host_phase binding name namespace uid "Quarantined" "RemoteOwnershipMismatch") ;;
    raise (PermanentError "Remote host identity is not owned by this Machine UID")
  else raise (TemporaryError "Remote host operation is still busy" 15).

(** The commands that install one certificate file. *)
Definition file_commands (mode path content : string) : list string :=
  ["install -d -m 0700 " +:+ shlex_quote (dirname path);
   "umask 077; printf '%s' " +:+ shlex_quote (b64encode content) +:+ " | base64 -d > " +:+ shlex_quote path;
   "chmod " +:+ mode +:+ " " +:+ shlex_quote path].

Definition external_etcd_files_script (namespace : string) (e : external_etcd) : M string :=
  ca ← read_secret_value namespace (fst (ca_ref e)) (VStr (snd (ca_ref e)));
  cert ← read_secret_value namespace (fst (cert_ref e)) (VStr (snd (cert_ref e)));
  key ← read_secret_value namespace (fst (key_ref e)) (VStr (snd (key_ref e)));
  mret (join nl (file_commands "0644" (ca_file e) ca ++ file_commands "0644" (cert_file e) cert ++
                 file_commands "0600" (key_file e) key) +:+ nl).

Definition report_bootstrap_failure (status meta : value) (f : failure) (code : Z) : M unit :=
  status_set "failureReason" (VStr (fl_reason f)) ;;
  status_set "failureMessage" (VStr (fl_message f)) ;;
  status_set "bootstrapDiagnostics"
    (VDict [("phase", VStr (fl_phase f)); ("exitCode", VInt code); ("stderrExcerpt", VStr (fl_excerpt f))]) ;;
  status_set "ready" (VBool false) ;;
  status_set "initialization" not_provisioned ;;
  publish_unready status meta (fl_reason f) (fl_message f) (Facet false (fl_reason f) (fl_message f)) [] ;;
  raise (TemporaryError ("Bootstrap failed (" +:+ fl_reason f +:+ ", exit " +:+ str_Z code +:+ ")") 30).

(** The kubelet check of [bootstrapCheckStrategy: ssh]. *)
Definition check_kubelet (conn : connection) (status meta : value) : M unit :=
  readiness_result ← execute conn post_bootstrap_readiness_command None;
  if success readiness_result then mret tt else
  let '(reason, message) := classify_kubelet_not_ready readiness_result in
  let waiting := "Bootstrap script completed; waiting for kubelet readiness checks to pass" in
  status_set "initialization" not_provisioned ;;
  status_set "failureReason" (VStr reason) ;;
  status_set "failureMessage" (VStr message) ;;
  status_set "ready" (VBool false) ;;
  extra ← info_condition "Bootstrapped" "BootstrapCompleted" waiting;
  publish_unready status meta reason message (Facet true "BootstrapCompleted" waiting) [extra] ;;
  raise (TemporaryError ("Post-bootstrap readiness check failed (" +:+ reason +:+ ", exit " +:+
                         str_Z (exit_code readiness_result) +:+ ")") 30).

(** The script with its certificates, staged under a fresh name. *)
Definition full_script (namespace : string) (etcd : option external_etcd) (script : string) : M string :=
  match etcd with
  | None => mret script
  | Some e =>
      certificate_script ← external_etcd_files_script namespace e;
      mret ("#!/bin/bash" +:+ nl +:+ "set -euo pipefail" +:+ nl +:+ certificate_script +:+ script)
  end.

(** The body run on the host: [false] when the handler returns without a result. *)
Definition bootstrap_on_host (status meta binding uid : value) (name namespace : string)
    (etcd : option external_etcd) (script strategy : string) (operation : HostLease) (conn : connection)
    : M bool :=
  go ← may_proceed namespace name uid "Machine identity changed before bootstrap";
  if negb go then mret false else
  lease_check operation ;;
  ensure_bootstrap_ownership conn binding uid namespace name status ;;
  script ← full_script namespace etcd script;
  id ← perform Uuid4;
  let bootstrap_path := "/var/lib/capi-provider-ssh/bootstrap-" +:+ id +:+ ".sh" in
  lease_check operation ;;
  upload conn script bootstrap_path ;;
  lease_check operation ;;
  go ← may_proceed namespace name uid "Machine identity changed before bootstrap execution";
  if negb go then mret false else
  result ← durable_bootstrap conn uid bootstrap_path (bootstrap_execution_command bootstrap_path)
             DEFAULT_COMMAND_TIMEOUT;
  if negb (success result) then
    run_api (set_host_phase binding name namespace uid "Quarantined" "BootstrapFailed") ;;
    report_bootstrap_failure status meta (classify_bootstrap_failure result script) (exit_code result) ;;
    mret false
  else
  (if String.eqb strategy BOOTSTRAP_CHECK_STRATEGY_SSH then check_kubelet conn status meta else mret tt) ;;
  mret true.

(** The [except] clauses around the bootstrap. *)
Definition bootstrap_error {A} (status meta : value) (e : exn) : option (M A) :=
  match e with
  | TemporaryError _ _ | PermanentError _ => None
  | TimeoutError _ =>
      Some (stage_failure status meta "SSHTimeout" ("SSH operation timed out: " +:+ exn_str e) (exn_str e)
              (Facet false "SSHTimeout" "Bootstrap execution was interrupted by SSH timeout") ;;
            raise (TemporaryError ("SSH timeout: " +:+ exn_str e) 30))
  | _ =>
      if is_Exception e then
        let message := "SSH connection failed: " +:+ exn_str e in
        Some (stage_failure status meta "SSHError" message message
                (Facet false "SSHError" "Bootstrap execution could not proceed due to SSH error") ;;
              raise (TemporaryError ("SSH error: " +:+ exn_str e) 30))
      else None
  end.

(** ** The stages of the reconciliation *)

Definition wait_for_owner (status meta : value) : M unit :=
  status_set "initialization" not_provisioned ;;
  status_set "ready" (VBool false) ;;
  publish_unready status meta "WaitingForMachineOwner" "No CAPI Machine ownerReference found"
    (Facet false "BootstrapNotStarted"
       "Bootstrap has not started because machine ownerReference is missing") [].

Definition wait_for_bootstrap_data {A} (status meta : value) (machine_name : value) : M A :=
  let message := "Bootstrap data not yet available for " +:+ py_str machine_name in
  status_set "initialization" not_provisioned ;;
  status_set "ready" (VBool false) ;;
  publish_unready status meta "WaitingForBootstrapData" message
    (Facet false "WaitingForBootstrapData" message) [] ;;
  raise (TemporaryError "Bootstrap data not ready" 15).

(** The script to run and the external etcd to stage certificates for. *)
Definition prepare_payload (spec status meta : value) (bootstrap_data provider_id : string)
    : M (string * option external_etcd) :=
  wired ← or_stage status meta "ProviderIDWiringError"
    "Bootstrap has not started due to providerID wiring error"
    (inject_provider_id_into_bootstrap_data bootstrap_data provider_id);
  etcd ← or_stage status meta "ExternalEtcdConfigurationError"
    "Bootstrap has not started due to external etcd configuration error" (normalize_external_etcd spec);
  data ← match etcd with
         | None => mret (fst wired)
         | Some e =>
             injected ← or_stage status meta "ExternalEtcdWiringError"
               "Bootstrap has not started due to external etcd wiring error"
               (inject_external_etcd_into_bootstrap_data (fst wired) e);
             mret (fst injected)
         end;
  prepared ← or_stage status meta "BootstrapFormatError"
    "Bootstrap has not started because bootstrap data format is invalid" (prepare_bootstrap_script data);
  mret (fst prepared, etcd).

(** The private key and the trusted host keys. *)
Definition read_credentials (spec status meta binding : value) (namespace : string) : M (string * string) :=
  spec_ref ←? get_or spec "sshKeyRef" (VDict []);
  ssh_key_ref ← spec_get "sshKeyRef" spec_ref;
  secret_name ←? get ssh_key_ref "name";
  secret_key ←? get_or ssh_key_ref "key" (VStr "value");
  if negb (truthy secret_name) then
    stage_failure status meta "InvalidConfiguration" "spec.sshKeyRef.name is required" "Missing sshKeyRef.name"
      (Facet false "BootstrapNotStarted" "Bootstrap has not started because SSH key reference is missing") ;;
    raise (PermanentError "spec.sshKeyRef.name is required")
  else
  try_except
    (ssh_key ← read_ssh_key namespace secret_name secret_key;
     known_hosts ← run_api (read_known_hosts namespace binding);
     mret (ssh_key, known_hosts))
    (λ e,
      match e with
      | PermanentError _ => None
      | _ =>
          if is_Exception e then Some (
            stage_failure status meta "SSHKeyReadError" ("Failed to read SSH key: " +:+ exn_str e)
              ("Failed to read SSH key secret: " +:+ exn_str e)
              (Facet false "BootstrapNotStarted" "Bootstrap has not started because SSH key retrieval failed") ;;
            raise (TemporaryError ("SSH key read failed: " +:+ exn_str e) 30))
          else None
      end).

Definition clear_failure : M unit :=
  status_set "bootstrapDiagnostics" VNone ;;
  status_set "failureReason" VNone ;;
  status_set "failureMessage" VNone.

(** Validates prerequisites without executing the bootstrap script. *)
Definition dry_run (status meta address port user : value) (credentials : string * string) : M unit :=
  except_Exception
    (with_connection (ssh_connect address port user (fst credentials) None (snd credentials)) (λ _, mret tt))
    (λ e,
      stage_failure status meta "DryRunSSHFailed" ("Dry-run SSH connectivity check failed: " +:+ exn_str e)
        ("SSH connectivity check failed: " +:+ exn_str e)
        (Facet false "DryRunMode" "Bootstrap execution is skipped in dry-run mode") ;;
      raise (TemporaryError ("Dry-run SSH failed: " +:+ exn_str e) 30)) ;;
  status_set "ready" (VBool false) ;;
  status_set "initialization" not_provisioned ;;
  extra ← info_condition "DryRunValidated" "PreflightPassed"
    ("Dry-run passed: SSH to " +:+ py_str address +:+ ", bootstrap data ready");
  conditions ← machine_lifecycle_conditions
    (Facet false "DryRunMode" "Dry-run mode does not provision infrastructure")
    (Facet false "DryRunMode" "Dry-run mode validates prerequisites without provisioning")
    (Facet false "DryRunMode" "Bootstrap execution is skipped in dry-run mode") [extra];
  patch_conditions status meta conditions ;;
  clear_failure.

Definition publish_success (status meta address : value) (provider_id strategy : string) : M unit :=
  spec_set "providerID" (VStr provider_id) ;;
  status_set "initialization" (VDict [("provisioned", VBool true)]) ;;
  status_set "ready" (VBool true) ;;
  status_set "addresses" (VList [VDict [("type", VStr "InternalIP"); ("address", address)]]) ;;
  let success_message := "Machine " +:+ py_str address +:+ " provisioned with providerID " +:+ provider_id in
  let skipped := String.eqb strategy BOOTSTRAP_CHECK_STRATEGY_NONE in
  extras ← (if skipped then
              c ← info_condition "BootstrapCheckSkipped" "StrategyNone"
                "Post-bootstrap readiness checks skipped by spec.bootstrapCheckStrategy=none";
              mret [c]
            else mret []);
  conditions ← machine_lifecycle_conditions (Facet true "Provisioned" success_message)
    (Facet true "Provisioned" success_message)
    (Facet true "BootstrapCompleted"
       (if skipped
        then "Bootstrap execution completed; post-bootstrap readiness checks skipped (bootstrapCheckStrategy=none)"
        else "Bootstrap execution and readiness checks completed successfully")) extras;
  patch_conditions status meta conditions ;;
  clear_failure.

(** From the bootstrap data on. *)
Definition provision (spec status meta binding uid : value) (name namespace : string)
    (machine_name address port user : value) (strategy : string) : M unit :=
  let provider_id := provider_id_of address in
  status_set "bootstrapDiagnostics" VNone ;;
  bootstrap_data ← read_bootstrap_data namespace machine_name;
  let bootstrap_data := default EmptyString bootstrap_data in
  if String.eqb bootstrap_data EmptyString then wait_for_bootstrap_data status meta machine_name else
  payload ← prepare_payload spec status meta bootstrap_data provider_id;
  credentials ← read_credentials spec status meta binding namespace;
  dry ←? get spec "dryRun";
  if truthy dry then dry_run status meta address port user credentials else
  bootstrapped ← try_except
    (host_operation binding uid (λ operation,
       with_connection (ssh_connect address port user (fst credentials) None (snd credentials)) (λ conn,
         bootstrap_on_host status meta binding uid name namespace (snd payload) (fst payload) strategy
           operation conn)))
    (bootstrap_error status meta);
  if bootstrapped : bool then publish_success status meta address provider_id strategy else mret tt.

(** With a UID-bound target. *)
Definition reconcile_bound (spec status meta binding uid : value) (name namespace : string)
    (machine_name : value) (strategy : string) : M unit :=
  spec_address ←? get spec "address";
  address ← spec_get "address" spec_address;
  if negb (truthy address) then raise (PermanentError "address is not set after host selection") else
  port ←? item binding "port";
  spec_user ←? get_or spec "user" (VStr "root");
  user ← spec_get "user" spec_user;
  provisioned ←? is_already_provisioned status;
  if provisioned : bool then
    backfill_provisioned_fields spec status meta (provider_id_of address) address ;; mret tt
  else provision spec status meta binding uid name namespace machine_name address port user strategy.

Definition sshmachine_reconcile_impl (spec status : value) (name namespace : string) (meta : value) : M unit :=
  paused ← run_api (report_pause status meta (is_paused spec meta namespace));
  if paused : bool then mret tt else
  deleted ←? get meta "deletionTimestamp";
  if truthy deleted then mret tt else
  owner_refs ←? get meta "ownerReferences";
  owned ←? has_machine_owner owner_refs;
  if negb owned then wait_for_owner status meta else
  machine_ref ←? get_machine_owner_ref owner_refs;
  machine_name ←? item (default VNone machine_ref) "name";
  strategy ← or_stage status meta "InvalidConfiguration"
    "Bootstrap has not started due to invalid bootstrapCheckStrategy configuration"
    (normalize_bootstrap_check_strategy spec);
  uid ←? get meta "uid";
  binding ← run_api (bind_machine spec status name namespace uid);
  reconcile_bound spec status meta binding uid name namespace machine_name strategy.

(** ** Handlers *)

(** The live object under the lock: [None] when the event is stale. *)
Definition refresh (spec status meta event_uid : value) (namespace name : string)
    : M (option (value * value * value)) :=
  latest ← except_Exception (run_api (read_current_sshmachine namespace name)) (λ e,
    raise (TemporaryError
      ("failed to refresh live SSHMachine state under reconcile lock: " +:+ exn_str e) 15));
  match latest with
  | None => mret None
  | Some latest =>
      live_meta ←? get_or latest "metadata" (VDict []);
      live_uid ←? get live_meta "uid";
      if truthy live_uid && py_neqb event_uid live_uid then mret None else
      live_spec ←? get_or latest "spec" spec;
      live_status ←? get_or latest "status" status;
      mret (Some (live_spec, live_status, por live_meta meta))
  end.

(** Under both locks. *)
Definition reconcile_locked (spec status : value) (name namespace : string) (meta : value) (delete : bool)
    : M unit :=
  event_uid ←? get meta "uid";
  live ← (if truthy event_uid then refresh spec status meta event_uid namespace name
          else mret (Some (spec, status, meta)));
  match live with
  | None => mret tt
  | Some (spec, status, meta) =>
      if delete then delete_machine spec status name namespace meta else
      sshmachine_reconcile_impl spec status name namespace meta ;;
      deleted ←? get meta "deletionTimestamp";
      if truthy deleted then mret tt else reconcile_reboot spec status name namespace meta false
  end.

(** The body of [async with lock]. *)
Definition reconcile_serialized (spec status : value) (name namespace : string) (meta : value)
    (delete : bool) : M unit :=
  run_api (acquire_distributed_lock_or_requeue namespace name "reconcile") ;;
  try_finally (reconcile_locked spec status name namespace meta delete)
    (run_api (release_distributed_lock_with_logging namespace name "reconcile")).

(** One invocation alone: waiting for the in-process lock can be cancelled.
    ReconcileLocks models the table of locks and several invocations at once. *)
Definition sshmachine_reconcile (spec status : value) (name namespace : string) (meta : value)
    (delete : bool) : M unit :=
  cancelled ← perform Await;
  if (cancelled : bool) then raise CancelledError else
  reconcile_serialized spec status name namespace meta delete.

Definition sshmachine_reconcile_timer (spec status : value) (name namespace : string) (meta : value) : M unit :=
  sshmachine_reconcile spec status name namespace meta false.

Definition sshmachine_delete (spec status : value) (name namespace : string) (meta : value) : M unit :=
  sshmachine_reconcile spec (por status (VDict [])) name namespace (por meta (VDict [])) true.

Definition sshmachine_reboot (old new spec status : value) (name namespace : string) (meta : value) : M unit :=
  if truthy new && py_neqb new old
  then sshmachine_reconcile spec (por status (VDict [])) name namespace (por meta (VDict [])) false
  else mret tt.
End machine.

(** ** Footprints *)

Section footprints.
Context `{Config} `{Yaml} (P : call → Prop) (HP : covers P).

Lemma publish_unready_fp st me r m b l : footprint P (publish_unready st me r m b l).
Proof. unfold publish_unready. fp; eauto with capi. Qed.

Lemma stage_failure_fp st me r fm m b : footprint P (stage_failure st me r fm m b).
Proof. unfold stage_failure. fp; eauto with capi. apply publish_unready_fp. Qed.

Lemma or_stage_fp {A} st me r bm (x : res A) : footprint P (or_stage st me r bm x).
Proof. unfold or_stage. fp. apply stage_failure_fp. Qed.

Lemma prepare_payload_fp sp st me d id : footprint P (prepare_payload sp st me d id).
Proof. unfold prepare_payload. fp; apply or_stage_fp. Qed.

Lemma read_credentials_fp sp st me b ns : footprint P (read_credentials sp st me b ns).
Proof. unfold read_credentials. fp; eauto with capi; apply stage_failure_fp. Qed.

Lemma publish_success_fp st me a id s : footprint P (publish_success st me a id s).
Proof. unfold publish_success, clear_failure. fp; eauto with capi. Qed.

Lemma may_proceed_fp ns n uid m : footprint P (may_proceed ns n uid m).
Proof. unfold may_proceed. fp; eauto with capi. Qed.

Lemma full_script_fp ns e s : footprint P (full_script ns e s).
Proof. unfold full_script, external_etcd_files_script, read_secret_value. fp. Qed.

Lemma refresh_fp sp st me uid ns n : footprint P (refresh sp st me uid ns n).
Proof. unfold refresh. fp; eauto with capi. Qed.
End footprints.

(** The writes of the reconciliation that are not those of [bind_machine]. *)
Definition quarantine_write (c : call) : Prop :=
  ∃ ns hn u w reason, c = Api API_TIMEOUT (host_status_op ns hn u w (phase_fields "Quarantined" reason)).

Section reconcile_footprints.
Context `{Config} `{Yaml} (P : call → Prop) (HP : covers P).
Context (HL : ∀ c, lease_write c → P c) (HS : ∀ c, ssh_setup c → P c).
Context (HR : ∀ conn text t, P (SshRun conn text t)).
Context (HU : ∀ conn text path mode, P (SshUpload conn text path mode)).
Context (ns n : string) (HB : ∀ uid c, binding_write ns n uid c → P c).
Context (HO : ∀ uid w v, P (Api API_TIMEOUT (persist_op ns n uid w [("bootstrapOwnership", v)]))).
Context (HQ : ∀ c, quarantine_write c → P c).

Lemma quarantine_fp b uid reason : footprint P (set_host_phase b n ns uid "Quarantined" reason).
Proof. apply set_host_phase_fp; [done|]. intros. apply HQ. by repeat eexists. Qed.

Lemma ensure_bootstrap_ownership_fp conn b uid st :
  footprint P (ensure_bootstrap_ownership conn b uid ns n st).
Proof.
  unfold ensure_bootstrap_ownership, new_ownership, now_iso.
  fp; try (apply execute_fp; eauto); [|apply quarantine_fp].
  apply persist_machine_status_fp; [done|]. intros w ch ->. apply HO.
Qed.

Lemma check_kubelet_fp conn st me : footprint P (check_kubelet conn st me).
Proof.
  unfold check_kubelet. apply footprint_bind; [by apply execute_fp|]. intros r.
  destruct (success r); [fp|]. destruct (classify_kubelet_not_ready r).
  fp; solve [eauto with capi | by apply publish_unready_fp].
Qed.

Lemma report_bootstrap_failure_fp st me f code : footprint P (report_bootstrap_failure st me f code).
Proof. unfold report_bootstrap_failure. fp. by apply publish_unready_fp. Qed.

Lemma bootstrap_on_host_fp st me b uid etcd script strategy op conn :
  footprint P (bootstrap_on_host st me b uid n ns etcd script strategy op conn).
Proof.
  unfold bootstrap_on_host, upload.
  repeat lazymatch goal with
    | |- footprint _ (may_proceed _ _ _ _) => by apply may_proceed_fp
    | |- footprint _ (lease_check _) => by apply lease_check_fp
    | |- footprint _ (ensure_bootstrap_ownership _ _ _ _ _ _) => apply ensure_bootstrap_ownership_fp
    | |- footprint _ (full_script _ _ _) => by apply full_script_fp
    | |- footprint _ (attempt_call _ _) => apply footprint_attempt, HU
    | |- footprint _ (durable_bootstrap _ _ _ _ _) => by apply durable_bootstrap_fp
    | |- footprint _ (set_host_phase _ _ _ _ _ _) => apply quarantine_fp
    | |- footprint _ (report_bootstrap_failure _ _ _ _) => apply report_bootstrap_failure_fp
    | |- footprint _ (check_kubelet _ _ _) => apply check_kubelet_fp
    | |- footprint _ (mbind _ _) => footprint_step
    | |- footprint _ (if _ then _ else _) => footprint_step
    | |- footprint _ (run_api _) => apply footprint_run_api
    | |- P _ => benign_call
    | _ => footprint_step
    end.
Qed.

Lemma bootstrap_error_fp {A} st me e (h : M A) :
  bootstrap_error st me e = Some h → footprint P h.
Proof.
  unfold bootstrap_error. repeat case_match; intros [= <-];
    (apply footprint_bind; [by apply stage_failure_fp|fp]).
Qed.

Lemma dry_run_fp st me a p u c : footprint P (dry_run st me a p u c).
Proof.
  unfold dry_run, clear_failure. apply footprint_bind.
  - apply footprint_except.
    + apply with_connection_fp; [done|by apply ssh_connect_fp|intros; fp].
    + intros e. apply footprint_bind; [by apply stage_failure_fp|fp].
  - intros _. fp; eauto with capi.
Qed.

Lemma provision_fp sp st me b uid mn a p u strategy :
  footprint P (provision sp st me b uid n ns mn a p u strategy).
Proof.
  unfold provision, wait_for_bootstrap_data.
  repeat lazymatch goal with
    | |- footprint _ (mbind _ _) => footprint_step
    | |- footprint _ (if _ then _ else _) => footprint_step
    | |- footprint _ (let _ := _ in _) => cbv zeta
    | |- footprint _ (read_bootstrap_data _ _) => by apply read_bootstrap_data_fp
    | |- footprint _ (publish_unready _ _ _ _ _ _) => by apply publish_unready_fp
    | |- footprint _ (prepare_payload _ _ _ _ _) => by apply prepare_payload_fp
    | |- footprint _ (read_credentials _ _ _ _ _) => by apply read_credentials_fp
    | |- footprint _ (dry_run _ _ _ _ _ _) => apply dry_run_fp
    | |- footprint _ (publish_success _ _ _ _ _) => by apply publish_success_fp
    | |- footprint _ (try_except _ _) => apply footprint_try; [|apply bootstrap_error_fp]
    | |- footprint _ (host_operation _ _ _) => apply host_operation_fp; [done..|intros op]
    | |- footprint _ (with_connection _ _) =>
        apply with_connection_fp; [done|by apply ssh_connect_fp|intros conn; apply bootstrap_on_host_fp]
    | |- ∀ _, _ => intro
    | _ => footprint_step
    end.
Qed.

Lemma sshmachine_reconcile_impl_fp sp st me : footprint P (sshmachine_reconcile_impl sp st n ns me).
Proof.
  unfold sshmachine_reconcile_impl, wait_for_owner, reconcile_bound.
  repeat lazymatch goal with
    | |- footprint _ (publish_unready _ _ _ _ _ _) => by apply publish_unready_fp
    | |- footprint _ (or_stage _ _ _ _ _) => by apply or_stage_fp
    | |- footprint _ (bind_machine _ _ _ _ _) => apply bind_machine_fp; eauto
    | |- footprint _ (provision _ _ _ _ _ _ _ _ _ _ _ _) => apply provision_fp
    | |- footprint _ (backfill_provisioned_fields _ _ _ _ _) => by apply backfill_provisioned_fields_fp
    | |- footprint _ (report_pause _ _ _) => apply report_pause_fp
    | |- footprint _ (is_paused _ _ _) => by apply is_paused_fp
    | |- footprint _ (run_api _) => apply footprint_run_api
    | |- P _ => benign_call
    | |- covers P => done
    | |- footprint _ (let _ := _ in _) => cbv zeta
    | _ => footprint_step
    end.
Qed.
End reconcile_footprints.
