(* ===== verification/SshHost.v ===== *)
(** controllers/sshhost.py: the periodic connectivity probe of pool hosts. *)

From S2P Require Import Prelude Py PyStr PyTime Config Effects Monitors ApiIO Conditions Contracts.
From S2P Require Import Inventory Ssh MachineStatus.
Open Scope Z_scope.

Section probe.
Context `{Config}.

Definition reachable_condition (ok : bool) (now reason message : string) : value :=
  VDict [("type", VStr "SSHReachable"); ("status", VStr (status_text ok));
         ("lastTransitionTime", VStr now); ("reason", VStr reason); ("message", VStr message)].

(** What one probe publishes. *)
Definition report_probe (ok : bool) (now reason message : string) (other_conditions : list value) : M unit :=
  status_set "ready" (VBool ok) ;;
  status_set "lastProbeTime" (VStr now) ;;
  status_set "lastProbeSuccess" (VBool ok) ;;
  status_set "conditions" (VList (other_conditions ++ [reachable_condition ok now reason message])).

Definition other_conditions_of (status : value) : res (list value) :=
  l ← conditions_of status;
  filter_res (λ c, t ← get c "type"; mret (negb (eq_str t "SSHReachable"))) l.

Definition probe_target (address port : value) : string := py_str address +:+ ":" +:+ py_str port.

(** The connection test. *)
Definition probe_connection (address port user : value) (credentials : string * string) (now : string)
    (other : list value) : M unit :=
  except_Exception
    (with_connection
       (ssh_connect address port user (fst credentials) (Some SSHHOST_PROBE_TIMEOUT) (snd credentials))
       (λ _, mret tt) ;;
     report_probe true now "ProbeSucceeded" ("SSH probe to " +:+ probe_target address port +:+ " succeeded") other)
    (λ e, report_probe false now "ProbeFailed"
            ("SSH probe to " +:+ probe_target address port +:+ " failed: " +:+ exn_str e) other).

Definition sshhost_probe (spec status : value) (name namespace : string) (meta : value) : M unit :=
  paused ← run_api (is_paused spec (por meta (VDict [])) namespace);
  if paused : bool then mret tt else
  address ←? get spec "address";
  port ←? get_or spec "port" (VInt 22);
  user ←? get_or spec "user" (VStr "root");
  ssh_key_ref ←? get_or spec "sshKeyRef" (VDict []);
  secret_name ←? get ssh_key_ref "name";
  secret_key ←? get_or ssh_key_ref "key" (VStr "value");
  if negb (truthy address) || negb (truthy secret_name) then mret tt else
  now ← now_iso;
  consumer ←? get spec "consumerRef";
  status_set "inUse" (VBool (truthy consumer)) ;;
  other ←? other_conditions_of status;
  credentials ← except_Exception
    (ssh_key ← read_ssh_key namespace secret_name secret_key;
     known_hosts ← run_api (read_known_hosts namespace spec);
     mret (Some (ssh_key, known_hosts)))
    (λ e,
       report_probe false now "SSHKeyReadError" ("Failed to read SSH key: " +:+ exn_str e) other ;;
       mret None);
  match credentials with
  | None => mret tt
  | Some credentials => probe_connection address port user credentials now other
  end.
End probe.
