(* ===== verification/SshCluster.v ===== *)
(** controllers/sshcluster.py: a passthrough controller that registers the
    user-specified control plane endpoint. *)

From S2P Require Import Prelude Py PyStr PyTime Effects Monitors ApiIO Conditions Contracts MachineStatus.
Open Scope Z_scope.

Definition CLUSTER_ENDPOINT_READY_CONDITION : string := "ControlPlaneEndpointReady".

Definition has_capi_cluster_owner (owner_references : value) : res bool :=
  if negb (truthy owner_references) then mret false
  else l ← iter owner_references;
       found ← find_res (capi_owner_of_kind "Cluster") l;
       mret (match found with Some _ => true | None => false end).

Definition cluster_lifecycle_conditions (ready infrastructure endpoint : facet) : M (list value) :=
  a ← stamped_condition "Ready" (status_text (f_true ready)) (f_reason ready) (f_message ready);
  b ← stamped_condition MACHINE_INFRASTRUCTURE_READY_CONDITION (status_text (f_true infrastructure))
        (f_reason infrastructure) (f_message infrastructure);
  c ← stamped_condition CLUSTER_ENDPOINT_READY_CONDITION (status_text (f_true endpoint))
        (f_reason endpoint) (f_message endpoint);
  mret [a; b; c].

(** The status every outcome of the reconciliation publishes. *)
Definition publish_cluster (status meta : value) (provisioned : bool) (reason message : string)
    (endpoint : facet) : M unit :=
  status_set "initialization" (VDict [("provisioned", VBool provisioned)]) ;;
  status_set "ready" (VBool provisioned) ;;
  conditions ← cluster_lifecycle_conditions (Facet provisioned reason message)
                 (Facet provisioned reason message) endpoint;
  patch_conditions status meta conditions.

(** [_reconcile]; Kopf's [status=None] is [VNone]. *)
Definition cluster_reconcile (spec : value) (name namespace : string) (meta status : value) : M unit :=
  let status := por status (VDict []) in
  paused ← report_pause status meta (is_paused spec meta namespace);
  if paused : bool then mret tt else
  owner_refs ←? get meta "ownerReferences";
  owned ←? has_capi_cluster_owner owner_refs;
  if negb owned then
    publish_cluster status meta false "WaitingForClusterOwner" "No CAPI Cluster ownerReference found"
      (Facet false "WaitingForClusterOwner"
         "Control plane endpoint cannot be evaluated before owner is available")
  else
  endpoint ←? get_or spec "controlPlaneEndpoint" (VDict []);
  host ←? get_or endpoint "host" (VStr EmptyString);
  port ←? get_or endpoint "port" (VInt 0);
  if negb (truthy host) || negb (truthy port) then
    let message := "Invalid controlPlaneEndpoint: " +:+ py_str host +:+ ":" +:+ py_str port in
    publish_cluster status meta false "InvalidEndpoint" message (Facet false "InvalidEndpoint" message)
  else
  let message := "Control plane endpoint " +:+ py_str host +:+ ":" +:+ py_str port +:+ " registered" in
  publish_cluster status meta true "Provisioned" message (Facet true "EndpointConfigured" message).

Definition sshcluster_create (spec : value) (name namespace : string) (meta status : value) : M unit :=
  run_api (cluster_reconcile spec name namespace meta status).
Definition sshcluster_update (spec : value) (name namespace : string) (meta status : value) : M unit :=
  run_api (cluster_reconcile spec name namespace meta status).

Definition sshcluster_delete (spec : value) (name namespace : string) (meta status : value) : M unit :=
  let status := por status (VDict []) in
  let meta := por meta (VDict []) in
  status_set "ready" (VBool false) ;;
  patch_conditions status meta
    [condition "Ready" "False" "Deleting" "Cluster infrastructure is deleting";
     condition "InfrastructureReady" "False" "Deleting" "Cluster infrastructure is deleting";
     condition "CleanupSucceeded" "False" "Deleting" "Cluster deletion is awaiting pause checks"] ;;
  paused ← run_api (report_pause status meta (is_paused (por spec (VDict [])) meta namespace));
  if paused : bool then raise (TemporaryError "Cluster deletion is paused by CAPI" 15) else
  status_set "initialization" (VDict [("provisioned", VBool false)]) ;;
  patch_conditions status meta
    [condition "ControlPlaneEndpointReady" "False" "Deleting" "Control plane endpoint is being removed";
     condition "CleanupSucceeded" "True" "CleanupNotRequired"
       "SSHCluster has no provider-owned resources to clean up"].
