(* ===== verification/NamespaceAudit.v ===== *)
(** namespace_audit.py: read-only detection of abandoned test namespaces. *)

From S2P Require Import Prelude Py PyStr PyTime Effects Monitors ApiIO.
Open Scope Z_scope.

Definition TEST_LABEL : string := "capi-provider-ssh-test".
(** One hour, in microseconds. *)
Definition MIN_AGE : Z := 3600 * second.

(** [deleted.replace('Z', '+00:00')] of a text; the [except] clauses turn what a
    comparison with a naive time raises into [False]. *)
Definition old_enough (deleted : value) (now : Z) : res bool :=
  match deleted with
  | VStr s =>
      match fromisoformat (replace_char "Z"%char "+00:00" s) with
      | Ok timestamp =>
          match utcoffset timestamp with
          | None => mret false
          | Some _ =>
              match since now timestamp with
              | Ok age => mret (MIN_AGE <=? age)
              | Err _ => mret false
              end
          end
      | Err (ValueError _) | Err (TypeError _) => mret false
      | Err e => Err e
      end
  | _ => Err (AttributeError ("'" +:+ type_name deleted +:+ "' object has no attribute 'replace'"))
  end.

(** [meta.get('name', '').startswith('test-capi-ssh-')] *)
Definition test_name (meta : value) : res bool :=
  name ← get_or meta "name" (VStr EmptyString);
  match name with
  | VStr s => mret (startswith "test-capi-ssh-" s)
  | _ => Err (AttributeError ("'" +:+ type_name name +:+ "' object has no attribute 'startswith'"))
  end.

Definition is_stuck_test (namespace : value) (now : Z) : res bool :=
  meta ← get_or namespace "metadata" (VDict []);
  named ← test_name meta;
  if negb named then mret false else
  label ← getp meta ["labels"; TEST_LABEL];
  if negb (eq_str label "true") then mret false else
  phase ← getp namespace ["status"; "phase"];
  if negb (eq_str phase "Terminating") then mret false else
  deleted ← get meta "deletionTimestamp";
  if negb (truthy deleted) then mret false else old_enough deleted now.

Definition resource_entry (it : value) : res value :=
  kind ← item it "kind";
  meta ← item it "metadata";
  name ← item meta "name";
  uid ← item meta "uid";
  finalizers ← get_or meta "finalizers" (VList []);
  cleanup ← getp it ["status"; "cleanup"; "phase"];
  mret (VDict [("kind", kind); ("name", name); ("uid", uid); ("finalizers", finalizers);
               ("cleanup", cleanup)]).

(** The remaining resources of one kind. *)
Definition audit_resources (name : string) (group plural : string) : M (list value) :=
  listed ← api_call (5, 15) (ListObjects group "v1beta1" name plural);
  items ←? (l ← item listed "items"; iter l);
  lift ((fix go (l : list value) : res (list value) :=
    match l with
    | [] => mret []
    | x :: l => e ← resource_entry x; es ← go l; mret (e :: es)
    end) items).

Definition finding (name : string) (deleted : value) (resources : list value) : value :=
  VDict [("namespace", VStr name); ("deletionTimestamp", deleted); ("resources", VList resources);
         ("action", VStr "Investigate cleanup; finalizers and claims preserved")].

(** The loop over the listed namespaces, already serialised by the SDK. *)
Fixpoint audit_namespaces (namespaces : list value) (now : Z) : M (list value) :=
  match namespaces with
  | [] => mret []
  | obj :: namespaces =>
      stuck ←? is_stuck_test obj now;
      if negb stuck then audit_namespaces namespaces now else
      meta ←? item obj "metadata";
      name ←? item meta "name";
      machines ← audit_resources (py_str name) "cluster.x-k8s.io" "machines";
      sshmachines ← audit_resources (py_str name) "infrastructure.alpininsight.ai" "sshmachines";
      deleted ←? item meta "deletionTimestamp";
      rest ← audit_namespaces namespaces now;
      mret (finding (py_str name) deleted (machines ++ sshmachines) :: rest)
  end.

(** The SDK serialises the listed namespaces; the clock is read first. *)
Definition audit : M (list value) :=
  now ← perform Now;
  namespaces ← api_call (5, 15) (ListNamespaces (TEST_LABEL +:+ "=true"));
  items ←? (l ← item namespaces "items"; iter l);
  audit_namespaces items now.

(** [main]'s exit status. *)
Definition audit_exit (findings : list value) : Z := match findings with [] => 0 | _ => 1 end.

(** ** The audit only reads *)

Section footprints.
Context (P : call → Prop) (HP : covers P).

Lemma audit_resources_fp n g p : footprint P (audit_resources n g p).
Proof. unfold audit_resources. fp. Qed.

Lemma audit_namespaces_fp l now : footprint P (audit_namespaces l now).
Proof. induction l as [|o l IH]; simpl; fp; try apply audit_resources_fp. Qed.

Lemma audit_fp : footprint P audit.
Proof. unfold audit. fp. apply audit_namespaces_fp. Qed.
End footprints.
