(* ===== verification/Readiness.v ===== *)
(** readiness.py: the readiness probe, a process of its own beside the operator, and
    main.py, the operator's startup that the probe inspects.  A payload reaches the
    model decoded, as [json.loads] returns it; sockets and TLS are one call. *)

From S2P Require Import Prelude Py PyStr PyTime Sha256 Effects Monitors ApiIO Contracts.
Open Scope Z_scope.

Definition PEERING_NAME : string := "capi-provider-ssh".
Definition PEERING_LIFETIME : Z := 30.
Definition REQUEST_TIMEOUT : Z * Z := (1, 2).
Definition SERVICE_ACCOUNT_PATH : string := "/var/run/secrets/kubernetes.io/serviceaccount".
Definition MAX_API_RESPONSE : Z := 1024 * 1024.

(** ** [float] *)

(** [Finite n e] is [n * 10^e].  Rounding to binary is left out: it moves a lifetime
    of at most 30 seconds by less than 10^-14, and ages are whole microseconds. *)
Inductive pyfloat := Finite (n e : Z) | Infinite (negative : bool) | NaN.

(** [a < f] for [a] whole microseconds. *)
Definition micros_below (a : Z) (f : pyfloat) : bool :=
  match f with
  | Finite n e => if 0 <=? e then a <? n * 10 ^ e * second else a * 10 ^ (- e) <? n * second
  | Infinite negative => negb negative
  | NaN => false
  end.

(** [min(f, PEERING_LIFETIME)]: the first operand unless the second is smaller. *)
Definition capped (f : pyfloat) : pyfloat :=
  if micros_below (PEERING_LIFETIME * second) f then Finite PEERING_LIFETIME 0 else f.

(** The longest prefix of digits and underscores, and the rest. *)
Fixpoint span_digits (s : string) : string * string :=
  match s with
  | String c s' =>
      if is_digit c || Ascii.eqb c "_"%char
      then let '(a, b) := span_digits s' in (String c a, b) else (EmptyString, s)
  | EmptyString => (EmptyString, EmptyString)
  end.

(** The digits of a part of the literal: value and number of digits. *)
Definition digits_part (s : string) : option (Z * Z) :=
  if String.eqb s EmptyString then Some (0, 0)
  else t ← strip_underscores false s; z ← py_uint t; Some (z, Z.of_nat (String.length t)).

Definition signed (s : string) : bool * string :=
  match s with
  | String "-"%char t => (true, t)
  | String "+"%char t => (false, t)
  | _ => (false, s)
  end.

(** [[eE][+-]digits], or nothing *)
Definition exponent_part (s : string) : option Z :=
  match s with
  | EmptyString => Some 0
  | String c t =>
      if Ascii.eqb c "e"%char then
        let '(negative, t) := signed t in
        if String.eqb t EmptyString then None else z ← py_uint t; Some (if negative then - z else z)
      else None
  end.

Definition unsigned_float (s : string) : option pyfloat :=
  if String.eqb s "inf" || String.eqb s "infinity" then Some (Infinite false)
  else if String.eqb s "nan" then Some NaN else
  let '(whole, rest) := span_digits s in
  '(w, wn) ← digits_part whole;
  '(f, fn, rest) ← match rest with
                   | String "."%char t =>
                       let '(frac, rest) := span_digits t in
                       '(f, fn) ← digits_part frac; Some (f, fn, rest)
                   | _ => Some (0, 0, rest)
                   end;
  if wn + fn =? 0 then None else
  e ← exponent_part rest; Some (Finite (w * 10 ^ fn + f) (e - fn)).

Definition negated (f : pyfloat) : pyfloat :=
  match f with Finite n e => Finite (- n) e | Infinite b => Infinite (negb b) | NaN => NaN end.

Definition OverflowError (msg : string) : exn := OtherError "OverflowError" msg.

(** [float(v)]; an integer too large for a double overflows. *)
Definition py_float (v : value) : res pyfloat :=
  match v with
  | VBool b => mret (Finite (Z.b2z b) 0)
  | VInt z =>
      if Z.abs z <? 2 ^ 1024 - 2 ^ 970 then mret (Finite z 0)
      else Err (OverflowError "int too large to convert to float")
  | VStr s =>
      let '(negative, t) := signed (lower (strip s)) in
      match unsigned_float t with
      | Some f => mret (if negative then negated f else f)
      | None => Err (ValueError ("could not convert string to float: " +:+ py_repr_str s))
      end
  | _ => Err (TypeError "float() argument must be a string or a real number")
  end.

(** ** The two API clients *)

(** The methods of [CustomObjectsApi] the probe uses. *)
Record ReadinessAPI := {
  list_cluster_custom_object : string → string → string → Z → M value;
  get_cluster_custom_object : string → string → string → string → M value
}.

Definition sdk_api : ReadinessAPI := {|
  list_cluster_custom_object group version plural limit :=
    api_call REQUEST_TIMEOUT (ListClusterObjects group version plural limit);
  get_cluster_custom_object group version plural name :=
    api_call REQUEST_TIMEOUT (GetClusterObject group version plural name)
|}.

Definition getenv (name : string) : M (option string) := perform (External (Getenv name)).

Definition set_and_nonempty (v : option string) : bool :=
  match v with Some s => negb (String.eqb s EmptyString) | None => false end.

(** [InClusterAPI._get] *)
Definition in_cluster_get (path : string) : M value :=
  token ← attempt_call (External (ReadFile (SERVICE_ACCOUNT_PATH +:+ "/token"))) (λ r : res payload, r);
  let token := strip (text token) in
  if String.eqb token EmptyString then raise (NotReadyError "service account token is unavailable") else
  host ← getenv "KUBERNETES_SERVICE_HOST";
  match host with
  | None => raise (KeyError "KUBERNETES_SERVICE_HOST")
  | Some host =>
      port ← getenv "KUBERNETES_SERVICE_PORT";
      match py_int (default "443" port) with
      | None => raise (ValueError "invalid literal for int()")
      | Some port =>
          response ← attempt_call (External (HttpGet true host port path (Some token) REQUEST_TIMEOUT))
                       (λ r : res (Z * payload), r);
          if negb (fst response =? 200)
          then raise (NotReadyError ("Kubernetes API returned HTTP " +:+ str_Z (fst response))) else
          if MAX_API_RESPONSE <? Z.of_nat (String.length (text (snd response)))
          then raise (NotReadyError "Kubernetes API response exceeds the probe budget") else
          result ←? json (snd response);
          if negb (is_dict result) then raise (NotReadyError "Kubernetes API response is not an object")
          else mret result
      end
  end.

Definition in_cluster_api : ReadinessAPI := {|
  list_cluster_custom_object group version plural limit :=
    in_cluster_get ("/apis/" +:+ group +:+ "/" +:+ version +:+ "/" +:+ plural +:+ "?limit=" +:+ str_Z limit);
  get_cluster_custom_object group version plural name :=
    in_cluster_get ("/apis/" +:+ group +:+ "/" +:+ version +:+ "/" +:+ plural +:+ "/" +:+ name)
|}.

Definition load_api_config : M unit :=
  host ← getenv "KUBERNETES_SERVICE_HOST";
  if set_and_nonempty host then attempt_call (External (LoadConfig None)) (λ r : res unit, r) else
  kubeconfig ← getenv "KUBECONFIG";
  if set_and_nonempty kubeconfig
  then attempt_call (External (LoadConfig kubeconfig)) (λ r : res unit, r)
  else raise (RuntimeError
    "Set KUBECONFIG explicitly for local execution, or run with in-cluster credentials").

Definition readiness_api : M ReadinessAPI :=
  host ← getenv "KUBERNETES_SERVICE_HOST";
  if set_and_nonempty host then mret in_cluster_api else load_api_config ;; mret sdk_api.

(** ** The probe *)

Definition local_runtime : M value :=
  response ← attempt_call (External (HttpGet false "127.0.0.1" 8080 "/healthz" None (1, 1)))
               (λ r : res (Z * payload), r);
  if negb (fst response =? 200) then raise (NotReadyError "local liveness is unavailable") else
  payload ←? json (snd response);
  runtime ←? get payload "runtime";
  configured ←? (if is_dict runtime then get runtime "configured" else mret (VBool false));
  if negb (is_True configured) then raise (NotReadyError "operator startup has not completed")
  else mret runtime.

(** The exceptions that mean an unreadable heartbeat or startup epoch. *)
Definition is_unreadable (overflow : bool) (e : exn) : bool :=
  match e with
  | KeyError _ | TypeError _ | ValueError _ => true
  | OtherError cls _ => overflow && String.eqb cls "OverflowError"
  | _ => false
  end.

(** The body of the [try] in the loop over the peers. *)
Definition fresh_heartbeat (peer : value) (started_at now : Z) : res bool :=
  lastseen ← item peer "lastseen";
  last_seen ← fromisoformat_value lastseen;
  lifetime ← item peer "lifetime";
  f ← py_float lifetime;
  age ← since now last_seen;
  mret ((started_at <=? now - age) && (0 <=? age) && micros_below age (capped f)).

(** [for peer in peers]: whether the loop returns. *)
Fixpoint any_fresh_peer (peers : list value) (priority : value) (started_at now : Z) : res bool :=
  match peers with
  | [] => mret false
  | peer :: peers =>
      if negb (is_dict peer) then any_fresh_peer peers priority started_at now else
      theirs ← get peer "priority";
      if py_neqb theirs priority then any_fresh_peer peers priority started_at now else
      match fresh_heartbeat peer started_at now with
      | Ok true => mret true
      | Ok false => any_fresh_peer peers priority started_at now
      | Err e => if is_unreadable true e then any_fresh_peer peers priority started_at now else Err e
      end
  end.

(** [(peering.get('status') or {}).values()] *)
Definition peers_of (peering : value) : res (list value) :=
  status ← get peering "status";
  match por status (VDict []) with
  | VDict d => mret (map snd d)
  | v => Err (AttributeError ("'" +:+ type_name v +:+ "' object has no attribute 'values'"))
  end.

(** [datetime.fromisoformat(runtime['started_at'])], aware. *)
Definition startup_epoch (runtime : value) : res Z :=
  text ← item runtime "started_at";
  t ← fromisoformat_value text;
  match instant t with
  | Some i => mret i
  | None => Err (ValueError "timezone missing")
  end.

Definition check_readiness (client : ReadinessAPI) (runtime : value) : M unit :=
  configured ←? get runtime "configured";
  if negb (is_True configured) then raise (NotReadyError "operator startup has not completed") else
  list_cluster_custom_object client API_GROUP API_VERSION "sshclusters" 1 ;;
  ha ←? get runtime "ha";
  if is_False ha then mret tt else
  priority ←? get runtime "priority";
  match priority with
  | VInt _ =>
      started_at ← try_except (lift (startup_epoch runtime)) (λ e,
        if is_unreadable false e then Some (raise (NotReadyError "operator startup epoch is unavailable"))
        else None);
      peering ← get_cluster_custom_object client "kopf.dev" "v1" "clusterkopfpeerings" PEERING_NAME;
      now ← perform Now;
      peers ←? peers_of peering;
      fresh ←? any_fresh_peer peers priority started_at now;
      if fresh : bool then mret tt
      else raise (NotReadyError "this operator has no fresh peering heartbeat since startup")
  | _ => raise (NotReadyError "operator peering identity is unavailable")
  end.

(** [type(e).__name__] *)
Definition exn_class (e : exn) : string :=
  match e with
  | TemporaryError _ _ => "TemporaryError" | PermanentError _ => "PermanentError"
  | ApiException _ _ => "ApiException" | HTTPError _ => "HTTPError" | OSError _ => "OSError"
  | TimeoutError _ => "TimeoutError" | KeyError _ => "KeyError" | TypeError _ => "TypeError"
  | AttributeError _ => "AttributeError" | ValueError _ => "ValueError"
  | RuntimeError _ => "RuntimeError" | NotReadyError _ => "NotReadyError"
  | OtherError cls _ => cls | CancelledError => "CancelledError" | OutOfFuel => EmptyString
  end.

Definition print (line : string) : M unit := perform (External (WriteLine line)).

(** [main]: the exit status; no API error is ever printed. *)
Definition readiness_main : M Z :=
  r ← try_except
    (runtime ← local_runtime;
     client ← readiness_api;
     check_readiness client runtime ;;
     mret None)
    (λ e, match e with
          | NotReadyError message => Some (print ("not ready: " +:+ message) ;; mret (Some 1))
          | _ => if is_Exception e
                 then Some (print ("not ready: " +:+ exn_class e) ;; mret (Some 1)) else None
          end);
  match r with
  | Some code => mret code
  | None => print "ready" ;; mret 0
  end.

(** ** Operator startup *)

(** The fields of [kopf.OperatorSettings] that [configure] sets. *)
Record OperatorSettings := {
  progress_in_annotations : bool;
  posting_level : Z;
  watching_server_timeout : Z;
  watching_client_timeout : Z;
  peering_name : string;
  peering_mandatory : bool;
  peering_standalone : bool;
  peering_priority : Z;
  peering_lifetime : Z
}.

(** [int(text, 16)] of hexadecimal digits *)
Fixpoint hex_number (acc : Z) (s : string) : Z :=
  match s with
  | EmptyString => acc
  | String c s =>
      let d := if is_digit c then Z.of_nat (Ascii.nat_of_ascii c) - 48
               else Z.of_nat (Ascii.nat_of_ascii c) - 87 in
      hex_number (acc * 16 + d) s
  end.

Definition peer_priority (identity : string) : Z :=
  hex_number 0 (String.substring 0 15 (sha256_hex identity)).

Definition with_watching (s : OperatorSettings) : OperatorSettings := {|
  progress_in_annotations := true; posting_level := 30;   (* logging.WARNING *)
  watching_server_timeout := 270; watching_client_timeout := 300;
  peering_name := peering_name s; peering_mandatory := peering_mandatory s;
  peering_standalone := peering_standalone s; peering_priority := peering_priority s;
  peering_lifetime := peering_lifetime s |}.

Definition with_peering (s : OperatorSettings) (identity : string) : OperatorSettings := {|
  progress_in_annotations := progress_in_annotations s; posting_level := posting_level s;
  watching_server_timeout := watching_server_timeout s;
  watching_client_timeout := watching_client_timeout s;
  peering_name := PEERING_NAME; peering_mandatory := true; peering_standalone := false;
  peering_priority := peer_priority identity; peering_lifetime := PEERING_LIFETIME |}.

(** [_runtime], the module's dictionary, is a local that outlives exceptions. *)
Definition set_runtime (v : value) : M unit :=
  s ← get_patch; put_patch (Patch (p_spec s) (p_status s) (dset (p_locals s) "_runtime" v)).

(** [kubernetes.client.Configuration.set_default]: the [retries] of the SDK's default
    configuration, also global. *)
Definition set_default_retries (n : Z) : M unit :=
  s ← get_patch; put_patch (Patch (p_spec s) (p_status s) (dset (p_locals s) "Configuration.retries" (VInt n))).

Definition configure (settings : OperatorSettings) : M OperatorSettings :=
  set_runtime (VDict [("configured", VBool false)]) ;;
  load_api_config ;;
  set_default_retries 0 ;;
  ha_text ← getenv "SSH_PROVIDER_HA";
  let ha := String.eqb (lower (default "true" ha_text)) "true" in
  settings ← (if ha then
                pod_uid ← getenv "POD_UID";
                identity ← (if set_and_nonempty pod_uid then mret (default EmptyString pod_uid)
                            else perform Uuid4);
                mret (with_peering (with_watching settings) identity)
              else mret (with_watching settings));
  now ← perform Now;
  set_runtime (VDict [("configured", VBool true); ("ha", VBool ha);
                      ("priority", VInt (peering_priority settings)); ("started_at", VStr (isoformat now))]) ;;
  mret settings.

(** What [runtime_probe] serves on the liveness endpoint. *)
Definition runtime_probe : M value :=
  s ← get_patch; mret (default (VDict [("configured", VBool false)]) (dget (p_locals s) "_runtime")).
