(* ===== verification/ChangelogMerge.v ===== *)
(** scripts/merge_changelog.py: the release workflow's gate that merges the generated
    changelog pull request.  GitHub is reached through the [gh] command; what it
    prints reaches the model decoded, as [json.loads] returns it.  Durations are in
    microseconds. *)

From S2P Require Import Prelude Py PyStr Effects Readiness.
Open Scope Z_scope.

(** ** Exceptions *)

Definition MergeBlocked (msg : string) : exn := OtherError "MergeBlocked" msg.
(** A subclass of [MergeBlocked]. *)
Definition PullRequestStateBlocked (msg : string) : exn := OtherError "PullRequestStateBlocked" msg.

Definition is_PullRequestStateBlocked (e : exn) : bool :=
  match e with OtherError cls _ => String.eqb cls "PullRequestStateBlocked" | _ => false end.
Definition is_MergeBlocked (e : exn) : bool :=
  match e with
  | OtherError cls _ => String.eqb cls "MergeBlocked" || String.eqb cls "PullRequestStateBlocked"
  | _ => false
  end.

(** [(subprocess.CalledProcessError, subprocess.TimeoutExpired)] *)
Definition is_failed_process (e : exn) : bool :=
  match e with
  | OtherError cls _ => String.eqb cls "CalledProcessError" || String.eqb cls "TimeoutExpired"
  | _ => false
  end.

(** ** Python operators of this script *)

(** [len(v)] *)
Definition py_len (v : value) : res Z :=
  match v with
  | VStr s => mret (Z.of_nat (String.length s))
  | VList l => mret (Z.of_nat (length l))
  | VDict d => mret (Z.of_nat (length d))
  | _ => Err (TypeError ("object of type '" +:+ type_name v +:+ "' has no len()"))
  end.

(** [v[0]] of a nonempty [v] *)
Definition py_first (v : value) : res value :=
  match v with
  | VStr (String c _) => mret (VStr (String c EmptyString))
  | VList (x :: _) => mret x
  | VDict _ => Err (KeyError "0")
  | VStr EmptyString | VList [] => Err (OtherError "IndexError" "index out of range")
  | _ => Err (TypeError ("'" +:+ type_name v +:+ "' object is not subscriptable"))
  end.

(** [a > b] *)
Fixpoint py_gt (a b : value) {struct a} : res bool :=
  match a, b with
  | VBool x, VBool y => mret (Z.b2z y <? Z.b2z x)
  | VBool x, VInt y => mret (y <? Z.b2z x)
  | VInt x, VBool y => mret (Z.b2z y <? x)
  | VInt x, VInt y => mret (y <? x)
  | VStr x, VStr y => mret (String.ltb y x)
  | VList x, VList y =>
      (fix go (x y : list value) : res bool :=
        match x, y with
        | [], _ => mret false
        | _ :: _, [] => mret true
        | v :: x, w :: y => if py_eqb v w then go x y else py_gt v w
        end) x y
  | _, _ => Err (TypeError ("'>' not supported between instances of '" +:+ type_name a +:+ "' and '" +:+
                            type_name b +:+ "'"))
  end.

(** [set(l)] raises on a member that is not hashable. *)
Fixpoint check_hashable (l : list value) : res unit :=
  match l with
  | [] => mret tt
  | v :: l => _ ← in_strs v []; check_hashable l
  end.

(** [len(set(l)) != len(l)] *)
Fixpoint has_duplicate (l : list value) : bool :=
  match l with [] => false | v :: l => existsb (py_eqb v) l || has_duplicate l end.

(** [isinstance(name, str) and name] of every member *)
Fixpoint nonempty_strs (l : list value) : option (list string) :=
  match l with
  | [] => Some []
  | VStr s :: l => if String.eqb s EmptyString then None else (s ::.) <$> nonempty_strs l
  | _ => None
  end.

(** ** Policy *)

Record Policy := {
  integration_id : value;
  checks : list string;
  approval_required : bool
}.

(** [isinstance(v, int) and v > 0] *)
Definition positive_int (v : value) : bool :=
  match v with VInt z => 0 <? z | VBool b => b | _ => false end.

(** [path.with_name(name)] *)
Definition with_name (path name : string) : string :=
  match rpartition "/"%char path with
  | Some (directory, _) => directory +:+ "/" +:+ name
  | None => name
  end.

(** The review policy: the approving reviews required and the three flags. *)
Definition read_reviews (reviews : value) : res (value * list value) :=
  count ← item reviews "required_approving_review_count";
  f1 ← item reviews "require_code_owner_review";
  f2 ← item reviews "require_last_push_approval";
  f3 ← item reviews "require_extra_approval_for_unattributed_changes";
  mret (count, [f1; f2; f3]).

Definition is_bool (v : value) : bool := match v with VBool _ => true | _ => false end.

Definition read_file (path : string) : M payload :=
  attempt_call (External (ReadFile path)) (λ r : res payload, r).

Definition load_policy (path : string) (reviews_path : option string) : M Policy :=
  file ← read_file path;
  data ←? json file;
  listed ←? item data "checks";
  names ←? iter listed;
  if match names with [] => true | _ => false end
  then raise (MergeBlocked "Required check names must be nonempty and unique") else
  _ ←? check_hashable names;
  if has_duplicate names then raise (MergeBlocked "Required check names must be nonempty and unique") else
  match nonempty_strs names with
  | None => raise (MergeBlocked "Required check names must be nonempty and unique")
  | Some required =>
      id ←? item data "integration_id";
      if negb (positive_int id) then raise (MergeBlocked "A GitHub integration ID is required") else
      read ← try_except
        (file ← read_file (default (with_name path "required-reviews.json") reviews_path);
         reviews ←? json file;
         lift (read_reviews reviews))
        (λ e, match e with
              | OSError _ | TimeoutError _ | ValueError _ | KeyError _ | TypeError _ =>
                  Some (raise (MergeBlocked "Explicit review policy is missing or invalid"))
              | _ => None
              end);
      match fst read with
      | VInt count =>
          if negb ((0 <=? count) && (count <=? 10)) || existsb (λ flag, negb (is_bool flag)) (snd read)
          then raise (MergeBlocked "Explicit review policy is missing or invalid")
          else mret {| integration_id := id; checks := required;
                       approval_required := (0 <? count) || existsb truthy (snd read) |}
      | _ => raise (MergeBlocked "Explicit review policy is missing or invalid")
      end
  end.

(** ** GitHub *)

Section github.
Context (repository : string).

Definition command (args : list string) : M payload :=
  try_except (attempt_call (External (Run None ("gh" :: args) (Some 45))) (λ r : res payload, r))
    (λ e, if is_failed_process e
          then Some (raise (MergeBlocked "GitHub request failed; no merge fallback is permitted")) else None).

Definition api_args (path : string) : list string := ["api"; "repos/" +:+ repository +:+ "/" +:+ path].

Definition github_api (path : string) : M value := p ← command (api_args path); lift (json p).

Definition pull_request_path (number : Z) : string := "pulls/" +:+ str_Z number.
Definition files_path (number : Z) : string := "pulls/" +:+ str_Z number +:+ "/files?per_page=2".

Definition pull_request (number : Z) : M value := github_api (pull_request_path number).
Definition github_files (number : Z) : M value := github_api (files_path number).

Definition checks_args (sha : string) : list string :=
  ["api"; "--paginate"; "--slurp";
   "repos/" +:+ repository +:+ "/commits/" +:+ sha +:+ "/check-runs?per_page=100&filter=latest"].

(** [[check for page in pages for check in page['check_runs']]] *)
Fixpoint check_runs (pages : list value) : res (list value) :=
  match pages with
  | [] => mret []
  | page :: pages =>
      runs ← item page "check_runs"; l ← iter runs; rest ← check_runs pages; mret (l ++ rest)
  end.

Definition github_checks (sha : string) : M (list value) :=
  p ← command (checks_args sha);
  pages ←? json p;
  l ←? iter pages;
  lift (check_runs l).

Definition review_args (number : Z) : list string :=
  ["pr"; "view"; str_Z number; "--repo"; repository; "--json"; "headRefOid,reviewDecision"].

Definition review_state (number : Z) : M value := p ← command (review_args number); lift (json p).

Definition queue_args (number : Z) (sha : string) : list string :=
  ["pr"; "merge"; str_Z number; "--repo"; repository; "--auto"; "--squash"; "--match-head-commit"; sha].
Definition merge_args (number : Z) (sha : string) : list string :=
  ["pr"; "merge"; str_Z number; "--repo"; repository; "--squash"; "--match-head-commit"; sha].

Definition queue_merge (number : Z) (sha : string) : M unit := _ ← command (queue_args number sha); mret tt.
Definition merge_pr (number : Z) (sha : string) : M unit := _ ← command (merge_args number sha); mret tt.

(** ** Evidence *)

Definition validate_pull_request (pr : value) (expected_head : string) : res unit :=
  head ← item pr "head";
  sha ← item head "sha";
  if py_neqb sha (VStr expected_head)
  then Err (MergeBlocked "PR head changed; a new run must validate the new commit") else
  base ← item pr "base";
  base_ref ← item base "ref";
  other_branch ← (if negb (eq_str base_ref "develop") then mret true
                  else head_ref ← item head "ref"; mret (negb (eq_str head_ref "chore/changelog-update")));
  if other_branch : bool
  then Err (MergeBlocked "Only the generated changelog branch targeting develop may be merged") else
  repo ← get head "repo";
  full_name ← get (por repo (VDict [])) "full_name";
  if negb (eq_str full_name repository) then Err (MergeBlocked "A fork cannot supply the changelog branch") else
  merged ← get pr "merged";
  if truthy merged then mret tt else
  state ← item pr "state";
  closed ← (if negb (eq_str state "open") then mret true else draft ← get pr "draft"; mret (truthy draft));
  if closed : bool
  then Err (PullRequestStateBlocked "The changelog PR must be open and ready for review") else
  mergeable_state ← get pr "mergeable_state";
  stale ← in_strs mergeable_state ["behind"; "dirty"];
  if stale : bool
  then Err (PullRequestStateBlocked "Update the changelog branch and re-run checks before merging")
  else mret tt.

Definition pause (microseconds : Z) : M unit := perform (External (Pause microseconds)).

Definition read_validated_pull_request (number : Z) (expected_head : string) (interval : Z) : M value :=
  pr ← pull_request number;
  try_except (lift (validate_pull_request pr expected_head) ;; mret pr)
    (λ e, if is_PullRequestStateBlocked e then Some
      (state ←? item pr "state";
       mergeable_state ←? get pr "mergeable_state";
       print ("Rechecking PR #" +:+ str_Z number +:+ ": state=" +:+ py_str state +:+ ", mergeable_state=" +:+
              py_str mergeable_state) ;;
       pause (Z.min interval 5000000) ;;
       pr ← pull_request number;
       lift (validate_pull_request pr expected_head) ;; mret pr) else None).

(** The check runs of one required check at the expected commit. *)
Definition is_required_run (policy : Policy) (expected_head name : string) (check : value) : res bool :=
  its_name ← item check "name";
  if negb (eq_str its_name name) then mret false else
  sha ← get check "head_sha";
  if negb (eq_str sha expected_head) then mret false else
  app ← get check "app";
  id ← get (por app (VDict [])) "id";
  mret (py_eqb id (integration_id policy)).

(** [max(matches, key=lambda check: check['id'])]: the first of the greatest *)
Fixpoint latest_from (current id : value) (l : list value) : res value :=
  match l with
  | [] => mret current
  | check :: l =>
      its ← item check "id";
      greater ← py_gt its id;
      if greater : bool then latest_from check its l else latest_from current id l
  end.

Definition latest (check : value) (l : list value) : res value :=
  id ← item check "id"; latest_from check id l.

Fixpoint required_ready (ready : bool) (names : list string) (runs : list value) (policy : Policy)
    (expected_head : string) : res bool :=
  match names with
  | [] => mret ready
  | name :: names =>
      found ← filter_res (is_required_run policy expected_head name) runs;
      match found with
      | [] => required_ready false names runs policy expected_head
      | check :: others =>
          current ← latest check others;
          status ← item current "status";
          if negb (eq_str status "completed") then required_ready false names runs policy expected_head else
          conclusion ← get current "conclusion";
          if negb (eq_str conclusion "success")
          then Err (MergeBlocked ("Required check did not pass: " +:+ name +:+ " (" +:+ py_str conclusion +:+ ")"))
          else required_ready ready names runs policy expected_head
      end
  end.

Definition checks_ready (runs : list value) (policy : Policy) (expected_head : string) : res bool :=
  required_ready true (checks policy) runs policy expected_head.

(** [len(files) == 1] and that file is the changelog, added or modified *)
Definition only_changelog (files : value) : res bool :=
  n ← py_len files;
  if negb (n =? 1) then mret false else
  file ← py_first files;
  filename ← item file "filename";
  if negb (eq_str filename "CHANGELOG.md") then mret false else
  file ← py_first files;
  status ← item file "status";
  in_strs status ["added"; "modified"].

(** [v in {None, '']] *)
Definition no_decision (v : value) : res bool :=
  match v with VNone => mret true | _ => in_strs v [EmptyString] end.

Inductive decision := Queue | Leave | Proceed.

(** The decision of the reviewers on the expected head. *)
Definition decide_review (review : value) (policy : Policy) (expected_head : string) : res decision :=
  head ← get review "headRefOid";
  if negb (eq_str head expected_head)
  then Err (MergeBlocked "PR head changed while checking review eligibility") else
  match review with
  | VDict d =>
      match dget d "reviewDecision" with
      | None => Err (MergeBlocked "GitHub review decision is missing")
      | Some v =>
          if eq_str v "REVIEW_REQUIRED" then mret Queue else
          if eq_str v "CHANGES_REQUESTED" then mret Leave else
          if eq_str v "APPROVED" then mret Proceed else
          absent ← (if approval_required policy then mret true
                    else none ← no_decision v; mret (negb none));
          if absent : bool
          then Err (MergeBlocked "Required review decision is absent; verify the active review rules")
          else mret Proceed
      end
  | _ => Err (TypeError "argument is not iterable")
  end.

(** [pr.get('mergeable') is True and pr.get('mergeable_state') == 'clean'] *)
Definition is_clean (pr : value) : res bool :=
  mergeable ← get pr "mergeable";
  if negb (is_True mergeable) then mret false else
  state ← get pr "mergeable_state"; mret (eq_str state "clean").

Definition base_sha (pr : value) : res value := base ← item pr "base"; item base "sha".

(** The last condition of a round: the base did not move, and still clean. *)
Definition still_clean (current pr : value) : res bool :=
  its ← base_sha current;
  was ← base_sha pr;
  if negb (py_eqb its was) then mret false else is_clean current.

(** ** The loop *)

Definition monotonic : M Z := perform (External Monotonic).

(** What a round of the loop ends with: a [return], or the final [sleep]. *)
Inductive round_result := Return (outcome : option string) | Again.

Section merge.
Context (number : Z) (expected_head : string) (policy : Policy) (interval : Z).

Definition tag : string := "PR #" +:+ str_Z number.

Definition wait_again : M round_result :=
  print ("Waiting for required checks and merge eligibility on " +:+ tag +:+ ": " +:+ expected_head) ;;
  pause interval ;;
  mret Again.

(** The re-read before the merge. *)
Definition merge_clean (pr : value) : M round_result :=
  current ← read_validated_pull_request number expected_head interval;
  merged ←? get current "merged";
  if truthy merged then mret (Return None) else
  unchanged ←? still_clean current pr;
  if unchanged : bool then
    merge_pr number expected_head ;;
    print ("Merged " +:+ tag +:+ " after all required checks passed for " +:+ expected_head) ;;
    mret (Return None)
  else wait_again.

Definition merge_if_clean (passed : bool) (pr : value) : M round_result :=
  clean ←? (if passed then is_clean pr else mret false);
  if clean : bool then merge_clean pr else wait_again.

(** The body of the [while] loop. *)
Definition merge_round : M round_result :=
  pr ← read_validated_pull_request number expected_head interval;
  merged ←? get pr "merged";
  if truthy merged then
    print (tag +:+ " was already merged at the expected commit") ;; mret (Return None) else
  files ← github_files number;
  only ←? only_changelog files;
  if negb only then raise (MergeBlocked "The generated PR must change only CHANGELOG.md") else
  runs ← github_checks expected_head;
  passed ←? checks_ready runs policy expected_head;
  if negb passed then merge_if_clean false pr else
  review ← review_state number;
  d ←? decide_review review policy expected_head;
  match d with
  | Queue =>
      queue_merge number expected_head ;;
      print (tag +:+ ": checks passed; auto-merge queued pending required approval") ;;
      mret (Return (Some "review-pending"))
  | Leave =>
      print (tag +:+ ": reviewer requested changes; leaving the PR open") ;;
      mret (Return (Some "changes-requested"))
  | Proceed => merge_if_clean true pr
  end.

(** [while now() < deadline]; a round that does not return has slept [interval]. *)
Fixpoint merge_loop (fuel : nat) (deadline : Z) : M (option string) :=
  match fuel with
  | O => raise OutOfFuel
  | S fuel =>
      now ← monotonic;
      if negb (now <? deadline)
      then raise (MergeBlocked "Timed out waiting for completed checks and merge eligibility") else
      r ← merge_round;
      match r with Return outcome => mret outcome | Again => merge_loop fuel deadline end
  end.

(** Every round sleeps [interval], so this many rounds pass the deadline. *)
Definition merge_fuel (timeout : Z) : nat := S (Z.to_nat (timeout / interval + 1)).

Definition merge_when_ready (timeout : Z) : M (option string) :=
  now ← monotonic;
  merge_loop (merge_fuel timeout) (now + timeout).
End merge.
End github.

(** ** [main] *)

Definition poll_interval : Z := 15000000.

(** The message [SystemExit] carries, or [None] at a normal end. *)
Definition merge_main (policy_path repo : string) (number : Z) (expected_head : string) (timeout : Z)
    : M (option string) :=
  policy ← load_policy policy_path None;
  try_except
    (outcome ← merge_when_ready repo number expected_head policy poll_interval timeout;
     summary ← getenv "GITHUB_STEP_SUMMARY";
     if set_and_nonempty summary then
       attempt_call (External (AppendFile (default EmptyString summary)
         (nl +:+ "Changelog PR #" +:+ str_Z number +:+ ": " +:+
          (match outcome with
           | Some s => if String.eqb s EmptyString then "merged" else s
           | None => "merged" end) +:+ "." +:+ nl)))
         (λ r : res unit, r) ;; mret None
     else mret None)
    (λ e, if is_MergeBlocked e then Some (mret (Some (exn_str e))) else None).
