(* ===== verification/Changelog.v ===== *)
(** scripts/generate_changelog.py: renders the changelog from a git-cliff context
    that was checked against the published releases.  git and git-cliff are commands
    of the environment; JSON reaches the model decoded, and paths are normalised. *)

From S2P Require Import Prelude Py PyStr Regex Effects ChangelogMerge.
Open Scope Z_scope.

(** A subclass of [ValueError]. *)
Definition HistoryError (msg : string) : exn := OtherError "HistoryError" msg.

(** [v\d+\.\d+\.\d+] *)
Definition STABLE_TAG : re :=
  rseq [rchar "v"%char; rplus rdigit; rchar "."%char; rplus rdigit; rchar "."%char; rplus rdigit].
Definition is_stable_tag (tag : string) : bool :=
  match re_fullmatch STABLE_TAG tag with Some _ => true | None => false end.

(** [Path(a) / b] *)
Definition path_join (a b : string) : string :=
  if startswith "/" b then b else if endswith "/" a then a +:+ b else a +:+ "/" +:+ b.

(** [sorted] of strings *)
Fixpoint insert_str (x : string) (l : list string) : list string :=
  match l with
  | [] => [x]
  | y :: l => if String.ltb y x then y :: insert_str x l else x :: y :: l
  end.
Definition sorted_strs (l : list string) : list string := foldr insert_str [] l.

(** A [dict[str, str]], in insertion order. *)
Abbreviation releases := (list (string * string)).

Fixpoint set_release (l : releases) (tag sha : string) : releases :=
  match l with
  | [] => [(tag, sha)]
  | (tag', sha') :: l =>
      if String.eqb tag tag' then (tag', sha) :: l else (tag', sha') :: set_release l tag sha
  end.

Definition str_in (s : string) (l : list string) : bool := existsb (String.eqb s) l.

Section changelog.
Context (repo : string).

(** [subprocess.run(args, cwd=repo, check=True).stdout] *)
Definition run_in_repo (args : list string) : M payload :=
  attempt_call (External (Run (Some repo) args None)) (λ r : res payload, r).

Definition git (args : list string) : M string := p ← run_in_repo ("git" :: args); mret (strip (text p)).

Definition commit_of (ref : string) : string := ref +:+ "^{commit}".
Definition tag_args (tag : string) : list string := ["rev-parse"; commit_of ("refs/tags/" +:+ tag)].

(** The dictionary comprehension over the tags. *)
Fixpoint resolve_tags (tags : list string) (found : releases) : M releases :=
  match tags with
  | [] => mret found
  | tag :: tags =>
      if is_stable_tag tag then
        sha ← git (tag_args tag); resolve_tags tags (set_release found tag sha)
      else resolve_tags tags found
  end.

Definition stable_releases (stable_ref : string) : M releases :=
  stable_sha ← git ["rev-parse"; "--verify"; commit_of stable_ref];
  tags ← git ["tag"; "--merged"; stable_sha];
  found ← resolve_tags (splitlines tags) [];
  listed ← git ["rev-list"; "HEAD"];
  let ancestors := splitlines listed in
  match sorted_strs (map fst (List.filter (λ r, negb (str_in (snd r) ancestors)) found)) with
  | [] => mret found
  | missing => raise (HistoryError ("Published release history missing from HEAD: " +:+ join ", " missing +:+
      ". Fetch full history/tags and reconcile main through a reviewed PR before generating the changelog."))
  end.

(** [[release['version'] for release in context]], and the truthy ones. *)
Fixpoint all_versions (context : list value) : res (list value) :=
  match context with
  | [] => mret []
  | release :: context => v ← item release "version"; l ← all_versions context; mret (v :: l)
  end.

(** [by_version[version]]: the last release of that version *)
Fixpoint by_version (context : list value) (version : string) : res (option value) :=
  match context with
  | [] => mret None
  | release :: context =>
      later ← by_version context version;
      match later with
      | Some r => mret (Some r)
      | None => v ← item release "version"; mret (if eq_str v version then Some release else None)
      end
  end.

(** [any(p(commit['id']) for commit in commits)] *)
Fixpoint any_commit (p : bool → bool) (known : list string) (commits : list value) : res bool :=
  match commits with
  | [] => mret false
  | commit :: commits =>
      id ← item commit "id";
      member ← in_strs id known;
      if p member then mret true else any_commit p known commits
  end.

(** [release["commits"]], iterated *)
Definition commits_of (release : value) : res (list value) := c ← item release "commits"; iter c.

Fixpoint any_republished (published : list string) (context : list value) : res bool :=
  match context with
  | [] => mret false
  | release :: context =>
      v ← item release "version";
      if truthy v then any_republished published context else
      commits ← commits_of release;
      again ← any_commit id published commits;
      if again : bool then mret true else any_republished published context
  end.

(** The loop over the expected releases; what it published. *)
Fixpoint validate_releases (context : list value) (expected : releases) (published : list string)
    : M (list string) :=
  match expected with
  | [] => mret published
  | (version, sha) :: expected =>
      found ←? by_version context version;
      match found with
      | None => raise (KeyError version)
      | Some release =>
          commit_id ←? item release "commit_id";
          if py_neqb commit_id (VStr sha)
          then raise (HistoryError ("git-cliff source identity differs from tag " +:+ version)) else
          listed ← git ["rev-list"; sha];
          let ancestors := splitlines listed in
          commits ←? commits_of release;
          foreign ←? any_commit negb ancestors commits;
          if foreign : bool
          then raise (HistoryError ("git-cliff attributed an unpublished commit to " +:+ version))
          else validate_releases context expected (published ++ ancestors)
      end
  end.

Definition validate_context (context : value) (expected : releases) : M unit :=
  context ←? iter context;
  all ←? all_versions context;
  let versions := List.filter truthy all in
  _ ←? check_hashable versions;
  if has_duplicate versions then raise (HistoryError "Duplicate release versions in git-cliff context") else
  _ ←? check_hashable all;
  match sorted_strs (List.filter (λ tag, negb (existsb (λ v, eq_str v tag) all)) (map fst expected)) with
  | [] =>
      published ← validate_releases context expected [];
      again ←? any_republished published context;
      if again : bool
      then raise (HistoryError "git-cliff repeated an already published commit in Unreleased") else mret tt
  | missing => raise (HistoryError ("git-cliff omitted published releases: " +:+ join ", " missing))
  end.

Definition cliff_command (git_cliff : string) : list string :=
  [git_cliff; "--config"; path_join repo "cliff.toml"].

(** The text git-cliff renders from this very context. *)
Definition render (git_cliff context : string) : M string :=
  temporary ← attempt_call (External (MakeDirectory "provider-changelog-")) (λ r : res string, r);
  try_finally
    (let context_file := path_join temporary "context.json" in
     attempt_call (External (WriteFile context_file context)) (λ r : res unit, r) ;;
     rendered ← run_in_repo (cliff_command git_cliff ++ ["--from-context"; context_file]);
     mret (text rendered))
    (attempt_call (External (RemoveTree temporary)) (λ r : res unit, r)).

(** The destination keeps its old text until the new file is complete. *)
Definition replace_output (destination rendered : string) : M unit :=
  temporary_output ← attempt_call (External (CreateTemporary (dirname destination))) (λ r : res string, r);
  try_finally
    (attempt_call (External (WriteFile temporary_output rendered)) (λ r : res unit, r) ;;
     attempt_call (External (ReplaceFile temporary_output destination)) (λ r : res unit, r))
    (attempt_call (External (Unlink temporary_output)) (λ r : res unit, r)).

Definition generate (stable_ref output git_cliff : string) : M unit :=
  expected ← stable_releases stable_ref;
  context ← run_in_repo (cliff_command git_cliff ++ ["--context"]);
  decoded ←? json context;
  validate_context decoded expected ;;
  rendered ← render git_cliff (text context);
  replace_output (path_join repo output) rendered.
End changelog.

(** The message [parser.exit] prints with status 1, or [None] at a normal end. *)
Definition changelog_main (repo stable_ref output : string) : M (option string) :=
  try_except (generate repo stable_ref output "git-cliff" ;; mret None) (λ e,
    match e with
    | OSError _ | TimeoutError _ | ValueError _ | KeyError _ | TypeError _ =>
        Some (mret (Some ("Changelog generation refused: " +:+ exn_str e)))
    | OtherError cls _ =>
        if String.eqb cls "HistoryError" || String.eqb cls "CalledProcessError"
        then Some (mret (Some ("Changelog generation refused: " +:+ exn_str e))) else None
    | _ => None
    end).

Example stable_tags : map is_stable_tag ["v0.4.8"; "v0.4.8-rc1"; "0.4.8"; "v10.20.30"; "v1.2"] =
  [true; false; false; true; false].
Proof. vm_compute. reflexivity. Qed.
