(* ===== verification/PackageVersion.v ===== *)
(** package_version.py and scripts/select_build_version.py: the identity of a release
    artifact. *)

From S2P Require Import Prelude Py PyStr Regex Effects Readiness.
Open Scope Z_scope.

(** A number without a leading zero. *)
Definition rnumber : re := RAlt (rchar "0"%char) (RSeq (RChar (byte_between 49 57)) (RStar rdigit)).

(** [[0-9A-Za-z.-]] *)
Definition label_char (c : Ascii.ascii) : bool := is_digit c || is_upper c || is_lower c || char_in c ".-".

Definition SEMVER : re :=
  rseq [ropt (rchar "v"%char); RGroup 1 rnumber; rchar "."%char; RGroup 2 rnumber; rchar "."%char; RGroup 3 rnumber;
        ropt (rseq [rchar "-"%char; RGroup 4 (rplus (RChar label_char))])].

(** [(alpha|beta|rc)\.([0-9]+)] *)
Definition STANDARD : re :=
  rseq [RGroup 1 (ralt [rtext "alpha"; rtext "beta"; rtext "rc"]); rchar "."%char; RGroup 2 (rplus rdigit)].

(** [s.split(c)] *)
Fixpoint split_char (c : Ascii.ascii) (s : string) : list string :=
  match s with
  | EmptyString => [EmptyString]
  | String x s =>
      if Ascii.eqb x c then EmptyString :: split_char c s
      else match split_char c s with [] => [] | part :: parts => String x part :: parts end
  end.

(** [s.isdigit()] *)
Definition isdigit (s : string) : bool :=
  negb (String.eqb s EmptyString) && negb (str_existsb (λ c, negb (is_digit c)) s).

Definition bad_part (item : string) : bool :=
  String.eqb item EmptyString || (isdigit item && (1 <? Z.of_nat (String.length item)) && startswith "0" item).

(** [s.encode().hex()] *)
Fixpoint hex (s : string) : string :=
  match s with
  | EmptyString => EmptyString
  | String c s =>
      let n := Ascii.nat_of_ascii c in hex_digit (n / 16) +:+ (hex_digit (n mod 16) +:+ hex s)
  end.

(** [{'alpha': 'a', 'beta': 'b', 'rc': 'rc'}[stage]] *)
Definition stage_code (stage : string) : string :=
  if String.eqb stage "alpha" then "a" else if String.eqb stage "beta" then "b" else "rc".

Definition normalize_version (value : string) : res string :=
  match re_fullmatch SEMVER value with
  | None => Err (ValueError ("Invalid provider release SemVer: " +:+ py_repr_str value))
  | Some m =>
      let prerelease := group 4 m in
      let base := group 1 m +:+ ("." +:+ (group 2 m +:+ ("." +:+ group 3 m))) in
      if String.eqb prerelease EmptyString then mret base else
      if existsb bad_part (split_char "."%char prerelease)
      then Err (ValueError ("Invalid SemVer prerelease: " +:+ py_repr_str prerelease)) else
      match re_fullmatch STANDARD prerelease with
      | Some standard => mret (base +:+ (stage_code (group 1 standard) +:+ group 2 standard))
      | None => mret (base +:+ (".dev0+gitversion." +:+ hex prerelease))
      end
  end.

Definition get_version (directory : string) : M string :=
  provided ← getenv "PROVIDER_VERSION";
  match provided with
  | Some v => lift (normalize_version v)
  | None =>
      file ← attempt_call (External (ReadFile (directory +:+ "/capi_provider_ssh/_version.txt"))) (λ r : res payload, r);
      mret (strip (text file))
  end.

(** scripts/select_build_version.py *)
Definition select_identity (build_ref semver major_minor_patch : string) : res (string * string) :=
  package_version ← normalize_version semver;
  stable ← normalize_version major_minor_patch;
  if negb (String.eqb stable major_minor_patch)
  then Err (ValueError "MajorMinorPatch must be an unprefixed stable version") else
  if negb (String.eqb (fst (partition "-"%char (removeprefix "v" semver))) major_minor_patch)
  then Err (ValueError "GitVersion SemVer and MajorMinorPatch identify different releases") else
  if String.eqb build_ref "refs/heads/main" then mret (major_minor_patch, major_minor_patch)
  else mret (semver, package_version).

Definition select_build_version_main : M unit :=
  build_ref ← getenv "BUILD_REF";
  semver ← getenv "SEMVER";
  major_minor_patch ← getenv "MAJOR_MINOR_PATCH";
  match build_ref, semver, major_minor_patch with
  | Some build_ref, Some semver, Some major_minor_patch =>
      selected ←? select_identity build_ref semver major_minor_patch;
      print ("semver=" +:+ fst selected +:+ nl +:+ "package_version=" +:+ snd selected)
  | None, _, _ => raise (KeyError "BUILD_REF")
  | _, None, _ => raise (KeyError "SEMVER")
  | _, _, None => raise (KeyError "MAJOR_MINOR_PATCH")
  end.

(** The cases of tests/test_package_version.py. *)
Example release_versions :
  map normalize_version ["v0.4.3"; "0.4.4"; "0.5.0-alpha.12"; "0.5.0-beta.2"; "1.0.0-rc.1"; "0.5.0-fix.3"] =
  map Ok ["0.4.3"; "0.4.4"; "0.5.0a12"; "0.5.0b2"; "1.0.0rc1"; "0.5.0.dev0+gitversion.6669782e33"].
Proof. vm_compute. reflexivity. Qed.
Example invalid_versions :
  map (λ v, is_ok (normalize_version v))
    [EmptyString; "v0.4"; "0.4.03"; "0.4.3-alpha.01"; "0.4.3-a..1"; "0.4.3; echo nope"; "${VERSION}"] =
  repeat false 7.
Proof. vm_compute. reflexivity. Qed.
