(* ===== verification/VersionRoundtrip.v ===== *)
(** The package version determines the SemVer it was derived from. *)

From S2P Require Import Prelude Py PyStr Regex PackageVersion.
Open Scope nat_scope.

(** ** The inverse *)

Fixpoint span_by (f : Ascii.ascii → bool) (s : string) : string * string :=
  match s with
  | String c s' => if f c then let '(a, b) := span_by f s' in (String c a, b) else (EmptyString, s)
  | EmptyString => (EmptyString, EmptyString)
  end.

Definition hex_value (c : Ascii.ascii) : nat :=
  let n := Ascii.nat_of_ascii c in if n <=? 57 then n - 48 else n - 87.

Fixpoint unhex (s : string) : string :=
  match s with
  | String a (String b s) => String (Ascii.ascii_of_nat (16 * hex_value a + hex_value b)) (unhex s)
  | _ => EmptyString
  end.

Definition base_char (c : Ascii.ascii) : bool := is_digit c || Ascii.eqb c "."%char.

(** The SemVer, without the optional [v], that [normalize_version] translates so. *)
Definition semver_of (version : string) : string :=
  let '(base, rest) := span_by base_char version in
  if String.eqb rest EmptyString then base
  else if startswith "a" rest then base +:+ ("-alpha." +:+ removeprefix "a" rest)
  else if startswith "b" rest then base +:+ ("-beta." +:+ removeprefix "b" rest)
  else if startswith "rc" rest then base +:+ ("-rc." +:+ removeprefix "rc" rest)
  else rstrip_char "."%char base +:+ ("-" +:+ unhex (removeprefix "dev0+gitversion." rest)).

(** ** Lemmas *)

Lemma span_by_app f a b :
  str_existsb (λ c, negb (f c)) a = false →
  match b with String c _ => f c = false | EmptyString => True end → span_by f (a +:+ b) = (a, b).
Proof.
  induction a as [|c a IH].
  - intros _ Hb. rewrite str_app_nil_l. destruct b as [|c b]; simpl; [done|]. by rewrite Hb.
  - rewrite str_app_cons. simpl. intros H Hb. bool_hyps. rewrite H0, IH by done. done.
Qed.

Lemma hex_digit_value n : n < 16 → ∃ c, hex_digit n = String c EmptyString ∧ hex_value c = n.
Proof. intros Hn. do 16 (destruct n as [|n]; [eexists; by split|]). lia. Qed.

Lemma unhex_hex s : unhex (hex s) = s.
Proof.
  induction s as [|c s IH]; [done|]. pose proof (Ascii.nat_ascii_bounded c) as Hb.
  set (n := Ascii.nat_of_ascii c) in *.
  change (hex (String c s)) with (hex_digit (n / 16) +:+ (hex_digit (n mod 16) +:+ hex s)).
  destruct (hex_digit_value (n / 16)) as (a & -> & Ha); [apply Nat.Div0.div_lt_upper_bound; lia|].
  destruct (hex_digit_value (n mod 16)) as (b & -> & Hv); [apply Nat.mod_upper_bound; lia|].
  rewrite str_app_cons, str_app_nil_l, str_app_cons, str_app_nil_l. cbn [unhex]. rewrite IH, Ha, Hv. f_equal.
  rewrite <- (Ascii.ascii_nat_embedding c). f_equal. fold n. pose proof (Nat.div_mod_eq n 16). lia.
Qed.

Lemma substring_all s n : String.length s ≤ n → String.substring 0 n s = s.
Proof.
  revert n. induction s as [|c s IH]; intros [|n] Hn; simpl in *; try done; [lia|]. rewrite IH by lia. done.
Qed.

Lemma substring_drop p s n : String.length s ≤ n → String.substring (String.length p) n (p +:+ s) = s.
Proof.
  induction p as [|c p IH]; intros Hn; [by apply substring_all|]. rewrite str_app_cons. simpl. by apply IH.
Qed.

Lemma prefix_app p s : String.prefix p (p +:+ s) = true.
Proof.
  induction p as [|c p IH]; [by destruct s|]. rewrite str_app_cons. simpl. by destruct (Ascii.ascii_dec c c).
Qed.

Lemma removeprefix_app p s : removeprefix p (p +:+ s) = s.
Proof.
  unfold removeprefix. rewrite prefix_app. apply substring_drop. rewrite str_length_app. lia.
Qed.

Lemma rtext_reads s p q : q ∈ matches (rtext s) p → p_rest p = s +:+ p_rest q ∧ p_groups q = p_groups p.
Proof.
  revert p q. induction s as [|c s IH]; intros p q; simpl rtext.
  - rewrite matches_empty. by intros ->.
  - rewrite matches_seq. intros (m & Hm & Hq). apply matches_char in Hm as (x & t & Hp & Hc & ->).
    apply Ascii.eqb_eq in Hc. subst x. destruct (IH _ _ Hq) as [Ht Hg]. simpl in *. subst t.
    by rewrite Hp, str_app_cons.
Qed.

Lemma char_reads c p q : q ∈ matches (rchar c) p → p_rest p = String c (p_rest q) ∧ p_groups q = p_groups p.
Proof. intros (x & t & -> & Hc & ->)%matches_char. apply Ascii.eqb_eq in Hc. by subst. Qed.

(** A nonempty group of digits, or of label characters. *)
Lemma group_reads f n a p q :
  plain f a → consumes a = true → q ∈ matches (RGroup n a) p →
  ∃ w, p_rest p = w +:+ p_rest q ∧ w ≠ EmptyString ∧ str_existsb (λ c, negb (f c)) w = false ∧
    p_groups q = (n, w) :: p_groups p.
Proof.
  intros Hf Hc. rewrite matches_group. intros (m & -> & Hm). pose proof (matches_consumes _ _ _ Hc Hm) as Hlt.
  destruct (matches_reads _ _ _ _ Hf Hm) as (w & Hp & Hw & Hg). exists w. simpl.
  split_and!; [done| |done|].
  - intros ->. rewrite Hp, str_app_nil_l in Hlt. lia.
  - by rewrite (between_reads _ _ _ Hp), Hg.
Qed.

Lemma rnumber_plain : plain is_digit rnumber.
Proof.
  unfold rnumber, rchar, rdigit. cbn [plain]. split_and!; [|intros c|done].
  - by intros c <-%Ascii.eqb_eq.
  - unfold is_digit, byte_between. rewrite !andb_true_iff, !Nat.leb_le. lia.
Qed.

Definition number_text (w : string) : Prop := w ≠ EmptyString ∧ str_existsb (λ c, negb (is_digit c)) w = false.

(** What [SEMVER] reads. *)
Lemma semver_parts value m :
  re_fullmatch SEMVER value = Some m →
  ∃ v major minor patch suffix,
    value = v +:+ (major +:+ String "." (minor +:+ String "." (patch +:+ suffix))) ∧
    (v = EmptyString ∨ v = "v") ∧
    number_text major ∧ number_text minor ∧ number_text patch ∧
    group 1 m = major ∧ group 2 m = minor ∧ group 3 m = patch ∧
    (suffix = EmptyString ∧ group 4 m = EmptyString ∨ suffix = "-" +:+ group 4 m ∧ group 4 m ≠ EmptyString).
Proof.
  intros [Hm Hend]%re_fullmatch_matches. unfold SEMVER, rseq in Hm. cbn [foldr] in Hm.
  apply matches_seq in Hm as (p1 & H1 & Hm). apply matches_seq in Hm as (p2 & H2 & Hm).
  apply matches_seq in Hm as (p3 & H3 & Hm). apply matches_seq in Hm as (p4 & H4 & Hm).
  apply matches_seq in Hm as (p5 & H5 & Hm). apply matches_seq in Hm as (p6 & H6 & Hm).
  apply matches_seq in Hm as (p7 & H7 & Hm). apply matches_empty in Hm. subst p7.
  apply (group_reads is_digit) in H2 as (major & Hr2 & Hn2 & Hd2 & Hg2); [|apply rnumber_plain|done].
  apply (group_reads is_digit) in H4 as (minor & Hr4 & Hn4 & Hd4 & Hg4); [|apply rnumber_plain|done].
  apply (group_reads is_digit) in H6 as (patch & Hr6 & Hn6 & Hd6 & Hg6); [|apply rnumber_plain|done].
  apply char_reads in H3 as [Hr3 Hg3], H5 as [Hr5 Hg5].
  assert (Hv : ∃ v, value = v +:+ p_rest p1 ∧ (v = EmptyString ∨ v = "v") ∧ p_groups p1 = []).
  { apply matches_alt in H1 as [H1|H1]; [apply char_reads in H1 as [Hr Hg]; exists "v"; simpl in Hr|
      apply matches_empty in H1 as ->; exists EmptyString]; split_and!; auto. }
  destruct Hv as (v & -> & Hv & Hg1).
  assert (Hs : ∃ pre, p_rest p6 = pre ∧
    (pre = EmptyString ∧ p_groups m = p_groups p6 ∨
     ∃ w, pre = "-" +:+ w ∧ w ≠ EmptyString ∧ p_groups m = (4, w) :: p_groups p6)).
  { apply matches_alt in H7 as [H7|H7].
    - cbn [foldr] in H7. apply matches_seq in H7 as (p8 & H8 & H7). apply matches_seq in H7 as (p9 & H9 & H7).
      apply matches_empty in H7. subst p9. apply char_reads in H8 as [Hr8 Hg8].
      apply (group_reads (λ _, true)) in H9 as (w & Hr9 & Hn9 & _ & Hg9); [|done|done].
      exists (p_rest p6). split; [done|]. right. exists w.
      split_and!; [by rewrite Hr8, Hr9, Hend, str_app_nil_r|done|by rewrite Hg9, Hg8].
    - apply matches_empty in H7. subst m. exists EmptyString. split; [done|]. by left. }
  destruct Hs as (pre & Hpre & Hs).
  assert (Hg : p_groups p6 = [(3, patch); (2, minor); (1, major)]) by by rewrite Hg6, Hg5, Hg4, Hg3, Hg2, Hg1.
  exists v, major, minor, patch, pre. rewrite Hr2, Hr3, Hr4, Hr5, Hr6, Hpre.
  unfold group. destruct Hs as [[-> Hgm]|(w & -> & Hw & Hgm)]; rewrite Hgm, Hg; simpl;
    split_and!; try done; auto.
Qed.

(** What [STANDARD] reads. *)
Lemma standard_parts pre m :
  re_fullmatch STANDARD pre = Some m →
  pre = group 1 m +:+ String "." (group 2 m) ∧ group 1 m ∈ ["alpha"; "beta"; "rc"].
Proof.
  intros [Hm Hend]%re_fullmatch_matches. unfold STANDARD, rseq in Hm. cbn [foldr] in Hm.
  apply matches_seq in Hm as (p1 & H1 & Hm). apply matches_seq in Hm as (p2 & H2 & Hm).
  apply matches_seq in Hm as (p3 & H3 & Hm). apply matches_empty in Hm. subst p3.
  apply char_reads in H2 as [Hr2 Hg2].
  apply (group_reads (λ _, true)) in H3 as (number & Hr3 & _ & _ & Hg3); [|done|done].
  apply matches_group in H1 as (q & -> & Hq). cbn [p_rest p_groups] in *.
  assert (Hstage : ∃ stage, pre = stage +:+ p_rest q ∧ p_groups q = [] ∧ stage ∈ ["alpha"; "beta"; "rc"]).
  { unfold ralt in Hq. cbn [foldr] in Hq.
    repeat (apply matches_alt in Hq as [Hq|Hq]; [apply rtext_reads in Hq as [Hr Hg]; eexists; split_and!;
      [exact Hr|exact Hg|set_solver]|]).
    apply matches_char in Hq as (? & ? & _ & ? & _). done. }
  destruct Hstage as (stage & Hpre & Hgq & Hstage).
  assert (Hg : p_groups m = [(2, number); (1, stage)]).
  { rewrite Hg3, Hg2, Hgq. by rewrite (between_reads stage). }
  unfold group. rewrite Hg. simpl. split; [|done].
  by rewrite Hpre, Hr2, Hr3, Hend, str_app_nil_r.
Qed.

Lemma digits_base w : str_existsb (λ c, negb (is_digit c)) w = false → str_existsb (λ c, negb (base_char c)) w = false.
Proof.
  apply str_existsb_mono. intros c. unfold base_char. rewrite !negb_true_iff. by intros [? _]%orb_false_iff.
Qed.

Lemma rstrip_last f a c : str_existsb f a = false → f c = true → rstrip_by f (a +:+ String c EmptyString) = a.
Proof.
  intros Ha Hc. induction a as [|x a IH]; [rewrite str_app_nil_l; simpl; by rewrite Hc|].
  simpl in Ha. bool_hyps. rewrite str_app_cons. simpl. rewrite IH, Ha0 by done. by destruct a.
Qed.

Lemma digits_no_char c w : is_digit c = false → str_existsb (λ c, negb (is_digit c)) w = false → char_in c w = false.
Proof.
  intros Hc. apply str_existsb_mono. intros x Hx. apply Ascii.eqb_eq in Hx. subst x. by rewrite Hc.
Qed.

Section base.
Context (major minor patch : string).
Hypothesis (Hmajor : number_text major) (Hminor : number_text minor) (Hpatch : number_text patch).
Let base := major +:+ ("." +:+ (minor +:+ ("." +:+ patch))).

(** The base version reads as one run of digits and points. *)
Lemma base_chars : str_existsb (λ c, negb (base_char c)) base = false.
Proof.
  unfold base. rewrite !str_existsb_app. simpl.
  by rewrite !digits_base by (apply Hmajor || apply Hminor || apply Hpatch).
Qed.

Lemma base_rstrip : rstrip_char "."%char (base +:+ ".") = base.
Proof.
  unfold base, rstrip_char. rewrite !str_app_assoc.
  assert (Hp : rstrip_by (Ascii.eqb ".") (patch +:+ ".") = patch).
  { apply rstrip_last; [|done]. by apply digits_no_char, Hpatch. }
  rewrite <- (str_app_assoc major), <- (str_app_assoc _ minor), <- (str_app_assoc _ ".").
  rewrite rstrip_by_app; rewrite Hp; [|apply Hpatch]. by rewrite !str_app_assoc.
Qed.

Lemma base_no_v rest : removeprefix "v" (base +:+ rest) = base +:+ rest.
Proof.
  unfold base, removeprefix. destruct Hmajor as [Hn Hd]. destruct major as [|c w]; [done|].
  rewrite !str_app_cons. simpl in Hd. bool_hyps.
  assert (Hv : ∀ t, String.prefix "v" (String c t) = false).
  { intros t. cbn [String.prefix]. destruct (Ascii.ascii_dec "v" c) as [<-|]; [discriminate Hd0|done]. }
  by rewrite Hv.
Qed.
End base.

Lemma semver_of_base base rest :
  str_existsb (λ c, negb (base_char c)) base = false →
  match rest with String c _ => base_char c = false | EmptyString => True end →
  span_by base_char (base +:+ rest) = (base, rest).
Proof. apply span_by_app. Qed.

Lemma semver_of_stage base stage n :
  str_existsb (λ c, negb (base_char c)) base = false → stage ∈ ["alpha"; "beta"; "rc"] →
  semver_of (base +:+ (stage_code stage +:+ n)) = base +:+ ("-" +:+ (stage +:+ String "." n)).
Proof.
  intros Hb Hs. unfold semver_of.
  assert (Hp : ∀ p t, startswith p (p +:+ t) = true) by apply prefix_app.
  repeat (apply elem_of_cons in Hs as [->|Hs]); [..|by apply not_elem_of_nil in Hs].
  - change (stage_code "alpha") with "a". rewrite semver_of_base by done. cbv beta iota.
    rewrite Hp, removeprefix_app. done.
  - change (stage_code "beta") with "b". rewrite semver_of_base by done. cbv beta iota.
    rewrite Hp, removeprefix_app. done.
  - change (stage_code "rc") with "rc". rewrite semver_of_base by done. cbv beta iota.
    rewrite Hp, removeprefix_app. done.
Qed.

(** C40.  A release artifact's version is lossless: it determines the SemVer it was
    derived from, up to the optional [v], whether released, in a standard prerelease
    stage or built from a branch; no two SemVers share a version, and a prerelease
    never gets a stable one. *)
Theorem version_roundtrip value version :
  normalize_version value = Ok version → semver_of version = removeprefix "v" value.
Proof.
  unfold normalize_version. destruct (re_fullmatch SEMVER value) as [m|] eqn:Hm; [|done].
  apply semver_parts in Hm as (v & major & minor & patch & suffix & -> & Hv & Hmaj & Hmin & Hpat & G1 & G2 & G3 & Hs).
  rewrite G1, G2, G3. pose proof (base_chars _ _ _ Hmaj Hmin Hpat) as Hb.
  pose proof (base_rstrip major minor _ Hpat) as Hr. pose proof (base_no_v _ minor patch Hmaj) as Hnv.
  set (base := major +:+ ("." +:+ (minor +:+ ("." +:+ patch)))) in *.
  assert (Hvalue : removeprefix "v" (v +:+ (major +:+ String "." (minor +:+ String "." (patch +:+ suffix)))) = base +:+ suffix).
  { replace (major +:+ String "." (minor +:+ String "." (patch +:+ suffix))) with (base +:+ suffix)
      by (unfold base; by rewrite !str_app_assoc).
    destruct Hv as [->| ->]; [apply Hnv|apply removeprefix_app]. }
  rewrite Hvalue. clear Hvalue. destruct Hs as [[-> ->]|[-> Hpre]].
  { simpl. intros [= <-]. rewrite str_app_nil_r. unfold semver_of.
    rewrite <- (str_app_nil_r base) at 1. by rewrite semver_of_base. }
  destruct (String.eqb_spec (group 4 m) EmptyString) as [|_]; [done|].
  destruct (existsb bad_part _); [done|]. set (pre := group 4 m) in *.
  destruct (re_fullmatch STANDARD pre) as [standard|] eqn:Hst; intros [= <-].
  - apply standard_parts in Hst as [-> Hstage]. by apply semver_of_stage.
  - assert (Hd : ∀ t, base +:+ (".dev0+gitversion." +:+ t) = (base +:+ ".") +:+ ("dev0+gitversion." +:+ t)).
    { intros t. by rewrite (str_app_assoc base "."). }
    unfold semver_of. rewrite Hd, semver_of_base; [|by rewrite str_existsb_app, Hb|done].
    cbv beta iota. rewrite Hr, removeprefix_app, unhex_hex. done.
Qed.

Lemma version_roundtrip_witness :
  normalize_version "v0.5.0-fix.3" = Ok "0.5.0.dev0+gitversion.6669782e33" ∧
  semver_of "0.5.0.dev0+gitversion.6669782e33" = "0.5.0-fix.3".
Proof.
  assert (Hv : normalize_version "v0.5.0-fix.3" = Ok "0.5.0.dev0+gitversion.6669782e33") by (vm_compute; reflexivity).
  split; [exact Hv|]. exact (version_roundtrip _ _ Hv).
Defined.
