(* ===== verification/FakeApi.v ===== *)
(** The stateful API model of tests/fake_api.py (UID/resourceVersion checks and
    status-subresource semantics) and the scripted host of
    tests/test_lifecycle_contract.py: a concrete environment that runs the
    programs to the end, on which the theorems are exercised. *)

From S2P Require Import Prelude Py PyStr Config Effects Contracts Bootstrap.

(** ** Merge patches *)

(** [merge(target, patch)]: null removes a key, a mapping merges, the rest replaces. *)
Fixpoint merge (target : dict) (patch : value) : res dict :=
  match patch with
  | VDict d =>
      (fix go (d : dict) (target : dict) : res dict :=
        match d with
        | [] => mret target
        | (key, v) :: d =>
            target ← match v with
                     | VNone => mret (ddel target key)
                     | VDict _ =>
                         inner ← as_dict (default (VDict []) (dget target key));
                         inner ← merge inner v;
                         mret (dset target key (VDict inner))
                     | _ => mret (dset target key v)
                     end;
            go d target
        end) d target
  | _ => mret target
  end.

(** ** The object store *)

Definition object_key : Type := string * string * string * string.   (* group, plural, namespace, name *)

#[export] Instance object_key_eq : EqDecision object_key.
Proof. solve_decision. Defined.

Record store := Store {
  objects : list (object_key * value);
  leases : list (string * string * lease);
  secrets : list (string * string * secret);
  status_failure : bool;
  claim_conflicts : nat
}.

Definition key_eqb (a b : object_key) : bool := bool_decide (a = b).

Fixpoint find_object (k : object_key) (l : list (object_key * value)) : option value :=
  match l with
  | [] => None
  | (k', o) :: l => if key_eqb k k' then Some o else find_object k l
  end.

Fixpoint set_object (k : object_key) (o : value) (l : list (object_key * value))
    : list (object_key * value) :=
  match l with
  | [] => [(k, o)]
  | (k', o') :: l => if key_eqb k k' then (k', o) :: l else (k', o') :: set_object k o l
  end.

Definition with_objects (s : store) (l : list (object_key * value)) : store :=
  Store l (leases s) (secrets s) (status_failure s) (claim_conflicts s).

Definition not_found : exn := ApiException 404 "Not Found".
Definition conflict : exn := ApiException 409 "Conflict".

(** [get_namespaced_custom_object] *)
Definition fake_get (s : store) (group plural namespace : string) (name : value) : res value :=
  match find_object (group, plural, namespace, py_str name) (objects s) with
  | Some o => Ok o
  | None => Err not_found
  end.

(** [list_namespaced_custom_object] *)
Definition fake_list (s : store) (group plural namespace : string) : res value :=
  Ok (VDict [("items", VList (map snd (List.filter (λ '((g, p, ns, _), _),
    String.eqb g group && String.eqb p plural && String.eqb ns namespace) (objects s))))]).

(** The preconditions of a patch: a supplied uid or resourceVersion must match. *)
Fixpoint preconditions (fields : list string) (supplied meta : value) : res bool :=
  match fields with
  | [] => mret true
  | f :: fields =>
      wanted ← get supplied f;
      if is_none wanted then preconditions fields supplied meta else
      current ← item meta f;
      if py_eqb wanted current then preconditions fields supplied meta else mret false
  end.

(** [str(int(version) + 1)] *)
Definition next_version (version : value) : res value :=
  match version with
  | VStr s => match py_int s with
              | Some z => mret (VStr (str_Z (z + 1)))
              | None => Err (ValueError "invalid literal for int()")
              end
  | _ => Err (TypeError "int() argument must be a string")
  end.

Definition bump (o : dict) : res value :=
  meta ← item (VDict o) "metadata";
  version ← item meta "resourceVersion";
  version ← next_version version;
  meta ← as_dict meta;
  mret (VDict (dset o "metadata" (VDict (dset meta "resourceVersion" version)))).

(** The patched object. *)
Definition apply_patch (o body : value) (status : bool) : res value :=
  o ← as_dict o;
  b ← as_dict body;
  o ← (if status then
         inner ← as_dict (default (VDict []) (dget o "status"));
         changes ← get_or body "status" (VDict []);
         inner ← merge inner changes;
         mret (dset o "status" (VDict inner))
       else merge o (VDict (ddel b "status")));
  bump o.

(** A claim or release of a host. *)
Definition touches_claim (plural : string) (body : value) : bool :=
  String.eqb plural "sshhosts" &&
  match s ← get_or body "spec" (VDict []); has_key "consumerRef" s with Ok b => b | Err _ => false end.

(** [_patch]: the reply and the store after it. *)
Definition fake_patch (s : store) (group plural namespace : string) (name body : value) (status : bool)
    : res value * store :=
  let key := (group, plural, namespace, py_str name) in
  match find_object key (objects s) with
  | None => (Err (KeyError plural), s)
  | Some o =>
      match meta ← item o "metadata"; supplied ← get_or body "metadata" (VDict []);
            preconditions ["uid"; "resourceVersion"] supplied meta with
      | Err e => (Err e, s)
      | Ok false => (Err conflict, s)
      | Ok true =>
          if status && status_failure s then (Err (ApiException 500 "status failure"), s)
          else if touches_claim plural body && negb (claim_conflicts s =? 0)%nat then
            (Err conflict, Store (objects s) (leases s) (secrets s) (status_failure s)
                             (pred (claim_conflicts s)))
          else
          match apply_patch o body status with
          | Err e => (Err e, s)
          | Ok o => (Ok o, with_objects s (set_object key o (objects s)))
          end
      end
  end.

(** ** Leases and Secrets *)

Fixpoint find_lease (ns name : string) (l : list (string * string * lease)) : option lease :=
  match l with
  | [] => None
  | (ns', name', x) :: l =>
      if String.eqb ns ns' && String.eqb name name' then Some x else find_lease ns name l
  end.

Fixpoint set_lease (ns name : string) (x : lease) (l : list (string * string * lease))
    : list (string * string * lease) :=
  match l with
  | [] => [(ns, name, x)]
  | (ns', name', y) :: l =>
      if String.eqb ns ns' && String.eqb name name' then (ns', name', x) :: l
      else (ns', name', y) :: set_lease ns name x l
  end.

Definition with_leases (s : store) (l : list (string * string * lease)) : store :=
  Store (objects s) l (secrets s) (status_failure s) (claim_conflicts s).

Definition with_version (x : lease) (v : string) : lease :=
  Lease (l_name x) (l_namespace x) (Some v) (l_holder x) (l_duration x) (l_acquire x) (l_renew x)
    (l_labels x).

Definition fake_create_lease (s : store) (ns : string) (x : lease) : res lease * store :=
  match find_lease ns (l_name x) (leases s) with
  | Some _ => (Err conflict, s)
  | None => let x := with_version x "1" in
            (Ok x, with_leases s (set_lease ns (l_name x) x (leases s)))
  end.

Definition fake_replace_lease (s : store) (ns name : string) (x : lease) : res lease * store :=
  match find_lease ns name (leases s) with
  | None => (Err (KeyError name), s)
  | Some current =>
      if bool_decide (l_resourceVersion x = l_resourceVersion current) then
        match l_resourceVersion current ≫= py_int with
        | Some z => let x := with_version x (str_Z (z + 1)) in
                    (Ok x, with_leases s (set_lease ns name x (leases s)))
        | None => (Err (TypeError "int()"), s)
        end
      else (Err conflict, s)
  end.

Fixpoint find_secret (ns name : string) (l : list (string * string * secret)) : res secret :=
  match l with
  | [] => Err (KeyError name)
  | (ns', name', x) :: l =>
      if String.eqb ns ns' && String.eqb name name' then Ok x else find_secret ns name l
  end.

Definition fake_api (op : api_op) (s : store) : res (api_answer op) * store :=
  match op with
  | GetObject group _ ns plural name => (fake_get s group plural ns name, s)
  | ListObjects group _ ns plural => (fake_list s group plural ns, s)
  | PatchObject group _ ns plural name body => fake_patch s group plural ns name body false
  | PatchObjectStatus group _ ns plural name body => fake_patch s group plural ns name body true
  | ReadSecret ns name => (find_secret ns (py_str name) (secrets s), s)
  | ReadLease name ns => (match find_lease ns name (leases s) with
                          | Some x => Ok x | None => Err not_found end, s)
  | CreateLease ns x => fake_create_lease s ns x
  | ReplaceLease name ns x => fake_replace_lease s ns name x
  | GetClusterObject _ _ _ _ | ListClusterObjects _ _ _ _ | ListNamespaces _ => (Err not_found, s)
  end.

(** ** The whole environment *)

(** The host fixture: the exit codes it is scripted with and its boot ID. *)
Record world := World {
  api : store;
  clock : Z;
  serial : Z;
  reset_code : Z;
  bootstrap_code : Z;
  boot_id : string;
  host_events : list string
}.

Definition with_api (w : world) (s : store) : world :=
  World s (clock w) (serial w) (reset_code w) (bootstrap_code w) (boot_id w) (host_events w).
Definition with_event (w : world) (e : string) : world :=
  World (api w) (clock w) (serial w) (reset_code w) (bootstrap_code w) (boot_id w) (host_events w ++ [e]).
Definition tick (w : world) (us : Z) : world :=
  World (api w) (clock w + us) (serial w + 1) (reset_code w) (bootstrap_code w) (boot_id w)
    (host_events w).

Definition finished (code : Z) (out err : string) : res completed :=
  Ok (Completed (Some code) (Some out) (Some err)).

(** The [execute] side effect of the [ssh] fixture. *)
Definition fake_execute (command : string) (w : world) : res completed * world :=
  if str_contains "kubeadm reset -f" command then
    (finished (reset_code w) EmptyString
       (if (reset_code w =? 0)%Z then EmptyString else "reset failure"), with_event w "reset")
  else if str_contains "CAPI_EXIT=" command then
    (finished 0 ("CAPI_EXIT=" +:+ str_Z (bootstrap_code w) +:+ nl +:+
       (if (bootstrap_code w =? 0)%Z then "ok" else "kubeadm join failed")) EmptyString, w)
  else if str_contains "cat /proc/sys/kernel/random/boot_id" command then
    (finished 0 (boot_id w) EmptyString, with_event w "boot-id")
  else if str_contains "nohup sh" command then
    (finished 0 "ok" EmptyString, with_event w "reboot")
  else if str_contains "chmod 0700 /var/lib/capi-provider-ssh/bootstrap-" command then
    (finished 0 "submitted" EmptyString, with_event w "bootstrap")
  else (finished 0 "ok" EmptyString, with_event w "check").

(** The operator's process asks nothing else of the system. *)
Definition no_system (op : external) : external_reply op :=
  match op with
  | Getenv _ => None
  | ReadFile _ | Run _ _ _ | HttpGet _ _ _ _ _ _ | MakeDirectory _ | RemoveTree _ | CreateTemporary _
  | WriteFile _ _ | ReplaceFile _ _ | Unlink _
  | LoadConfig _ | AppendFile _ _ =>
      Err (OSError "not in this environment")
  | Monotonic => 0%Z
  | Pause _ | WriteLine _ => tt
  end.

Definition fake_handler (c : call) (w : world) : reply c * world :=
  match c with
  | Api _ op => let '(r, s) := fake_api op (api w) in (r, with_api w s)
  | ImportPrivateKey _ | ImportKnownHosts _ => (Ok tt, w)
  | SshConnect _ _ _ _ _ _ => (Ok tt, w)
  | SshRun _ command _ => fake_execute command w
  | SshUpload _ _ _ _ | SshClose _ => (Ok tt, w)
  | Now | LoopTime => (clock w, tick w 1000)
  | Uuid4 => ("uuid-" +:+ str_Z (serial w), tick w 0)
  | Sleep seconds => (Ok tt, tick w (seconds * 1000000))
  | Await => (false, w)
  | HeartbeatLost => (false, w)
  | WaitStopped _ => (true, w)
  | CancelParent => (tt, w)
  | External op => (no_system op, w)
  end.

(** The [n]-th call of the run that satisfies [f], with the history before it. *)
Fixpoint find_call {A W} (handler : ∀ c, W → reply c * W) (f : call → bool) (p : prog A) (w : W)
    : option (list event * call) :=
  match p with
  | Ret _ => None
  | Call c k =>
      if f c then Some ([], c)
      else let '(r, w') := handler c w in
           '(t, c') ← find_call handler f (k r) w'; Some (Ev c r :: t, c')
  end.

Lemma find_call_issues {A W} (handler : ∀ c, W → reply c * W) f (p : prog A) w t c :
  find_call handler f p w = Some (t, c) → issues p t c ∧ f c = true.
Proof.
  revert w t. induction p as [a|c' k IH]; intros w t; simpl; [done|].
  destruct (f c') eqn:E.
  - intros [= <- <-]. split; [exists k; constructor|done].
  - destruct (handler c' w) as [r w'].
    destruct (find_call handler f (k r) w') as [[t' c'']|] eqn:Ef; [|done].
    intros [= <- <-]. destruct (IH _ _ _ Ef) as [[k' Hk] Hf]. split; [|done].
    exists k'. by constructor.
Qed.

(** The same two facts, in the form an evaluation establishes. *)
Lemma run_issues {A W} (handler : ∀ c, W → reply c * W) f (p : prog A) w :
  (if find_call handler f p w is Some _ then true else false) = true →
  ∃ t c, issues p t c ∧ f c = true.
Proof.
  destruct (find_call handler f p w) as [[t c]|] eqn:E; [|done].
  intros _. exists t, c. by eapply find_call_issues.
Qed.

Lemma run_completes {A W} (handler : ∀ c, W → reply c * W) (p : prog (res A * patch)) w :
  is_ok (fst (fst (run handler p w))) = true →
  ∃ a s', finishes p (run_trace handler p w) (Ok a, s').
Proof.
  pose proof (run_finishes handler p w) as Hf.
  destruct (run handler p w) as [[[a|e] s'] w']; [|done]. intros _. by exists a, s'.
Qed.

Lemma run_returns {A W} (handler : ∀ c, W → reply c * W) (p : prog (res A * patch)) w r :
  fst (fst (run handler p w)) = r → ∃ s', finishes p (run_trace handler p w) (r, s').
Proof.
  pose proof (run_finishes handler p w) as Hf. destruct (run handler p w) as [[r' s'] w'].
  intros <-. by exists s'.
Qed.

Lemma run_outcome {A W} (handler : ∀ c, W → reply c * W) (f : A → bool) (p : prog A) w :
  f (fst (run handler p w)) = true → ∃ t a, finishes p t a ∧ f a = true.
Proof.
  pose proof (run_finishes handler p w) as Hf. destruct (run handler p w) as [a w']. intros Ha.
  by exists (run_trace handler p w), a.
Qed.

(** ** Fixtures: [ObjectStore.add], [.secret], [.machine] and the test's [host] *)

Definition fake_object (group namespace name uid : string) (meta : dict) (spec status : dict) : value :=
  VDict [("apiVersion", VStr (group +:+ "/v1beta1"));
         ("metadata", VDict ([("name", VStr name); ("namespace", VStr namespace); ("uid", VStr uid);
                              ("resourceVersion", VStr "1")] ++ meta));
         ("spec", VDict spec); ("status", VDict status)].

Definition connection_fields (address : string) : dict :=
  [("address", VStr address); ("port", VInt 2222); ("sshKeyRef", VDict [("name", VStr "key")]);
   ("sshHostKeyRef", VDict [("name", VStr "trust")])].

Definition owner_reference (name : string) : value :=
  VDict [("apiVersion", VStr "cluster.x-k8s.io/v1beta1"); ("kind", VStr "Machine"); ("name", VStr name);
         ("uid", VStr "capi-uid")].

Definition claim (name : string) : value :=
  VDict [("kind", VStr "SSHMachine"); ("name", VStr name); ("namespace", VStr "test");
         ("uid", VStr "machine-uid")].

Definition fake_store (machine_spec machine_status host_spec host_status : dict) : store :=
  Store
    [ (("cluster.x-k8s.io", "clusters", "test", "cluster-a"),
       fake_object "cluster.x-k8s.io" "test" "cluster-a" "cluster-uid" [] [] []);
      (("cluster.x-k8s.io", "machines", "test", "machine-a"),
       fake_object "cluster.x-k8s.io" "test" "machine-a" "capi-uid" []
         [("clusterName", VStr "cluster-a");
          ("bootstrap", VDict [("dataSecretName", VStr "bootstrap")])] []);
      ((API_GROUP, "sshmachines", "test", "machine-a"),
       fake_object API_GROUP "test" "machine-a" "machine-uid"
         [("ownerReferences", VList [owner_reference "machine-a"])] machine_spec machine_status);
      ((API_GROUP, "sshhosts", "test", "host-a"),
       fake_object API_GROUP "test" "host-a" "host-uid"
         [("labels", VDict [("role", VStr "worker")])] host_spec host_status) ]
    []
    [ ("test", "key", Some [("value", "dGVzdC1wcml2YXRlLWtleQ==")]);
      ("test", "trust", Some [("known_hosts", "dGVzdC1rbm93bi1ob3N0cw==")]);
      ("test", "bootstrap", Some [("value", "IyEvYmluL3NoCmVjaG8gdGVzdCBib290c3RyYXAK")]) ]
    false 0.

Definition fake_world (s : store) : world :=
  World s 1790000000000000 0 0 0 "00000000-0000-0000-0000-000000000001" [].

(** What a handler sees of the stored machine. *)
Definition machine_view (s : store) (field : string) : value :=
  match o ← fake_get s API_GROUP "sshmachines" "test" (VStr "machine-a"); item o field with
  | Ok v => v
  | Err _ => VDict []
  end.

(** A machine allocated to the pool host, as its status records it. *)
Definition pool_binding : value :=
  VDict [("address", VStr "host-a.test"); ("port", VInt 2222); ("user", VStr "root");
         ("sshKeyRef", VDict [("name", VStr "key")]); ("sshHostKeyRef", VDict [("name", VStr "trust")]);
         ("machineUID", VStr "machine-uid"); ("hostUID", VStr "host-uid");
         ("hostRef", VStr "test/host-a")].

Definition owned_binding : value :=
  match pool_binding with
  | VDict d => VDict (dupdate [("machineUID", VStr "machine-uid"); ("startedAt", VStr "2026-09-01T00:00:00+00:00")] d)
  | v => v
  end.

(** A provisioned pool machine. *)
Definition provisioned_store : store :=
  fake_store (connection_fields "host-a.test" ++ [("hostRef", VStr "test/host-a")])
    [("allocation", pool_binding); ("bootstrapOwnership", owned_binding);
     ("initialization", VDict [("provisioned", VBool true)])]
    (connection_fields "host-a.test" ++ [("consumerRef", claim "machine-a")])
    [("ready", VBool true); ("phase", VStr "Claimed"); ("inUse", VBool true)].

(** A process with no environment variable set, and a YAML library that parses
    nothing: the bootstrap payload of the fixture is a shell script. *)
Definition replica : Config := default_config "replica-1".

Definition plain_yaml : Yaml := {|
    safe_load _ := YamlError None;
    safe_load_all _ := YamlError None;
    safe_dump _ := EmptyString;
    safe_dump_all _ := EmptyString
  |}.

(** A machine that was never reconciled, with an explicit address. *)
Definition fresh_store : store := fake_store (connection_fields "host-a.test") [] [] [].

(** A provisioned machine whose host was cleaned: only the release is left. *)
Definition cleaned_store : store :=
  fake_store (connection_fields "host-a.test" ++ [("hostRef", VStr "test/host-a")])
    [("allocation", pool_binding); ("bootstrapOwnership", owned_binding);
     ("cleanup", VDict [("phase", VStr "Succeeded")])]
    (connection_fields "host-a.test" ++ [("consumerRef", claim "machine-a")])
    [("phase", VStr "Cleaning"); ("inUse", VBool true)].

(** A provisioned machine asked to reboot, with the given record of earlier reboots. *)
Definition reboot_store (record : dict) : store :=
  fake_store
    (connection_fields "host-a.test" ++
     [("hostRef", VStr "test/host-a");
      ("remediation", VDict [("reboot", VDict [("requestedAt", VStr "2026-09-20T10:00:00Z")])])])
    [("allocation", pool_binding); ("bootstrapOwnership", owned_binding);
     ("initialization", VDict [("provisioned", VBool true)]);
     ("remediation", VDict [("reboot", VDict record)])]
    (connection_fields "host-a.test" ++ [("consumerRef", claim "machine-a")])
    [("ready", VBool true); ("phase", VStr "Claimed"); ("inUse", VBool true)].

(** The same request, submitted a moment ago on the boot the host still reports. *)
Definition submitted_record : dict :=
  [("lastRequestedAt", VStr "2026-09-20T10:00:00Z"); ("phase", VStr "Submitted");
   ("previousBootID", VStr "00000000-0000-0000-0000-000000000001");
   ("startedAt", VStr "2026-09-21T17:46:00+00:00"); ("success", VBool false)].
