(* ===== verification/ConditionsSafety.v ===== *)
(** How conditions evolve: one per type, others' untouched, transition times kept. *)

From S2P Require Import Prelude Py PyStr PyTime Effects Monitors ApiIO Conditions FakeApi.

(** The condition carries this type. *)
Definition has_type (c : value) (k : string) : Prop := get c "type" = Ok (VStr k).

Definition type_is (k : string) (c : value) : bool :=
  match get c "type" with Ok v => eq_str v k | Err _ => false end.

(** The last condition of a type in a list. *)
Fixpoint last_of_type (k : string) (l : list value) : option value :=
  match l with
  | [] => None
  | c :: l => match last_of_type k l with
              | Some c' => Some c'
              | None => if type_is k c then Some c else None
              end
  end.

(** A dictionary of conditions by type. *)
Definition typed (d : dict) : Prop := dict_wf d ∧ ∀ k c, dget d k = Some c → has_type c k.

Lemma type_is_true k c : type_is k c = true ↔ has_type c k.
Proof.
  unfold type_is, has_type. destruct (get c "type") as [v|]; [|done]. rewrite eq_str_true. naive_solver congruence.
Qed.

Lemma item_get c k v : item c k = Ok v → get c k = Ok v.
Proof. destruct c; try done. simpl. destruct (dget d k); [|done]. by intros [= ->]. Qed.

Lemma typed_dset d k c : typed d → has_type c k → typed (dset d k c).
Proof.
  intros [Hw Ht] Hc. split; [by apply dset_wf|]. intros k' c'.
  destruct (decide (k = k')) as [<-|Hne]; [rewrite dget_dset_eq; by intros [= <-]|].
  rewrite dget_dset_ne by done. apply Ht.
Qed.

Lemma by_type_spec existing acc d :
  typed acc → by_type true existing acc = Ok d →
  typed d ∧ ∀ k, k ≠ EmptyString →
    dget d k = match last_of_type k existing with Some c => Some c | None => dget acc k end.
Proof.
  revert acc. induction existing as [|c existing IH]; simpl; intros acc Hacc H; [by injection H as <-|].
  apply res_bind_ok in H as (keep & Hkeep & H).
  destruct (get c "type") as [v|] eqn:Hv; [|done]. injection Hkeep as <-.
  destruct (truthy v) eqn:Ht.
  - cbn [negb] in H. apply res_bind_ok in H as (kind & Hkind & H). apply res_bind_ok in H as (key & Hkey & H).
    apply item_get in Hkind. rewrite Hv in Hkind. injection Hkind as <-.
    destruct v as [| | |s| |]; try discriminate Hkey. injection Hkey as ->.
    destruct (IH (dset acc key c)) as [Hd Hget]; [by apply typed_dset|done|]. split; [done|].
    intros k Hk. rewrite (Hget k Hk). destruct (last_of_type k existing); [done|].
    unfold type_is. rewrite Hv. unfold eq_str. cbn [py_eqb].
    destruct (String.eqb_spec key k) as [->|Hne]; [by rewrite dget_dset_eq|by rewrite dget_dset_ne].
  - destruct (IH acc Hacc H) as [Hd Hget]. split; [done|]. intros k Hk. rewrite (Hget k Hk).
    destruct (last_of_type k existing); [done|]. unfold type_is. rewrite Hv.
    destruct (eq_str v k) eqn:E; [|done]. apply eq_str_true in E. subst v. simpl in Ht.
    apply negb_false_iff, String.eqb_eq in Ht. done.
Qed.

(** ** One update *)

(** The fields a merge may set on its own. *)
Definition stamped (key : string) : Prop := key = "lastTransitionTime" ∨ key = "observedGeneration".

(** [c] is the update, stamped: with the generation, and with the previous transition
    time if the status did not change, else with its own or the current one. *)
Definition evolves (previous update generation c : value) : Prop :=
  (∀ key, ¬ stamped key → get c key = get update key) ∧
  (is_none generation = false → get c "observedGeneration" = Ok generation) ∧
  ∃ was status time, get previous "status" = Ok was ∧ item update "status" = Ok status ∧
    get previous "lastTransitionTime" = Ok time ∧
    if py_eqb was status && truthy time then get c "lastTransitionTime" = Ok time
    else (∃ own, item update "lastTransitionTime" = Ok own ∧ get c "lastTransitionTime" = Ok own) ∨
         ∃ now, get c "lastTransitionTime" = Ok (VStr (isoformat now)).

Lemma get_dset_ne d k k' v : k ≠ k' → get (VDict (dset d k v)) k' = get (VDict d) k'.
Proof. intros Hk. simpl. by rewrite dget_dset_ne. Qed.

Lemma get_dset_eq d k v : get (VDict (dset d k v)) k = Ok v.
Proof. simpl. by rewrite dget_dset_eq. Qed.

(** A merged update is stored under its type, evolved from the entry before it. *)
Lemma merge_update_spec d update generation s :
  typed d →
  msafe any_run (merge_update d update generation) s tt (λ r _ _, ∀ d', r = Ok d' →
    ∃ key c, has_type update key ∧ d' = dset d key c ∧ has_type c key ∧
      evolves (default (VDict []) (dget d key)) update generation c).
Proof.
  intros Hd. unfold merge_update. bind_lift; [|done]. bind_lift; [|done]. bind_lift; [|done]. cbv zeta.
  rename a into kind, a0 into key, a1 into fields.
  bind_lift; [|done]. rename a into was. bind_lift; [|done]. rename a into status. bind_lift; [|done].
  rename a into time.
  destruct kind as [| | |k| |]; try discriminate Hr0. injection Hr0 as <-. apply item_get in Hr as Hk.
  destruct update as [| | | | |u]; try discriminate Hr1. injection Hr1 as <-.
  set (previous := default (VDict []) (dget d k)) in *.
  apply msafe_bind.
  apply (msafe_mono _ _ _ _ (λ r _ _, ∀ f, r = Ok f →
    (∀ key, key ≠ "lastTransitionTime" → dget f key = dget u key) ∧
    if py_eqb was status && truthy time then dget f "lastTransitionTime" = Some time
    else (∃ own, dget u "lastTransitionTime" = Some own ∧ dget f "lastTransitionTime" = Some own) ∨
         ∃ now, dget f "lastTransitionTime" = Some (VStr (isoformat now)))).
  { destruct (py_eqb was status && truthy time) eqn:E.
    - apply msafe_ret. intros f [= <-]. split; [|apply dget_dset_eq]. intros key Hne. by apply dget_dset_ne.
    - unfold now_iso. apply msafe_bind, msafe_bind, msafe_perform; [done|]. intros now _. apply msafe_ret, msafe_ret.
      intros f [= <-]. destruct (dget u "lastTransitionTime") as [own|] eqn:Eo.
      + split; [done|]. left. by exists own.
      + split; [intros key Hne; by apply dget_dset_ne|]. right. exists now. apply dget_dset_eq. }
  intros [f|e] s' [] Hf; [|done]. destruct (Hf _ eq_refl) as [Hkeep Htime]. clear Hf.
  apply msafe_ret. intros d' [= <-]. exists k. eexists. split_and!; [done|done|..].
  - unfold has_type. destruct (is_none generation); simpl; rewrite ?dget_dset_ne, Hkeep by done; exact Hk.
  - split_and!.
    + intros key Hs. simpl. destruct (is_none generation); simpl;
        rewrite ?dget_dset_ne, Hkeep; [done|by intros ->; apply Hs; left|done|by intros ->; apply Hs; left|
          intros <-; apply Hs; by right].
    + intros ->. apply get_dset_eq.
    + exists was, status, time. split_and!; [done..|].
      assert (Hget : ∀ v, dget f "lastTransitionTime" = Some v →
        get (VDict (if is_none generation then f else dset f "observedGeneration" generation)) "lastTransitionTime" = Ok v).
      { intros v Hv. destruct (is_none generation); simpl; rewrite ?dget_dset_ne, Hv by done; done. }
      destruct (py_eqb was status && truthy time); [by apply Hget|].
      destruct Htime as [(own & Ho & Hv)|[now Hv]]; [left; exists own|right; exists now]; split_and?; auto.
      simpl. by rewrite Ho.
Qed.

Lemma has_type_inj c k k' : has_type c k → has_type c k' → k = k'.
Proof. unfold has_type. congruence. Qed.

Lemma Forall2_impl_in {A B} (P Q : A → B → Prop) l k :
  Forall2 P l k → (∀ x y, y ∈ k → P x y → Q x y) → Forall2 Q l k.
Proof.
  induction 1 as [|x y l k Hxy H IH]; intros HPQ; constructor; [apply HPQ; [left|done]|].
  apply IH. intros x' y' Hy. apply HPQ. by right.
Qed.

(** All updates, of distinct types. *)
Lemma merge_updates_spec updates keys d generation s :
  typed d → NoDup keys → Forall2 has_type updates keys →
  msafe any_run (merge_updates d updates generation) s tt (λ r _ _, ∀ d', r = Ok d' →
    typed d' ∧ (∀ k, k ∉ keys → dget d' k = dget d k) ∧
    Forall2 (λ u k, ∃ c, dget d' k = Some c ∧ evolves (default (VDict []) (dget d k)) u generation c) updates keys).
Proof.
  intros Hd Hn Hu. revert d s Hd Hn.
  induction Hu as [|u k updates keys Hk Hu IH]; intros d s Hd Hn; simpl; [apply msafe_ret; by intros ? [= <-]|].
  apply NoDup_cons in Hn as [Hnot Hn]. apply msafe_bind.
  eapply msafe_mono; [by apply merge_update_spec|]. intros [d1|e] s1 [] Hone; [|done].
  destruct (Hone _ eq_refl) as (k' & c & Hk' & -> & Hc & Hev). clear Hone.
  rewrite <- (has_type_inj _ _ _ Hk Hk') in *. clear k' Hk'.
  eapply msafe_mono; [apply (IH (dset d k c)); [by apply typed_dset|done]|].
  intros r s' [] Hrest d' Hr. destruct (Hrest d' Hr) as (Hd' & Hframe & Hall). split_and!; [done|..].
  - intros k1 Hk1. apply not_elem_of_cons in Hk1 as [Hne Hk1]. rewrite (Hframe k1 Hk1). by apply dget_dset_ne.
  - constructor.
    + exists c. split; [|done]. rewrite (Hframe k Hnot). apply dget_dset_eq.
    + eapply Forall2_impl_in; [exact Hall|]. intros u' k1 Hin (c1 & Hget & Hev1). exists c1. split; [done|].
      rewrite dget_dset_ne in Hev1; [done|]. by intros ->.
Qed.

Lemma dict_values_types d : typed d → Forall2 has_type (map snd d) (map fst d).
Proof.
  intros [Hw Ht]. assert (Hall : ∀ k c, (k, c) ∈ d → has_type c k).
  { intros k c Hin. apply Ht. clear Ht. unfold dict_wf in Hw. induction d as [|[k' c'] d IH]; simpl in *;
      [by apply not_elem_of_nil in Hin|]. apply NoDup_cons in Hw as [Hnot Hw].
    apply elem_of_cons in Hin as [[= -> ->]|Hin]; [by rewrite String.eqb_refl|].
    destruct (String.eqb_spec k k') as [->|]; [|by apply IH].
    destruct Hnot. apply list_elem_of_fmap. by exists (k', c). }
  clear Hw Ht. induction d as [|[k c] d IH]; simpl; constructor; [apply Hall; left|].
  apply IH. intros k' c' Hin. apply Hall. by right.
Qed.

Lemma dget_elem d k c : dget d k = Some c → c ∈ map snd d.
Proof. intros Hd. apply dget_Some_In, list_elem_of_In in Hd. apply list_elem_of_fmap. by exists (k, c). Qed.

(** What merging promises of its result [l], for updates of the distinct types [keys]:
    one condition per type, those of other types as they were, and each update evolved
    from the condition it replaces. *)
Definition merged_for (existing updates : list value) (generation : value) (keys : list string) (l : list value)
    : Prop :=
  (∃ types, NoDup types ∧ Forall2 has_type l types) ∧
  (∀ k c, k ≠ EmptyString → k ∉ keys → last_of_type k existing = Some c → c ∈ l) ∧
  Forall2 (λ u k, ∃ c, c ∈ l ∧ has_type c k ∧
    evolves (default (VDict []) (last_of_type k existing)) u generation c) updates keys.

Definition distinct_types (updates : list value) (keys : list string) : Prop :=
  NoDup keys ∧ EmptyString ∉ keys ∧ Forall2 has_type updates keys.

Definition merged (existing updates : list value) (generation : value) (l : list value) : Prop :=
  ∀ keys, distinct_types updates keys → merged_for existing updates generation keys l.

Lemma merge_conditions_for existing updates generation keys s :
  distinct_types updates keys →
  msafe any_run (merge_conditions existing updates generation) s tt
    (λ r _ _, ∀ l, r = Ok l → merged_for existing updates generation keys l).
Proof.
  intros (Hn & He & Hu). unfold merge_conditions. bind_lift; [|done].
  destruct (by_type_spec _ [] _ ltac:(by split; [constructor|]) Hr) as [Hd Hget].
  apply msafe_bind. eapply msafe_mono; [by eapply merge_updates_spec|].
  intros [d'|e] s' [] Hpost; [|done]. destruct (Hpost _ eq_refl) as (Hd' & Hframe & Hall). clear Hpost.
  apply msafe_ret. intros l [= <-]. split_and!.
  - exists (map fst d'). split; [apply Hd'|by apply dict_values_types].
  - intros k c Hk Hnot Hlast. apply (dget_elem _ k). rewrite (Hframe k Hnot), (Hget k Hk), Hlast. done.
  - eapply Forall2_impl_in; [exact Hall|]. intros u k Hk (c & Hc & Hev). exists c.
    split_and!; [by eapply dget_elem|by apply Hd'|].
    rewrite (Hget k) in Hev by (intros ->; done). by destruct (last_of_type k existing).
Qed.

Lemma merge_conditions_merged existing updates generation :
  values (merge_conditions existing updates generation) (merged existing updates generation).
Proof.
  intros s. eapply msafe_mono.
  { apply (any_run_forall _ _ (λ (K : sig (distinct_types updates)) r _ _,
      ∀ l, r = Ok l → merged_for existing updates generation (proj1_sig K) l)).
    intros [keys Hkeys]. revert Hkeys. exact (merge_conditions_for existing updates generation keys s). }
  intros r s' g HQ l Hl keys Hkeys. exact (HQ (exist _ keys Hkeys) l Hl).
Qed.

(** C39.  Publishing conditions keeps them well-formed and honest, for updates of
    distinct types: the result has one condition per type; conditions of other types,
    which other writers own, stay as they were; and each update appears with its own
    status, reason and message, stamped with the generation and with the transition
    time of the condition it replaces whenever its status is the same, so that only a
    change of status is a transition. *)
Theorem conditions_evolve existing updates keys generation s :
  NoDup keys → EmptyString ∉ keys → Forall2 has_type updates keys →
  returns (merge_conditions existing updates generation) s (λ r _, ∀ l, r = Ok l →
    (∃ types, NoDup types ∧ Forall2 has_type l types) ∧
    (∀ k c, k ≠ EmptyString → k ∉ keys → last_of_type k existing = Some c → c ∈ l) ∧
    Forall2 (λ u k, ∃ c, c ∈ l ∧ has_type c k ∧
      evolves (default (VDict []) (last_of_type k existing)) u generation c) updates keys).
Proof.
  intros Hn He Hu. by apply returns_msafe, merge_conditions_for.
Qed.

(** *** Witness: a new reason for an unchanged status, beside a foreign condition *)

Definition ready_since : value :=
  VDict [("type", VStr "Ready"); ("status", VStr "False"); ("reason", VStr "Waiting"); ("message", VStr "m");
         ("lastTransitionTime", VStr "2026-09-01T00:00:00+00:00")].
Definition foreign_condition : value := VDict [("type", VStr "Paused"); ("status", VStr "False")].

Definition fixture_merge : prog (res (list value) * patch) :=
  merge_conditions [ready_since; foreign_condition] [condition "Ready" "False" "SSHError" "unreachable"] (VInt 4)
    empty_patch.

Lemma conditions_evolve_witness :
  ∃ t l s', finishes fixture_merge t (Ok l, s') ∧ foreign_condition ∈ l ∧
    ∃ c, c ∈ l ∧ get c "reason" = Ok (VStr "SSHError") ∧
      get c "lastTransitionTime" = Ok (VStr "2026-09-01T00:00:00+00:00").
Proof.
  destruct (run_outcome fake_handler (λ rs, is_ok (fst rs)) fixture_merge (fake_world fresh_store))
    as (t & [[l|e] s'] & Hf & Hok); [vm_compute; reflexivity| |discriminate Hok].
  exists t, l, s'. split; [exact Hf|].
  assert (Hn : NoDup ["Ready"]) by (apply NoDup_singleton).
  assert (He : EmptyString ∉ ["Ready"]) by (intros H%list_elem_of_singleton; discriminate H).
  destruct (conditions_evolve [ready_since; foreign_condition] [condition "Ready" "False" "SSHError" "unreachable"]
    ["Ready"] (VInt 4) empty_patch Hn He ltac:(by repeat constructor) _ _ _ Hf l eq_refl) as (_ & Hkeep & Hevolve).
  split; [apply (Hkeep "Paused"); [done|by intros H%list_elem_of_singleton|reflexivity]|].
  apply Forall2_cons in Hevolve as [(c & Hc & _ & Hsame & _ & was & st & time & Hw & Hst & Ht & Htime) _].
  exists c. split; [exact Hc|]. split; [apply Hsame; by intros [|]|].
  injection Hw as <-. injection Hst as <-. injection Ht as <-. exact Htime.
Defined.
