(* ===== verification/Disclosure.v ===== *)
(** What the provider lets out about a host: logs without secrets, short one-line
    diagnostics. *)

From S2P Require Import Prelude Py PyStr Regex Ssh Diagnostics.
Open Scope nat_scope.

(** ** Containment *)

Lemma str_contains_nil p : p ≠ EmptyString → str_contains p EmptyString = false.
Proof. by destruct p. Qed.

Lemma prefix_app_sep p c a b :
  char_in c p = false → p ≠ EmptyString →
  String.prefix p (a +:+ String c b) = true → String.prefix p a = true.
Proof.
  revert a. induction p as [|x p IH]; [done|]. intros a Hc _. unfold char_in in Hc. simpl in Hc. bool_hyps.
  destruct a as [|y a].
  - rewrite str_app_nil_l. cbn [String.prefix]. destruct (Ascii.ascii_dec x c) as [->|]; [|done].
    by rewrite Ascii.eqb_refl in Hc0.
  - rewrite str_app_cons. cbn [String.prefix]. destruct (Ascii.ascii_dec x y); [|done].
    destruct p as [|x' p]; [by destruct a|]. by apply IH.
Qed.

(** A word without the separator occurs on one side of it. *)
Lemma str_contains_sep p c a b :
  char_in c p = false → p ≠ EmptyString →
  str_contains p (a +:+ String c b) = true → str_contains p a = true ∨ str_contains p b = true.
Proof.
  intros Hc Hp. induction a as [|x a IH].
  - rewrite str_app_nil_l. cbn [str_contains]. intros [H|H]%orb_true_iff; [|by right]. left.
    assert (Hn : String.prefix p (EmptyString +:+ String c b) = true) by done.
    apply prefix_app_sep in Hn; [|done..]. by destruct p.
  - rewrite str_app_cons. cbn [str_contains]. intros [H|H]%orb_true_iff.
    + left. rewrite <- str_app_cons in H. apply prefix_app_sep in H; [|done..]. by rewrite H.
    + destruct (IH H) as [Ha|Hb]; [|by right]. left. by rewrite Ha, orb_true_r.
Qed.

Lemma lower_app a b : lower (a +:+ b) = lower a +:+ lower b.
Proof. induction a as [|c a IH]; [done|]. rewrite str_app_cons. simpl. by rewrite IH. Qed.

Lemma join_lines_contains p ls :
  char_in (Ascii.ascii_of_nat 10) p = false → p ≠ EmptyString →
  Forall (λ l, str_contains p (lower l) = false) ls → str_contains p (lower (join nl ls)) = false.
Proof.
  intros Hp Hne Hls. unfold join. induction Hls as [|l ls Hl Hls IH]; [by apply str_contains_nil|].
  destruct ls as [|l' ls]; [done|].
  change (String.concat nl (l :: l' :: ls)) with (l +:+ (nl +:+ String.concat nl (l' :: ls))).
  assert (Hj : ∀ a b, lower (a +:+ (nl +:+ b)) = lower a +:+ String (Ascii.ascii_of_nat 10) (lower b))
    by (intros; by rewrite lower_app).
  rewrite Hj. apply not_true_iff_false. intros H.
  apply str_contains_sep in H as [H|H]; [congruence..|done|done].
Qed.

(** A property of each sensitive word. *)
Lemma for_each_pattern (P : string → Prop) p : Forall P REDACT_PATTERNS → p ∈ REDACT_PATTERNS → P p.
Proof. rewrite Forall_forall. auto. Qed.

(** What is logged of a remote command or its output names no credential:
    after redaction no line contains, in any case, one of the sensitive words. *)
Lemma redacted_log_names_no_secret text p :
  p ∈ REDACT_PATTERNS → str_contains p (lower (redact text)) = false.
Proof.
  intros Hp. apply join_lines_contains.
  - revert Hp. apply (for_each_pattern (λ p, char_in _ p = false)). by repeat constructor.
  - revert Hp. apply (for_each_pattern (λ p, p ≠ EmptyString)). by repeat constructor.
  - apply Forall_fmap, Forall_true. intros line. unfold redact_line, compose. cbv zeta.
    destruct (existsb _ _) eqn:E.
    + revert Hp. apply (for_each_pattern (λ p, str_contains p (lower "[REDACTED]") = false)). by repeat constructor.
    + apply not_true_iff_false. intros H. apply not_true_iff_false in E. apply E, existsb_exists.
      exists p. split; [by apply list_elem_of_In|done].
Qed.

(** ** Diagnostics *)

(** White space other than the blank. *)
Definition odd_space (c : Ascii.ascii) : bool := is_space c && negb (Ascii.eqb c " "%char).

Lemma spaces_match p c s : p_rest p = String c s → is_space c = true → match_at (rplus rspace) p ≠ None.
Proof.
  intros Hp Hc. unfold match_at, rplus, rspace. cbn [matches]. rewrite Hp, Hc. cbn [flat_map].
  rewrite List.app_nil_r. cbn [matches p_rest]. unfold star. destruct (String.length s); [done|].
  by destruct (flat_map _ _).
Qed.

Lemma collapsed_spaces before skip s :
  str_existsb odd_space (sub_from (rplus rspace) (λ _, " ") before skip s) = false.
Proof.
  revert before skip. induction s as [|c s IH]; intros before skip; [done|]. cbn [sub_from].
  destruct skip as [|skip]; [|apply IH].
  destruct (match_at (rplus rspace) (Position before (String c s) [])) as [q|] eqn:E.
  - rewrite str_existsb_app. cbn [str_existsb]. by rewrite IH.
  - cbn [str_existsb]. rewrite IH, orb_false_r. unfold odd_space.
    destruct (is_space c) eqn:Hc; [|done]. by destruct (spaces_match (Position before (String c s) []) c s eq_refl Hc E).
Qed.

Section parts.
Context (f : Ascii.ascii → bool).

Lemma lstrip_by_part p s : str_existsb f s = false → str_existsb f (lstrip_by p s) = false.
Proof. induction s as [|c s IH]; simpl; [done|]. intros H. bool_hyps. destruct (p c); [auto|]. simpl. by rewrite H0. Qed.

Lemma rstrip_by_part p s : str_existsb f s = false → str_existsb f (rstrip_by p s) = false.
Proof.
  induction s as [|c s IH]; simpl; [done|]. intros H. bool_hyps. specialize (IH H).
  destruct (rstrip_by p s) as [|x t]; [destruct (p c); simpl; by rewrite ?H0|]. cbn [str_existsb] in *.
  by rewrite H0.
Qed.

Lemma substring_part n s : str_existsb f s = false → str_existsb f (String.substring 0 n s) = false.
Proof.
  revert n. induction s as [|c s IH]; intros [|n]; simpl; try done. intros H. bool_hyps. by rewrite H0, IH.
Qed.
End parts.

Lemma rstrip_by_length p s : String.length (rstrip_by p s) ≤ String.length s.
Proof.
  induction s as [|c s IH]; simpl; [done|]. destruct (rstrip_by p s); [destruct (p c); simpl; lia|]. simpl in *. lia.
Qed.

Lemma substring_length n s : String.length (String.substring 0 n s) ≤ n.
Proof. revert n. induction s as [|c s IH]; intros [|n]; simpl; try lia. specialize (IH n). lia. Qed.

Definition short_line (s : string) : Prop :=
  String.length s ≤ BOOTSTRAP_DIAGNOSTIC_MAX_EXCERPT ∧ str_existsb odd_space s = false.

Lemma sanitized_line text : str_existsb odd_space (sanitize_bootstrap_diagnostic_text text) = false.
Proof. apply rstrip_by_part, lstrip_by_part, collapsed_spaces. Qed.

Lemma shorten_short s : str_existsb odd_space s = false → short_line (shorten s).
Proof.
  intros Hs. unfold shorten. destruct (_ <=? _) eqn:E; [split; [by apply Nat.leb_le|done]|]. split.
  - rewrite str_length_app. set (t := String.substring _ _ _).
    pose proof (rstrip_by_length is_space t). pose proof (substring_length (BOOTSTRAP_DIAGNOSTIC_MAX_EXCERPT - 3) s).
    unfold BOOTSTRAP_DIAGNOSTIC_MAX_EXCERPT in *. simpl String.length at 2. fold t in H0. lia.
  - rewrite str_existsb_app, rstrip_by_part; [done|]. by apply substring_part.
Qed.

Lemma excerpt_short result : short_line (excerpt_command_output result).
Proof.
  unfold excerpt_command_output. cbv zeta.
  destruct (negb _); [apply shorten_short, sanitized_line|].
  destruct (negb _); [apply shorten_short, sanitized_line|]. split; [apply Nat.le_0_l|done].
Qed.

Lemma str_Z_line z : str_existsb odd_space (str_Z z) = false.
Proof.
  assert (Hd : ∀ d, str_existsb odd_space (DecimalString.NilZero.string_of_uint d) = false).
  { intros d. apply (str_existsb_mono _ nondigit); [|apply uint_text_digits]. intros c. unfold odd_space, nondigit.
    intros [Hc _]%andb_true_iff. destruct (is_digit c) eqn:E; [|done]. exfalso. revert Hc E.
    unfold is_space, is_digit, byte_between. rewrite orb_true_iff, !andb_true_iff, !Nat.leb_le. lia. }
  unfold str_Z. destruct (Z.to_int z); simpl; [apply Hd|]. by rewrite Hd.
Qed.

Lemma phase_label_line phase : str_existsb odd_space (phase_label phase) = false.
Proof.
  unfold phase_label. destruct (existsb _ _) eqn:E; [|done].
  apply existsb_exists in E as (p & Hp & Heq). apply String.eqb_eq in Heq. subst p.
  by repeat destruct Hp as [<-|Hp].
Qed.

(** The diagnostics published for a failed bootstrap are one line: the excerpt
    of the command's output has at most 240 characters, and neither it nor the message
    around it contains a line break or other control white space. *)
Lemma diagnostics_are_one_short_line result script :
  let f := classify_bootstrap_failure result script in
  String.length (fl_excerpt f) ≤ 240 ∧
  str_existsb is_linebreak (fl_excerpt f) = false ∧ str_existsb is_linebreak (fl_message f) = false.
Proof.
  assert (Hodd : ∀ s, str_existsb odd_space s = false → str_existsb is_linebreak s = false).
  { intros s. apply str_existsb_mono. intros c. unfold odd_space, is_linebreak, is_space, byte_between.
    rewrite orb_true_iff, !andb_true_iff, !Nat.leb_le. intros Hc. split.
    - rewrite orb_true_iff, !andb_true_iff, !Nat.leb_le. lia.
    - apply negb_true_iff, Ascii.eqb_neq. intros ->. change (Ascii.nat_of_ascii " ") with 32 in Hc. lia. }
  pose proof (excerpt_short result) as [Hlen Hline].
  intros f. split_and!; [exact Hlen|by apply Hodd|]. apply Hodd. unfold f, classify_bootstrap_failure.
  cbn [fl_message]. set (e := excerpt_command_output result) in *.
  destruct (String.eqb e EmptyString);
    rewrite !str_existsb_app, phase_label_line, str_Z_line, ?Hline; reflexivity.
Qed.
