(* ===== verification/WriteFiles.v ===== *)
(** The files of a cloud-config: what is stored is read back, and the rendered
    script writes exactly the content. *)

From S2P Require Import Prelude Py PyStr Base64 Base64Roundtrip Effects Monitors ApiIO Ssh MachineStatus Bootstrap.
Open Scope nat_scope.

(** ** Content of a [write_files] entry *)

Lemma without_spaces_none s : str_existsb is_space s = false → without_spaces s = s.
Proof. induction s as [|c s IH]; simpl; [done|]. intros H. bool_hyps. by rewrite H0, IH. Qed.

Lemma decode_text_encode validate text :
  utf8_valid text = true → decode_text validate (without_spaces (b64encode text)) = Ok text.
Proof.
  intros Hu. unfold decode_text, utf8_decode. rewrite without_spaces_none, b64decode_encode; simpl; [by rewrite Hu|].
  apply (str_existsb_mono _ foreign); [|apply b64encode_foreign]. intros c Hc. unfold foreign. by rewrite Hc.
Qed.

(** No encoding means both plain text and base64. *)
Lemma plain_not_base64 encoding :
  existsb (String.eqb (lower (strip encoding))) [EmptyString; "text"; "plain"] = true →
  is_base64_encoding encoding = false.
Proof.
  unfold is_base64_encoding. intros H. apply existsb_exists in H as (t & Ht & ->%String.eqb_eq).
  by destruct Ht as [<-|[<-|[<-|[]]]].
Qed.

(** C38.  Rewriting the content of a [write_files] entry loses nothing: for every entry
    whose content could be read, whatever its supported encoding, the text stored back
    is the text read afterwards, and the other fields of the entry are untouched. *)
Theorem stored_content_is_read_back entry index old text :
  utf8_valid text = true → decode_cloud_write_file_content entry index = Ok old →
  decode_cloud_write_file_content (store_cloud_write_file_content entry text) index = Ok text ∧
  ∀ key, key ≠ "content" → dget (store_cloud_write_file_content entry text) key = dget entry key.
Proof.
  intros Hu Hold. split.
  - unfold decode_cloud_write_file_content in Hold. apply res_bind_ok in Hold as (c & _ & Hold).
    unfold store_cloud_write_file_content, decode_cloud_write_file_content.
    destruct (dget entry "encoding") as [v|] eqn:E; simpl default in Hold.
    2:{ rewrite dget_dset_eq, dget_dset_ne, E by done. done. }
    destruct v as [| | |encoding| |]; try discriminate Hold; [by rewrite dget_dset_eq, dget_dset_ne, E by done|].
    destruct (existsb _ _) eqn:Hplain.
    + rewrite (plain_not_base64 _ Hplain), dget_dset_eq, dget_dset_ne, E by done. simpl default.
      cbn [mbind res_bind mret res_ret]. by rewrite Hplain.
    + destruct (is_base64_encoding encoding) eqn:Hb; [|discriminate Hold].
      rewrite dget_dset_eq, dget_dset_ne, E by done. simpl default. cbn [mbind res_bind mret res_ret].
      by rewrite Hplain, Hb, decode_text_encode.
  - intros key Hkey. unfold store_cloud_write_file_content.
    destruct (dget entry "encoding") as [[]|]; try destruct (is_base64_encoding _); by apply dget_dset_ne.
Qed.

Definition base64_entry : dict :=
  [("path", VStr "/etc/kubeadm.yaml"); ("encoding", VStr " B64 "); ("content", VStr "YTog MQo=")].

Lemma stored_content_is_read_back_witness :
  decode_cloud_write_file_content base64_entry 0 = Ok ("a: 1" +:+ nl) ∧
  decode_cloud_write_file_content (store_cloud_write_file_content base64_entry "b: 22") 0 = Ok "b: 22".
Proof.
  split; [vm_compute; reflexivity|].
  apply (stored_content_is_read_back base64_entry 0 ("a: 1" +:+ nl)); vm_compute; reflexivity.
Defined.

(** ** Here-documents *)

(** How a shell reads a here-document with a quoted marker: the lines before the first
    that is the marker, and what follows it. *)
Fixpoint here_document (marker : string) (lines : list string) : option (list string * list string) :=
  match lines with
  | [] => None
  | line :: lines =>
      if String.eqb line marker then Some ([], lines)
      else '(body, rest) ← here_document marker lines; Some (line :: body, rest)
  end.

(** The text it feeds to the command. *)
Definition document_text (body : list string) : string := foldr (λ line text, line +:+ nl +:+ text) EmptyString body.

Definition is_newline (c : Ascii.ascii) : bool := Ascii.eqb c (Ascii.ascii_of_nat 10).

(** The text with a newline after its last line, if that has none; [started] says that
    a line has begun. *)
Fixpoint terminated (started : bool) (s : string) : string :=
  match s with
  | EmptyString => if started then nl else EmptyString
  | String c s => String c (terminated (negb (is_newline c)) s)
  end.

(** Line boundaries of Python other than a newline. *)
Definition other_linebreak (c : Ascii.ascii) : bool := is_linebreak c && negb (is_newline c).

Lemma here_document_app marker body rest :
  marker ∉ body → here_document marker (body ++ marker :: rest) = Some (body, rest).
Proof.
  induction body as [|line body IH]; simpl; intros H; [by rewrite String.eqb_refl|].
  apply not_elem_of_cons in H as [Hne H]. destruct (String.eqb_spec line marker); [congruence|].
  by rewrite IH.
Qed.

Lemma str_rev_app_app a b c : str_rev_app a (b +:+ c) = str_rev_app a b +:+ c.
Proof.
  revert b. induction a as [|x a IH]; intros b; [done|]. simpl. by rewrite <- str_app_cons, IH.
Qed.

Lemma str_rev_cons c s : str_rev (String c s) = str_rev s +:+ String c EmptyString.
Proof. unfold str_rev. simpl. rewrite <- str_rev_app_app. by rewrite str_app_nil_l. Qed.

Lemma splitlines_go_text cur started s :
  str_existsb other_linebreak s = false → (started = false → cur = EmptyString) →
  document_text (splitlines_go cur started s) = str_rev cur +:+ terminated started s.
Proof.
  remember (String.length s) as n eqn:Hn. revert cur started s Hn.
  induction n as [n IH] using lt_wf_ind. intros cur started [|c s] -> Hs Hcur.
  - destruct started; simpl; [by rewrite str_app_nil_r|by rewrite Hcur].
  - cbn [str_existsb] in Hs. apply orb_false_iff in Hs as [Hother Hs]. cbn [splitlines_go terminated].
    assert (Hgo : ∀ cur st, (st = false → cur = EmptyString) →
      document_text (splitlines_go cur st s) = str_rev cur +:+ terminated st s).
    { intros. eapply IH; [|reflexivity|done|done]. simpl. lia. }
    unfold other_linebreak in Hother. destruct (is_linebreak c) eqn:Hc.
    + simpl in Hother. apply negb_false_iff in Hother. rewrite Hother. apply Ascii.eqb_eq in Hother as ->.
      transitivity (str_rev cur +:+ nl +:+ document_text (splitlines_go EmptyString false s)).
      { destruct s as [|c' s']; reflexivity. }
      by rewrite Hgo.
    + rewrite Hgo, str_rev_cons, str_app_assoc, str_app_cons by done. do 2 f_equal.
      unfold is_newline. destruct (Ascii.eqb_spec c (Ascii.ascii_of_nat 10)) as [->|]; [discriminate Hc|done].
Qed.

(** The text has line boundaries other than newlines, the non-ASCII ones included. *)
Definition other_breaks (s : string) : bool := str_existsb other_linebreak (ascii_breaks s).

Lemma ascii_breaks_none s : other_breaks s = false → ascii_breaks s = s.
Proof.
  unfold other_breaks. remember (String.length s) as n eqn:Hn. revert s Hn.
  induction n as [n IH] using lt_wf_ind. intros [|a [|b r]] ->; [done..|].
  assert (Htail : str_existsb other_linebreak (String a (ascii_breaks (String b r))) = false →
                  String a (ascii_breaks (String b r)) = String a (String b r)).
  { intros [_ Hs]%orb_false_iff. f_equal. by eapply IH; [|reflexivity|]; [simpl; lia|]. }
  cbn [ascii_breaks]. destruct (_ && _); [done|]. destruct r as [|c r]; [exact Htail|].
  destruct (_ && _ && _); [done|exact Htail].
Qed.

Lemma splitlines_text s : other_breaks s = false → document_text (splitlines s) = terminated false s.
Proof.
  intros Hs. unfold splitlines. pose proof (ascii_breaks_none s Hs) as He. unfold other_breaks in Hs.
  rewrite He in Hs |- *. by rewrite splitlines_go_text.
Qed.

Definition file_marker (index : nat) : string := "__CAPI_BOOTSTRAP_FILE_" +:+ str_Z (Z.of_nat index) +:+ "__".

(** The commands after the here-document. *)
Section commands.
Context (index : nat) (path : string).

Definition on_path (line : string) : Prop := ∃ words, line = words +:+ shlex_quote path.

Lemma command_on_path verb argument : on_path (verb +:+ shlex_quote argument +:+ " " +:+ shlex_quote path).
Proof. exists (verb +:+ shlex_quote argument +:+ " "). by rewrite !str_app_assoc. Qed.

Lemma mode_command mode lines :
  (m ← format_cloud_file_mode mode index; mret ["chmod " +:+ shlex_quote m +:+ " " +:+ shlex_quote path]) = Ok lines →
  Forall on_path lines.
Proof. intros H. res_inv H. subst lines. apply Forall_singleton, command_on_path. Qed.

Lemma owner_command owner lines :
  match owner with
  | VNone => mret []
  | VStr (String _ _ as o) => mret ["chown " +:+ shlex_quote o +:+ " " +:+ shlex_quote path]
  | _ => Err (PermanentError (indexed "write_files" index ".owner must be a non-empty string"))
  end = Ok lines → Forall on_path lines.
Proof.
  intros H. destruct owner as [| | |[|c o]| |]; try discriminate H.
  { injection H as <-. apply Forall_nil_2. }
  assert (lines = ["chown " +:+ shlex_quote (String c o) +:+ " " +:+ shlex_quote path]) as ->
    by (unfold mret, res_ret in H; congruence).
  apply Forall_singleton, command_on_path.
Qed.
End commands.

(** C37.  The script rendered for a [write_files] entry writes the entry's content: after
    the command that makes the directory comes a [cat] into the entry's quoted path,
    whose here-document, as a shell reads it, is the decoded content with its last line
    ended, and only commands on the same quoted path follow.  This needs the content
    to break lines by newlines only and to have no line that is the marker. *)
Theorem written_file_is_content index entry lines :
  render_write_file index entry = Ok lines →
  ∃ d path content directory tail,
    entry = VDict d ∧ dget d "path" = Some (VStr path) ∧ decode_cloud_write_file_content d index = Ok content ∧
    lines = ("install -d -m 0755 " +:+ shlex_quote directory) ::
            ("cat <<'" +:+ file_marker index +:+ "' > " +:+ shlex_quote path) :: tail ∧
    (other_breaks content = false → file_marker index ∉ splitlines content →
     ∃ body rest, here_document (file_marker index) tail = Some (body, rest) ∧
       document_text body = terminated false content ∧
       Forall (on_path path) rest).
Proof.
  unfold render_write_file. intros H. res_inv H. rename x into d, x1 into content, x2 into permissions, x3 into owner.
  destruct entry as [| | | | |d']; try discriminate Hx. injection Hx as ->.
  assert (Hpath : dget d "path" = Some (VStr x0)).
  { apply res_bind_ok in Hx0 as (p & Hp & Hx0). simpl in Hp. destruct (dget d "path"); [|done].
    injection Hp as ->. by destruct p; inversion Hx0. }
  assert (Hcommands : Forall (on_path x0) (permissions ++ owner)).
  { apply Forall_app; split; [|exact (owner_command _ _ _ _ Hx3)].
    destruct (default VNone _); try exact (mode_command _ _ _ _ Hx2). injection Hx2 as <-. apply Forall_nil_2. }
  exists d, x0, content, (if String.eqb (dirname x0) EmptyString then "/" else dirname x0).
  exists (splitlines content ++ file_marker index :: permissions ++ owner). split_and!; [done..| |].
  { rewrite <- H. cbn [app]. do 2 f_equal. by rewrite <- app_assoc. } fold (file_marker index).
  intros Hbreaks Hmarker. exists (splitlines content), (permissions ++ owner). split_and!; [|by apply splitlines_text|done].
  by apply here_document_app.
Qed.

Definition script_entry : value :=
  VDict [("path", VStr "/etc/a b"); ("content", VStr ("x: 1" +:+ nl +:+ "y: 2")); ("permissions", VStr "0600")].

Definition script_lines : list string :=
  ["install -d -m 0755 /etc"; "cat <<'__CAPI_BOOTSTRAP_FILE_3__' > '/etc/a b'"; "x: 1"; "y: 2";
   "__CAPI_BOOTSTRAP_FILE_3__"; "chmod 0600 '/etc/a b'"].

Lemma written_file_is_content_witness :
  render_write_file 3 script_entry = Ok script_lines ∧
  ∃ body rest, here_document (file_marker 3) (skipn 2 script_lines) = Some (body, rest) ∧
    document_text body = "x: 1" +:+ nl +:+ "y: 2" +:+ nl.
Proof.
  assert (Hr : render_write_file 3 script_entry = Ok script_lines) by (vm_compute; reflexivity).
  split; [exact Hr|].
  destruct (written_file_is_content 3 script_entry script_lines Hr)
    as (d & path & content & directory & tail & Hd & Hp & Hc & Hl & Hbody).
  injection Hd as <-. injection Hp as <-. vm_compute in Hc. injection Hc as <-. injection Hl as _ <-.
  destruct Hbody as (body & rest & Hh & Ht & _).
  - vm_compute. reflexivity.
  - apply (bool_decide_unpack _). vm_compute. exact I.
  - exists body, rest. split; [exact Hh|rewrite Ht; vm_compute; reflexivity].
Defined.

(** Both conditions are needed.  A content with the marker as a line ends its file there:
    the lines after it are run as commands. *)
Lemma marker_in_content_ends_file :
  let content := "a" +:+ nl +:+ "__CAPI_BOOTSTRAP_FILE_0__" +:+ nl +:+ "reboot" +:+ nl in
  ∃ tail, render_write_file 0 (VDict [("path", VStr "/etc/x"); ("content", VStr content)]) =
            Ok ("install -d -m 0755 /etc" :: "cat <<'__CAPI_BOOTSTRAP_FILE_0__' > /etc/x" :: tail) ∧
    here_document (file_marker 0) tail = Some (["a"], ["reboot"; "__CAPI_BOOTSTRAP_FILE_0__"]).
Proof. eexists. split; vm_compute; reflexivity. Qed.

(** A form feed becomes the end of a line. *)
Lemma form_feed_is_lost :
  let content := "a" +:+ String (Ascii.ascii_of_nat 12) ("b" +:+ nl) in
  ∃ tail, render_write_file 0 (VDict [("path", VStr "/etc/x"); ("content", VStr content)]) =
            Ok ("install -d -m 0755 /etc" :: "cat <<'__CAPI_BOOTSTRAP_FILE_0__' > /etc/x" :: tail) ∧
    here_document (file_marker 0) tail = Some (["a"; "b"], []).
Proof. eexists. split; vm_compute; reflexivity. Qed.

(** So does U+2028, here in a line of JSON. *)
Lemma line_separator_is_lost :
  let u2028 := String (Ascii.ascii_of_nat 226) (String (Ascii.ascii_of_nat 128)
                 (String (Ascii.ascii_of_nat 168) EmptyString)) in
  let content := "{'a': 'x" +:+ u2028 +:+ "y'}" +:+ nl in
  ∃ tail, render_write_file 0 (VDict [("path", VStr "/etc/x"); ("content", VStr content)]) =
            Ok ("install -d -m 0755 /etc" :: "cat <<'__CAPI_BOOTSTRAP_FILE_0__' > /etc/x" :: tail) ∧
    here_document (file_marker 0) tail = Some (["{'a': 'x"; "y'}"], []).
Proof. eexists. split; vm_compute; reflexivity. Qed.
