(* ===== verification/KubeadmWiring.v ===== *)
(** kubeadm documents are wired: the wanted arguments have exactly the wanted values,
    and nothing else of a document changes. *)

From S2P Require Import Prelude Py PyStr Effects Monitors ApiIO Ssh MachineStatus Bootstrap.
Open Scope nat_scope.

(** The values that an argument field gives to a name: a list of name/value pairs, in
    which a name may be repeated (v1beta4), or a mapping (v1beta3). *)
Definition arg_value (name : string) (a : value) : list value :=
  if arg_named [name] a then match item a "value" with Ok v => [v] | Err _ => [] end else [].

Definition arg_values (name : string) (field : value) : list value :=
  match field with
  | VList l => flat_map (arg_value name) l
  | VDict d => match dget d name with Some v => [v] | None => [] end
  | _ => []
  end.

Definition field_of (d : dict) (key : string) : value := default VNone (dget d key).

(** ** One argument field *)

(** The wanted arguments as a dictionary. *)
Definition wanted (desired : list (string * string)) : dict := map (λ kv, (fst kv, VStr (snd kv))) desired.

Lemma wanted_wf desired : NoDup (map fst desired) → dict_wf (wanted desired).
Proof. unfold dict_wf, wanted. by rewrite map_map. Qed.

(** [after] gives the wanted values, and to every other name what [before] gave. *)
Definition args_set (desired : list (string * string)) (before after : value) : Prop :=
  ∀ name, arg_values name after =
    match dget (wanted desired) name with Some v => [v] | None => arg_values name before end.

Lemma arg_named_one name a : arg_named [name] a = true ↔ item a "name" = Ok (VStr name).
Proof.
  unfold arg_named. destruct (item a "name") as [[]|]; try done. simpl. rewrite orb_false_r, String.eqb_eq.
  naive_solver congruence.
Qed.

Lemma arg_named_item names a n : item a "name" = Ok (VStr n) → arg_named names a = existsb (String.eqb n) names.
Proof. unfold arg_named. by intros ->. Qed.

Lemma in_names (l : list (string * string)) name :
  existsb (String.eqb name) (map fst l) = match dget (wanted l) name with Some _ => true | None => false end.
Proof.
  induction l as [|[k v] l IH]; [done|]. simpl. destruct (String.eqb name k); [done|exact IH].
Qed.

Lemma kept_values desired name l :
  flat_map (arg_value name) (List.filter (λ a, negb (arg_named (map fst desired) a)) l) =
  match dget (wanted desired) name with Some _ => [] | None => flat_map (arg_value name) l end.
Proof.
  induction l as [|a l IH]; [by destruct (dget _ _)|]. cbn [List.filter flat_map]. unfold arg_value at 3.
  destruct (arg_named [name] a) eqn:E.
  - apply arg_named_one in E as Ha. rewrite (arg_named_item _ _ _ Ha), in_names.
    destruct (dget (wanted desired) name); cbn [negb flat_map]; [exact IH|]. rewrite IH. unfold arg_value. by rewrite E.
  - assert (Hv : arg_value name a = []) by (unfold arg_value; by rewrite E).
    destruct (negb _); cbn [flat_map]; by rewrite ?Hv, IH.
Qed.

Lemma new_values desired name :
  NoDup (map fst desired) →
  flat_map (arg_value name) (map new_arg desired) =
  match dget (wanted desired) name with Some v => [v] | None => [] end.
Proof.
  induction desired as [|[k v] l IH]; [done|]. cbn [map fst flat_map]. intros [Hnot Hn]%NoDup_cons.
  rewrite (IH Hn). unfold arg_value, arg_named. cbn [wanted map dget fst snd]. simpl item. cbn beta iota.
  cbn [existsb]. rewrite orb_false_r, String.eqb_sym. fold (wanted l).
  destruct (String.eqb_spec name k) as [->|Hne]; [|done].
  assert (Hg : dget (wanted l) k = None) by (apply dget_None_notin; unfold wanted; by rewrite map_map).
  by rewrite Hg.
Qed.

Lemma set_kubeadm_args_spec doc parent field desired parent' changed :
  NoDup (map fst desired) →
  set_kubeadm_args doc parent field desired = Ok (parent', changed) →
  args_set desired (field_of parent field) (field_of parent' field) ∧
  (∀ key, key ≠ field → dget parent' key = dget parent key) ∧
  changed = py_neqb (field_of parent field) (field_of parent' field).
Proof.
  intros Hn H. unfold set_kubeadm_args in H. res_inv H. rename x into version, x0 into after.
  subst parent' changed. unfold field_of. unfold field_of. rewrite dget_dset_eq. simpl default. split_and!; [|by intros; apply dget_dset_ne|done].
  intros name. destruct (eq_str version V1BETA4) eqn:E4.
  - destruct (dget parent field) as [v|]; simpl in Hx0 |- *.
    + destruct v as [| | | |args|]; try discriminate Hx0. destruct (forallb is_arg args); [|discriminate Hx0].
      injection Hx0 as <-. cbn [arg_values]. rewrite flat_map_app, kept_values, new_values by done.
      destruct (dget (wanted desired) name); [done|]. apply app_nil_r.
    + injection Hx0 as <-. exact (new_values desired name Hn).
  - destruct (eq_str version V1BETA3); [|discriminate Hx0].
    assert (Hd : ∃ args, default (VDict []) (dget parent field) = VDict args ∧ after = VDict (dupdate args (wanted desired))).
    { destruct (default (VDict []) (dget parent field)); try discriminate Hx0. injection Hx0 as <-. eauto. }
    destruct Hd as (args & Hargs & ->). simpl. rewrite dget_dupdate by by apply wanted_wf.
    destruct (dget (wanted desired) name); [done|].
    destruct (dget parent field); simpl in Hargs |- *; [by rewrite Hargs|]. by injection Hargs as <-.
Qed.

(** ** One document *)

(** In [d'] the arguments [field] of section [name] are the wanted ones; the other
    entries of the section are as in [d]. *)
Definition section_wired (desired : list (string * string)) (name field : string) (d d' : dict) (changed : bool) : Prop :=
  ∃ section section',
    default (VDict []) (dget d name) = VDict section ∧ dget d' name = Some (VDict section') ∧
    (∀ key, key ≠ field → dget section' key = dget section key) ∧
    args_set desired (field_of section field) (field_of section' field) ∧
    changed = py_neqb (field_of section field) (field_of section' field).

(** A document with one of these kinds. *)
Definition of_kind (kinds : list string) (d : dict) : bool :=
  match dget d "kind" with Some (VStr k) => existsb (String.eqb k) kinds | _ => false end.

(** What becomes of a document: [r] is the document, whether it counts and whether
    it changed. *)
Definition provider_wired (provider_id : string) (doc : value) (r : patched_doc) : Prop :=
  match doc with
  | VDict d =>
      if of_kind ["InitConfiguration"; "JoinConfiguration"] d then
        ∃ d', r.1 = (VDict d', true) ∧
          section_wired [("provider-id", provider_id)] "nodeRegistration" "kubeletExtraArgs" d d' r.2 ∧
          ∀ key, key ≠ "nodeRegistration" → dget d' key = dget d key
      else r = (doc, false, false)
  | _ => r = (doc, false, false)
  end.

(** The arguments of the API server for an external etcd, and the etcd section. *)
Definition etcd_wanted (e : external_etcd) : list (string * string) :=
  [("etcd-servers", String.concat "," (endpoints e)); ("etcd-cafile", ca_file e);
   ("etcd-certfile", cert_file e); ("etcd-keyfile", key_file e)].
Definition etcd_section (e : external_etcd) : value :=
  VDict [("external", VDict [("endpoints", VList (map VStr (endpoints e))); ("caFile", VStr (ca_file e));
                             ("certFile", VStr (cert_file e)); ("keyFile", VStr (key_file e))])].

Definition etcd_wired (e : external_etcd) (doc : value) (r : patched_doc) : Prop :=
  match doc with
  | VDict d =>
      if of_kind ["ClusterConfiguration"] d then
        ∃ d' args_changed, r.1 = (VDict d', true) ∧
          section_wired (etcd_wanted e) "apiServer" "extraArgs" d d' args_changed ∧
          (if py_eqb (field_of d "etcd") (etcd_section e)
           then dget d' "etcd" = dget d "etcd" ∧ r.2 = args_changed
           else dget d' "etcd" = Some (etcd_section e) ∧ r.2 = true) ∧
          ∀ key, key ≠ "apiServer" → key ≠ "etcd" → dget d' key = dget d key
      else r = (doc, of_kind ["JoinConfiguration"] d && match dget d "controlPlane" with Some _ => true | None => false end,
                false)
  | _ => r = (doc, false, false)
  end.

Lemma section_wired_set doc d d' name field desired section section' changed :
  NoDup (map fst desired) →
  default (VDict []) (dget d name) = VDict section →
  set_kubeadm_args doc section field desired = Ok (section', changed) →
  dget d' name = Some (VDict section') →
  section_wired desired name field d d' changed.
Proof.
  intros Hn Hd Hset Hd'. apply set_kubeadm_args_spec in Hset as (Hargs & Hkeep & Hc); [|done].
  by exists section, section'.
Qed.

Lemma in_strs_kind d kinds node :
  in_strs (default VNone (dget d "kind")) kinds = Ok node → node = of_kind kinds d.
Proof. unfold of_kind. destruct (dget d "kind") as [[]|]; simpl; congruence. Qed.

Lemma provider_id_doc_wired provider_id doc r : provider_id_doc provider_id doc = Ok r → provider_wired provider_id doc r.
Proof.
  unfold provider_id_doc, provider_wired. destruct doc as [| | | | |d]; intros H; try by injection H as <-.
  cbv zeta in H. apply res_bind_ok in H as (node & Hnode & H). rewrite <- (in_strs_kind _ _ _ Hnode).
  destruct node; cbn [negb] in H; [|by injection H as <-].
  destruct (default (VDict []) (dget d "nodeRegistration")) as [| | | | |section] eqn:Hs; try discriminate H.
  apply res_bind_ok in H as ([section' changed] & Hset & H).
  cbn [fst snd mret res_ret] in H. injection H as <-.
  eexists. split; [reflexivity|]. split; [|by intros; apply dget_dset_ne].
  eapply section_wired_set; [apply NoDup_singleton|exact Hs|exact Hset|apply dget_dset_eq].
Qed.

(** The code's tables are these. *)
Lemma etcd_args_wanted e : etcd_args e = etcd_wanted e.
Proof. reflexivity. Qed.
Lemma desired_etcd_section e : desired_etcd e = etcd_section e.
Proof. reflexivity. Qed.

Lemma etcd_wanted_distinct e : NoDup (map fst (etcd_wanted e)).
Proof. simpl. apply (bool_decide_unpack _). vm_compute. exact I. Qed.

Lemma of_kind_one k d : eq_str (default VNone (dget d "kind")) k = of_kind [k] d.
Proof.
  unfold of_kind, eq_str. destruct (dget d "kind") as [[]|]; try done. simpl. by rewrite orb_false_r.
Qed.

Lemma control_plane_join_kind d join : control_plane_join d = Ok join →
  join = of_kind ["JoinConfiguration"] d && match dget d "controlPlane" with Some _ => true | None => false end.
Proof.
  unfold control_plane_join. rewrite of_kind_one. destruct (_ && _) eqn:E; intros H; [|by injection H].
  apply res_bind_ok in H as (known & _ & H). destruct known; [by injection H|discriminate H].
Qed.

Lemma etcd_doc_wired e doc r : etcd_doc e doc = Ok r → etcd_wired e doc r.
Proof.
  unfold etcd_doc, etcd_wired. destruct doc as [| | | | |d]; intros H; try by injection H as <-.
  apply res_bind_ok in H as (join & Hjoin & H). rewrite of_kind_one in H.
  rewrite <- (control_plane_join_kind _ _ Hjoin). rewrite desired_etcd_section in H.
  destruct (of_kind ["ClusterConfiguration"] d); cbn [negb] in H; [|by injection H as <-].
  destruct (default (VDict []) (dget d "apiServer")) as [| | | | |section] eqn:Hs; try discriminate H.
  apply res_bind_ok in H as ([section' changed] & Hset & H). cbv zeta in H. cbn [fst snd] in H.
  assert (He : field_of (dset d "apiServer" (VDict section')) "etcd" = field_of d "etcd").
  { unfold field_of. by rewrite dget_dset_ne. }
  unfold field_of in He. rewrite He in H. unfold py_neqb in H. fold (field_of d "etcd") in H.
  pose proof (etcd_wanted_distinct e) as Hn. rewrite etcd_args_wanted in Hset.
  destruct (py_eqb (field_of d "etcd") (etcd_section e)); cbn [negb] in H;
    assert (H' : Ok r = Ok _) by (symmetry; exact H); injection H' as ->.
  - eexists _, changed. split; [reflexivity|]. split_and!.
    + eapply section_wired_set; [exact Hn|exact Hs|exact Hset|apply dget_dset_eq].
    + by apply dget_dset_ne.
    + done.
    + intros key Hk _. by apply dget_dset_ne.
  - eexists _, changed. split; [reflexivity|]. split_and!.
    + eapply section_wired_set; [exact Hn|exact Hs|exact Hset|].
      rewrite dget_dset_ne by done. apply dget_dset_eq.
    + apply dget_dset_eq.
    + done.
    + intros key Hk Hk'. by rewrite !dget_dset_ne by done.
Qed.

(** ** A text of documents *)

Section texts.
Context `{Yaml}.

(** Text that is not YAML is left alone.  Otherwise every document is wired; the flags
    say whether one counts and whether one changed; the text is left alone as long as
    none changed, and else it is the dump of the wired documents. *)
Definition text_wired (wired : value → patched_doc → Prop) (text text' : string) (saw changed : bool) : Prop :=
  match safe_load_all text with
  | Loaded docs =>
      ∃ rs : list patched_doc,
        Forall2 wired (List.filter (λ d, negb (is_none d)) docs) rs ∧
        saw = existsb (λ r, r.1.2) rs ∧ changed = existsb snd rs ∧
        text' = if changed then rstrip_nl (safe_dump_all (map (λ r, r.1.1) rs)) else text
  | YamlError _ => text' = text ∧ saw = false ∧ changed = false
  | LoadError _ => False
  end.

Lemma patch_docs_spec (patch : value → res patched_doc) (wired : value → patched_doc → Prop) docs docs' saw changed :
  (∀ doc r, patch doc = Ok r → wired doc r) →
  patch_docs patch docs = Ok (docs', saw, changed) →
  ∃ rs : list patched_doc, Forall2 wired docs rs ∧ docs' = map (λ r, r.1.1) rs ∧
    saw = existsb (λ r, r.1.2) rs ∧ changed = existsb snd rs.
Proof.
  intros Hw. revert docs' saw changed. induction docs as [|doc docs IH]; intros docs' saw changed Hp.
  { injection Hp as <- <- <-. by exists []. }
  cbn [patch_docs] in Hp. apply res_bind_ok in Hp as (((doc1 & saw1) & changed1) & Hone & Hp).
  apply res_bind_ok in Hp as (((docs2 & saw2) & changed2) & Hrest & Hp). cbn in Hp. injection Hp as <- <- <-.
  destruct (IH _ _ _ Hrest) as (rs & Hrs & -> & -> & ->).
  exists ((doc1, saw1, changed1) :: rs). split_and!; [|done..]. constructor; [by apply Hw|done].
Qed.

Lemma patch_kubeadm_yaml_wired patch wired text text' saw changed :
  (∀ doc r, patch doc = Ok r → wired doc r) →
  patch_kubeadm_yaml patch text = Ok (text', saw, changed) →
  text_wired wired text text' saw changed.
Proof.
  intros Hw Hp. unfold patch_kubeadm_yaml in Hp. unfold text_wired.
  destruct (safe_load_all text) as [docs|mark|e]; [|by injection Hp as <- <- <-|discriminate Hp].
  cbv zeta in Hp. apply res_bind_ok in Hp as (((docs' & saw1) & changed1) & Hd & Hp).
  apply (patch_docs_spec _ wired) in Hd as (rs & Hrs & -> & -> & ->); [|done]. exists rs. split; [done|].
  destruct (existsb snd rs) eqn:E; cbn in Hp; injection Hp as <- <- <-; rewrite ?E; done.
Qed.

(** C35.  The provider ID reaches every kubelet: in each Init- or JoinConfiguration of a
    kubeadm text, in both API versions, the kubelet arguments give [provider-id] exactly
    the wanted value, give every other name, repeated or not, what they gave before, and
    no other entry of the document changes; documents of other kinds are left alone, as
    is the whole text when every document already agreed. *)
Theorem provider_id_reaches_every_node text provider_id text' saw changed :
  patch_provider_id_in_kubeadm_yaml text provider_id = Ok (text', saw, changed) →
  text_wired (provider_wired provider_id) text text' saw changed.
Proof. apply patch_kubeadm_yaml_wired, provider_id_doc_wired. Qed.

(** C36.  The external etcd is wired: in each ClusterConfiguration the API server's
    arguments name the endpoints and the three files, its other arguments and the rest of
    the document stay, and the etcd section is the external one; a control-plane join,
    which takes the configuration of the cluster it joins, counts and is left alone. *)
Theorem external_etcd_is_wired text e text' saw changed :
  patch_external_etcd_in_kubeadm_yaml text e = Ok (text', saw, changed) →
  text_wired (etcd_wired e) text text' saw changed.
Proof. apply patch_kubeadm_yaml_wired, etcd_doc_wired. Qed.
End texts.

(** *** Witness: a library that parses every text to the two documents of a node *)

Definition init_document : value :=
  VDict [("apiVersion", VStr V1BETA4); ("kind", VStr "InitConfiguration");
         ("nodeRegistration", VDict [("name", VStr "n"); ("kubeletExtraArgs",
            VList [new_arg ("v", "1"); new_arg ("provider-id", "old"); new_arg ("v", "2")])])].
Definition cluster_document : value :=
  VDict [("apiVersion", VStr V1BETA3); ("kind", VStr "ClusterConfiguration");
         ("apiServer", VDict [("extraArgs", VDict [("v", VStr "1")])])].

#[local] Instance node_yaml : Yaml := {|
    safe_load _ := YamlError None;
    safe_load_all _ := Loaded [init_document; VNone; cluster_document];
    safe_dump _ := EmptyString;
    safe_dump_all docs := String.concat "---" (map py_str docs)
  |}.

(** The outcome of a computation that says it counts and changes. *)
Lemma patched_outcome (r : res (string * bool * bool)) :
  match r with Ok (_, saw, changed) => saw && changed | Err _ => false end = true → ∃ text', r = Ok (text', true, true).
Proof. destruct r as [[[text' []] []]|]; try done. by exists text'. Qed.

Lemma provider_id_reaches_every_node_witness :
  ∃ text' rs, patch_provider_id_in_kubeadm_yaml "kubeadm" "ssh://host-a" = Ok (text', true, true) ∧
    Forall2 (provider_wired "ssh://host-a") [init_document; cluster_document] rs ∧
    text' = rstrip_nl (safe_dump_all (map (λ r, r.1.1) rs)).
Proof.
  destruct (patched_outcome (patch_provider_id_in_kubeadm_yaml "kubeadm" "ssh://host-a")) as [text' E];
    [vm_compute; reflexivity|].
  destruct (provider_id_reaches_every_node _ _ _ _ _ E) as (rs & Hrs & _ & _ & Ht). exists text', rs. auto.
Defined.

Definition etcd_fixture : external_etcd :=
  ExternalEtcd ["https://e1:2379"; "https://e2:2379"] (VStr "ca", "value") (VStr "crt", "value") (VStr "key", "value")
    "/ca" "/crt" "/key".

Lemma external_etcd_is_wired_witness :
  ∃ text' rs, patch_external_etcd_in_kubeadm_yaml "kubeadm" etcd_fixture = Ok (text', true, true) ∧
    Forall2 (etcd_wired etcd_fixture) [init_document; cluster_document] rs ∧
    text' = rstrip_nl (safe_dump_all (map (λ r, r.1.1) rs)).
Proof.
  destruct (patched_outcome (patch_external_etcd_in_kubeadm_yaml "kubeadm" etcd_fixture)) as [text' E];
    [vm_compute; reflexivity|].
  destruct (external_etcd_is_wired _ _ _ _ _ E) as (rs & Hrs & _ & _ & Ht). exists text', rs. auto.
Defined.
