(* ===== verification/ContractSafety.v ===== *)
(** What the shared CAPI contracts guarantee whatever the API server replies: the
    pause check fails closed, and status is never written over a change. *)

From S2P Require Import Prelude Py PyStr Config Effects Monitors ApiIO Conditions Contracts Bootstrap FakeApi ConditionsSafety.

Lemma truthy_por a b : truthy (por a b) = truthy a || truthy b.
Proof. unfold por. by destruct (truthy a) eqn:E; rewrite ?E. Qed.

(** ** Reads of a machine *)

(** The last reply of the API server to a read of the machine. *)
Fixpoint last_read (namespace name : string) (h : list event) : option value :=
  match h with
  | [] => None
  | Ev (Api _ (GetObject group _ ns plural n)) (Ok o) :: h =>
      if String.eqb group API_GROUP && String.eqb ns namespace && String.eqb plural "sshmachines"
         && eq_str n name
      then Some o else last_read namespace name h
  | _ :: h => last_read namespace name h
  end.

(** The last reading of the clock. *)
Fixpoint last_clock (h : list event) : option Z :=
  match h with
  | [] => None
  | Ev Now t :: _ => Some t
  | _ :: h => last_clock h
  end.

Section reads.
Context (namespace name : string).

Lemma read_machine_safe ok s h (Q : res value → patch → list event → Prop) :
  (∀ h, ok h (Api API_TIMEOUT (GetObject API_GROUP API_VERSION namespace "sshmachines" (VStr name)))) →
  (∀ e s' h', Q (Err e) s' h') →
  (∀ o s' h', last_read namespace name h' = Some o → Q (Ok o) s' h') →
  msafe (history ok) (get_provider_object "sshmachines" namespace (VStr name)) s h Q.
Proof.
  intros Hok He Ho. apply msafe_request; [apply Hok|]. intros [o|e] _.
  - apply Ho. simpl. unfold eq_str. simpl. by rewrite !String.eqb_refl.
  - destruct (is_transport e); apply He.
Qed.
End reads.

(** ** The pause check *)

(** Neither [spec.paused] nor the pause annotation is set. *)
Definition unpaused (obj : value) : bool :=
  match p ← getp obj ["spec"; "paused"];
        if truthy p then mret true
        else meta ← get_or obj "metadata" (VDict []); paused_annotation meta with
  | Ok false => true
  | _ => false
  end.

(** A read that returned an object that is not paused. *)
Definition unpaused_read (e : event) : Prop :=
  match e with
  | Ev (Api _ (GetObject _ _ _ _ _)) (Ok o) => unpaused o = true
  | _ => False
  end.

Definition reads_plural (namespace plural : string) (e : event) : Prop :=
  match e with
  | Ev (Api _ (GetObject _ _ ns pl _)) _ => ns = namespace ∧ pl = plural
  | _ => False
  end.

(** An owner reference the check follows: a CAPI Machine or Cluster. *)
Definition followed (owner : value) : option (string * string) :=
  match capi_owner_api_version owner, get owner "kind" with
  | Ok (Some version), Ok (VStr kind) =>
      if existsb (String.eqb kind) ["Machine"; "Cluster"] then Some (kind, version) else None
  | _, _ => None
  end.

Definition reads_owner (namespace : string) (owner : value) (e : event) : Prop :=
  match e with
  | Ev (Api _ (GetObject group version ns plural name)) _ =>
      ∃ kind, followed owner = Some (kind, version) ∧ item owner "name" = Ok name ∧
              group = CAPI_GROUP ∧ ns = namespace ∧ plural = lower kind +:+ "s"
  | _ => False
  end.

Definition cluster_owner (owner : value) : Prop := ∃ version, followed owner = Some ("Cluster", version).

Section pause.
Context (ns : string).
Abbreviation m := (history (λ _ _, True)).
Abbreviation pause_result := (bool + value * string)%type.

(** What the check knows of the [owners] it went through since [h]: it read each of them
    that it follows, and nothing it read is paused. *)
Definition checked (owners : list value) (h h' : list event) : Prop :=
  ∃ t, h' = t ++ h ∧ Forall unpaused_read t ∧
    ∀ o, o ∈ owners → is_Some (followed o) → Exists (reads_owner ns o) t.

(** A false answer comes from a Cluster owner, and leaves out those after it. *)
Definition owners_post (owners : list value) (cluster_name : value) (h : list event)
    (r : res pause_result) (h' : list event) : Prop :=
  match r with
  | Ok (inl true) | Err _ => True
  | Ok (inl false) =>
      ∃ seen o rest, owners = seen ++ o :: rest ∧ cluster_owner o ∧ checked (seen ++ [o]) h h'
  | Ok (inr (name, _)) => checked owners h h' ∧ (truthy cluster_name = true → truthy name = true)
  end.

Lemma checked_nil h : checked [] h h.
Proof. exists []. split; [done|]. split; [constructor|]. by intros o ?%not_elem_of_nil. Qed.

Lemma checked_skip o h : followed o = None → checked [o] h h.
Proof.
  intros Ho. exists []. split; [done|]. split; [constructor|].
  intros o' ->%list_elem_of_singleton [? Hf]. congruence.
Qed.

Lemma checked_app os1 os2 h h1 h2 : checked os1 h h1 → checked os2 h1 h2 → checked (os1 ++ os2) h h2.
Proof.
  intros (t1 & -> & Hu1 & H1) (t2 & -> & Hu2 & H2). exists (t2 ++ t1).
  rewrite app_assoc. split; [done|]. split; [by apply Forall_app|].
  intros o [Ho|Ho]%elem_of_app Hf; apply Exists_app; auto.
Qed.

(** A Cluster owner that was read is a Cluster that was read. *)
Lemma reads_cluster_owner t o :
  cluster_owner o → Exists (reads_owner ns o) t → Exists (reads_plural ns "clusters") t.
Proof.
  intros [version Ho] Ht. eapply Exists_impl; [exact Ht|]. intros [c r]. destruct c as [? []| | | | | | | | | | | | | | |]; try done.
  intros (kind & Hf & _ & _ & -> & ->). rewrite Ho in Hf. by injection Hf as <- _.
Qed.

(** The read of an owner that turns out unpaused. *)
Lemma checked_read owner kind version name (t : Z * Z) (obj : value) h :
  followed owner = Some (kind, version) → item owner "name" = Ok name → unpaused obj = true →
  let e := Ev (Api t (GetObject CAPI_GROUP version ns (lower kind +:+ "s") name)) (Ok obj : res value) in
  checked [owner] h (e :: h).
Proof.
  intros Hf Hn Hu e. exists [e]. split; [done|]. split; [by constructor|].
  intros o ->%list_elem_of_singleton _. constructor. by exists kind.
Qed.

Lemma pause_of_owner_checked owner cn cv s h :
  msafe m (pause_of_owner owner ns cn cv) s h (λ r _ h', owners_post [owner] cn h r h').
Proof.
  unfold pause_of_owner. bind_lift; [|done].
  assert (Hskip : followed owner = None → owners_post [owner] cn h (Ok (inr (cn, cv))) h).
  { intros Hf. split; [by apply checked_skip|done]. }
  destruct a as [version|]; [|apply msafe_ret, Hskip; unfold followed; by rewrite Hr].
  bind_lift; [|done]. rename a into kind. bind_lift; [|done].
  assert (Hk : followed owner = match kind with VStr k => if a then Some (k, version) else None | _ => None end).
  { unfold followed. rewrite Hr, Hr0. destruct kind; try done. injection Hr1 as <-. reflexivity. }
  split_if.
  { apply msafe_ret, Hskip. rewrite Hk. apply negb_true_iff in Hb as ->. by destruct kind. }
  apply negb_false_iff in Hb as ->.
  destruct kind as [| | |k| |]; try done.
  apply msafe_bind, msafe_try, msafe_bind, msafe_lift.
  destruct (item owner "name") as [name|[]] eqn:En; try done.
  2: by case_match; [apply msafe_ret|]. 
  apply msafe_bind, msafe_request; [done|]. intros [obj|e] _.
  2:{ destruct (is_transport e); [done|]. destruct e; try done. simpl. by case_match. }
  apply msafe_ret. bind_lift; [|done]. bind_lift; [|done]. split_if; [by apply msafe_raise|].
  bind_lift; [|done]. split_if; [by apply msafe_ret|]. subst.
  assert (Hu : unpaused obj = true).
  { unfold unpaused. destruct (getp obj _) as [p|]; [|discriminate]. cbn in Hr4 |- *.
    destruct (truthy p); [discriminate|]. destruct (item obj "metadata") as [meta|] eqn:Em; [|done].
    simpl in Hr4. destruct obj as [| | | | |d]; try done. simpl in *.
    destruct (dget d "metadata"); simplify_eq/=. by rewrite Hr4. }
  pose proof (checked_read owner k version name API_TIMEOUT obj h Hk En Hu) as Hread.
  split_if.
  - apply msafe_ret. apply eq_str_true in Hb. injection Hb as ->.
    exists [], owner, []. split; [done|]. split; [by eexists|exact Hread].
  - bind_lift; [|done]. apply msafe_ret. split; [done|]. intros Ht. by rewrite truthy_por, Ht, orb_true_r.
Qed.

Lemma pause_of_owners_checked owners cn cv s h :
  msafe m (pause_of_owners owners ns cn cv) s h (λ r _ h', owners_post owners cn h r h').
Proof.
  revert cn cv s h. induction owners as [|owner owners IH]; intros cn cv s h; simpl.
  { apply msafe_ret. split; [apply checked_nil|done]. }
  apply msafe_bind. eapply msafe_mono; [apply pause_of_owner_checked|].
  intros [[[]|[cn' cv']]|e] s1 h1 Hp; [done| |..|done].
  - destruct Hp as (seen & o & rest & Heq & Ho & Hc). apply msafe_ret.
    destruct seen as [|? []]; simplify_eq/=. by exists [], o, owners.
  - destruct Hp as [Hp Ht]. eapply msafe_mono; [apply IH|].
    intros [[[]|[cn2 cv2]]|e] s2 h2; [done| |..|done].
    + intros (seen & o & rest & -> & Ho & Hc). exists (owner :: seen), o, rest. split; [done|]. split; [done|].
      by apply (checked_app [owner] (seen ++ [o]) h h1).
    + intros [Hc Ht2]. split; [by apply (checked_app [owner] owners h h1)|auto].
Qed.

Lemma pause_of_cluster_checked cn cv s h :
  msafe m (pause_of_cluster ns cn cv) s h (λ r _ h', r = Ok false →
    ∃ t, h' = t ++ h ∧ Forall unpaused_read t ∧ (truthy cn = true → Exists (reads_plural ns "clusters") t)).
Proof.
  unfold pause_of_cluster. destruct (truthy cn); simpl.
  2:{ intros _. by exists []. }
  apply msafe_bind, msafe_try, msafe_bind, msafe_request; [done|]. intros [obj|e] _.
  2:{ destruct (is_transport e); [done|]. destruct e; try done. simpl. by case_match. }
  apply msafe_ret, msafe_lift. intros Hr. eexists [_]. split; [reflexivity|].
  split; [|intros _; left; split; reflexivity].
  constructor; [|done]. unfold unpaused_read, unpaused. simpl. by rewrite Hr.
Qed.
End pause.

(** C21.  The pause check fails closed: [is_paused] answers [False] only when the
    object itself carries no pause marker, every object it consulted was returned by
    the API server and is unpaused, and nothing was left out: each CAPI Machine or
    Cluster owner was read, except those listed after a Cluster owner that was; and the
    Cluster of the cluster-name label was. *)
Theorem not_paused_is_established spec meta namespace s t s' :
  finishes (is_paused spec meta namespace s) t (Ok false, s') →
  paused_marker spec meta = Ok false ∧ Forall unpaused_read t ∧
  (∀ owners, (v ← get_or meta "ownerReferences" (VList []); iter v) = Ok owners →
     ∃ seen rest, owners = seen ++ rest ∧
       (∀ o, o ∈ seen → is_Some (followed o) → Exists (reads_owner namespace o) t) ∧
       (rest = [] ∨ ∃ o, last seen = Some o ∧ cluster_owner o)) ∧
  (∀ label, (labels ← get meta "labels"; get (por labels (VDict [])) CLUSTER_LABEL) = Ok label →
     truthy label = true → Exists (reads_plural namespace "clusters") t).
Proof.
  intros Hf. set (Q := λ (r : res bool) (_ : patch) (h : list event), r = Ok false →
    paused_marker spec meta = Ok false ∧ ∃ cn seen rest,
    (labels ← get meta "labels"; get (por labels (VDict [])) CLUSTER_LABEL) = Ok cn ∧
    (v ← get_or meta "ownerReferences" (VList []); iter v) = Ok (seen ++ rest) ∧
    checked namespace seen [] h ∧ (rest = [] ∨ ∃ o, last seen = Some o ∧ cluster_owner o) ∧
    (truthy cn = true → Exists (reads_plural namespace "clusters") h)).
  enough (Hq : Q (Ok false) s' (rev t)).
  { destruct (Hq eq_refl) as (Hm & cn & seen & rest & -> & -> & (t' & Ht & Hu & Ho) & Hrest & Hc).
    rewrite app_nil_r in Ht. subst t'.
    assert (HE : ∀ P, Exists P (rev t) → Exists P t).
    { intros P. rewrite !Exists_exists. setoid_rewrite list_elem_of_In. by setoid_rewrite <- in_rev. }
    split; [done|]. split; [|split].
    - apply Forall_rev in Hu. by rewrite rev_involutive in Hu.
    - intros ? [= <-]. exists seen, rest. split; [done|]. split; [|done]. intros o Hin Hfo. by apply HE, Ho.
    - intros ? [= <-] Hl. by apply HE, Hc. }
  refine (history_finishes (λ _ _, True) _ _ _ _ _ Q _ Hf). clear Hf. unfold Q, is_paused.
  bind_lift; [|done]. split_if; [by apply msafe_ret|]. subst.
  bind_lift; [|done]. bind_lift; [|done].
  apply msafe_bind. eapply msafe_mono; [apply pause_of_owners_checked|].
  intros [[[]|[cn' cv']]|e] s1 h1; [done| |..|done].
  - intros (seen & o & rest & -> & Ho & Hc). apply msafe_ret. intros _. split; [done|].
    exists a, (seen ++ [o]), rest. split_and!; [done|by rewrite <- app_assoc|done| |].
    + right. exists o. by rewrite last_snoc.
    + intros _. destruct Hc as (t' & -> & _ & Hread). rewrite app_nil_r.
      eapply reads_cluster_owner; [exact Ho|]. apply Hread; [set_solver|]. destruct Ho as [v Hv]. by eexists.
  - intros [Hc Ht]. eapply msafe_mono; [apply pause_of_cluster_checked|].
    intros r s2 h2 Hr2 Hf. destruct (Hr2 Hf) as (t2 & -> & Hu2 & Hc2). split; [done|].
    exists a, a0, []. rewrite app_nil_r. split_and!; [done..| |by left|].
    + destruct Hc as (t1 & -> & Hu1 & H1). rewrite app_nil_r. exists (t2 ++ t1).
      split; [by rewrite app_nil_r|]. split; [by apply Forall_app|].
      intros o Ho Hfo. apply Exists_app. right. auto.
    + intros Hcn. apply Exists_app. left. auto.
Qed.

(** ** Status persistence *)

(** What is sent for [changes] to the status of the object [obj]: the changes
    themselves, but for their conditions, which are merged into those of [obj]. *)
Definition sent_for (obj : value) (changes changes' : dict) : Prop :=
  match dget changes "conditions" with
  | None => changes' = changes
  | Some conditions =>
      ∃ status persisted existing updates l,
        get_or obj "status" (VDict []) = Ok status ∧ get_or status "conditions" (VList []) = Ok persisted ∧
        iter persisted = Ok existing ∧ iter conditions = Ok updates ∧ merged existing updates VNone l ∧
        dget changes' "conditions" = Some (VList l) ∧
        ∀ key, key ≠ "conditions" → dget changes' key = dget changes key
  end.

Lemma merged_changes_sent_for obj changes : values (merged_changes obj changes) (sent_for obj changes).
Proof.
  unfold merged_changes, sent_for. destruct (dget changes "conditions") as [conditions|] eqn:E; [|by apply values_ret].
  intros s. bind_lift; [|done]. apply res_bind_ok in Hr as (status & Hs & Hr).
  apply res_bind_ok in Hr as (persisted & Hp & Hr). bind_lift; [|done].
  apply msafe_bind. eapply msafe_mono; [apply merge_conditions_merged|].
  intros [l|e] s' g Hl; [|done]. apply msafe_ret. intros d [= <-].
  exists status, persisted, a, a0, l. split_and!; auto using dget_dset_eq.
  intros key Hkey. by apply dget_dset_ne.
Qed.

(** The write [persist_machine_status] may send after the history [h]: the given
    changes, for the UID and at the resourceVersion of the object it read last. *)
Definition may_persist (namespace name : string) (uid : value) (changes : dict) (h : list event) (c : call)
    : Prop :=
  match c with
  | Api _ (GetObject _ _ _ _ _) | Now => True
  | Api _ op =>
      ∃ obj meta current_uid version changes',
        last_read namespace name h = Some obj ∧ item obj "metadata" = Ok meta ∧
        get meta "uid" = Ok current_uid ∧ py_eqb current_uid uid = true ∧
        item meta "resourceVersion" = Ok version ∧ sent_for obj changes changes' ∧
        op = persist_op namespace name uid version changes'
  | _ => False
  end.

(** The last event is the accepted write, of the changes for the object read last. *)
Definition persisted (namespace name : string) (uid : value) (changes : dict) (v : value) (h : list event)
    : Prop :=
  ∃ obj version changes' h', last_read namespace name h' = Some obj ∧ sent_for obj changes changes' ∧
    h = Ev (Api API_TIMEOUT (persist_op namespace name uid version changes')) (Ok v : res value) :: h'.

Lemma last_read_clock ns n t h :
  Forall (λ '(Ev c _), c = Now) t → last_read ns n (t ++ h) = last_read ns n h.
Proof. induction 1 as [|[c r] t Hc _ IH]; simpl; [done|]. by subst c. Qed.

(** Merging conditions reads the clock only. *)
Lemma merge_updates_clock r us g : footprint (λ c, c = Now) (merge_updates r us g).
Proof.
  revert r. induction us as [|u us IH]; intros r; simpl; [done|].
  apply footprint_bind; [|done]. unfold merge_update, now_iso. by footprint.
Qed.

Lemma merged_changes_clock cur ch : footprint (λ c, c = Now) (merged_changes cur ch).
Proof. unfold merged_changes, merge_conditions. footprint. apply merge_updates_clock. Qed.

Lemma persist_safe ns n uid ch s h :
  msafe (history (may_persist ns n uid ch)) (persist_machine_status ns n uid ch) s h
    (λ r _ h', ∀ v, r = Ok v → persisted ns n uid ch v h').
Proof.
  unfold persist_machine_status. destruct (negb (truthy uid)); [by apply msafe_raise|].
  apply msafe_bind, read_machine_safe; [done..|]. intros obj s1 h1 Ho.
  bind_lift; [|done]. rename a into meta. bind_lift; [|done]. rename a into cu.
  split_if; [by apply msafe_raise|]. apply negb_false_iff in Hb.
  apply msafe_bind. eapply msafe_mono.
  { apply msafe_with_values; [apply merged_changes_sent_for|].
    apply (history_calls _ (λ c, c = Now)) with (Q := λ r s' h', last_read ns n h' = Some obj).
    - apply merged_changes_clock.
    - by intros c ->.
    - intros r s' t Ht. by rewrite last_read_clock. }
  intros [ch'|e] s2 h2 [Hs Hl]; [|done]. specialize (Hs _ eq_refl).
  apply msafe_try_raise.
  { intros e p'. destruct e; try done. intros [= <-]. by eexists. }
  bind_lift; [|done]. rename a into version. apply msafe_request.
  - by exists obj, meta, cu, version, ch'.
  - intros [v|e] _; [|by case_match]. intros v' [= <-]. by exists obj, version, ch', h2.
Qed.


(** *** Witness: the fixture's machine is not paused *)

Definition fixture_pause : prog (res bool * patch) :=
  is_paused (machine_view fresh_store "spec") (machine_view fresh_store "metadata") "test" empty_patch.

Lemma not_paused_is_established_witness :
  Forall unpaused_read (run_trace fake_handler fixture_pause (fake_world fresh_store)) ∧
  run_trace fake_handler fixture_pause (fake_world fresh_store) ≠ [].
Proof.
  destruct (run_returns fake_handler fixture_pause (fake_world fresh_store) (Ok false)) as [s' Hf];
    [vm_compute; reflexivity|].
  destruct (not_paused_is_established _ _ _ _ _ _ Hf) as (_ & Hu & _). split; [exact Hu|].
  vm_compute. discriminate.
Defined.

Definition fixture_persist : prog (res value * patch) :=
  persist_machine_status "test" "machine-a" (VStr "machine-uid")
    [("conditions", VList [condition "Ready" "True" "Provisioned" "done"])] empty_patch.

