(* ===== verification/ReconcileLocks.v ===== *)
(** controllers/sshmachine.py, the table [_RECONCILE_LOCKS] of in-process locks:
    several invocations of the entry point on one event loop, as a step relation.
    Between two suspension points a task runs alone, so each step is the code from
    one [await] to the next.  [asyncio.Lock] is the standard library's: a flag and a
    queue of futures, the first of which [release] wakes. *)

From stdpp Require Import gmap strings.
From S2P Require Import Prelude Py Config Asyncio Effects Locks Bootstrap Machine FakeApi.

(** ** [asyncio.Lock] *)

(** The waiters in the order of their arrival, each future with the task awaiting it. *)
Record lock := Lock { locked : bool; waiters : list (nat * future) }.

Definition new_lock : lock := Lock false [].

(** [acquire] returns at once. *)
Definition acquires_at_once (lk : lock) : bool :=
  negb (locked lk) && forallb (λ w, is_cancelled (snd w)) (waiters lk).

Definition take (lk : lock) : lock := Lock true (waiters lk).
Definition enqueue (lk : lock) (i : nat) : lock := Lock (locked lk) (waiters lk ++ [(i, Pending)]).
Definition dequeue (lk : lock) (i : nat) : lock :=
  Lock (locked lk) (List.filter (λ w, negb (fst w =? i)%nat) (waiters lk)).

(** [_wake_up_first]: nothing happens to a first future that is done. *)
Definition wake_up_first (lk : lock) : lock :=
  match waiters lk with
  | (i, Pending) :: ws => Lock (locked lk) ((i, Woken) :: ws)
  | _ => lk
  end.

Definition release (lk : lock) : res lock :=
  if locked lk then Ok (wake_up_first (Lock false (waiters lk)))
  else Err (RuntimeError "Lock is not acquired.").

(** The [except CancelledError] clause of [acquire]. *)
Definition abandon (lk : lock) (i : nat) : lock :=
  let lk := dequeue lk i in if locked lk then lk else wake_up_first lk.

Definition cancel_waiter (lk : lock) (i : nat) : lock :=
  Lock (locked lk) (map (λ w, if (fst w =? i)%nat then (fst w, cancel_future (snd w)) else w) (waiters lk)).

(** ** The process *)

(** The arguments of one invocation of [sshmachine_reconcile]. *)
Record invocation := Invocation {
  i_spec : value; i_status : value; i_name : string; i_namespace : string; i_meta : value;
  i_delete : bool; i_patch : patch
}.

Abbreviation loc := nat.

(** A started task: waiting in [lock.acquire] ([true] once it was cancelled after
    its future was woken), inside [async with lock], or returned. *)
Inductive task :=
| Waiting (key : string) (l : loc) (must_cancel : bool) (h : invocation)
| Inside (key : string) (l : loc) (rest : prog (res unit * patch))
| Returned.

Record process := Process {
  table : gmap string loc;
  heap : gmap loc lock;
  tasks : gmap nat task
}.

Definition initial : process := Process ∅ ∅ ∅.

Definition with_lock (st : process) (l : loc) (lk : lock) : process :=
  Process (table st) (<[l := lk]> (heap st)) (tasks st).
Definition with_task (st : process) (i : nat) (t : task) : process :=
  Process (table st) (heap st) (<[i := t]> (tasks st)).

Definition get_reconcile_lock (st : process) (namespace name : string) : loc * process :=
  let key := reconcile_lock_key namespace name in
  match table st !! key with
  | Some l => (l, st)
  | None =>
      let l := fresh (dom (heap st)) in
      (l, Process (<[key := l]> (table st)) (<[l := new_lock]> (heap st)) (tasks st))
  end.

(** The mapping is dropped only when no holder and no waiter remains. *)
Definition cleanup_reconcile_lock (st : process) (key : string) (l : loc) : bool * process :=
  match table st !! key with
  | None => (false, st)
  | Some current =>
      if negb (current =? l)%nat then (false, st) else
      match heap st !! current with
      | Some lk =>
          if locked lk then (false, st)
          else match waiters lk with
               | _ :: _ => (false, st)
               | [] => (true, Process (delete key (table st)) (heap st) (tasks st))
               end
      | None => (false, st)
      end
  end.

Section steps.
Context `{Config} `{Yaml}.

Definition body (h : invocation) : prog (res unit * patch) :=
  reconcile_serialized (i_spec h) (i_status h) (i_name h) (i_namespace h) (i_meta h) (i_delete h)
    (i_patch h).

Definition invocation_key (h : invocation) : string := reconcile_lock_key (i_namespace h) (i_name h).

(** A new task up to its first suspension: [acquire] returned, or it waits. *)
Definition start (st : process) (i : nat) (h : invocation) : option process :=
  let '(l, st) := get_reconcile_lock st (i_namespace h) (i_name h) in
  lk ← heap st !! l;
  Some (if acquires_at_once lk
        then with_task (with_lock st l (take lk)) i (Inside (invocation_key h) l (body h))
        else with_task (with_lock st l (enqueue lk i)) i (Waiting (invocation_key h) l false h)).

(** [raise]ing out of [acquire] leaves through the outer [finally]. *)
Definition leave (st : process) (i : nat) (key : string) (l : loc) (lk : lock) : process :=
  with_task (snd (cleanup_reconcile_lock (with_lock st l lk) key l)) i Returned.

Inductive step (st : process) : process → Prop :=
| step_start i h st' :
    tasks st !! i = None → start st i h = Some st' → step st st'
| step_resume i key l h lk :
    tasks st !! i = Some (Waiting key l false h) →
    heap st !! l = Some lk → (i, Woken) ∈ waiters lk →
    step st (with_task (with_lock st l (take (dequeue lk i))) i (Inside key l (body h)))
| step_cancel i key l mc h lk f :
    tasks st !! i = Some (Waiting key l mc h) →
    heap st !! l = Some lk → (i, f) ∈ waiters lk →
    step st (with_task (with_lock st l (cancel_waiter lk i)) i
               (Waiting key l (if f is Woken then true else mc) h))
| step_abandon i key l mc h lk f :
    tasks st !! i = Some (Waiting key l mc h) →
    heap st !! l = Some lk → (i, f) ∈ waiters lk →
    f = FutureCancelled ∨ f = Woken ∧ mc = true →
    step st (leave st i key l (abandon lk i))
| step_call i key l c k r :
    tasks st !! i = Some (Inside key l (Call c k)) →
    step st (with_task st i (Inside key l (k r)))
| step_finish i key l r lk lk' :
    tasks st !! i = Some (Inside key l (Ret r)) →
    heap st !! l = Some lk → release lk = Ok lk' →
    step st (leave st i key l lk').

Definition reachable (st : process) : Prop := rtc step initial st.
End steps.

(** ** The invariant *)

(** Where a task stands: its key and lock. *)
Definition stands (t : option task) (key : string) (l : loc) : Prop :=
  match t with
  | Some (Waiting k l' _ _) | Some (Inside k l' _) => k = key ∧ l' = l
  | _ => False
  end.

Definition inside_at (l : loc) (t : option task) : Prop :=
  if t is Some (Inside _ l' _) then l' = l else False.
Definition waiting_at (l : loc) (t : option task) : Prop :=
  if t is Some (Waiting _ l' _ _) then l' = l else False.

(** Only the first waiter may be woken, and only while the lock is free; a free lock
    with waiters has a first waiter that will run. *)
Definition queue_ok (lk : lock) : Prop :=
  match waiters lk with
  | [] => True
  | (_, f) :: ws => f ≠ (if locked lk then Woken else Pending) ∧ Forall (λ w, snd w ≠ Woken) ws
  end.

Record lock_ok (ts : gmap nat task) (l : loc) (lk : lock) : Prop := {
  lock_nodup : NoDup (map fst (waiters lk));
  lock_waiters : ∀ i, i ∈ map fst (waiters lk) ↔ waiting_at l (ts !! i);
  lock_locked : locked lk = true ↔ ∃ i, inside_at l (ts !! i);
  lock_single : ∀ i j, inside_at l (ts !! i) → inside_at l (ts !! j) → i = j;
  lock_queue : queue_ok lk
}.

Record core (st : process) : Prop := {
  core_stands : ∀ i key l, stands (tasks st !! i) key l → table st !! key = Some l;
  core_table : ∀ key l, table st !! key = Some l → is_Some (heap st !! l);
  core_inj : ∀ k1 k2 l, table st !! k1 = Some l → table st !! k2 = Some l → k1 = k2;
  core_lock : ∀ l lk, heap st !! l = Some lk → lock_ok (tasks st) l lk
}.

(** No mapping outlives the tasks that use it. *)
Definition live (st : process) : Prop :=
  ∀ key l, table st !! key = Some l → ∃ i, stands (tasks st !! i) key l.

Lemma inside_stands l t : inside_at l t → ∃ key, stands t key l.
Proof. destruct t as [[]|]; simpl; [done|naive_solver|done..]. Qed.

Lemma waiting_stands l t : waiting_at l t → ∃ key, stands t key l.
Proof. destruct t as [[]|]; simpl; [naive_solver|done..]. Qed.

Lemma stands_at t key l : stands t key l → inside_at l t ∨ waiting_at l t.
Proof. destruct t as [[]|]; simpl; naive_solver. Qed.

(** The tasks at other locks do not notice a step at [l]. *)
Lemma lock_ok_frame ts i t l l' lk :
  lock_ok ts l' lk → l ≠ l' →
  (∀ k l', stands (ts !! i) k l' → l' = l) → (∀ k l', stands (Some t) k l' → l' = l) →
  lock_ok (<[i := t]> ts) l' lk.
Proof.
  intros Hok Hl Hi Ht.
  assert (Hin : ∀ j, inside_at l' (<[i := t]> ts !! j) ↔ inside_at l' (ts !! j)).
  { intros j. destruct (decide (i = j)) as [<-|]; [|by rewrite lookup_insert_ne].
    rewrite lookup_insert_eq. split; intros H; exfalso;
      apply inside_stands in H as [k H]; [apply Ht in H|apply Hi in H]; congruence. }
  assert (Hw : ∀ j, waiting_at l' (<[i := t]> ts !! j) ↔ waiting_at l' (ts !! j)).
  { intros j. destruct (decide (i = j)) as [<-|]; [|by rewrite lookup_insert_ne].
    rewrite lookup_insert_eq. split; intros H; exfalso;
      apply waiting_stands in H as [k H]; [apply Ht in H|apply Hi in H]; congruence. }
  destruct Hok as [Hn Hws Hl' Hs Hq]. split; [done|..].
  - intros j. by rewrite Hw.
  - rewrite Hl'. by setoid_rewrite Hin.
  - intros j1 j2. rewrite !Hin. apply Hs.
  - done.
Qed.

(** The step of task [i] at the lock [l] of its key. *)
Lemma core_update st i t key l lk :
  core st → table st !! key = Some l →
  (∀ k l', stands (tasks st !! i) k l' → l' = l) →
  (∀ k l', stands (Some t) k l' → k = key ∧ l' = l) →
  lock_ok (<[i := t]> (tasks st)) l lk →
  core (with_task (with_lock st l lk) i t).
Proof.
  intros [Hs Ht Hj Hl] Hk Hi Htt Hok. split; simpl.
  - intros j k l'. destruct (decide (i = j)) as [<-|].
    + rewrite lookup_insert_eq. intros [-> ->]%Htt. done.
    + rewrite lookup_insert_ne by done. apply Hs.
  - intros k l' Hkl. destruct (decide (l = l')) as [<-|].
    + rewrite lookup_insert_eq. by eexists.
    + rewrite lookup_insert_ne by done. by eapply Ht.
  - done.
  - intros l' lk'. destruct (decide (l = l')) as [<-|].
    + rewrite lookup_insert_eq. by intros [= <-].
    + rewrite lookup_insert_ne by done. intros Hlk. eapply lock_ok_frame; eauto.
      intros k l1 H1. by apply Htt in H1 as [_ ->].
Qed.

Lemma live_update st i t key l lk :
  live st → (∀ k l', stands (tasks st !! i) k l' → k = key) → stands (Some t) key l →
  table st !! key = Some l → live (with_task (with_lock st l lk) i t).
Proof.
  intros Hv Hi Ht Hk k l' Hkl. simpl in *. destruct (decide (k = key)) as [->|Hne].
  - exists i. rewrite lookup_insert_eq. by simplify_eq.
  - destruct (Hv _ _ Hkl) as [j Hj]. exists j. rewrite lookup_insert_ne; [done|].
    intros <-. by apply Hi in Hj.
Qed.

(** *** Queues *)

Abbreviation unwoken := (Forall (λ w : nat * future, snd w ≠ Woken)).

Lemma dequeue_elem lk i j :
  j ∈ map fst (waiters (dequeue lk i)) ↔ j ≠ i ∧ j ∈ map fst (waiters lk).
Proof.
  simpl. rewrite !list_elem_of_fmap. setoid_rewrite filter_In_elem.
  setoid_rewrite negb_true_iff. setoid_rewrite Nat.eqb_neq. naive_solver.
Qed.

Lemma filter_nodup {B} (P : nat * B → bool) l : NoDup (map fst l) → NoDup (map fst (List.filter P l)).
Proof.
  induction l as [|w l IH]; simpl; [done|]. rewrite NoDup_cons. intros [Hw Hl].
  destruct (P w); [|by apply IH]. simpl. apply NoDup_cons. split; [|by apply IH].
  rewrite list_elem_of_fmap in *. intros (w' & He & [Hw' _]%filter_In_elem). eauto.
Qed.

Lemma unwoken_dequeue lk i : unwoken (waiters lk) → unwoken (waiters (dequeue lk i)).
Proof. simpl. rewrite !Forall_forall. intros Hf w [Hw _]%filter_In_elem. auto. Qed.

Lemma wake_fst lk : map fst (waiters (wake_up_first lk)) = map fst (waiters lk).
Proof. unfold wake_up_first. destruct (waiters lk) as [|[j []] ws] eqn:E; by rewrite ?E. Qed.

Lemma wake_locked lk : locked (wake_up_first lk) = locked lk.
Proof. unfold wake_up_first. by destruct (waiters lk) as [|[j []] ws]. Qed.

Lemma cancel_fst lk i : map fst (waiters (cancel_waiter lk i)) = map fst (waiters lk).
Proof. simpl. rewrite map_map. apply map_ext. intros w. by destruct (fst w =? i)%nat. Qed.

Lemma queue_woken lk i :
  queue_ok lk → (i, Woken) ∈ waiters lk →
  locked lk = false ∧ ∃ ws, waiters lk = (i, Woken) :: ws ∧ unwoken ws.
Proof.
  unfold queue_ok. destruct (waiters lk) as [|[j f] ws]; [by intros _ ?%not_elem_of_nil|].
  intros [Hf Hws] [[= <- <-]|Hi]%elem_of_cons; [destruct (locked lk); [done|eauto]|].
  rewrite Forall_forall in Hws. by apply Hws in Hi.
Qed.

Lemma queue_locked lk : queue_ok lk → locked lk = true → unwoken (waiters lk).
Proof.
  unfold queue_ok. destruct (waiters lk) as [|[j f] ws]; [done|]. intros [Hf Hws] Hl.
  rewrite Hl in Hf. by constructor.
Qed.

Lemma queue_unwoken lk : locked lk = true → unwoken (waiters lk) → queue_ok lk.
Proof.
  unfold queue_ok. destruct (waiters lk) as [|[j f] ws]; [done|]. intros -> [? ?]%Forall_cons. done.
Qed.

Lemma queue_wake lk : unwoken (waiters lk) → locked lk = false → queue_ok (wake_up_first lk).
Proof.
  unfold wake_up_first, queue_ok. destruct (waiters lk) as [|[j f] ws] eqn:E; [by rewrite E|].
  intros [Hf Hws]%Forall_cons Hl. simpl in Hf.
  destruct f; simpl; rewrite ?E, Hl; done.
Qed.

Lemma queue_enqueue lk i : queue_ok lk → acquires_at_once lk = false → queue_ok (enqueue lk i).
Proof.
  unfold queue_ok, acquires_at_once. simpl. destruct (waiters lk) as [|[j f] ws]; simpl.
  - intros _. destruct (locked lk); [|done]. intros _. by split.
  - intros [Hf Hws] _. split; [done|]. apply Forall_app. split; [done|]. by constructor.
Qed.

Lemma queue_take lk : acquires_at_once lk = true → queue_ok (take lk).
Proof.
  unfold acquires_at_once. intros [_ Hf]%andb_true_iff. apply queue_unwoken; [done|].
  apply forallb_Forall in Hf. eapply Forall_impl; [exact Hf|]. by intros [? []].
Qed.

Lemma queue_cancel lk i : queue_ok lk → queue_ok (cancel_waiter lk i).
Proof.
  unfold queue_ok. simpl. destruct (waiters lk) as [|[j f] ws]; simpl; [done|]. intros [Hf Hws].
  assert (Hws' : unwoken (map (λ w, if (fst w =? i)%nat then (fst w, cancel_future (snd w)) else w) ws)).
  { apply Forall_fmap. eapply Forall_impl; [exact Hws|]. intros [j' f']. simpl.
    by destruct (j' =? i)%nat, f'. }
  destruct (j =? i)%nat; simpl; [|done]. split; [|done]. destruct f, (locked lk); done.
Qed.

Lemma queue_abandon lk i : queue_ok lk → queue_ok (abandon lk i).
Proof.
  intros Hq. unfold abandon. change (locked (dequeue lk i)) with (locked lk).
  destruct (locked lk) eqn:El; [by apply queue_unwoken, unwoken_dequeue, queue_locked|].
  unfold queue_ok in Hq. destruct (waiters lk) as [|[j f] ws] eqn:Ew.
  - unfold wake_up_first, queue_ok. simpl. by rewrite Ew, El; simpl; rewrite Ew.
  - rewrite El in Hq. destruct Hq as [Hf Hws].
    assert (Hd : unwoken (List.filter (λ w, negb (fst w =? i)%nat) ws)).
    { apply (unwoken_dequeue (Lock (locked lk) ws)). done. }
    destruct (Nat.eqb_spec j i) as [->|Hj].
    + apply queue_wake; [|done]. simpl. rewrite Ew. simpl. by rewrite Nat.eqb_refl.
    + apply Nat.eqb_neq in Hj. unfold wake_up_first, queue_ok. simpl. rewrite Ew. simpl.
      rewrite Hj. simpl. destruct f; [done|..]; simpl; rewrite Ew; simpl; rewrite Hj, El; done.
Qed.

(** *** Preservation *)

Lemma lock_ok_set ts i t l lk lk' :
  lock_ok ts l lk → NoDup (map fst (waiters lk')) →
  (∀ j, j ≠ i → j ∈ map fst (waiters lk') ↔ j ∈ map fst (waiters lk)) →
  (i ∈ map fst (waiters lk') ↔ waiting_at l (Some t)) →
  (locked lk' = true ↔ inside_at l (Some t) ∨ ∃ j, j ≠ i ∧ inside_at l (ts !! j)) →
  (inside_at l (Some t) → ∀ j, j ≠ i → ¬ inside_at l (ts !! j)) →
  queue_ok lk' → lock_ok (<[i := t]> ts) l lk'.
Proof.
  intros [Hn Hw Hl Hs Hq] Hn' Hw' Hi Hl' Hsi Hq'.
  assert (He : ∀ j, inside_at l (<[i := t]> ts !! j) ↔
                    j = i ∧ inside_at l (Some t) ∨ j ≠ i ∧ inside_at l (ts !! j)).
  { intros j. destruct (decide (i = j)) as [<-|]; [rewrite lookup_insert_eq|rewrite lookup_insert_ne by done];
      naive_solver. }
  split; [done|..|done].
  - intros j. destruct (decide (i = j)) as [<-|]; [by rewrite lookup_insert_eq|].
    rewrite lookup_insert_ne by done. by rewrite Hw', Hw.
  - rewrite Hl'. setoid_rewrite He. naive_solver.
  - intros j1 j2. rewrite !He. intros [[-> H1]|[N1 H1]] [[-> H2]|[N2 H2]]; [done|..|by apply Hs].
    + by destruct (Hsi H1 j2).
    + by destruct (Hsi H2 j1).
Qed.

(** Nobody is inside a free lock. *)
Lemma free_outside ts l lk j : lock_ok ts l lk → locked lk = false → ¬ inside_at l (ts !! j).
Proof. intros [_ _ Hl _ _] Hf Hj. rewrite (proj2 Hl) in Hf; [done|eauto]. Qed.

Lemma lock_ok_take ts i l lk key p :
  lock_ok ts l lk → ts !! i = None → acquires_at_once lk = true →
  lock_ok (<[i := Inside key l p]> ts) l (take lk).
Proof.
  intros Hok Hi Hf. pose proof Hf as [Hl _]%andb_true_iff. apply negb_true_iff in Hl.
  pose proof (λ j, free_outside ts l lk j Hok Hl) as Hfree.
  eapply lock_ok_set; [exact Hok|apply Hok|done|..].
  - simpl. rewrite (lock_waiters _ _ _ Hok), Hi. done.
  - simpl. naive_solver.
  - intros _ j _. apply Hfree.
  - by apply queue_take.
Qed.

Lemma lock_ok_enqueue ts i l lk key h :
  lock_ok ts l lk → ts !! i = None → acquires_at_once lk = false →
  lock_ok (<[i := Waiting key l false h]> ts) l (enqueue lk i).
Proof.
  intros Hok Hi Hf.
  assert (i ∉ map fst (waiters lk)) by (rewrite (lock_waiters _ _ _ Hok), Hi; simpl; tauto).
  eapply lock_ok_set; [exact Hok|..]; simpl; rewrite ?map_app; simpl.
  - apply NoDup_app. split_and!; [apply Hok| |apply NoDup_singleton]. set_solver.
  - set_solver.
  - set_solver.
  - rewrite (lock_locked _ _ _ Hok). split; [|naive_solver].
    intros [j Hj]. right. exists j. split; [|done]. intros ->. rewrite Hi in Hj. exact Hj.
  - done.
  - apply queue_enqueue; [apply Hok|done].
Qed.

Lemma lock_ok_resume ts i l lk key p k mc h :
  lock_ok ts l lk → ts !! i = Some (Waiting k l mc h) → (i, Woken) ∈ waiters lk →
  lock_ok (<[i := Inside key l p]> ts) l (take (dequeue lk i)).
Proof.
  intros Hok Hi Hw. destruct (queue_woken _ _ (lock_queue _ _ _ Hok) Hw) as (Hl & ws & Ews & Hws).
  eapply lock_ok_set; [exact Hok|apply filter_nodup, Hok|..].
  - intros j Hj. rewrite (dequeue_elem lk i j). naive_solver.
  - rewrite (dequeue_elem lk i i). naive_solver.
  - simpl. naive_solver.
  - intros _ j _. by eapply free_outside.
  - apply queue_unwoken; [done|]. simpl. rewrite Ews. simpl. rewrite Nat.eqb_refl. simpl.
    apply (unwoken_dequeue (Lock false ws)). done.
Qed.

Lemma lock_ok_cancel ts i l lk key mc h mc' :
  lock_ok ts l lk → ts !! i = Some (Waiting key l mc h) →
  lock_ok (<[i := Waiting key l mc' h]> ts) l (cancel_waiter lk i).
Proof.
  intros Hok Hi. eapply lock_ok_set; [exact Hok|rewrite cancel_fst; apply Hok|..].
  - intros j _. by rewrite cancel_fst.
  - rewrite cancel_fst, (lock_waiters _ _ _ Hok), Hi. done.
  - simpl. rewrite (lock_locked _ _ _ Hok). split; [|naive_solver].
    intros [j Hj]. right. exists j. split; [|done]. intros ->. rewrite Hi in Hj. exact Hj.
  - done.
  - by apply queue_cancel, Hok.
Qed.

Lemma lock_ok_abandon ts i l lk key mc h :
  lock_ok ts l lk → ts !! i = Some (Waiting key l mc h) →
  lock_ok (<[i := Returned]> ts) l (abandon lk i).
Proof.
  intros Hok Hi.
  assert (Hf : map fst (waiters (abandon lk i)) = map fst (waiters (dequeue lk i))).
  { unfold abandon. destruct (locked (dequeue lk i)); [done|apply wake_fst]. }
  assert (Hl : locked (abandon lk i) = locked lk).
  { unfold abandon. destruct (locked (dequeue lk i)); [done|by rewrite wake_locked]. }
  eapply lock_ok_set; [exact Hok|rewrite Hf; apply filter_nodup, Hok|..].
  - intros j Hj. rewrite Hf, dequeue_elem. naive_solver.
  - rewrite Hf, dequeue_elem. naive_solver.
  - rewrite Hl, (lock_locked _ _ _ Hok). split; [|naive_solver].
    intros [j Hj]. right. exists j. split; [|done]. intros ->. rewrite Hi in Hj. exact Hj.
  - done.
  - by apply queue_abandon, Hok.
Qed.

Lemma lock_ok_finish ts i l lk lk' key p :
  lock_ok ts l lk → ts !! i = Some (Inside key l p) → release lk = Ok lk' →
  lock_ok (<[i := Returned]> ts) l lk'.
Proof.
  intros Hok Hi. unfold release. destruct (locked lk) eqn:El; [|done]. intros [= <-].
  eapply lock_ok_set; [exact Hok|rewrite wake_fst; apply Hok|..].
  - intros j Hj. by rewrite wake_fst.
  - rewrite wake_fst. simpl. rewrite (lock_waiters _ _ _ Hok), Hi. done.
  - rewrite wake_locked. simpl. split; [done|]. intros [[]|(j & Hj & Hin)]. destruct Hj.
    apply (lock_single _ _ _ Hok); [done|by rewrite Hi].
  - done.
  - apply queue_wake; [|done]. apply (queue_locked lk); [apply Hok|done].
Qed.

(** Leaving the lock: the task is gone and the mapping is dropped if unused. *)
Lemma leave_inv st i key l lk :
  core st → live st → stands (tasks st !! i) key l → 
  lock_ok (<[i := Returned]> (tasks st)) l lk →
  core (leave st i key l lk) ∧ live (leave st i key l lk).
Proof.
  intros Hc Hv Hi Hok.
  assert (Hk : table st !! key = Some l) by eauto using core_stands.
  assert (Hil : ∀ k l', stands (tasks st !! i) k l' → k = key ∧ l' = l).
  { destruct (tasks st !! i) as [[]|]; simpl in *; naive_solver. }
  assert (Hc' : core (with_task (with_lock st l lk) i Returned)).
  { eapply core_update; [done|exact Hk| |done|done]. intros k l' H. by apply Hil in H as [_ ->]. }
  assert (Hv' : ∀ k l', table st !! k = Some l' → k ≠ key →
    ∃ j, stands (<[i := Returned]> (tasks st) !! j) k l').
  { intros k l' Hkl Hne. destruct (Hv _ _ Hkl) as [j Hj]. exists j.
    rewrite lookup_insert_ne; [done|]. intros <-. by apply Hil in Hj as [-> _]. }
  assert (Hkey : ∀ j, inside_at l (<[i := Returned]> (tasks st) !! j) ∨
                      waiting_at l (<[i := Returned]> (tasks st) !! j) →
                      stands (<[i := Returned]> (tasks st) !! j) key l).
  { intros j Hj. assert (∃ k, stands (<[i := Returned]> (tasks st) !! j) k l) as [k Hst].
    { destruct Hj as [Hj|Hj]; [by apply inside_stands|by apply waiting_stands]. }
    assert (k = key) as -> by (eapply (core_inj _ Hc'); [by eapply (core_stands _ Hc')|done]). done. }
  unfold leave, cleanup_reconcile_lock. cbn [with_lock table heap].
  rewrite Hk, Nat.eqb_refl, lookup_insert_eq. cbn [negb].
  destruct (locked lk) eqn:El; [|destruct (waiters lk) as [|[j f] ws] eqn:Ew]; simpl.
  - split; [exact Hc'|]. intros k l' Hkl. simpl in *.
    destruct (decide (k = key)) as [->|]; [|eauto].
    apply (lock_locked _ _ _ Hok) in El as [j Hj]. exists j. simplify_eq. auto.
  - assert (Hnone : ∀ j, ¬ stands (<[i := Returned]> (tasks st) !! j) key l).
    { intros j [Hj|Hj]%stands_at.
      - rewrite (proj2 (lock_locked _ _ _ Hok)) in El; [done|eauto].
      - apply (lock_waiters _ _ _ Hok) in Hj. rewrite Ew in Hj. by apply not_elem_of_nil in Hj. }
    split.
    + destruct Hc' as [Hs Ht Hj Hl]. split; simpl in *; [| | |exact Hl].
      * intros j k l' Hst. pose proof (Hs _ _ _ Hst) as Hkl. rewrite lookup_delete_ne; [done|].
        intros ->. assert (l' = l) as -> by congruence. by destruct (Hnone j).
      * intros k l' [_ Hkl]%lookup_delete_Some. by eapply Ht.
      * intros k1 k2 l' [_ H1]%lookup_delete_Some [_ H2]%lookup_delete_Some. by eapply Hj.
    + intros k l' Hkl. cbn in Hkl. apply lookup_delete_Some in Hkl as [Hne Hkl]. eauto.
  - split; [exact Hc'|]. intros k l' Hkl. simpl in *.
    destruct (decide (k = key)) as [->|]; [|eauto].
    exists j. simplify_eq. apply Hkey. right. apply (lock_waiters _ _ _ Hok). rewrite Ew. left.
Qed.

Lemma leave_tasks st i key l lk : tasks (leave st i key l lk) = <[i := Returned]> (tasks st).
Proof. unfold leave, cleanup_reconcile_lock. by repeat case_match; simplify_eq. Qed.

Lemma update_inv st i t key l lk :
  core st → live st → table st !! key = Some l →
  (∀ k l', stands (tasks st !! i) k l' → k = key ∧ l' = l) → stands (Some t) key l →
  lock_ok (<[i := t]> (tasks st)) l lk →
  core (with_task (with_lock st l lk) i t) ∧ live (with_task (with_lock st l lk) i t).
Proof.
  intros Hc Hv Hk Hi Ht Hok.
  assert (Ht' : ∀ k l', stands (Some t) k l' → k = key ∧ l' = l).
  { destruct t; simpl in *; naive_solver. }
  split; [eapply core_update|eapply live_update]; eauto.
  - intros k l' H. by apply Hi in H as [_ ->].
  - intros k l' H. by apply Hi in H as [-> _].
Qed.

(** [get_reconcile_lock] only ever adds an empty lock. *)
Lemma get_lock_core st ns n l st' :
  core st → get_reconcile_lock st ns n = (l, st') →
  core st' ∧ table st' !! reconcile_lock_key ns n = Some l ∧ tasks st' = tasks st ∧
  (∀ k l', k ≠ reconcile_lock_key ns n → table st' !! k = Some l' → table st !! k = Some l').
Proof.
  intros Hc. unfold get_reconcile_lock.
  destruct (table st !! reconcile_lock_key ns n) as [l0|] eqn:Ek; intros [= <- <-]; [done|].
  simpl. rewrite lookup_insert_eq. split_and!; [|done..|].
  2:{ intros k l' Hne. by rewrite lookup_insert_ne. }
  pose proof (is_fresh (dom (heap st))) as Hf. set (l := fresh (dom (heap st))) in *.
  assert (Hno : ∀ k, table st !! k ≠ Some l).
  { intros k Hkl. apply (core_table _ Hc) in Hkl. by apply elem_of_dom in Hkl. }
  assert (Hst : ∀ j k, ¬ stands (tasks st !! j) k l).
  { intros j k Hj. by apply (core_stands _ Hc), Hno in Hj. }
  destruct Hc as [Hs Ht Hj Hl]. split; simpl.
  - intros j k l' Hst'. destruct (decide (k = reconcile_lock_key ns n)) as [->|].
    + apply Hs in Hst'. congruence.
    + rewrite lookup_insert_ne by done. eauto.
  - intros k l' [[<- <-]|[_ Hkl]]%lookup_insert_Some; [by rewrite lookup_insert_eq|].
    rewrite lookup_insert_ne; [by eapply Ht|]. intros <-. by apply Hno in Hkl.
  - intros k1 k2 l' [[E1 El1]|[N1 H1]]%lookup_insert_Some [[E2 El2]|[N2 H2]]%lookup_insert_Some.
    + congruence.
    + rewrite <- El1 in H2. by apply Hno in H2.
    + rewrite <- El2 in H1. by apply Hno in H1.
    + by eapply Hj.
  - intros l' lk [[<- <-]|[_ Hlk]]%lookup_insert_Some; [|by apply Hl].
    split; simpl; [constructor|..|done].
    + intros j. split; [by intros ?%not_elem_of_nil|]. intros [k Hk]%waiting_stands. by destruct (Hst j k).
    + split; [done|]. intros [j [k Hk]%inside_stands]. by destruct (Hst j k).
    + intros j j2 [k Hk]%inside_stands. by destruct (Hst j k).
Qed.

Section invariant.
Context `{Config} `{Yaml}.

Lemma start_inv st i h st' :
  core st → live st → tasks st !! i = None → start st i h = Some st' → core st' ∧ live st'.
Proof.
  intros Hc Hv Hi. unfold start.
  destruct (get_reconcile_lock st (i_namespace h) (i_name h)) as [l st1] eqn:Eg.
  destruct (get_lock_core _ _ _ _ _ Hc Eg) as (Hc1 & Hk & Hts & Hold).
  destruct (heap st1 !! l) as [lk|] eqn:El; [|done]. simpl. intros [= <-].
  pose proof (core_lock _ Hc1 _ _ El) as Hok.
  assert (Hi1 : tasks st1 !! i = None) by (by rewrite Hts).
  assert (Hno : ∀ k l', stands (tasks st1 !! i) k l' → l' = l) by (by rewrite Hi1).
  assert (Hlive : ∀ t lk', stands (Some t) (invocation_key h) l → live (with_task (with_lock st1 l lk') i t)).
  { intros t lk' Ht k l' Hkl. simpl in *. destruct (decide (k = invocation_key h)) as [->|Hne].
    - exists i. rewrite lookup_insert_eq. unfold invocation_key in *. by simplify_eq.
    - apply Hold in Hkl; [|done]. destruct (Hv _ _ Hkl) as [j Hj]. exists j.
      rewrite lookup_insert_ne; [by rewrite Hts|]. intros <-. by rewrite Hi in Hj. }
  destruct (acquires_at_once lk) eqn:Ea; (split; [|by apply Hlive]);
    (apply (core_update _ _ _ (invocation_key h)); [exact Hc1|exact Hk|exact Hno|by intros k l' [-> ->]|]).
  - by apply lock_ok_take.
  - by apply lock_ok_enqueue.
Qed.

Lemma step_inv st st' : core st → live st → step st st' → core st' ∧ live st'.
Proof.
  intros Hc Hv Hstep.
  destruct Hstep as [i h st' Hi Hs|i key l h lk Hi Hl Hw|i key l mc h lk f Hi Hl Hw
    |i key l mc h lk f Hi Hl Hw Hf|i key l c k r Hi|i key l r lk lk' Hi Hl Hr].
  1: by eapply start_inv.
  all: assert (Hk : table st !! key = Some l) by (eapply (core_stands _ Hc i); by rewrite Hi).
  all: assert (Hst : ∀ k l', stands (tasks st !! i) k l' → k = key ∧ l' = l)
         by (rewrite Hi; by intros ? ? [-> ->]).
  - apply update_inv with key; [done..|]. eapply lock_ok_resume; [by apply Hc|done..].
  - apply update_inv with key; [done..|]. eapply lock_ok_cancel; [by apply Hc|done].
  - apply leave_inv; [done|done|by rewrite Hi|]. eapply lock_ok_abandon; [by apply Hc|done].
  - destruct (core_table _ Hc _ _ Hk) as [lk Hl].
    pose proof (core_lock _ Hc _ _ Hl) as Hok.
    assert (with_task st i (Inside key l (k r)) =
            with_task (with_lock st l lk) i (Inside key l (k r))) as ->.
    { unfold with_task, with_lock. f_equal. symmetry. by apply insert_id. }
    apply update_inv with key; [done..|].
    assert (Hins : inside_at l (tasks st !! i)) by (by rewrite Hi).
    eapply lock_ok_set; [exact Hok|apply Hok|done|..].
    + rewrite (lock_waiters _ _ _ Hok), Hi. done.
    + rewrite (lock_locked _ _ _ Hok). split; [by left|eauto].
    + intros _ j Hj Hj'. by apply Hj, (lock_single _ _ _ Hok).
    + apply Hok.
  - apply leave_inv; [done|done|by rewrite Hi|]. eapply lock_ok_finish; [by apply Hc|done..].
Qed.

Lemma reachable_inv st : reachable st → core st ∧ live st.
Proof.
  assert (Hinit : core initial ∧ live initial).
  { split; [split|]; simpl.
    - intros i key l. rewrite lookup_empty. by intros [].
    - intros key l. by rewrite lookup_empty.
    - intros k1 k2 l. by rewrite lookup_empty.
    - intros l lk. by rewrite lookup_empty.
    - intros key l. simpl. by rewrite lookup_empty. }
  unfold reachable. revert Hinit. generalize initial. intros st0 Hinit Hr.
  induction Hr as [st|st1 st2 st3 Hs Hr IH]; [done|].
  destruct Hinit. apply IH. by eapply step_inv.
Qed.

(** A task inside, and what it is doing there. *)
Definition running (st : process) (i : nat) (key : string) (rest : prog (res unit * patch)) : Prop :=
  ∃ l, tasks st !! i = Some (Inside key l rest).

Definition waiting (st : process) (i : nat) (key : string) : Prop :=
  ∃ l mc h, tasks st !! i = Some (Waiting key l mc h).

Definition some_reply (c : call) : reply c :=
  match c with
  | Api _ _ | ImportPrivateKey _ | ImportKnownHosts _ | SshConnect _ _ _ _ _ _ | SshRun _ _ _
  | SshUpload _ _ _ _ | SshClose _ | Sleep _ => Err CancelledError
  | Now | LoopTime => 0%Z
  | Uuid4 => EmptyString
  | Await | HeartbeatLost | WaitStopped _ => false
  | CancelParent => tt
  | External op =>
      match op with
      | Getenv _ => None
      | ReadFile _ | Run _ _ _ | HttpGet _ _ _ _ _ _ | MakeDirectory _ | RemoveTree _ | CreateTemporary _
  | WriteFile _ _ | ReplaceFile _ _ | Unlink _
  | LoadConfig _ | AppendFile _ _ =>
          Err CancelledError
      | Monotonic => 0%Z
      | Pause _ | WriteLine _ => tt
      end
  end.

(** C15.  Within one process, the handlers of one SSHMachine never overlap: in every
    reachable state at most one invocation per namespaced name is between entering
    and leaving [async with lock], although the table's locks are created, shared
    and dropped on the fly and any waiter may be cancelled at any time. *)
Theorem handlers_of_machine_exclusive st i j key p q :
  reachable st → running st i key p → running st j key q → i = j.
Proof.
  intros [Hc _]%reachable_inv [l Hi] [l' Hj].
  assert (Hl : table st !! key = Some l) by (eapply (core_stands _ Hc i); by rewrite Hi).
  assert (Hl' : table st !! key = Some l') by (eapply (core_stands _ Hc j); by rewrite Hj).
  assert (l' = l) as -> by congruence.
  destruct (core_table _ Hc _ _ Hl) as [lk Hlk].
  apply (lock_single _ _ _ (core_lock _ Hc _ _ Hlk)); by rewrite ?Hi, ?Hj.
Qed.

Lemma running_steps st j key l rest :
  core st → tasks st !! j = Some (Inside key l rest) →
  ∃ st', step st st' ∧ match rest with
                       | Ret _ => tasks st' !! j = Some Returned
                       | Call c k => ∃ r, running st' j key (k r)
                       end.
Proof.
  intros Hc Hj. destruct rest as [r|c k].
  - assert (Hl : table st !! key = Some l) by (eapply (core_stands _ Hc j); by rewrite Hj).
    destruct (core_table _ Hc _ _ Hl) as [lk Hlk].
    assert (Hlo : locked lk = true).
    { apply (lock_locked _ _ _ (core_lock _ Hc _ _ Hlk)). exists j. by rewrite Hj. }
    eexists. split; [eapply step_finish; [done..|]; unfold release; by rewrite Hlo|].
    unfold leave. simpl. by rewrite lookup_insert_eq.
  - eexists. split; [by apply (step_call st j key l c k (some_reply c))|].
    exists (some_reply c), l. simpl. by rewrite lookup_insert_eq.
Qed.

(** The first waiter of a free lock can go on. *)
Lemma first_waiter_steps st l lk j f ws :
  core st → heap st !! l = Some lk → locked lk = false → waiters lk = (j, f) :: ws →
  ∃ key mc h st', tasks st !! j = Some (Waiting key l mc h) ∧ step st st' ∧ ¬ waiting st' j key.
Proof.
  intros Hc Hlk Hlo Hw. pose proof (core_lock _ Hc _ _ Hlk) as Hok.
  assert (Hj : waiting_at l (tasks st !! j)).
  { apply (lock_waiters _ _ _ Hok). rewrite Hw. left. }
  destruct (tasks st !! j) as [[key l' mc h| |]|] eqn:Ej; try done. simpl in Hj. subst l'.
  assert (Hin : (j, f) ∈ waiters lk) by (rewrite Hw; left).
  assert (Hgone : ∀ t st', (if t is Waiting _ _ _ _ then false else true) = true →
    tasks st' = <[j := t]> (tasks st) → ¬ waiting st' j key).
  { intros t st' Ht Hst (l' & mc' & h' & Hx). rewrite Hst, lookup_insert_eq in Hx. by destruct t. }
  pose proof (lock_queue _ _ _ Hok) as Hq. unfold queue_ok in Hq. rewrite Hw, Hlo in Hq.
  destruct Hq as [Hf _]. exists key, mc, h. destruct f; [done|destruct mc|].
  - eexists. split; [done|]. split; [eapply step_abandon; eauto|]. eapply (Hgone Returned); [done|].
    by apply leave_tasks.
  - eexists. split; [done|]. split; [eapply step_resume; eauto|]. by eapply (Hgone (Inside _ _ _)).
  - eexists. split; [done|]. split; [eapply step_abandon; eauto|]. eapply (Hgone Returned); [done|].
    by apply leave_tasks.
Qed.

(** C16.  No wake-up is lost: whenever an invocation waits for a machine's lock,
    either one of the same machine is inside and can go on (its release never
    raises), or the first waiter in line can leave the queue at once. *)
Theorem lock_wait_is_served st i key :
  reachable st → waiting st i key →
  (∃ j rest, running st j key rest ∧
     ∃ st', step st st' ∧ match rest with
                          | Ret _ => tasks st' !! j = Some Returned
                          | Call c k => ∃ r, running st' j key (k r)
                          end) ∨
  (∃ j st', waiting st j key ∧ step st st' ∧ ¬ waiting st' j key).
Proof.
  intros [Hc _]%reachable_inv (l & mc & h & Hi).
  assert (Hl : table st !! key = Some l) by (eapply (core_stands _ Hc i); by rewrite Hi).
  destruct (core_table _ Hc _ _ Hl) as [lk Hlk]. pose proof (core_lock _ Hc _ _ Hlk) as Hok.
  assert (Hkey : ∀ j k, stands (tasks st !! j) k l → k = key).
  { intros j k Hj. eapply (core_inj _ Hc); [by eapply (core_stands _ Hc)|done]. }
  destruct (locked lk) eqn:Elo.
  - left. apply (lock_locked _ _ _ Hok) in Elo as [j Hj].
    destruct (tasks st !! j) as [[|k l' rest|]|] eqn:Ej; try done. simpl in Hj. subst l'.
    assert (k = key) as -> by (apply (Hkey j); by rewrite Ej).
    exists j, rest. split; [by exists l|]. by eapply running_steps.
  - right. assert (Hw : i ∈ map fst (waiters lk)) by (apply (lock_waiters _ _ _ Hok); by rewrite Hi).
    destruct (waiters lk) as [|[j f] ws] eqn:Ew; [by apply not_elem_of_nil in Hw|].
    destruct (first_waiter_steps _ _ _ _ _ _ Hc Hlk Elo Ew) as (k & mc' & h' & st' & Hj & Hs & Hn).
    assert (k = key) as -> by (apply (Hkey j); by rewrite Hj).
    exists j, st'. split; [by exists l, mc', h'|done].
Qed.

(** C17.  The table does not leak: every lock in it belongs to an invocation that
    waits for it or is inside. *)
Theorem lock_table_does_not_leak st key l :
  reachable st → table st !! key = Some l → ∃ i, waiting st i key ∨ ∃ rest, running st i key rest.
Proof.
  intros [_ Hv]%reachable_inv Hl. destruct (Hv _ _ Hl) as [i Hi]. exists i.
  destruct (tasks st !! i) as [[k l' mc h|k l' rest|]|] eqn:Ei; simpl in Hi; [..|done|done];
    destruct Hi as [-> ->]; [left; by exists l, mc, h|right; by exists rest, l].
Qed.
End invariant.

(** *** Witnesses: two invocations for one machine *)

Definition fixture_invocation : invocation :=
  Invocation (machine_view fresh_store "spec") (machine_view fresh_store "status") "machine-a" "test"
    (machine_view fresh_store "metadata") false empty_patch.

Definition fixture_body : prog (res unit * patch) := @body replica plain_yaml fixture_invocation.

(** The first is inside, the second waits. *)
Definition fixture_process : process :=
  Process {["test/machine-a" := 0%nat]} {[0%nat := Lock true [(1%nat, Pending)]]}
    {[0%nat := Inside "test/machine-a" 0%nat fixture_body;
      1%nat := Waiting "test/machine-a" 0%nat false fixture_invocation]}.

Lemma fixture_reachable : @reachable replica plain_yaml fixture_process.
Proof.
  eapply rtc_l; [eapply (step_start initial 0%nat fixture_invocation); reflexivity|].
  eapply rtc_l; [eapply (step_start _ 1%nat fixture_invocation); reflexivity|].
  apply rtc_refl.
Qed.

Lemma fixture_running : running fixture_process 0%nat "test/machine-a" fixture_body.
Proof. exists 0%nat. reflexivity. Qed.

Lemma fixture_waiting : waiting fixture_process 1%nat "test/machine-a".
Proof. exists 0%nat, false, fixture_invocation. reflexivity. Qed.

Lemma handlers_of_machine_exclusive_witness :
  @reachable replica plain_yaml fixture_process ∧
  ∀ j q, running fixture_process j "test/machine-a" q → 0%nat = j.
Proof.
  split; [exact fixture_reachable|]. intros j q Hq.
  exact (handlers_of_machine_exclusive fixture_process 0%nat j _ _ q fixture_reachable fixture_running Hq).
Defined.

Lemma lock_wait_is_served_witness :
  (∃ j rest, running fixture_process j "test/machine-a" rest ∧
     ∃ st', @step replica plain_yaml fixture_process st' ∧
       match rest with
       | Ret _ => tasks st' !! j = Some Returned
       | Call c k => ∃ r, running st' j "test/machine-a" (k r)
       end) ∨
  (∃ j st', waiting fixture_process j "test/machine-a" ∧
     @step replica plain_yaml fixture_process st' ∧ ¬ waiting st' j "test/machine-a").
Proof. exact (lock_wait_is_served fixture_process 1%nat _ fixture_reachable fixture_waiting). Defined.

Lemma lock_table_does_not_leak_witness :
  ∃ i, waiting fixture_process i "test/machine-a" ∨ ∃ rest, running fixture_process i "test/machine-a" rest.
Proof. exact (lock_table_does_not_leak fixture_process "test/machine-a" 0%nat fixture_reachable eq_refl). Defined.
