(* ===== verification/RemoteFence.v ===== *)
(** The remote fence and the host Lease: what may run on a host and when. *)

From S2P Require Import Prelude Py PyStr Shell Sha256 Config Effects Monitors ApiIO Ssh Operations FakeApi.
Open Scope Z_scope.

(** ** The fenced command is one [flock] of one script *)

Definition fence_argv (blocking : bool) (script : string) : list string :=
  (if blocking then ["flock"] else ["flock"; "-n"]) ++ [REMOTE_LOCK; "sh"; "-ceu"; script].

Lemma fence_words (blocking : bool) script :
  sh_words ("flock " +:+ (if blocking then EmptyString else "-n ") +:+ shlex_quote REMOTE_LOCK +:+
            " sh -ceu " +:+ shlex_quote script) = Some (fence_argv blocking script).
Proof.
  assert (Hq : ∀ s, sh_go Plain None (shlex_quote s) = Some [s]).
  { intros s. rewrite <- (str_app_nil_r (shlex_quote s)). by rewrite sh_go_fresh_quote. }
  unfold sh_words. destruct blocking; simpl; rewrite ?str_app_nil_l, Hq; reflexivity.
Qed.

Definition fence_text (blocking : bool) (script : string) : string :=
  "flock " +:+ (if blocking then EmptyString else "-n ") +:+ shlex_quote REMOTE_LOCK +:+
  " sh -ceu " +:+ shlex_quote script.

Lemma owned_command_text uid command claim retry blocking text :
  owned_command uid command claim retry blocking = Ok text →
  ∃ u, uid = VStr u ∧ u ≠ EmptyString ∧ text = fence_text blocking (fenced_script u command claim retry).
Proof.
  unfold owned_command. destruct (truthy uid) eqn:Et; [|done]. cbv beta iota delta [negb].
  destruct uid as [| | |u| |]; try done.
  intros H. exists u. split; [done|]. split; [by intros ->|].
  assert (Ht : Ok (fence_text blocking (fenced_script u command claim retry)) = Ok text) by exact H.
  by injection Ht.
Qed.

(** C6.  Whatever the Machine UID and the command contain, the text sent to the
    host is a single [flock] invocation whose last argument is exactly the fenced
    script: nothing in either can escape the quoting, and an empty UID is refused. *)
Theorem owned_command_is_one_flock uid command claim cleaned_retry blocking text :
  owned_command uid command claim cleaned_retry blocking = Ok text →
  ∃ u, uid = VStr u ∧ u ≠ EmptyString ∧
       sh_words text = Some (fence_argv blocking (fenced_script u command claim cleaned_retry)).
Proof.
  intros (u & -> & Hu & ->)%owned_command_text. exists u. split; [done|]. split; [done|]. apply fence_words.
Qed.

Lemma owned_command_is_one_flock_witness :
  ∃ text, owned_command (VStr "u'; rm -rf / #") "true" true false false = Ok text ∧
    ∃ u, VStr "u'; rm -rf / #" = VStr u ∧ u ≠ EmptyString ∧
         sh_words text = Some (fence_argv false (fenced_script u "true" true false)).
Proof.
  eexists. split; [vm_compute; reflexivity|].
  apply (owned_command_is_one_flock (VStr "u'; rm -rf / #") "true" true false false). vm_compute. reflexivity.
Defined.

(** The fence is injective: equal texts fence equal scripts. *)
Lemma owned_command_script uid uid' cmd cmd' claim claim' retry retry' blocking blocking' text :
  owned_command uid cmd claim retry blocking = Ok text →
  owned_command uid' cmd' claim' retry' blocking' = Ok text →
  ∃ u u', uid = VStr u ∧ uid' = VStr u' ∧
          fenced_script u cmd claim retry = fenced_script u' cmd' claim' retry'.
Proof.
  intros (u & -> & _ & ->)%owned_command_text (u' & -> & _ & Heq)%owned_command_text.
  exists u, u'. do 2 (split; [done|]).
  pose proof (fence_words blocking (fenced_script u cmd claim retry)) as H1.
  pose proof (fence_words blocking' (fenced_script u' cmd' claim' retry')) as H2.
  fold (fence_text blocking (fenced_script u cmd claim retry)) in H1.
  fold (fence_text blocking' (fenced_script u' cmd' claim' retry')) in H2.
  rewrite Heq, H2 in H1. clear Heq H2. revert H1.
  generalize (fenced_script u cmd claim retry), (fenced_script u' cmd' claim' retry').
  intros a b. destruct blocking, blocking'; by intros [=].
Qed.

(** A script ends with its command, so commands that end differently are fenced
    into different texts. *)
Lemma fenced_script_last u c command claim retry :
  last_char (fenced_script u (String c command) claim retry) = last_char (String c command).
Proof. unfold fenced_script. by rewrite <- !str_app_assoc, last_char_app. Qed.

Lemma owned_command_differ uid uid' c cmd c' cmd' claim claim' retry retry' blocking blocking' text :
  last_char (String c cmd) ≠ last_char (String c' cmd') →
  owned_command uid (String c cmd) claim retry blocking = Ok text →
  owned_command uid' (String c' cmd') claim' retry' blocking' ≠ Ok text.
Proof.
  intros Hne H1 H2. destruct (owned_command_script _ _ _ _ _ _ _ _ _ _ _ H1 H2) as (u & u' & _ & _ & Heq).
  apply Hne. by rewrite <- (fenced_script_last u c cmd claim retry), Heq, fenced_script_last.
Qed.

(** ** The host Lease *)

(** The API server accepted a Lease that names a holder. *)
Definition lease_taken (e : event) : bool :=
  match e with
  | Ev (Api _ (CreateLease _ l)) (Ok _) | Ev (Api _ (ReplaceLease _ _ l)) (Ok _) =>
      match l_holder l with Some _ => true | None => false end
  | _ => false
  end.

(** A command run, or a file written, on a host. *)
Definition acts_on_host (c : call) : bool :=
  match c with SshRun _ _ _ | SshUpload _ _ _ _ => true | _ => false end.

Definition lease_latch : monitor := latch lease_taken acts_on_host.

Definition idle (c : call) : Prop := acts_on_host c = false.

Lemma idle_covers : covers idle.
Proof. intros [t []| | | | | | | | | | | | | | |] Hb; done. Qed.
Lemma idle_lease_write c : lease_write c → idle c.
Proof. by destruct c as [t []| | | | | | | | | | | | | | |]. Qed.
Lemma idle_ssh_setup c : ssh_setup c → idle c.
Proof. by destruct c as [t []| | | | | | | | | | | | | | |]. Qed.
#[export] Hint Resolve idle_covers idle_lease_write idle_ssh_setup : capi.

Lemma idle_secure {A} trigger (p : M A) : footprint idle p → secure (latch trigger acts_on_host) p.
Proof.
  intros Hp. apply secure_footprint. intros s. specialize (Hp s).
  induction (p s) as [a|c k IH]; simpl in *; [done|].
  destruct Hp as [Hc Hk]. split; [|auto]. intros g Hg. unfold idle in Hc. congruence.
Qed.

Section lease.
Context `{Config}.

(** An acquisition that reports success had its Lease accepted. *)
Lemma lease_acquire_taken l s g :
  msafe lease_latch (lease_acquire l) s g (λ r _ g', r = Ok true → g' = true).
Proof.
  assert (Hq : covers (quiet lease_latch)).
  { apply latch_covers; [apply idle_covers|]. by intros [t []| | | | | | | | | | | | | | |]. }
  unfold lease_acquire. bind_quiet; [|done].
  apply msafe_bind, quiet_msafe; [unfold lease_read; fp|]. intros [current|e] s2; [|done].
  cbv zeta. split_if; [by apply msafe_ret|].
  apply msafe_try. destruct current as [cur|].
  - apply msafe_bind.
    apply (msafe_request lease_latch (ReplaceLease _ _ (fresh_lease l (l_resourceVersion cur) a))); [done|].
    intros [x|e] _.
    + apply msafe_ret. simpl. by rewrite orb_true_r.
    + destruct (is_transport e); [done|]. destruct e; try done. simpl. by repeat case_match; simplify_eq.
  - apply msafe_bind, msafe_request; [done|]. intros [x|e] _.
    + apply msafe_ret. simpl. by rewrite orb_true_r.
    + destruct (is_transport e); [done|]. destruct e; try done. simpl. by repeat case_match; simplify_eq.
Qed.

(** Nothing acts on a host outside the Lease. *)
Lemma host_operation_secure {A} b uid (body : HostLease → M A) :
  secure lease_latch (host_operation b uid body).
Proof.
  intros s g. unfold host_operation, new_lease.
  do 2 (bind_lift; [|done]).
  apply msafe_bind. apply latch_unguarded; [fp; eauto with capi|]. intros [l|e] s1 g1 _; [|done].
  apply msafe_bind, msafe_except, msafe_run_api.
  - intros g'. split; [done|]. intros r. simpl. by rewrite orb_false_r.
  - eapply msafe_mono; [apply lease_acquire_taken|]. intros [[]|e] s2 g2 Hg; split; try done.
    + rewrite Hg by done. by apply secure_latch_open.
    + by destruct (is_Exception e).
  - done.
Qed.
End lease.

(** Latches on host actions pass through the Lease and the connection. *)
Section through.
Context `{Config} (trigger : event → bool).
Abbreviation m := (latch trigger acts_on_host).

Lemma host_operation_through {A} b uid (body : HostLease → M A) :
  (∀ l, secure m (body l)) → secure m (host_operation b uid body).
Proof.
  intros Hb. pose proof idle_covers. unfold host_operation, new_lease.
  repeat lazymatch goal with
    | |- secure _ (body _) => apply Hb
    | |- secure _ (try_except (body _) _) =>
        apply secure_try; [apply Hb|intros e p' He; destruct e; simplify_eq; apply idle_secure; fp]
    | |- secure _ (try_finally _ _) => apply secure_finally
    | |- secure _ (if _ then _ else _) => secure_step
    | |- secure _ (mbind _ _) => apply secure_bind
    | |- ∀ _, _ => intro
    | |- secure _ _ => apply idle_secure; unfold suppress_Exception
    | |- footprint _ (lease_acquire _) => apply lease_acquire_fp; [done|apply idle_lease_write]
    | |- footprint _ (lease_release _) => apply lease_release_fp; [done|apply idle_lease_write]
    | |- _ => progress fp
    end.
Qed.

Lemma with_connection_through {A} connecting (body : connection → M A) :
  footprint idle connecting → (∀ c, secure m (body c)) → secure m (with_connection connecting body).
Proof.
  intros Hc Hb. apply secure_bind; [by apply idle_secure|]. intros c.
  apply secure_finally; [apply Hb|]. by apply idle_secure.
Qed.
End through.
