(* ===== verification/LifecycleSafety.v ===== *)
(** What cleanup and reboot guarantee whatever the API server, the host, the clock
    and concurrent controllers reply: which effects wait for which durable
    records, across errors, cancellation and crashes. *)

From S2P Require Import Prelude Py PyStr PyTime Config Effects Monitors ApiIO Conditions Contracts.
From S2P Require Import Inventory Ssh Operations Lifecycle FakeApi.

(** ** Observable events *)

(** The path [ks] of a patch body leads to the text [s]. *)
Definition body_says (body : value) (ks : list string) (s : string) : bool :=
  match foldl (λ r k, v ← r; item v k) (Ok body) ks with
  | Ok (VStr s') => String.eqb s' s
  | _ => false
  end.

(** The SSHMachine's status write that the API server accepted, with
    [status.cleanup.phase] equal to [phase]. *)
Definition commits_cleanup (namespace name phase : string) (e : event) : bool :=
  match e with
  | Ev (Api _ (PatchObjectStatus group version ns plural n body)) (Ok _) =>
      String.eqb group API_GROUP && String.eqb ns namespace && String.eqb plural "sshmachines" &&
      eq_str n name && body_says body ["status"; "cleanup"; "phase"] phase
  | _ => false
  end.

(** A patch of an SSHHost that frees it: the claim set to null, or the phase set
    to [Available]. *)
Definition releases (c : call) : bool :=
  match c with
  | Api _ (PatchObject _ _ _ plural _ body) =>
      String.eqb plural "sshhosts" &&
      match s ← item body "spec"; item s "consumerRef" with Ok VNone => true | _ => false end
  | Api _ (PatchObjectStatus _ _ _ plural _ body) =>
      String.eqb plural "sshhosts" && body_says body ["status"; "phase"] "Available"
  | _ => false
  end.

(** ** Footprints of the parts *)

Section footprints.
Context `{Config} (P : call → Prop) (HP : covers P).
Context (HL : ∀ c, lease_write c → P c) (HS : ∀ c, ssh_setup c → P c).

Lemma connect_fp b ns : footprint P (connect b ns).
Proof. unfold connect. fp. by apply ssh_connect_fp. Qed.

Lemma check_current_fp ns n uid : footprint P (check_current ns n uid).
Proof. unfold check_current. fp. Qed.

Lemma stage_reboot_fp v : footprint P (stage_reboot v).
Proof. unfold stage_reboot. fp. Qed.

Lemma write_reboot_fp ns n uid v :
  (∀ w, P (Api API_TIMEOUT (persist_op ns n uid w [("remediation", VDict [("reboot", v)])]))) →
  footprint P (write_reboot ns n uid v).
Proof.
  intros Hw. unfold write_reboot. fp; [|apply stage_reboot_fp].
  apply persist_machine_status_fp; [done|]. intros w ch ->. apply Hw.
Qed.

Lemma execute_owned_fp conn uid cmd retry :
  (∀ text t, owned_command uid cmd false retry false = Ok text → P (SshRun conn text t)) →
  footprint P (execute_owned conn uid cmd retry).
Proof. intros Hc. unfold execute_owned. fp. apply execute_fp. eauto. Qed.

(** The two commands of a reboot. *)
Context (HR : ∀ conn uid cmd text t, cmd = BOOT_ID_COMMAND ∨ cmd = REBOOT_COMMAND →
  owned_command uid cmd false false false = Ok text → P (SshRun conn text t)).
Context (ns n : string) (uid : value).
Context (HB : ∀ c, binding_write ns n uid c → P c).
Context (HM : ∀ w v, P (Api API_TIMEOUT (persist_op ns n uid w [("remediation", VDict [("reboot", v)])]))).

Lemma observe_boot_id_fp conn : footprint P (observe_boot_id conn uid).
Proof. unfold observe_boot_id. fp. apply execute_owned_fp; eauto. Qed.

Lemma resolve_pending_fp prev same boot : footprint P (resolve_pending prev same boot ns n uid).
Proof. unfold resolve_pending, now_iso. fp; by apply write_reboot_fp. Qed.

Lemma submit_reboot_fp op conn req boot : footprint P (submit_reboot op conn req boot ns n uid).
Proof.
  unfold submit_reboot, now_iso. fp;
    solve [by apply write_reboot_fp | by apply lease_check_fp | apply execute_owned_fp; eauto
          | apply stage_reboot_fp].
Qed.

Lemma reboot_on_host_fp prev req same pend obs op conn :
  footprint P (reboot_on_host prev req same pend obs ns n uid op conn).
Proof.
  unfold reboot_on_host. fp;
    solve [by apply check_current_fp | by apply lease_check_fp | apply observe_boot_id_fp
          | apply resolve_pending_fp | apply submit_reboot_fp].
Qed.
End footprints.

Lemma reconcile_reboot_fp `{Config} P sp st n ns me obs :
  covers P → (∀ c, lease_write c → P c) → (∀ c, ssh_setup c → P c) →
  (∀ conn uid cmd text t, cmd = BOOT_ID_COMMAND ∨ cmd = REBOOT_COMMAND →
     owned_command uid cmd false false false = Ok text → P (SshRun conn text t)) →
  (∀ uid c, binding_write ns n uid c → P c) →
  (∀ uid w v, P (Api API_TIMEOUT (persist_op ns n uid w [("remediation", VDict [("reboot", v)])]))) →
  footprint P (reconcile_reboot sp st n ns me obs).
Proof.
  intros HP HL HS HR HB HM. unfold reconcile_reboot.
  fp; try (apply bind_machine_fp; eauto).
  apply host_operation_fp; [done..|]. intros op.
  apply with_connection_fp; [done|by apply connect_fp|]. intros conn. by apply reboot_on_host_fp.
Qed.

(** ** The claim outlives everything but a committed receipt *)

Definition keeps (c : call) : Prop := releases c = false.

Lemma keeps_covers : covers keeps.
Proof. intros [t []| | | | | | | | | | | | | | |] Hb; done. Qed.

Lemma keeps_lease_write c : lease_write c → keeps c.
Proof. by destruct c as [t []| | | | | | | | | | | | | | |]. Qed.

Lemma keeps_ssh_setup c : ssh_setup c → keeps c.
Proof. by destruct c as [t []| | | | | | | | | | | | | | |]. Qed.

Lemma consumer_ref_dict n ns uid ref : consumer_ref n ns uid = Ok ref → is_dict ref = true.
Proof. unfold consumer_ref. case_match; [done|]. by intros [= <-]. Qed.

Lemma keeps_binding_write ns n uid c : binding_write ns n uid c → keeps c.
Proof.
  intros []; try done.
  unfold keeps. simpl. by destruct ref; apply consumer_ref_dict in H.
Qed.

Lemma keeps_phase ns n u w phase reason :
  phase ≠ "Available" → keeps (Api API_TIMEOUT (host_status_op ns n u w (phase_fields phase reason))).
Proof. intros Hp. unfold keeps. simpl. unfold body_says. simpl. by apply String.eqb_neq. Qed.

#[local] Hint Resolve keeps_covers keeps_lease_write keeps_ssh_setup keeps_binding_write : capi.

Definition receipt_latch (ns n : string) : monitor :=
  latch (commits_cleanup ns n "Succeeded") releases.

Lemma receipt_latch_quiet ns n : covers (quiet (receipt_latch ns n)).
Proof.
  apply latch_covers; [apply keeps_covers|].
  by intros [t []| | | | | | | | | | | | | | |].
Qed.

Lemma commits_cleanup_persist t ns n uid w phase rest cur :
  commits_cleanup ns n phase
    (Ev (Api t (persist_op ns n uid w
           (("ready", VBool false) :: ("cleanup", VDict [("phase", VStr phase)]) :: rest)))
        (Ok cur : res value)) = true.
Proof.
  simpl. unfold eq_str, body_says. simpl. by rewrite !String.eqb_refl.
Qed.

(** A recorded phase leaves its latch closed. *)
Lemma record_cleanup_commits guarded ns n me st phase reason msg s g
    (Q : res unit → patch → bool → Prop) :
  let m := latch (commits_cleanup ns n phase) guarded in
  covers (quiet m) →
  (∀ uid w ch, guarded (Api API_TIMEOUT (persist_op ns n uid w ch)) = false) →
  (∀ e s' g', (g = true → g' = true) → Q (Err e) s' g') →
  (∀ s', Q (Ok tt) s' true) →
  msafe m (record_cleanup ns n me st phase reason msg) s g Q.
Proof.
  intros m Hq Hg He Ho. unfold record_cleanup.
  bind_quiet; [|by apply He]. bind_lift; [|by apply He].
  do 2 (bind_quiet; [|by apply He]).
  do 2 (bind_lift; [|by apply He]).
  bind_quiet; [|by apply He].
  apply msafe_bind, persist_machine_status_msafe; [done|intros; by apply He|].
  intros w ch' Hs. split_and!.
  - simpl. by rewrite Hg.
  - intros cur s5. destruct Hs as [l ->]. cbn [observe m latch].
    change (dset _ "conditions" _) with
      [("ready", VBool false); ("cleanup", VDict [("phase", VStr phase)]); ("conditions", VList l)].
    rewrite commits_cleanup_persist, orb_true_r.
    apply latch_open. intros [[]|e] s6; [done|by apply He].
  - intros x e s5. simpl. rewrite orb_false_r. by apply He.
Qed.

(** Code that frees nothing: the latch can only close. *)
Lemma keeps_msafe {A} ns n (p : M A) s (g : bool) (Q : res A → patch → bool → Prop) :
  footprint keeps p → (∀ r s' g', (g = true → g' = true) → Q r s' g') →
  msafe (receipt_latch ns n) p s g Q.
Proof. apply latch_unguarded. Qed.

Ltac fp_keeps := pose proof keeps_covers; fp; eauto 6 with capi.
Ltac bind_keeps := apply msafe_bind; apply keeps_msafe; [solve [fp_keeps]|intros [?|?] ? ? ?].

(** A normal return means that the latch is closed. *)
Definition ok_closed {A} (r : res A) (_ : patch) (g : bool) : Prop := is_ok r = true → g = true.

Lemma ok_closed_err {A} e s g : ok_closed (Err e : res A) s g.
Proof. done. Qed.
#[local] Hint Resolve ok_closed_err : capi.

Section closed.
Context `{Config} (ns n : string).
Abbreviation m := (receipt_latch ns n).

Lemma run_api_closed {A} (f : M A) s g :
  msafe m f s g ok_closed → msafe m (run_api f) s g ok_closed.
Proof.
  intros Hf. apply msafe_run_api; [by apply receipt_latch_quiet| |done].
  eapply msafe_mono; [exact Hf|]. intros r s' g' Hr. by split.
Qed.

Lemma raise_blocked_closed {A} st me msg s g :
  msafe m (raise_blocked st me msg : M A) s g ok_closed.
Proof. unfold raise_blocked. bind_keeps; [by apply msafe_raise|done]. Qed.

Lemma record_succeeded_closed me st reason msg s g :
  msafe m (record_cleanup ns n me st "Succeeded" reason msg) s g ok_closed.
Proof. apply record_cleanup_commits; [apply receipt_latch_quiet|done..]. Qed.

(** Leaving the Lease and the connection keeps the latch closed. *)
Lemma finally_closed {A} (p : M A) f s g :
  msafe m p s g ok_closed → footprint keeps f → msafe m (try_finally p f) s g ok_closed.
Proof.
  intros Hp Hf. apply msafe_finally. eapply msafe_mono; [exact Hp|].
  intros r s' g' Hr. apply keeps_msafe; [exact Hf|]. intros [[]|e] s'' g'' Hg; [|done].
  intros Hok. by apply Hg, Hr.
Qed.

Lemma with_connection_closed {A} connecting (body : connection → M A) s g :
  footprint keeps connecting → (∀ c s g, msafe m (body c) s g ok_closed) →
  msafe m (with_connection connecting body) s g ok_closed.
Proof.
  intros Hc Hb. apply msafe_bind, keeps_msafe; [exact Hc|]. intros [c|e] s' g' _; [|done].
  apply finally_closed; [apply Hb|]. unfold close. by fp.
Qed.

Lemma host_operation_closed {A} b uid (body : HostLease → M A) s g :
  (∀ l s g, msafe m (body l) s g ok_closed) → msafe m (host_operation b uid body) s g ok_closed.
Proof.
  intros Hb. unfold host_operation, new_lease. pose proof keeps_covers as Hk.
  do 2 (bind_lift; [|done]). bind_keeps; [|done].
  apply msafe_bind, keeps_msafe.
  { fp. apply lease_acquire_fp; eauto with capi. }
  intros [[]|e] s1 g1 Hg; [|by apply msafe_raise|done].
  apply finally_closed; [|unfold suppress_Exception; fp; apply lease_release_fp; eauto with capi].
  apply msafe_try. eapply msafe_mono; [apply Hb|]. intros [r|[]] s2 g2 Hok; try done.
  bind_keeps; [|done]. split_if; by apply msafe_raise.
Qed.
End closed.

Section delete.
Context `{Config} (ns n : string).
Abbreviation m := (receipt_latch ns n).

Lemma raise_blocked_fp {A} P st me msg : covers P → footprint P (raise_blocked st me msg : M A).
Proof. intros HP. unfold raise_blocked. fp. Qed.

Lemma recover_binding_keeps sp st me uid : footprint keeps (recover_binding sp st n ns me uid).
Proof.
  unfold recover_binding. fp_keeps; try (by apply raise_blocked_fp).
  - by apply recover_unstarted_claim_fp.
  - apply persist_machine_status_fp; [done|]. by intros w ch ->.
Qed.

Lemma set_host_phase_keeps b uid phase reason :
  phase ≠ "Available" → footprint keeps (set_host_phase b n ns uid phase reason).
Proof. intros Hp. apply set_host_phase_fp; [apply keeps_covers|]. intros. by apply keeps_phase. Qed.

Lemma record_cleanup_keeps me st phase reason msg :
  footprint keeps (record_cleanup ns n me st phase reason msg).
Proof.
  unfold record_cleanup. fp_keeps.
  apply persist_machine_status_fp; [done|]. by intros w ch [l ->].
Qed.

Lemma delete_prologue_keeps sp st me : footprint keeps (delete_prologue sp st ns me).
Proof. unfold delete_prologue. fp_keeps. Qed.

Lemma reconcile_reboot_keeps sp st me obs : footprint keeps (reconcile_reboot sp st n ns me obs).
Proof. apply reconcile_reboot_fp; eauto with capi; done. Qed.

Lemma delete_unowned_closed sp st b me uid s g :
  msafe m (delete_unowned sp st b n ns me uid) s g ok_closed.
Proof.
  unfold delete_unowned. do 3 (bind_lift; [|done]).
  apply msafe_bind, keeps_msafe.
  { fp_keeps. apply recover_binding_keeps. }
  intros [b'|e] s1 g1 _; [|done]. split_if.
  - apply msafe_bind, keeps_msafe.
    { fp_keeps. by apply set_host_phase_keeps. }
    intros [[]|e] s2 g2 _; [apply raise_blocked_closed|done].
  - apply msafe_bind. eapply msafe_mono; [apply run_api_closed, record_succeeded_closed|].
    intros [[]|e] s2 g2 Hg; [|done]. rewrite Hg by done. by apply latch_open.
Qed.

Lemma reset_on_host_closed st me uid op conn s g :
  msafe m (reset_on_host st n ns me uid op conn) s g ok_closed.
Proof.
  unfold reset_on_host.
  apply msafe_bind, keeps_msafe; [fp_keeps; by apply check_current_fp|]. intros [cur|e] s1 g1 _; [|done].
  apply msafe_bind, keeps_msafe; [apply lease_check_fp; eauto with capi|]. intros [[]|e] s2 g2 _; [|done].
  apply msafe_bind, keeps_msafe; [by apply execute_owned_fp|]. intros [r|e] s3 g3 _; [|done].
  split_if; [by apply msafe_raise|]. apply run_api_closed, record_succeeded_closed.
Qed.

Lemma receipt_committed_keeps uid : footprint keeps (receipt_committed n ns uid).
Proof. unfold receipt_committed. fp_keeps. Qed.

Lemma cleanup_failed_closed st b me uid s g :
  msafe m (cleanup_failed st b n ns me uid) s g ok_closed.
Proof.
  unfold cleanup_failed. bind_keeps; [|done].
  apply msafe_bind, keeps_msafe; [fp_keeps; apply receipt_committed_keeps|].
  intros [[]|e] s1 g1 _; [by apply msafe_raise| |done].
  apply msafe_bind, keeps_msafe; [fp_keeps; by apply set_host_phase_keeps|].
  intros [[]|e] s2 g2 _; [|done].
  apply msafe_bind, keeps_msafe; [fp_keeps; by apply record_cleanup_keeps|].
  by intros [[]|e] s3 g3 _; [apply msafe_raise|].
Qed.

Lemma cleanup_host_closed st b me uid s g :
  msafe m (cleanup_host st b n ns me uid) s g ok_closed.
Proof.
  unfold cleanup_host. bind_keeps; [|done]. apply msafe_except.
  eapply msafe_mono.
  - apply host_operation_closed. intros op s1 g1. apply with_connection_closed.
    + apply connect_fp; eauto with capi.
    + intros conn s2 g2. apply msafe_bind. eapply msafe_mono; [apply reset_on_host_closed|].
      intros [[]|e] s3 g3 Hg; [|done]. rewrite Hg by done. by apply latch_open.
  - intros [[]|e] s1 g1 Hg; [done|]. destruct (is_Exception e); [apply cleanup_failed_closed|done].
Qed.

Lemma delete_owned_closed sp st b o me uid s g :
  msafe m (delete_owned sp st b o n ns me uid) s g ok_closed.
Proof.
  unfold delete_owned. bind_lift; [|done]. split_if; [apply raise_blocked_closed|].
  bind_lift; [|done]. split_if; [apply raise_blocked_closed|].
  bind_lift; [|done]. split_if.
  { apply msafe_bind. eapply msafe_mono; [apply run_api_closed, record_succeeded_closed|].
    intros [[]|e] s2 g2 Hg; [|done]. rewrite Hg by done. by apply latch_open. }
  do 3 (bind_lift; [|done]). split_if.
  { bind_keeps; [|done].
    apply msafe_bind, keeps_msafe; [apply reconcile_reboot_keeps|].
    by intros [[]|e] s2 g2 _; [apply msafe_raise|]. }
  apply msafe_bind, keeps_msafe; [fp_keeps; by apply set_host_phase_keeps|].
  intros [[]|e] s2 g2 _; [|done].
  apply msafe_bind, keeps_msafe; [fp_keeps; by apply record_cleanup_keeps|].
  intros [[]|e] s3 g3 _; [|done].
  apply msafe_bind. eapply msafe_mono; [apply cleanup_host_closed|].
  intros [[]|e] s4 g4 Hg; [|done]. rewrite Hg by done. by apply latch_open.
Qed.

Lemma delete_machine_closed sp st me s g :
  msafe m (delete_machine sp st n ns me) s g ok_closed.
Proof.
  unfold delete_machine.
  apply msafe_bind, keeps_msafe; [apply delete_prologue_keeps|]. intros [[]|e] s1 g1 _; [|done].
  do 4 (bind_lift; [|done]). split_if; [apply raise_blocked_closed|].
  split_if; [apply delete_unowned_closed|apply delete_owned_closed].
Qed.
End delete.

(** ** Theorems *)

(** C2.  A deletion that returns normally, letting Kopf drop the finalizer, has
    committed the receipt in this very run. *)
Theorem delete_completes_with_receipt `{Config} spec status name namespace meta s t s' :
  finishes (delete_machine spec status name namespace meta s) t (Ok tt, s') →
  ∃ e, In e t ∧ commits_cleanup namespace name "Succeeded" e = true.
Proof.
  intros Hf. eapply (latch_finishes _ releases _ _ _ _ _ (λ r, is_ok r = true)); [|exact Hf|done].
  eapply msafe_mono; [apply delete_machine_closed|]. by intros r s1 g1 Hg.
Qed.

(** *** Witnesses: deleting a provisioned pool machine against the model API *)

Definition fixture_delete : prog (res unit * patch) :=
  let s := provisioned_store in
  @delete_machine replica (machine_view s "spec") (machine_view s "status")
    "machine-a" "test" (machine_view s "metadata") empty_patch.

Lemma delete_completes_with_receipt_witness :
  ∃ e, In e (run_trace fake_handler fixture_delete (fake_world provisioned_store)) ∧
       commits_cleanup "test" "machine-a" "Succeeded" e = true.
Proof.
  destruct (run_completes fake_handler fixture_delete (fake_world provisioned_store))
    as ([] & s' & Hf); [vm_compute; reflexivity|].
  exact (@delete_completes_with_receipt replica _ _ _ _ _ _ _ _ Hf).
Defined.
