(* ===== verification/MachineWrites.v ===== *)
(** Every kind of write an SSHMachine handler can make to the API server, and that its
    connections are verified. *)

From S2P Require Import Prelude Py PyStr PyTime Config Effects Monitors ApiIO Conditions Contracts.
From S2P Require Import Inventory Ssh Operations Lifecycle Locks MachineStatus Bootstrap Machine.
From S2P Require Import SshHost FakeApi LifecycleSafety.

(** The writes of the handlers of [ns/n]: its lock annotation, its connection
    fields, its status, and the claim and status of hosts. *)
Inductive object_write (ns n : string) : call → Prop :=
| ow_lock w v : object_write ns n (Api API_TIMEOUT (lock_op ns n w v))
| ow_spec uid w selected : object_write ns n (Api API_TIMEOUT (machine_spec_op ns n uid w selected))
| ow_status uid w ch : object_write ns n (Api API_TIMEOUT (persist_op ns n uid w ch))
| ow_claim hns hn u w ref : object_write ns n (Api API_TIMEOUT (host_spec_op hns hn u w ref))
| ow_host hns hn u w st : object_write ns n (Api API_TIMEOUT (host_status_op hns hn u w st)).

Lemma object_binding_write ns n (P : call → Prop) uid c :
  (∀ c, object_write ns n c → P c) → binding_write ns n uid c → P c.
Proof. intros HA []; apply HA; constructor. Qed.

Lemma object_quarantine_write ns n c : quarantine_write c → object_write ns n c.
Proof. intros (hns & hn & u & w & reason & ->). constructor. Qed.

(** For a property of calls that no API request violates. *)
Section any_api.
Context (P : call → Prop) (HA : ∀ t op, P (Api t op)).

Lemma lease_write_api c : lease_write c → P c.
Proof. destruct c as [t []| | | | | | | | | | | | | | |]; try done; intros _; apply HA. Qed.

Lemma binding_write_api ns n uid c : binding_write ns n uid c → P c.
Proof. intros []; apply HA. Qed.

Lemma object_write_api ns n c : object_write ns n c → P c.
Proof. intros []; apply HA. Qed.
End any_api.

(** ** Code that talks to the API server only *)

Section api_footprints.
Context `{Config} `{Yaml} (P : call → Prop) (HP : covers P).
Context (ns n : string) (HA : ∀ c, object_write ns n c → P c).

Lemma host_phase_api b uid phase reason : footprint P (set_host_phase b n ns uid phase reason).
Proof. apply set_host_phase_fp; [done|]. intros; apply HA; constructor. Qed.

Lemma persist_api uid ch : footprint P (persist_machine_status ns n uid ch).
Proof. apply persist_machine_status_fp; [done|]. intros; apply HA; constructor. Qed.

Lemma release_host_api b uid : footprint P (release_host b n ns uid).
Proof.
  unfold release_host. fp; [apply host_patch_status_fp|apply host_patch_spec_fp]; try done;
    intros; apply HA; constructor.
Qed.

Lemma release_cleaned_api b me st : footprint P (release_cleaned_host b n ns me st).
Proof. unfold release_cleaned_host. fp. apply release_host_api. Qed.

Lemma record_cleanup_api me st phase reason msg :
  footprint P (record_cleanup ns n me st phase reason msg).
Proof. unfold record_cleanup. fp. apply persist_api. Qed.

Lemma recover_binding_api sp st me uid : footprint P (recover_binding sp st n ns me uid).
Proof.
  unfold recover_binding, raise_blocked. fp; [by apply recover_unstarted_claim_fp|apply persist_api].
Qed.

Lemma delete_prologue_api sp st me : footprint P (delete_prologue sp st ns me).
Proof. unfold delete_prologue. fp. Qed.

Lemma delete_unowned_api sp st b me uid : footprint P (delete_unowned sp st b n ns me uid).
Proof.
  unfold delete_unowned, raise_blocked.
  fp; first [apply recover_binding_api | apply host_phase_api | apply record_cleanup_api
            | apply release_cleaned_api].
Qed.

Lemma cleanup_failed_api st b me uid : footprint P (cleanup_failed st b n ns me uid).
Proof.
  unfold cleanup_failed, receipt_committed. fp; first [apply host_phase_api | apply record_cleanup_api].
Qed.

Lemma lock_acquire_api op : footprint P (acquire_distributed_lock_or_requeue ns n op).
Proof. apply acquire_distributed_lock_or_requeue_fp; [done|]. intros; apply HA; constructor. Qed.

Lemma lock_release_api op : footprint P (release_distributed_lock_with_logging ns n op).
Proof. apply release_distributed_lock_with_logging_fp; [done|]. intros; apply HA; constructor. Qed.
End api_footprints.

(** ** Everything a handler does *)

Section handler_footprint.
Context `{Config} `{Yaml} (P : call → Prop) (HP : covers P).
Context (HL : ∀ c, lease_write c → P c) (HS : ∀ c, ssh_setup c → P c).
Context (HR : ∀ conn text t, P (SshRun conn text t)).
Context (HU : ∀ conn text path mode, P (SshUpload conn text path mode)).
Context (ns n : string) (HA : ∀ c, object_write ns n c → P c).

Lemma reconcile_reboot_all sp st me obs : footprint P (reconcile_reboot sp st n ns me obs).
Proof.
  apply reconcile_reboot_fp; eauto; intros; [by eapply object_binding_write|apply HA; constructor].
Qed.

Lemma reset_on_host_all st me uid op conn : footprint P (reset_on_host st n ns me uid op conn).
Proof.
  unfold reset_on_host, record_succeeded.
  fp; first [ by apply check_current_fp | by apply lease_check_fp | apply execute_owned_fp; eauto
            | by apply record_cleanup_api ].
Qed.

Lemma cleanup_host_all st b me uid : footprint P (cleanup_host st b n ns me uid).
Proof.
  unfold cleanup_host. fp; [|by apply cleanup_failed_api].
  apply host_operation_fp; [done..|]. intros op.
  apply with_connection_fp; [done|by apply connect_fp|]. intros conn. fp. apply reset_on_host_all.
Qed.

Lemma delete_owned_all sp st b o me uid : footprint P (delete_owned sp st b o n ns me uid).
Proof.
  unfold delete_owned, record_succeeded, raise_blocked.
  fp; first [ by apply record_cleanup_api | by apply release_cleaned_api | apply reconcile_reboot_all
            | by apply host_phase_api | apply cleanup_host_all ].
Qed.

Lemma delete_machine_all sp st me : footprint P (delete_machine sp st n ns me).
Proof.
  unfold delete_machine, raise_blocked.
  fp; first [ by apply delete_prologue_api | by apply delete_unowned_api | apply delete_owned_all ].
Qed.

Lemma sshmachine_reconcile_all sp st me delete : footprint P (sshmachine_reconcile sp st n ns me delete).
Proof.
  unfold sshmachine_reconcile, reconcile_serialized, reconcile_locked.
  fp; first [ by apply lock_acquire_api | by apply lock_release_api | by apply refresh_fp
            | apply delete_machine_all | apply reconcile_reboot_all
            | apply sshmachine_reconcile_impl_fp; eauto using object_quarantine_write ];
    intros; [by eapply object_binding_write|apply HA; constructor].
Qed.
End handler_footprint.

(** ** Host keys are never learned from a connection *)

Definition verified (c : call) : Prop :=
  match c with SshConnect _ _ _ _ known_hosts _ => strip known_hosts ≠ EmptyString | _ => True end.

Lemma verified_covers : covers verified.
Proof. by intros [t []| | | | | | | | | | | | | | |]. Qed.

Lemma verified_setup c : ssh_setup c → verified c.
Proof. by destruct c. Qed.

Lemma sshhost_probe_verified `{Config} spec status name namespace meta :
  footprint verified (sshhost_probe spec status name namespace meta).
Proof.
  unfold sshhost_probe, now_iso, probe_connection, report_probe. pose proof verified_covers.
  fp; eauto with capi. apply with_connection_fp; [apply verified_setup|apply ssh_connect_fp, verified_setup|].
  intros; fp.
Qed.

(** C24.  No connection to a host is opened without known_hosts entries: whenever a
    handler of an SSHMachine, or the probe of an SSHHost, calls asyncssh's [connect],
    the known_hosts text is not blank. *)
Theorem connections_are_verified `{Config} `{Yaml} spec status name namespace meta delete s t c :
  issues (sshmachine_reconcile spec status name namespace meta delete s) t c ∨
  issues (sshhost_probe spec status name namespace meta s) t c →
  verified c.
Proof.
  intros [Hi|Hi]; revert Hi; apply (footprint_issues verified); [|apply sshhost_probe_verified].
  apply sshmachine_reconcile_all; [apply verified_covers|..]; try done.
  - by intros [t' []| | | | | | | | | | | | | | |].
  - apply verified_setup.
  - by intros c' [].
Qed.

Definition fixture_deletion : prog (res unit * patch) :=
  @sshmachine_reconcile replica plain_yaml (machine_view provisioned_store "spec")
    (machine_view provisioned_store "status") "machine-a" "test" (machine_view provisioned_store "metadata")
    true empty_patch.

Definition connects (c : call) : bool :=
  match c with SshConnect _ _ _ _ _ _ => true | _ => false end.

Lemma connections_are_verified_witness :
  ∃ t c, issues fixture_deletion t c ∧ connects c = true ∧ verified c.
Proof.
  destruct (run_issues fake_handler connects fixture_deletion (fake_world provisioned_store))
    as (t & c & Hi & Hc); [vm_compute; reflexivity|].
  exists t, c. split; [exact Hi|]. split; [exact Hc|].
  exact (@connections_are_verified replica plain_yaml _ _ _ _ _ _ _ t c (or_introl Hi)).
Defined.
