(* ===== verification/InventorySafety.v ===== *)
(** What host allocation guarantees whatever the API server replies: allocations are
    immutable, only free hosts are claimed, and candidates are tried in order. *)

From Stdlib Require Import Sorting.Sorted.
From S2P Require Import Prelude Py PyStr Config Effects Monitors ApiIO Conditions Contracts Inventory.
From S2P Require Import FakeApi.

(** ** An allocation never changes *)

Lemma values_lift {A} (r : res A) : values (lift r) (λ a, r = Ok a).
Proof. intros s. by apply msafe_lift. Qed.

(** The fields [bind_machine] refreshes from the host; all others stay. *)
Definition REFRESHED : list string := ["user"; "sshKeyRef"; "sshHostKeyRef"].

Definition same_allocation (allocation binding : value) : Prop :=
  ∀ k, k ∉ REFRESHED → get binding k = get allocation k.

Lemma refresh_credentials_same b target b' : refresh_credentials b target = Ok b' → same_allocation b b'.
Proof.
  unfold refresh_credentials. destruct (item target "user"); [|done]. simpl.
  destruct (item target "sshKeyRef"); [|done]. simpl.
  destruct (item target "sshHostKeyRef"); [|done]. simpl.
  destruct b as [| | | | |d]; try done. intros [= <-] k Hk. unfold get, get_or.
  change (dset _ _ _) with
    (dupdate d [("user", a); ("sshKeyRef", a0); ("sshHostKeyRef", a1)]).
  by rewrite dget_dupdate_other.
Qed.

(** What the spec asks for is what was allocated. *)
Definition agrees (spec allocation : value) (field : string) : Prop :=
  ∃ wanted allocated, get spec field = Ok wanted ∧ get allocation field = Ok allocated ∧
    (wanted = VNone ∨ py_eqb wanted allocated = true).

Lemma check_fields_agree fields spec b : check_fields fields spec b = Ok tt → Forall (agrees spec b) fields.
Proof.
  induction fields as [|f fields IH]; simpl; [done|].
  destruct (get spec f) as [w|] eqn:Ew; [|done]. simpl.
  destruct (get b f) as [a|] eqn:Ea; [|done]. simpl.
  destruct (negb (is_none w) && py_neqb w a) eqn:E; [done|]. intros H. constructor; [|auto].
  exists w, a. split_and!; [done..|]. apply andb_false_iff in E as [E|E]; apply negb_false_iff in E; [|auto].
  left. by destruct w.
Qed.

Definition unchanged (spec allocation uid binding : value) : Prop :=
  same_allocation allocation binding ∧
  (∃ owner, get allocation "machineUID" = Ok owner ∧ py_eqb owner uid = true) ∧
  Forall (agrees spec allocation) ["address"; "port"; "hostRef"].

Lemma bind_existing_unchanged spec b n ns uid :
  values (bind_existing spec b n ns uid) (unchanged spec b uid).
Proof.
  unfold bind_existing. eapply values_bind_post; [apply values_lift|]. intros owner Ho.
  destruct (py_neqb owner uid) eqn:E; [by intros s|]. apply negb_false_iff in E.
  eapply values_bind_post; [apply values_lift|]. intros [] Hc%check_fields_agree.
  repeat (apply values_bind; intro). intros s. apply msafe_lift.
  intros b' Hb'. split; [by eapply refresh_credentials_same|]. split; [by exists owner|done].
Qed.

(** C26.  An allocation is immutable: a reconciliation that finds one uses it, with
    every field but the refreshed credentials unchanged, and only for the Machine UID
    it was made for and a spec that asks for that very address, port and host; any
    other spec is refused. *)
Theorem allocation_is_immutable spec status name namespace uid s t binding s' allocation :
  get status "allocation" = Ok allocation → truthy allocation = true →
  finishes (bind_machine spec status name namespace uid s) t (Ok binding, s') →
  unchanged spec allocation uid binding.
Proof.
  intros Ha Ht Hf. refine (returns_msafe _ _ (λ r _, ∀ b, r = Ok b → unchanged spec allocation uid b) _ _ _ _ Hf _ eq_refl).
  apply (λ H, H : values (bind_machine spec status name namespace uid) _).
  unfold bind_machine. destruct (negb (truthy uid)); [by intros ?|].
  rewrite Ha. intros s0. apply msafe_bind, msafe_lift. rewrite Ht. revert s0.
  eapply values_bind_post; [apply bind_existing_unchanged|]. intros b Hb.
  repeat (apply values_bind; intro). by apply values_ret.
Qed.

(** ** Candidates are tried in order *)

(** The API server's view of a host: whether its status says [ready: true], and its name. *)
Definition shown_ready (host : value) : Prop :=
  ∃ status, get_or host "status" (VDict []) = Ok status ∧ get status "ready" = Ok (VBool true).
Definition named (host : value) (name : string) : Prop :=
  ∃ meta, item host "metadata" = Ok meta ∧ item meta "name" = Ok (VStr name).

(** [a] may be tried before [b]: a ready host before one that is not, and among hosts
    that are both or neither, by name. *)
Definition before (a b : value) : Prop :=
  ∃ name name', named a name ∧ named b name' ∧
    (shown_ready a ∧ ¬ shown_ready b ∨
     (shown_ready a ↔ shown_ready b) ∧ String.compare name name' ≠ Gt).

Lemma candidate_key_shown host unready name :
  candidate_key host = Ok (unready, name) → named host name ∧ (unready = false ↔ shown_ready host).
Proof.
  unfold candidate_key, named, shown_ready. intros H.
  apply res_bind_ok in H as (ready & Hr & H). apply res_bind_ok in H as (meta & Hm & H).
  apply res_bind_ok in H as (v & Hv & H). destruct v; try discriminate H. injection H as <- <-.
  cbn [getp] in Hr. apply res_bind_ok in Hr as (status & Hs & Hr).
  split; [by exists meta|]. rewrite negb_false_iff. split.
  - intros Ht. exists status. split; [done|]. destruct ready as [|[]| | | |]; try discriminate Ht. exact Hr.
  - intros (status' & Hs' & Hr'). rewrite Hs in Hs'. injection Hs' as <-. rewrite Hr in Hr'. by injection Hr' as ->.
Qed.

Lemma compare_leb a b : negb (String.ltb b a) = true → String.compare a b ≠ Gt.
Proof. unfold String.ltb. rewrite (String.compare_antisym a b). by destruct (String.compare b a). Qed.

Lemma key_leb_before a b ka kb :
  candidate_key a = Ok ka → candidate_key b = Ok kb → key_leb ka kb = true → before a b.
Proof.
  destruct ka as [ua na], kb as [ub nb]. intros [Ha Hra]%candidate_key_shown [Hb Hrb]%candidate_key_shown Hle.
  exists na, nb. split; [done|]. split; [done|]. rewrite <- Hra, <- Hrb. unfold key_leb in Hle. simpl in Hle.
  destruct ua, ub; try discriminate Hle; [right; split; [done|by apply compare_leb]|by left|].
  right. split; [done|by apply compare_leb].
Qed.

Lemma key_leb_total a b : key_leb a b = false → key_leb b a = true.
Proof.
  unfold key_leb. destruct a as [[] a], b as [[] b]; simpl; try done;
    rewrite negb_false_iff, negb_true_iff; unfold String.ltb;
    rewrite (String.compare_antisym a b); by destruct (String.compare b a).
Qed.

Definition keyed_le (x y : (bool * string) * value) : Prop := key_leb (fst x) (fst y) = true.

Lemma insert_host_perm x l : insert_host x l ≡ₚ x :: l.
Proof.
  induction l as [|y l IH]; simpl; [done|]. destruct (key_leb (fst x) (fst y)); [done|].
  rewrite IH. apply Permutation_swap.
Qed.

Lemma insert_host_head y x l :
  HdRel keyed_le y l → keyed_le y x → HdRel keyed_le y (insert_host x l).
Proof. destruct 1 as [|z l Hz]; simpl; [by constructor|]. destruct (key_leb (fst x) (fst z)); by constructor. Qed.

Lemma insert_host_sorted x l : Sorted keyed_le l → Sorted keyed_le (insert_host x l).
Proof.
  induction 1 as [|y l Hl IH Hy]; simpl; [by repeat constructor|].
  destruct (key_leb (fst x) (fst y)) eqn:E.
  - constructor; [by constructor|]. by constructor.
  - constructor; [done|]. apply insert_host_head; [done|]. by apply key_leb_total.
Qed.

Lemma sort_sorted l : Sorted keyed_le (foldr insert_host [] l) ∧ foldr insert_host [] l ≡ₚ l.
Proof.
  induction l as [|x l [Hs Hp]]; simpl; [split; [constructor|done]|].
  split; [by apply insert_host_sorted|]. by rewrite insert_host_perm, Hp.
Qed.

Lemma keyed_keys hosts l :
  keyed hosts = Ok l → map snd l = hosts ∧ Forall (λ x, candidate_key (snd x) = Ok (fst x)) l.
Proof.
  revert l. induction hosts as [|h hosts IH]; intros l; simpl; [by intros [= <-]|].
  destruct (candidate_key h) as [k|] eqn:Ek; [|done]. simpl.
  destruct (keyed hosts) as [l'|]; [|done]. intros [= <-]. destruct (IH _ eq_refl) as [<- Hf].
  simpl. split; [done|]. by constructor.
Qed.

Lemma sort_hosts_perm hosts l : sort_hosts hosts = Ok l → l ≡ₚ hosts.
Proof.
  unfold sort_hosts. destruct (keyed hosts) as [ks|] eqn:Ek; [|done]. intros [= <-].
  destruct (keyed_keys _ _ Ek) as [<- _]. by rewrite (proj2 (sort_sorted ks)).
Qed.

(** C28.  Candidates are tried ready hosts first and then by name, and none is lost or
    tried twice: the list is a permutation of the hosts in which each comes before the
    next by what the API server shows of the two, their readiness and their names. *)
Theorem candidates_in_order hosts candidates :
  sort_hosts hosts = Ok candidates → candidates ≡ₚ hosts ∧ Sorted before candidates.
Proof.
  intros H. split; [by apply sort_hosts_perm|]. unfold sort_hosts in H.
  destruct (keyed hosts) as [ks|] eqn:Ek; [|done]. injection H as <-.
  destruct (keyed_keys _ _ Ek) as [_ Hk]. destruct (sort_sorted ks) as [Hs Hp].
  rewrite <- Hp in Hk. clear Ek Hp. induction Hs as [|x l Hs IH Hd]; simpl; [constructor|].
  apply Forall_cons in Hk as [Hx Hk]. constructor; [by apply IH|].
  destruct Hd as [|y l Hxy]; simpl; constructor. apply Forall_cons in Hk as [Hy _].
  by eapply key_leb_before.
Qed.

Definition pool_host (name : string) (ready : bool) : value :=
  VDict [("metadata", VDict [("name", VStr name)]); ("status", VDict [("ready", VBool ready)])].

Lemma candidates_in_order_witness :
  ∃ candidates, sort_hosts [pool_host "c" false; pool_host "b" true; pool_host "a" true] = Ok candidates ∧
    candidates ≡ₚ [pool_host "c" false; pool_host "b" true; pool_host "a" true] ∧ Sorted before candidates.
Proof.
  eexists. split; [vm_compute; reflexivity|]. apply candidates_in_order. vm_compute. reflexivity.
Defined.

(** ** Only free hosts are claimed *)

(** The last reply to a listing of hosts. *)
Fixpoint last_list (h : list event) : option value :=
  match h with
  | [] => None
  | Ev (Api _ (ListObjects _ _ _ _)) (Ok v) :: _ => Some v
  | _ :: h => last_list h
  end.

(** What a claim relies on: the listing it follows shows no claim of this UID, and
    the chosen host, at the resourceVersion named in the patch, is not being deleted,
    has no consumer, is not quarantined or cleaning and is not known unreachable. *)
Definition free (host : value) : Prop :=
  ∃ meta spec status deleted consumer phase ready,
    item host "metadata" = Ok meta ∧ get_or host "spec" (VDict []) = Ok spec ∧
    get_or host "status" (VDict []) = Ok status ∧
    get meta "deletionTimestamp" = Ok deleted ∧ truthy deleted = false ∧
    get spec "consumerRef" = Ok consumer ∧ truthy consumer = false ∧
    get status "phase" = Ok phase ∧ (phase = VNone ∨ phase = VStr "Available") ∧
    get status "ready" = Ok ready ∧ ready ≠ VBool false.

Lemma eligible_free labels host : eligible labels host = Ok true → free host.
Proof.
  unfold eligible, free. destruct (item host "metadata") as [meta|]; [|done]. simpl.
  destruct (get_or host "spec" (VDict [])) as [spec|]; [|done]. simpl.
  destruct (get_or host "status" (VDict [])) as [status|]; [|done]. simpl.
  destruct (get meta "deletionTimestamp") as [deleted|] eqn:Ed; [|done]. simpl.
  destruct (truthy deleted) eqn:Et; [done|]. destruct (labels_match labels meta) as [[]|]; [|done..]. simpl.
  destruct (get spec "consumerRef") as [consumer|] eqn:Ec; [|done]. simpl.
  destruct (truthy consumer) eqn:Etc; [done|].
  destruct (get status "phase") as [phase|] eqn:Ep; [|done]. simpl.
  destruct (is_none phase) eqn:En; [|destruct (in_strs phase ["Available"]) as [[]|] eqn:Ei; try done]; simpl;
    (destruct (get status "ready") as [ready|] eqn:Er; [|done]); simpl; intros [= Hr];
    exists meta, spec, status, deleted, consumer, phase, ready; split_and!; try done;
    try (by intros ->); [left; by destruct phase|right].
  destruct phase as [| | |p| |]; try done. simpl in Ei. injection Ei as Ei.
  rewrite orb_false_r in Ei. by apply String.eqb_eq in Ei as ->.
Qed.

(** The [except] clause of a claim: a lost race goes on, other errors end the run. *)
Lemma lost_claim m e s h (Q : res (option value) → patch → ghost m → Prop) :
  Q (Ok None) s h → (∀ e, Q (Err e) s h) →
  match match e with
        | ApiException status _ => if (status =? 404)%Z || (status =? 409)%Z then Some (mret None) else None
        | _ => None
        end : option (M (option value)) with
  | Some p => msafe m p s h Q
  | None => Q (Err e) s h
  end.
Proof. intros Hn He. destruct e; try apply He. destruct (_ || _); [exact Hn|apply He]. Qed.

Section claims.
Context (n ns : string) (uid : value).

Definition may_claim (h : list event) (c : call) : Prop :=
  match c with
  | Api _ (PatchObject _ _ _ _ _ _ as op) =>
      ∃ listing items host meta host_uid version host_name ref,
        last_list h = Some listing ∧ (v ← item listing "items"; iter v) = Ok items ∧
        own_hosts items n ns uid = Ok [] ∧ host ∈ items ∧ free host ∧
        item host "metadata" = Ok meta ∧ item meta "uid" = Ok host_uid ∧
        item meta "resourceVersion" = Ok version ∧ item meta "name" = Ok host_name ∧
        consumer_ref n ns uid = Ok ref ∧ op = host_spec_op ns host_name host_uid version ref
  | _ => True
  end.

Lemma claim_first_safe listing items labels hosts s h :
  (v ← item listing "items"; iter v) = Ok items → own_hosts items n ns uid = Ok [] →
  (∀ x, x ∈ hosts → x ∈ items) → last_list h = Some listing →
  msafe (history may_claim) (claim_first hosts labels n ns uid) s h (λ _ _ _, True).
Proof.
  intros Hit Hown. revert s h. induction hosts as [|host hosts IH]; intros s h Hin Hl; [done|].
  cbn [claim_first]. assert (Htail : ∀ x, x ∈ hosts → x ∈ items) by (intros; apply Hin; by right).
  bind_lift; [|done]. destruct a; cbn [negb]; [|apply IH; assumption].
  apply msafe_bind, msafe_try. bind_lift; [|apply lost_claim; [by apply IH|done]]. rename a into ref.
  unfold host_patch. apply msafe_bind. do 4 (bind_lift; [|apply lost_claim; [by apply IH|done]]).
  apply msafe_request.
  - exists listing, items, host, a, a0, a1, a2, ref. split_and!; try done; [apply Hin; left|].
    by eapply eligible_free.
  - intros [x|e] _; [exact I|].
    destruct (is_transport e); apply lost_claim; first [by apply IH|done].
Qed.

Lemma select_host_safe sp st s h :
  msafe (history may_claim) (select_host sp st n ns uid) s h (λ _ _ _, True).
Proof.
  unfold select_host, list_hosts. apply msafe_bind, msafe_bind, msafe_request; [done|].
  intros [listing|e] _; [|by destruct (is_transport e)].
  bind_lift; [|done]. rename a into v. apply msafe_lift. destruct (iter v) as [items|] eqn:Ei; [|done].
  assert (Hit : (v ← item listing "items"; iter v) = Ok items) by (by rewrite Hr).
  bind_lift; [|done]. destruct a as [|? []]; [|done..].
  bind_lift; [|done]. split_if; [done|]. bind_lift; [|done]. cbv zeta. split_if; [done|].
  bind_lift; [|done]. eapply claim_first_safe; [done|done| |done].
  intros x Hx. by rewrite <- (sort_hosts_perm _ _ Hr3).
Qed.
End claims.

(** C27.  Only free hosts are claimed: whenever the selection is about to claim a
    host, the listing it made shows no host already claimed by this Machine UID, and
    the host as listed, with the UID and resourceVersion the claim is fenced by, is
    free. *)
Theorem only_free_hosts_claimed spec status name namespace uid s t c :
  issues (select_host spec status name namespace uid s) t c → may_claim name namespace uid (rev t) c.
Proof. apply history_issues, select_host_safe. Qed.

(** *** Witnesses *)

Definition fixture_bind : prog (res value * patch) :=
  bind_machine (machine_view provisioned_store "spec") (machine_view provisioned_store "status")
    "machine-a" "test" (VStr "machine-uid") empty_patch.

Lemma allocation_is_immutable_witness :
  ∃ binding, unchanged (machine_view provisioned_store "spec") pool_binding (VStr "machine-uid") binding.
Proof.
  destruct (run_completes fake_handler fixture_bind (fake_world provisioned_store)) as (b & s' & Hf);
    [vm_compute; reflexivity|].
  exists b. refine (allocation_is_immutable _ _ _ _ _ _ _ _ _ _ _ _ Hf); reflexivity.
Defined.

(** A machine that selects its host from the pool, and a free host. *)
Definition pool_store : store :=
  fake_store [("hostSelector", VDict [("matchLabels", VDict [("role", VStr "worker")])])] []
    (connection_fields "host-a.test") [("ready", VBool true)].

Definition is_claim (c : call) : bool :=
  match c with Api _ (PatchObject _ _ _ _ _ _) => true | _ => false end.

Definition fixture_select : prog (res value * patch) :=
  select_host (machine_view pool_store "spec") (machine_view pool_store "status") "machine-a" "test"
    (VStr "machine-uid") empty_patch.

Lemma only_free_hosts_claimed_witness :
  ∃ t c, issues fixture_select t c ∧ is_claim c = true ∧
         may_claim "machine-a" "test" (VStr "machine-uid") (rev t) c.
Proof.
  destruct (run_issues fake_handler is_claim fixture_select (fake_world pool_store))
    as (t & c & Hi & Hc); [vm_compute; reflexivity|].
  exists t, c. split; [exact Hi|]. split; [exact Hc|].
  exact (only_free_hosts_claimed _ _ _ _ _ _ _ _ Hi).
Defined.
