(* ===== verification/PublishSafety.v ===== *)
(** What the reconciliation publishes: readiness is staged only for a machine whose
    bootstrap is known to have succeeded. *)

From S2P Require Import Prelude Py PyStr Config Effects Monitors ApiIO Conditions Contracts Inventory Ssh Operations.
From S2P Require Import MachineStatus Bootstrap Diagnostics Machine FakeApi.
Open Scope Z_scope.

(** ** Invariants of the patch object *)

(** [p], started in a patch that satisfies [I], leaves one, even when it raises. *)
Definition stages (I : patch → Prop) {A} (p : M A) : Prop :=
  ∀ s, I s → msafe any_run p s tt (λ _ s' _, I s').

Section stages.
Context (I : patch → Prop).

Lemma stages_ret {A} (a : A) : stages I (mret a).
Proof. by intros s. Qed.
Lemma stages_raise {A} e : stages I (raise e : M A).
Proof. by intros s. Qed.
Lemma stages_lift {A} (r : res A) : stages I (lift r).
Proof. by intros s. Qed.
Lemma stages_get_patch : stages I get_patch.
Proof. by intros s. Qed.
Lemma stages_perform c : stages I (perform c).
Proof. intros s Hs. by apply msafe_perform. Qed.
Lemma stages_api t op : stages I (api_call t op).
Proof. intros s Hs. by apply msafe_api. Qed.
Lemma stages_attempt {A} c (conv : reply c → res A) : stages I (attempt_call c conv).
Proof. intros s Hs. by apply msafe_attempt. Qed.
Lemma stages_bind {A B} (p : M A) (f : A → M B) :
  stages I p → (∀ a, stages I (f a)) → stages I (mbind f p).
Proof.
  intros Hp Hf s Hs. apply msafe_bind. eapply msafe_mono; [by apply Hp|].
  intros [a|e] s' [] Hs'; [by apply Hf|done].
Qed.
Lemma stages_try {A} (p : M A) clauses :
  stages I p → (∀ e p', clauses e = Some p' → stages I p') → stages I (try_except p clauses).
Proof.
  intros Hp Hc s Hs. apply msafe_try. eapply msafe_mono; [by apply Hp|].
  intros [a|e] s' [] Hs'; [done|]. destruct (clauses e) eqn:E; [by eapply Hc|done].
Qed.
Lemma stages_except {A} (p : M A) h : stages I p → (∀ e, stages I (h e)) → stages I (except_Exception p h).
Proof.
  intros Hp Hh. apply stages_try; [done|]. intros e p'. destruct (is_Exception e); [|done]. by intros [= <-].
Qed.
Lemma stages_finally {A} (p : M A) f : stages I p → stages I f → stages I (try_finally p f).
Proof.
  intros Hp Hf s Hs. apply msafe_finally. eapply msafe_mono; [by apply Hp|]. intros r s' [] Hs'.
  eapply msafe_mono; [by apply Hf|]. by intros [] ? [].
Qed.
Lemma stages_outcome {A} (p : M A) : stages I p → stages I (outcome p).
Proof. intros Hp s Hs. apply msafe_outcome. by apply Hp. Qed.
End stages.

(** Walks a program, unfolding its definitions; the hints know the patch operations
    and the loops. *)
Ltac stages_step :=
  first
    [ assumption
    | solve [auto with stages nocore]
    | lazymatch goal with
      | |- ∀ _, _ => intro
      | |- stages _ (mbind _ _) => apply stages_bind
      | |- stages _ (mret _) => apply stages_ret
      | |- stages _ (raise _) => apply stages_raise
      | |- stages _ (lift _) => apply stages_lift
      | |- stages _ get_patch => apply stages_get_patch
      | |- stages _ (perform _) => apply stages_perform
      | |- stages _ (api_call _ _) => apply stages_api
      | |- stages _ (attempt_call _ _) => apply stages_attempt
      | |- stages _ (except_Exception _ _) => apply stages_except
      | |- stages _ (try_finally _ _) => apply stages_finally
      | |- stages _ (outcome _) => apply stages_outcome
      | |- stages _ (try_except _ _) =>
          apply stages_try;
          [| let e := fresh "e" in let p' := fresh "p" in let He := fresh "He" in
             intros e p' He; cbv beta in He; destruct e; simplify_eq He;
             try (intros <-); repeat case_match; simplify_eq ]
      | |- stages _ (let _ := _ in _) => cbv zeta
      | |- stages _ (match ?x with _ => _ end) => destruct x
      | |- stages _ ?p => let h := head_of p in unfold h; cbv beta
      end ].
Ltac stages := repeat stages_step.

Create HintDb stages.

(** ** Nothing announced *)

(** No field staged so far says that the machine is provisioned. *)
Definition unannounced (s : patch) : Prop :=
  dget (p_spec s) "providerID" = None ∧
  (dget (p_status s) "ready" = None ∨ dget (p_status s) "ready" = Some (VBool false)) ∧
  (dget (p_status s) "initialization" = None ∨ dget (p_status s) "initialization" = Some not_provisioned).

Abbreviation quietly := (stages unannounced).

Lemma unannounced_status k v s :
  unannounced s →
  (k = "ready" → v = VBool false) → (k = "initialization" → v = not_provisioned) →
  unannounced (Patch (p_spec s) (dset (p_status s) k v) (p_locals s)).
Proof.
  intros (Hp & Hr & Hi) Hkr Hki. split_and!; simpl; [done|..].
  - destruct (decide (k = "ready")) as [->|Hne]; [right; by rewrite dget_dset_eq, Hkr|].
    by rewrite dget_dset_ne.
  - destruct (decide (k = "initialization")) as [->|Hne]; [right; by rewrite dget_dset_eq, Hki|].
    by rewrite dget_dset_ne.
Qed.

Lemma status_set_quietly k v :
  (k = "ready" → v = VBool false) → (k = "initialization" → v = not_provisioned) → quietly (status_set k v).
Proof. intros Hr Hi s Hs. by apply unannounced_status. Qed.

Lemma status_pop_quietly k : quietly (status_pop k).
Proof.
  intros s (Hp & Hr & Hi). unfold status_pop. apply msafe_bind, msafe_get_patch, msafe_put_patch.
  split_and!; simpl; [done|..].
  - destruct (decide (k = "ready")) as [->|Hne]; [left; apply dget_ddel_eq|by rewrite dget_ddel_ne].
  - destruct (decide (k = "initialization")) as [->|Hne]; [left; apply dget_ddel_eq|by rewrite dget_ddel_ne].
Qed.

Lemma spec_set_quietly k v : k ≠ "providerID" → quietly (spec_set k v).
Proof. intros Hk s (Hp & Hr & Hi). split_and!; simpl; [by rewrite dget_dset_ne|done|done]. Qed.

Lemma local_set_quietly k v : quietly (local_set k v).
Proof. intros s (Hp & Hr & Hi). by split_and!. Qed.

#[export] Hint Resolve status_pop_quietly local_set_quietly : stages.
#[export] Hint Extern 1 (quietly (status_set _ _)) => (apply status_set_quietly; done) : stages.
#[export] Hint Extern 1 (quietly (spec_set _ _)) => (apply spec_set_quietly; done) : stages.

Section quietly.
Context `{Config} `{Yaml}.

Lemma merge_updates_quietly result updates generation : quietly (merge_updates result updates generation).
Proof. revert result. induction updates as [|u updates IH]; intros result; simpl; stages. Qed.

Lemma stage_fields_quietly fields binding : "providerID" ∉ fields → quietly (stage_fields fields binding).
Proof.
  induction fields as [|f fields IH]; simpl; [intros; apply stages_ret|].
  rewrite not_elem_of_cons. intros [Hf Hr]. specialize (IH Hr). stages.
Qed.

Lemma claim_first_quietly hosts labels n ns uid : quietly (claim_first hosts labels n ns uid).
Proof. induction hosts as [|h hosts IH]; simpl; stages. Qed.

Lemma observe_loop_quietly fuel conn cmd deadline : quietly (observe_loop fuel conn cmd deadline).
Proof. induction fuel as [|fuel IH]; simpl; stages. Qed.

Lemma pause_of_owners_quietly owners ns cn cv : quietly (pause_of_owners owners ns cn cv).
Proof. revert cn cv. induction owners as [|o owners IH]; intros cn cv; simpl; stages. Qed.

Hint Resolve pause_of_owners_quietly merge_updates_quietly claim_first_quietly observe_loop_quietly : stages.

Lemma connection_fields_quietly binding : quietly (stage_fields CONNECTION_FIELDS binding).
Proof. apply stage_fields_quietly. by apply (bool_decide_unpack _). Qed.
Hint Resolve connection_fields_quietly : stages.

Lemma bind_machine_quietly sp st n ns uid : quietly (bind_machine sp st n ns uid).
Proof. stages. Qed.

Lemma pause_quietly st me sp ns : quietly (run_api (report_pause st me (is_paused sp me ns))).
Proof. stages. Qed.

Lemma stage_failure_quietly st me r fm m b : quietly (stage_failure st me r fm m b).
Proof. stages. Qed.
Hint Resolve stage_failure_quietly : stages.

Lemma or_stage_quietly {A} st me r m (x : res A) : quietly (or_stage st me r m x).
Proof. stages. Qed.
Hint Resolve or_stage_quietly : stages.

Lemma prepare_payload_quietly sp st me d i : quietly (prepare_payload sp st me d i).
Proof. stages. Qed.

Lemma read_credentials_quietly sp st me b ns : quietly (read_credentials sp st me b ns).
Proof. stages. Qed.

Lemma dry_run_quietly st me a p u c : quietly (dry_run st me a p u c).
Proof. stages. Qed.

Lemma wait_for_owner_quietly st me : quietly (wait_for_owner st me).
Proof. stages. Qed.

Lemma wait_for_bootstrap_data_quietly {A} st me n : quietly (wait_for_bootstrap_data st me n : M A).
Proof. stages. Qed.

Lemma bootstrap_on_host_quietly st me b uid n ns e s sg o c :
  quietly (bootstrap_on_host st me b uid n ns e s sg o c).
Proof. stages. Qed.
End quietly.

#[export] Hint Resolve stage_failure_quietly or_stage_quietly bootstrap_on_host_quietly
  merge_updates_quietly pause_of_owners_quietly claim_first_quietly observe_loop_quietly
  connection_fields_quietly : stages.

(** ** The receipt *)

(** The host answered the observation of this Machine's bootstrap with a receipt:
    exit code 0. *)
Definition shows_success (uid : value) (e : event) : Prop :=
  match e with
  | Ev (SshRun _ command _) (Ok c) =>
      command = observe_command (py_str uid) ∧ default (-1) (exit_status c) = 0 ∧
      ∃ first rest, partition (Ascii.ascii_of_nat 10) (default EmptyString (completed_stdout c)) = (first, rest) ∧
        startswith "CAPI_EXIT=" first = true ∧ py_int (removeprefix "CAPI_EXIT=" first) = Some 0
  | _ => False
  end.

Abbreviation told := (yields (λ _ _, True)).

Section receipt.
Context `{Config} `{Yaml} (uid : value).

Lemma execute_told conn command t s h :
  told (execute conn command t) s h (λ r h', ∃ c timeout,
    h' = Ev (SshRun conn command timeout) (Ok c) :: h ∧ exit_code r = default (-1) (exit_status c) ∧
    stdout r = default EmptyString (completed_stdout c)).
Proof.
  eapply yields_bind.
  { apply (yields_attempt _ _ _ _ _ (λ c h', h' = Ev (SshRun conn command (timeout_or t DEFAULT_COMMAND_TIMEOUT)) (Ok c) :: h));
      [done|]. by intros r c ->. }
  intros c s' h' ->. apply yields_ret. by eexists c, _.
Qed.

Lemma read_observation_receipt r out :
  read_observation r = Ok (Some out) → exit_code out = 0 →
  exit_code r = 0 ∧ ∃ first rest, partition (Ascii.ascii_of_nat 10) (stdout r) = (first, rest) ∧
    startswith "CAPI_EXIT=" first = true ∧ py_int (removeprefix "CAPI_EXIT=" first) = Some 0.
Proof.
  unfold read_observation. destruct (negb (success r)) eqn:Hs; [done|].
  apply negb_false_iff, Z.eqb_eq in Hs. destruct (partition _ _) as [first rest] eqn:Hp.
  destruct (startswith "CAPI_EXIT=" first) eqn:Hf; [|by destruct (String.eqb first "CAPI_PENDING")].
  destruct (py_int _) as [code|] eqn:Hc; [|done]. intros [= <-]. simpl. intros ->.
  split; [done|]. by exists first, rest.
Qed.

Lemma observe_loop_told fuel conn deadline s h :
  told (observe_loop fuel conn (observe_command (py_str uid)) deadline) s h
    (λ r h', exit_code r = 0 → Exists (shows_success uid) h').
Proof.
  revert s h. induction fuel as [|fuel IH]; intros s h; simpl;
    (apply msafe_bind, msafe_perform; [done|]; intros now _; destruct (negb (now <? deadline));
     [by apply yields_raise|]); [by apply yields_raise|].
  eapply yields_bind; [apply execute_told|]. intros r s1 h1 (c & t & -> & Hcode & Hout).
  apply yields_bind_lift. intros seen Hseen. destruct seen as [out|].
  - apply yields_ret. intros Hz. left. destruct (read_observation_receipt _ _ Hseen Hz) as [Hr Hp].
    split_and!; [done|congruence|by rewrite <- Hout].
  - apply msafe_bind, msafe_attempt; [done|]. intros [[]|e] _; [apply IH|done].
Qed.

Lemma bootstrap_on_host_told st me b n ns e s sg o c p h :
  told (bootstrap_on_host st me b uid n ns e s sg o c) p h
    (λ answer h', answer = true → Exists (shows_success uid) h').
Proof.
  unfold bootstrap_on_host. apply yields_after. intros go ? ?. destruct go; [|by apply yields_ret]. cbn [negb].
  do 3 (apply yields_after; intros ? ? ?). apply yields_after. intros id ? ?. cbv zeta. do 3 (apply yields_after; intros ? ? ?).
  apply yields_after. intros go ? ?. destruct go; [|by apply yields_ret]. cbn [negb].
  eapply yields_bind.
  { unfold durable_bootstrap. apply yields_bind_lift. intros fenced _.
    apply yields_after. intros submitted ? ?.
    destruct (negb (success submitted)); [by apply yields_raise|].
    apply msafe_bind, msafe_perform; [done|]. intros start _. apply observe_loop_told. }
  intros result p1 t1 Hr. destruct (negb (success result)) eqn:Hs.
  { do 2 (apply yields_after; intros ? ? ?). by apply yields_ret. }
  apply negb_false_iff, Z.eqb_eq, Hr in Hs.
  eapply yields_bind; [apply (yields_keep _ _ _ (shows_success uid)), Hs|]. intros [] p2 t2 Hs2. by apply yields_ret.
Qed.
End receipt.

(** ** The verdict *)

Section verdict.
Context `{Config} `{Yaml} (receipt : event → Prop).

(** Nothing was announced, or the receipt was seen. *)
Definition verdict {A} (_ : res A) (s : patch) (h : list event) : Prop :=
  unannounced s ∨ Exists receipt h.

Definition judged {A} (p : M A) : Prop := ∀ s h, unannounced s → msafe observed p s h verdict.

Lemma judged_quietly {A} (p : M A) : quietly p → judged p.
Proof.
  intros Hp s h Hs. eapply msafe_mono; [apply (any_run_observed _ _ _ (λ _, unannounced)), Hp, Hs|].
  intros r s' h' [Hs' _]. by left.
Qed.

Lemma judged_bind {A B} (p : M A) (f : A → M B) : quietly p → (∀ a, judged (f a)) → judged (mbind f p).
Proof.
  intros Hp Hf s h Hs. apply msafe_bind.
  eapply msafe_mono; [apply (any_run_observed _ _ _ (λ _, unannounced)), Hp, Hs|].
  intros [a|e] s' h' [Hs' _]; [by apply Hf|by left].
Qed.

Lemma bootstrapped_told uid st me b n ns e script strategy addr port user creds s h :
  told (try_except
    (host_operation b uid (λ operation,
       with_connection (ssh_connect addr port user (fst creds) None (snd creds)) (λ conn,
         bootstrap_on_host st me b uid n ns e script strategy operation conn)))
    (bootstrap_error st me)) s h (λ answer h', answer = true → Exists (shows_success uid) h').
Proof.
  assert (Hmono : ∀ (answer : bool) h t, (answer = true → Exists (shows_success uid) h) →
    answer = true → Exists (shows_success uid) (t ++ h)).
  { intros answer h' t Hh Ha. apply Exists_app. right. by apply Hh. }
  apply yields_try. eapply msafe_mono.
  - apply (yields_bind_lift (λ _ _, True)). intros address _. apply yields_bind_lift. intros pt _.
    do 2 (apply yields_after; intros ? ? ?). destruct (negb _); [by apply yields_raise|].
    apply (yields_finally _ _ _ _ (λ answer h', answer = true → Exists (shows_success uid) h') Hmono).
    apply yields_try. eapply msafe_mono.
    + apply yields_after. intros conn s2 h2. apply yields_finally; [exact Hmono|apply bootstrap_on_host_told].
    + intros [answer|err] s3 h3 Hp; [by apply Hp|]. intros p'. destruct err; try discriminate. intros [= <-].
      apply yields_after. intros [] ? ?; by apply yields_raise.
  - intros [answer|err] s3 h3 Hp; [by apply Hp|]. intros p' Hp'.
    destruct err; try discriminate Hp'; injection Hp' as <-; apply yields_after; intros [] ? ?;
      by apply yields_raise.
Qed.

Lemma bootstrapped_quietly uid st me b n ns e script strategy addr port user creds :
  quietly (try_except
    (host_operation b uid (λ operation,
       with_connection (ssh_connect addr port user (fst creds) None (snd creds)) (λ conn,
         bootstrap_on_host st me b uid n ns e script strategy operation conn)))
    (bootstrap_error st me)).
Proof.
  apply stages_try; [stages|]. intros err p' Hp'.
  destruct err; try discriminate Hp'; injection Hp' as <-; stages.
Qed.

Lemma provision_judged sp st me b uid n ns mn a p u strategy :
  (∀ e, shows_success uid e → receipt e) →
  judged (provision sp st me b uid n ns mn a p u strategy).
Proof.
  intros Hreceipt. apply judged_bind; [stages|]. intros []. apply judged_bind; [stages|]. intros data. cbv zeta.
  destruct (String.eqb _ _); [apply judged_quietly, wait_for_bootstrap_data_quietly|].
  apply judged_bind; [apply prepare_payload_quietly|]. intros payload.
  apply judged_bind; [apply read_credentials_quietly|]. intros creds.
  apply judged_bind; [stages|]. intros dry.
  destruct (truthy dry); [apply judged_quietly, dry_run_quietly|].
  intros s h Hs. apply msafe_bind. eapply msafe_mono.
  { apply msafe_conj; [apply (any_run_observed _ _ _ (λ _, unannounced)), bootstrapped_quietly, Hs|].
    apply bootstrapped_told. }
  intros [[]|err] s' h' [[Hs' _] Hr]; [|by left..].
  apply any_observed. intros r s2 t. right. apply Exists_app. right.
  eapply Exists_impl; [by apply (Hr true)|done].
Qed.

Lemma reconcile_judged spec status name namespace meta :
  is_already_provisioned status ≠ Ok true →
  (∀ uid e, get meta "uid" = Ok uid → shows_success uid e → receipt e) →
  judged (sshmachine_reconcile_impl spec status name namespace meta).
Proof.
  intros Hnew Hreceipt. apply judged_bind; [apply pause_quietly|]. intros paused.
  destruct paused; [by apply judged_quietly; stages|].
  apply judged_bind; [stages|]. intros deleted. destruct (truthy deleted); [by apply judged_quietly; stages|].
  apply judged_bind; [stages|]. intros owner_refs. apply judged_bind; [stages|]. intros owned.
  destruct (negb owned); [apply judged_quietly, wait_for_owner_quietly|].
  apply judged_bind; [stages|]. intros machine_ref. apply judged_bind; [stages|]. intros machine_name.
  apply judged_bind; [apply or_stage_quietly|]. intros strategy.
  intros s h Hs. apply msafe_bind, msafe_lift. destruct (get meta "uid") as [uid|e] eqn:Hu; [|by left].
  revert s h Hs. apply judged_bind; [stages; apply bind_machine_quietly|]. intros binding.
  unfold reconcile_bound. apply judged_bind; [stages|]. intros spec_address.
  apply judged_bind; [stages|]. intros address. destruct (negb (truthy address)); [by apply judged_quietly; stages|].
  apply judged_bind; [stages|]. intros port. apply judged_bind; [stages|]. intros spec_user.
  apply judged_bind; [stages|]. intros user. intros s h Hs. apply msafe_bind, msafe_lift.
  destruct (is_already_provisioned status) as [[]|e]; [done| |by left].
  apply provision_judged; [|done]. intros e. by apply Hreceipt.
Qed.
End verdict.

(** C7.  Readiness is published only for a bootstrapped machine: whatever a
    reconciliation has staged when it ends, normally or by an exception, it announces
    (providerID, ready, initialization.provisioned) only if the status it started from
    records the machine as provisioned, or its host answered, in this run, with the
    receipt of this Machine's bootstrap and exit code 0. *)
Theorem ready_only_after_receipt `{Config} `{Yaml} spec status name namespace meta s t r s' :
  unannounced s → finishes (sshmachine_reconcile_impl spec status name namespace meta s) t (r, s') →
  unannounced s' ∨ is_already_provisioned status = Ok true ∨
  Exists (λ e, ∃ uid, get meta "uid" = Ok uid ∧ shows_success uid e) t.
Proof.
  intros Hs Hf. assert (Hd : Decision (is_already_provisioned status = Ok true)).
  { destruct (is_already_provisioned status) as [[]|]; [by left|by right..]. }
  destruct Hd as [Hp|Hp]; [by right; left|].
  pose proof (reconcile_judged (λ e, ∃ uid, get meta "uid" = Ok uid ∧ shows_success uid e)
    spec status name namespace meta Hp (λ uid e Hu He, ex_intro _ uid (conj Hu He)) s [] Hs) as Hj.
  destruct (history_finishes _ _ _ _ _ _ _ Hj Hf) as [Hu|He]; [by left|].
  right; right. apply Exists_rev in He. by rewrite rev_involutive in He.
Qed.

(** *** Witness: the fixture's machine is bootstrapped and announced *)

Definition published {A} (rs : res A * patch) : bool :=
  match dget (p_status (snd rs)) "ready" with Some (VBool true) => true | _ => false end.

Definition fixture_publish : prog (res unit * patch) :=
  @sshmachine_reconcile_impl replica plain_yaml (machine_view fresh_store "spec") (VDict []) "machine-a" "test"
    (machine_view fresh_store "metadata") empty_patch.

Lemma ready_only_after_receipt_witness :
  ∃ t rs, finishes fixture_publish t rs ∧ published rs = true ∧
    Exists (λ e, ∃ uid, get (machine_view fresh_store "metadata") "uid" = Ok uid ∧ shows_success uid e) t.
Proof.
  destruct (run_outcome fake_handler published fixture_publish (fake_world fresh_store)) as (t & [r s'] & Hf & Hp);
    [vm_compute; reflexivity|].
  exists t, (r, s'). split_and!; [done|done|].
  assert (Hu : unannounced empty_patch) by (split_and!; [done|by left..]).
  destruct (ready_only_after_receipt _ _ _ _ _ _ _ _ _ Hu Hf) as [(_ & Hr & _)|[Hq|He]];
    [|discriminate Hq|exact He].
  unfold published in Hp. simpl in Hp. destruct Hr as [Hr|Hr]; rewrite Hr in Hp; discriminate Hp.
Defined.
