(* ===== verification/ReadinessSafety.v ===== *)
(** What a positive readiness probe establishes, and the runtime record it reads. *)

From S2P Require Import Prelude Py PyStr PyTime Sha256 Effects Monitors ApiIO Contracts Readiness FakeApi ReconcileLocks.
Open Scope Z_scope.

(** ** Heartbeats *)

Lemma micros_below_mono a a' f : a' ≤ a → micros_below a f = true → micros_below a' f = true.
Proof.
  intros Ha. unfold micros_below. destruct f as [n e|b|]; [|done..].
  destruct (Z.leb_spec 0 e); rewrite !Z.ltb_lt; [lia|].
  pose proof (Z.pow_pos_nonneg 10 (- e)). nia.
Qed.

Lemma capped_bound a f : micros_below a (capped f) = true → a < PEERING_LIFETIME * second.
Proof.
  unfold capped. destruct (micros_below (PEERING_LIFETIME * second) f) eqn:E.
  - unfold micros_below. simpl. rewrite Z.ltb_lt. lia.
  - intros Ha. apply Z.nle_gt. intros Hle. by rewrite (micros_below_mono a _ f Hle Ha) in E.
Qed.

(** A heartbeat of this process: written since its startup, no older than its own
    lifetime and never older than [PEERING_LIFETIME]. *)
Definition heartbeat_since (peer : value) (started_at now : Z) : Prop :=
  ∃ lastseen moment seen lifetime f,
    item peer "lastseen" = Ok lastseen ∧ fromisoformat_value lastseen = Ok moment ∧
    instant moment = Some seen ∧ item peer "lifetime" = Ok lifetime ∧ py_float lifetime = Ok f ∧
    started_at ≤ seen ≤ now ∧ micros_below (now - seen) f = true ∧ now - seen < PEERING_LIFETIME * second.

Lemma capped_below a f : micros_below a (capped f) = true → micros_below a f = true.
Proof.
  unfold capped. destruct (micros_below (PEERING_LIFETIME * second) f) eqn:E; [|done].
  intros Ha. apply (micros_below_mono _ _ _) with (2 := E).
  unfold micros_below in Ha. simpl in Ha. rewrite Z.ltb_lt in Ha. lia.
Qed.

Lemma fresh_heartbeat_since peer started_at now :
  fresh_heartbeat peer started_at now = Ok true → heartbeat_since peer started_at now.
Proof.
  unfold fresh_heartbeat. destruct (item peer "lastseen") as [l|] eqn:El; [|done]. simpl.
  destruct (fromisoformat_value l) as [d|] eqn:Ed; [|done]. simpl.
  destruct (item peer "lifetime") as [v|] eqn:Ev; [|done]. simpl.
  destruct (py_float v) as [f|] eqn:Ef; [|done]. simpl.
  unfold since. destruct (utcoffset d) as [o|] eqn:Eo; [|done]. simpl. intros [= Hb].
  apply andb_true_iff in Hb as [[H1 H2]%andb_true_iff H3]. apply Z.leb_le in H1, H2.
  exists l, d, (wall d - o), v, f. unfold instant. rewrite Eo.
  split_and!; try done; [lia..|by apply capped_below|by apply (capped_bound _ f)].
Qed.

Lemma any_fresh_peer_found peers priority started_at now :
  any_fresh_peer peers priority started_at now = Ok true →
  ∃ peer theirs, peer ∈ peers ∧ get peer "priority" = Ok theirs ∧ py_eqb theirs priority = true ∧
    heartbeat_since peer started_at now.
Proof.
  induction peers as [|peer peers IH]; simpl; [done|]. intros H.
  assert (Hrest : any_fresh_peer peers priority started_at now = Ok true →
    ∃ peer' theirs, peer' ∈ peer :: peers ∧ get peer' "priority" = Ok theirs ∧
      py_eqb theirs priority = true ∧ heartbeat_since peer' started_at now).
  { intros (p & th & Hp & ?)%IH. exists p, th. split; [by right|done]. }
  destruct (is_dict peer); [|by apply Hrest]. simpl in H.
  destruct (get peer "priority") as [th|] eqn:Et; [|done]. simpl in H.
  destruct (py_neqb th priority) eqn:Eq; [by apply Hrest|]. apply negb_false_iff in Eq.
  destruct (fresh_heartbeat peer started_at now) as [[]|e] eqn:Ef; [|by apply Hrest|].
  - exists peer, th. split; [left|]. split_and!; [done..|]. by apply fresh_heartbeat_since.
  - destruct (is_unreadable true e); [by apply Hrest|done].
Qed.

(** ** What the probe observed *)

(** The operator's liveness endpoint served this runtime record. *)
Definition serves_runtime (runtime : value) (e : event) : Prop :=
  match e with
  | Ev (External (HttpGet false host port path _ _)) (Ok (status, p)) =>
      host = "127.0.0.1" ∧ port = 8080 ∧ path = "/healthz" ∧ status = 200 ∧ (v ← json p; get v "runtime") = Ok runtime
  | _ => False
  end.

(** The API server returned this peering object, to either client. *)
Definition returns_peering (peering : value) (e : event) : Prop :=
  match e with
  | Ev (Api _ (GetClusterObject group version plural name)) (Ok v) =>
      group = "kopf.dev" ∧ plural = "clusterkopfpeerings" ∧ name = PEERING_NAME ∧ v = peering
  | Ev (External (HttpGet true _ _ path _ _)) (Ok (status, p)) =>
      path = "/apis/kopf.dev/v1/clusterkopfpeerings/" +:+ PEERING_NAME ∧ status = 200 ∧ json p = Ok peering
  | _ => False
  end.

Definition reads_clock (now : Z) (e : event) : Prop :=
  match e with Ev Now t => t = now | _ => False end.

(** This process is ready: configured, and either alone or with a fresh heartbeat
    under its own priority in the peering object. *)
Definition ready (runtime : value) (h : list event) : Prop :=
  get runtime "configured" = Ok (VBool true) ∧
  (get runtime "ha" = Ok (VBool false) ∨
   ∃ priority started_at peering peers peer theirs now,
     get runtime "priority" = Ok (VInt priority) ∧ startup_epoch runtime = Ok started_at ∧
     Exists (returns_peering peering) h ∧ peers_of peering = Ok peers ∧ Exists (reads_clock now) h ∧
     peer ∈ peers ∧ get peer "priority" = Ok theirs ∧ py_eqb theirs (VInt priority) = true ∧
     heartbeat_since peer started_at now).

(** The two clients of [readiness_api]. *)
Definition known_client (client : ReadinessAPI) : Prop := client = sdk_api ∨ client = in_cluster_api.

Lemma get_peering client s h :
  known_client client →
  msafe observed (get_cluster_custom_object client "kopf.dev" "v1" "clusterkopfpeerings" PEERING_NAME) s h
    (λ r _ h', ∀ v, r = Ok v → Exists (returns_peering v) h').
Proof.
  intros [->| ->]; simpl.
  - apply msafe_api; [done|]. intros r _ v ->. left. by split_and!.
  - unfold in_cluster_get, getenv. apply msafe_bind, msafe_attempt; [done|]. intros [p|e] _; [|done].
    cbv zeta beta iota. split_if; [done|]. apply msafe_bind, msafe_perform; [done|]. intros [host|] _; [|done].
    apply msafe_bind, msafe_perform; [done|]. intros port _. destruct (py_int (default "443" port)); [|done].
    apply msafe_bind, msafe_attempt; [done|]. intros [[status pl]|e] _; [|done]. cbn [fst snd].
    split_if; [done|]. split_if; [done|]. bind_lift; [|done]. split_if; [done|].
    apply msafe_ret. intros v [= <-]. left. split_and!; [done| |done].
    apply negb_false_iff in Hb0. by apply Z.eqb_eq in Hb0.
Qed.

Lemma is_True_VBool v : is_True v = true → v = VBool true.
Proof. by destruct v as [|[]| | | |]. Qed.
Lemma is_False_VBool v : is_False v = true → v = VBool false.
Proof. by destruct v as [|[]| | | |]. Qed.

Lemma check_readiness_ready client runtime s h :
  known_client client →
  msafe observed (check_readiness client runtime) s h
    (λ r _ h', r = Ok tt → (∃ t, h' = t ++ h) ∧ ready runtime h').
Proof.
  intros Hk. unfold check_readiness. bind_lift; [|done]. split_if; [done|].
  apply negb_false_iff, is_True_VBool in Hb as ->.
  apply msafe_bind, any_observed. intros [listed|e] s1 t1; [|done].
  bind_lift; [|done]. split_if.
  { apply is_False_VBool in Hb as ->. apply msafe_ret. intros _. split; [by exists t1|]. by split; [|left]. }
  bind_lift; [|done]. rename a0 into priority. destruct priority as [| |z| | |]; try done.
  apply msafe_bind, msafe_try, msafe_lift.
  destruct (startup_epoch runtime) as [started|e] eqn:Es; [|by destruct (is_unreadable false e)].
  apply msafe_bind. eapply msafe_mono.
  { apply (msafe_conj observed _ _ _ (λ _ _ (h' : list event), ∃ t, h' = t ++ t1 ++ h)); [by apply get_peering|].
    apply any_observed. by intros; eexists. }
  intros [peering|e] s2 h2 [Hp [t2 ->]]; [|done].
  apply msafe_bind, msafe_perform; [done|]. intros now _.
  bind_lift; [|done]. rename a0 into peers. bind_lift; [|done]. destruct a0; [|done].
  apply msafe_ret. intros _. split; [exists (Ev Now now :: t2 ++ t1); simpl; by rewrite app_assoc|].
  split; [done|]. right. apply any_fresh_peer_found in Hr3 as (peer & th & Hin & Hth & Heq & Hfresh).
  exists z, started, peering, peers, peer, th, now. split_and!; try done.
  - right. by apply Hp.
  - by left.
Qed.

Lemma local_runtime_served s h :
  msafe observed local_runtime s h (λ r _ h', ∀ runtime, r = Ok runtime → Exists (serves_runtime runtime) h').
Proof.
  unfold local_runtime. apply msafe_bind, msafe_attempt; [done|]. intros [[status p]|e] _; [|done].
  cbn [fst snd]. split_if; [done|]. apply negb_false_iff, Z.eqb_eq in Hb.
  bind_lift; [|done]. bind_lift; [|done]. bind_lift; [|done]. split_if; [done|].
  apply msafe_ret. intros runtime [= <-]. left. split_and!; try done. by rewrite Hr.
Qed.

Lemma readiness_api_known s h :
  msafe observed readiness_api s h (λ r _ h', (∃ t, h' = t ++ h) ∧ ∀ client, r = Ok client → known_client client).
Proof.
  unfold readiness_api, getenv. apply msafe_bind, msafe_perform; [done|]. intros host _. split_if.
  - apply msafe_ret. split; [by eexists [_]|]. intros client [= <-]. by right.
  - apply msafe_bind, any_observed. intros [[]|e] s1 t; [|split; [eexists (t ++ [_]); rewrite <- app_assoc; reflexivity|done]].
    apply msafe_ret. split; [eexists (t ++ [_]); rewrite <- app_assoc; reflexivity|]. intros client [= <-]. by left.
Qed.

(** C29.  The probe reports ready only for this very process: when [main] exits with
    0, the operator's own liveness endpoint served a configured runtime record, and
    unless the operator runs alone the API server returned a peering object in which
    a peer of this record's priority was seen since the process started, within its
    lifetime and the last 30 seconds. *)
Theorem ready_means_fresh_peer s t s' :
  finishes (readiness_main s) t (Ok 0, s') →
  ∃ runtime, Exists (serves_runtime runtime) (rev t) ∧ ready runtime (rev t).
Proof.
  intros Hf.
  refine (history_finishes (λ _ _, True) _ _ _ _ _
    (λ r _ h, r = Ok 0 → ∃ runtime, Exists (serves_runtime runtime) h ∧ ready runtime h) _ Hf eq_refl).
  unfold readiness_main, print. apply msafe_bind, msafe_try.
  assert (Hcaught : ∀ e s h, match match e with
      | NotReadyError message =>
          Some (perform (External (WriteLine ("not ready: " +:+ message))) ;; mret (Some 1))
      | _ => if is_Exception e
             then Some (perform (External (WriteLine ("not ready: " +:+ exn_class e))) ;; mret (Some 1)) else None
      end with
    | Some p => msafe observed p s h (λ r s h, match r with
        | Ok a => msafe observed (match a with Some code => mret code
                                  | None => perform (External (WriteLine "ready")) ;; mret 0 end) s h
                    (λ r _ h, r = Ok 0 → ∃ runtime, Exists (serves_runtime runtime) h ∧ ready runtime h)
        | Err e => Err e = Ok 0 → ∃ runtime, Exists (serves_runtime runtime) h ∧ ready runtime h
        end)
    | None => Err e = Ok 0 → ∃ runtime, Exists (serves_runtime runtime) h ∧ ready runtime h
    end).
  { intros [] s1 h1; try done; by apply msafe_bind, msafe_perform. }
  apply msafe_bind. eapply msafe_mono; [apply local_runtime_served|].
  intros [runtime|e] s1 h1 Hserved; [|apply Hcaught]. specialize (Hserved _ eq_refl).
  apply msafe_bind. eapply msafe_mono; [apply readiness_api_known|].
  intros [client|e] s2 h2 [[t2 ->] Hk]; [|apply Hcaught]. specialize (Hk _ eq_refl).
  apply msafe_bind. eapply msafe_mono; [by apply check_readiness_ready|].
  intros [[]|e] s3 h3 Hready; [|apply Hcaught]. destruct (Hready eq_refl) as [[t3 ->] Hr].
  apply msafe_bind, msafe_perform; [done|]. intros [] _. apply msafe_ret. intros _.
  exists runtime. split; [right; apply Exists_app; right; apply Exists_app; by right|].
  destruct Hr as [Hc Hr]. split; [done|]. destruct Hr as [Ha|Hr]; [by left|right].
  destruct Hr as (p & st & pe & ps & peer & th & now & H1 & H2 & H3 & H4 & H5 & H6).
  exists p, st, pe, ps, peer, th, now. split_and!; try apply H6; try done; by right.
Qed.

(** ** The runtime record *)

(** The record the liveness endpoint serves after [configure] ended with [r]. *)
Definition recorded (s : patch) : option value := dget (p_locals s) "_runtime".

Definition startup_post (settings : OperatorSettings) (r : res OperatorSettings) (s : patch) : Prop :=
  match r with
  | Ok settings' =>
      dget (p_locals s) "Configuration.retries" = Some (VInt 0) ∧
      ∃ runtime now, recorded s = Some runtime ∧ get runtime "configured" = Ok (VBool true) ∧
        get runtime "priority" = Ok (VInt (peering_priority settings')) ∧
        get runtime "started_at" = Ok (VStr (isoformat now)) ∧
        (get runtime "ha" = Ok (VBool false) ∧ peering_priority settings' = peering_priority settings ∨
         get runtime "ha" = Ok (VBool true) ∧ peering_mandatory settings' = true ∧
         peering_name settings' = PEERING_NAME ∧ peering_lifetime settings' = PEERING_LIFETIME ∧
         ∃ identity, peering_priority settings' = peer_priority identity)
  | Err _ => recorded s = Some (VDict [("configured", VBool false)])
  end.

Lemma load_api_config_keeps s :
  msafe any_run load_api_config s tt (λ _ s' _, s' = s).
Proof.
  unfold load_api_config, getenv. apply msafe_bind, msafe_perform; [done|]. intros host _.
  split_if; [by apply msafe_attempt|].
  apply msafe_bind, msafe_perform; [done|]. intros kubeconfig _.
  split_if; [by apply msafe_attempt|by apply msafe_raise].
Qed.

Lemma set_runtime_recorded v s (Q : res unit → patch → unit → Prop) :
  (∀ s', recorded s' = Some v → (∀ key, key ≠ "_runtime" → dget (p_locals s') key = dget (p_locals s) key) →
     Q (Ok tt) s' tt) →
  msafe any_run (set_runtime v) s tt Q.
Proof.
  intros HQ. apply HQ; [apply dget_dset_eq|]. intros key Hk. by apply dget_dset_ne.
Qed.

(** The last part of [configure]. *)
Lemma startup_recorded settings settings' ha s :
  dget (p_locals s) "Configuration.retries" = Some (VInt 0) →
  (ha = false ∧ peering_priority settings' = peering_priority settings ∨
   ha = true ∧ peering_mandatory settings' = true ∧ peering_name settings' = PEERING_NAME ∧
   peering_lifetime settings' = PEERING_LIFETIME ∧
   ∃ identity, peering_priority settings' = peer_priority identity) →
  msafe any_run
    (now ← perform Now;
     set_runtime (VDict [("configured", VBool true); ("ha", VBool ha);
                         ("priority", VInt (peering_priority settings')); ("started_at", VStr (isoformat now))]) ;;
     mret settings') s tt (λ r s' _, startup_post settings r s').
Proof.
  intros Hs Hp. apply msafe_bind, msafe_perform; [done|]. intros now _.
  apply msafe_bind, set_runtime_recorded. intros s' Hs' Hk. apply msafe_ret.
  split; [by rewrite Hk|]. eexists _, now. split; [exact Hs'|]. split_and!; [done..|].
  destruct Hp as [[-> Hp]|[-> Hp]]; [by left|by right].
Qed.

(** C30.  The operator advertises itself as configured only when its startup went
    through: whenever [configure] fails the liveness endpoint serves an unconfigured
    record, and when it returns the SDK's own retries are off and the record carries the
    very peering priority the operator uses, derived from its identity unless it runs
    alone. *)
Theorem configured_only_after_startup settings s : returns (configure settings) s (startup_post settings).
Proof.
  apply returns_msafe. unfold configure, getenv.
  apply msafe_bind, set_runtime_recorded. intros s1 Hs1 _.
  apply msafe_bind. eapply msafe_mono; [apply load_api_config_keeps|].
  intros [[]|e] s2 [] ->; [|exact Hs1].
  apply msafe_bind. set (s2 := Patch (p_spec s1) (p_status s1) (dset (p_locals s1) "Configuration.retries" (VInt 0))).
  assert (Hs2 : dget (p_locals s2) "Configuration.retries" = Some (VInt 0)) by apply dget_dset_eq.
  change (msafe any_run (set_default_retries 0) s1 tt) with (msafe any_run (put_patch s2) s1 tt).
  apply msafe_put_patch.
  apply msafe_bind, msafe_perform; [done|]. intros ha_text _. cbv zeta.
  apply msafe_bind. split_if.
  - apply msafe_bind, msafe_perform; [done|]. intros pod_uid _.
    apply msafe_bind. apply (msafe_mono _ _ _ _ (λ r s' _, s' = s2 ∧ is_ok r = true)).
    { split_if; [by apply msafe_ret|by apply msafe_perform]. }
    intros [identity|e] s3 [] [-> Hr]; [|done]. apply msafe_ret.
    apply startup_recorded; [done|]. right. split_and!; try done. by exists identity.
  - apply msafe_ret, startup_recorded; [done|]. by left.
Qed.

(** *** Witness: a standby whose heartbeat is two seconds old *)

Definition probe_payload (v : value) : payload := Payload EmptyString (Ok v).

Definition peer_object : value :=
  VDict [("status", VDict [("this-process",
    VDict [("priority", VInt 123); ("lastseen", VStr "2026-09-21T14:13:18+00:00"); ("lifetime", VInt 30)])])].

Definition runtime_record : value :=
  VDict [("configured", VBool true); ("ha", VBool true); ("priority", VInt 123);
         ("started_at", VStr "2026-09-21T14:00:00+00:00")].

(** 2026-09-21T14:13:20Z *)
Definition probe_handler (c : call) (w : unit) : reply c * unit :=
  match c return reply c * unit with
  | External op =>
      (match op return external_reply op with
       | Getenv name => if String.eqb name "KUBERNETES_SERVICE_HOST" then Some "10.0.0.1" else None
       | ReadFile _ => Ok (Payload "token" (Err (ValueError "not JSON")))
       | HttpGet tls _ _ _ _ _ =>
           Ok (200, probe_payload (if tls then peer_object else VDict [("runtime", runtime_record)]))
       | op => some_reply (External op)
       end, w)
  | Now => (1790000000 * second, w)
  | c => (some_reply c, w)
  end.

Lemma ready_means_fresh_peer_witness :
  ∃ t runtime, Exists (serves_runtime runtime) (rev t) ∧ ready runtime (rev t).
Proof.
  destruct (run_returns probe_handler (readiness_main empty_patch) tt (Ok 0)) as [s' Hf];
    [vm_compute; reflexivity|].
  eexists. exact (ready_means_fresh_peer _ _ _ Hf).
Defined.

(** A heartbeat from before the startup, an expired one and one of unlimited
    lifetime that is too old do not count; a fraction of a second does. *)
Example heartbeats :
  let peer lastseen lifetime := VDict [("lastseen", VStr lastseen); ("lifetime", lifetime)] in
  let check p := fresh_heartbeat p (1789999200 * second) (1790000000 * second) in
  check (peer "2026-09-21T13:59:59+00:00" (VInt 30)) = Ok false ∧
  check (peer "2026-09-21T14:12:49+00:00" (VStr "inf")) = Ok false ∧
  check (peer "2026-09-21T14:13:18+00:00" (VInt 2)) = Ok false ∧
  check (peer "2026-09-21T14:13:18Z" (VStr "2.5e0")) = Ok true ∧
  check (peer "2026-09-21T14:13:21+00:00" (VInt 30)) = Ok false ∧
  is_ok (check (peer "2026-09-21T14:13:18" (VInt 30))) = false.
Proof. vm_compute. repeat split. Qed.
