(* ===== verification/ChangelogSafety.v ===== *)
(** The changelog is replaced only by the rendering of a context that agrees with the
    published history. *)

From S2P Require Import Prelude Py PyStr Effects Monitors ApiIO ChangelogMerge Changelog FakeApi.
Open Scope Z_scope.

(** ** What git, git-cliff and the file system said *)

(** A successful command, run in the repository, and its output. *)
Definition ran (repo : string) (args : list string) (p : payload) (e : event) : Prop :=
  match e with
  | Ev (External (Run (Some directory) run_args _)) (Ok q) => directory = repo ∧ run_args = args ∧ q = p
  | _ => False
  end.

Definition git_said (repo : string) (args : list string) (out : string) (e : event) : Prop :=
  ∃ p, ran repo ("git" :: args) p e ∧ strip (text p) = out.

Definition wrote (path content : string) (e : event) : Prop :=
  match e with Ev (External (WriteFile p c)) (Ok _) => p = path ∧ c = content | _ => False end.
Definition made_directory (path : string) (e : event) : Prop :=
  match e with Ev (External (MakeDirectory _)) (Ok p) => p = path | _ => False end.
Definition created (directory path : string) (e : event) : Prop :=
  match e with Ev (External (CreateTemporary d)) (Ok p) => d = directory ∧ p = path | _ => False end.

Section spec.
Context (repo stable_ref output git_cliff : string).

(** [expected] are the stable tags merged into the stable ref, with the commits they
    resolve to, all of them in the history of HEAD. *)
Definition published_history (expected : releases) (h : list event) : Prop :=
  ∃ stable_sha tags head,
    Exists (git_said repo ["rev-parse"; "--verify"; commit_of stable_ref] stable_sha) h ∧
    Exists (git_said repo ["tag"; "--merged"; stable_sha] tags) h ∧
    (∀ tag, tag ∈ splitlines tags → is_stable_tag tag = true → tag ∈ map fst expected) ∧
    Exists (git_said repo ["rev-list"; "HEAD"] head) h ∧
    Forall (λ '(tag, sha), Exists (git_said repo (tag_args tag) sha) h ∧ sha ∈ splitlines head) expected.

(** The context attributes to the release [tag] its own commit and only ancestors. *)
Definition attributed (context : list value) (published : list string) (h : list event)
    (r : string * string) : Prop :=
  ∃ release commits listed, release ∈ context ∧ item release "version" = Ok (VStr (fst r)) ∧
    item release "commit_id" = Ok (VStr (snd r)) ∧ commits_of release = Ok commits ∧
    Exists (git_said repo ["rev-list"; snd r] listed) h ∧ splitlines listed ⊆ published ∧
    Forall (λ commit, ∃ id, item commit "id" = Ok (VStr id) ∧ id ∈ splitlines listed) commits.

(** No commit without a version is published. *)
Definition unreleased_new (context : list value) (published : list string) : Prop :=
  ∀ release v commits commit id, release ∈ context → item release "version" = Ok v → truthy v = false →
    commits_of release = Ok commits → commit ∈ commits → item commit "id" = Ok (VStr id) → id ∉ published.

Definition validated (context : list value) (expected : releases) (h : list event) : Prop :=
  ∃ all published, all_versions context = Ok all ∧ has_duplicate (List.filter truthy all) = false ∧
    Forall (attributed context published h) expected ∧ unreleased_new context published.

(** Files are written under temporary names; the destination is only replaced, by the
    complete rendering of a validated context. *)
Definition guarded_write (h : list event) (c : call) : Prop :=
  match c with
  | External (WriteFile path _) =>
      (∃ directory, Exists (created directory path) h) ∨
      (∃ directory, Exists (made_directory directory) h ∧ path = path_join directory "context.json")
  | External (ReplaceFile source destination) =>
      destination = path_join repo output ∧
      ∃ p decoded context expected context_file q,
        Exists (ran repo (cliff_command repo git_cliff ++ ["--context"]) p) h ∧
        json p = Ok decoded ∧ iter decoded = Ok context ∧
        published_history expected h ∧ validated context expected h ∧
        Exists (wrote context_file (text p)) h ∧
        Exists (ran repo (cliff_command repo git_cliff ++ ["--from-context"; context_file]) q) h ∧
        Exists (created (dirname destination) source) h ∧ Exists (wrote source (text q)) h
  | External (AppendFile _ _) => False
  | _ => True
  end.
End spec.

(** ** Pure checks *)

Lemma insert_str_nonempty x l : insert_str x l ≠ [].
Proof. destruct l as [|y l]; simpl; [done|]. by destruct (String.ltb y x). Qed.

Lemma sorted_strs_nil l : sorted_strs l = [] → l = [].
Proof. destruct l as [|x l]; [done|]. simpl. intros H. by apply insert_str_nonempty in H. Qed.

Lemma str_in_elem s l : str_in s l = true ↔ s ∈ l.
Proof.
  unfold str_in. rewrite existsb_exists. split.
  - intros (x & Hx & E). apply String.eqb_eq in E. subst. by apply list_elem_of_In.
  - intros Hs. exists s. split; [by apply list_elem_of_In|apply String.eqb_refl].
Qed.

Lemma set_release_fst l tag sha t : t ∈ map fst (set_release l tag sha) ↔ t = tag ∨ t ∈ map fst l.
Proof.
  induction l as [|[t' s'] l IH]; simpl; [set_solver|].
  destruct (String.eqb_spec tag t'); simpl; rewrite !elem_of_cons; [|rewrite IH]; naive_solver.
Qed.

Lemma set_release_elem l tag sha r : r ∈ set_release l tag sha → r = (tag, sha) ∨ r ∈ l.
Proof.
  induction l as [|[t' s'] l IH]; simpl; [set_solver|].
  destruct (String.eqb_spec tag t'); rewrite !elem_of_cons; naive_solver.
Qed.

Lemma by_version_spec context version release :
  by_version context version = Ok (Some release) →
  release ∈ context ∧ item release "version" = Ok (VStr version).
Proof.
  revert release. induction context as [|r context IH]; simpl; intros release H; [done|].
  apply res_bind_ok in H as (later & Hl & H). destruct later as [r'|].
  - injection H as <-. destruct (IH _ Hl) as [Hin Hv]. split; [by right|done].
  - apply res_bind_ok in H as (v & Hv & H). destruct (eq_str v version) eqn:E; [|done].
    injection H as <-. apply eq_str_true in E. subst. split; [left|done].
Qed.

Lemma any_commit_none p known commits :
  any_commit p known commits = Ok false →
  Forall (λ commit, ∃ id member, item commit "id" = Ok id ∧ in_strs id known = Ok member ∧ p member = false) commits.
Proof.
  induction commits as [|commit commits IH]; simpl; intros H; [constructor|].
  apply res_bind_ok in H as (id & Hid & H). apply res_bind_ok in H as (member & Hm & H).
  destruct (p member) eqn:E; [done|]. constructor; [by exists id, member|by apply IH].
Qed.

Lemma in_strs_member id known : in_strs id known = Ok true → ∃ s, id = VStr s ∧ s ∈ known.
Proof.
  destruct id; try done. simpl. intros [= H]. eexists. split; [done|]. by apply str_in_elem.
Qed.

Lemma any_republished_none published context :
  any_republished published context = Ok false → unreleased_new context published.
Proof.
  induction context as [|r context IH]; simpl; intros H.
  { intros ? ? ? ? ? []%not_elem_of_nil. }
  apply res_bind_ok in H as (v & Hv & H).
  intros release w commits commit id Hin Hw Hf Hc Hcommit Hid. apply elem_of_cons in Hin as [->|Hin].
  - rewrite Hw in Hv. injection Hv as <-. rewrite Hf in H. apply res_bind_ok in H as (cs & Hcs & H).
    rewrite Hcs in Hc. injection Hc as ->. apply res_bind_ok in H as (again & Ha & H). destruct again; [done|].
    apply any_commit_none in Ha. rewrite Forall_forall in Ha. destruct (Ha _ Hcommit) as (i & m & Hi & Hm & Hp).
    rewrite Hid in Hi. injection Hi as <-. simpl in Hp. subst m. injection Hm as Hm. intros Hk.
    apply str_in_elem in Hk. unfold str_in in Hk. congruence.
  - assert (Hrest : any_republished published context = Ok false).
    { destruct (truthy v); [done|]. apply res_bind_ok in H as (cs & _ & H).
      apply res_bind_ok in H as (again & _ & H). by destruct again. }
    by eapply (IH Hrest).
Qed.

(** ** The walk *)

Definition later (h h' : list event) : Prop := ∃ t, h' = t ++ h.

Lemma later_refl h : later h h.
Proof. by exists []. Qed.
Lemma later_cons h h' e : later h h' → later h (e :: h').
Proof. intros [t ->]. by exists (e :: t). Qed.
Lemma later_trans h h' h'' : later h h' → later h' h'' → later h h''.
Proof. intros [t ->] [t' ->]. exists (t' ++ t). by rewrite app_assoc. Qed.
Lemma later_exists P h h' : Exists P h → later h h' → Exists P h'.
Proof. intros Hh [t ->]. apply Exists_app. by right. Qed.

Create HintDb changelog.
#[export] Hint Resolve later_refl later_cons later_trans later_exists : changelog.

Lemma published_history_later repo ref expected h h' :
  published_history repo ref expected h → later h h' → published_history repo ref expected h'.
Proof.
  intros (sha & tags & head & H1 & H2 & H3 & H4 & H5) Hl. exists sha, tags, head.
  split_and!; eauto with changelog. eapply Forall_impl; [exact H5|]. intros [tag s] [? ?]. eauto with changelog.
Qed.

Lemma attributed_later repo context published published' h h' r :
  attributed repo context published h r → published ⊆ published' → later h h' →
  attributed repo context published' h' r.
Proof.
  intros (rel & cs & listed & H1 & H2 & H3 & H4 & H5 & H6 & H7) Hp Hl. exists rel, cs, listed.
  split_and!; eauto with changelog. set_solver.
Qed.

Lemma validated_later repo context expected h h' :
  validated repo context expected h → later h h' → validated repo context expected h'.
Proof.
  intros (all & published & H1 & H2 & H3 & H4) Hl. exists all, published. split_and!; try done.
  eapply Forall_impl; [exact H3|]. intros r Hr. by eapply attributed_later.
Qed.
#[export] Hint Resolve published_history_later validated_later : changelog.

Section walk.
Context (repo stable_ref output git_cliff : string).
Abbreviation judge := (guarded_write repo stable_ref output git_cliff).

Lemma run_yields args s h :
  yields judge (run_in_repo repo args) s h (λ p h', later h h' ∧ Exists (ran repo args p) h').
Proof. apply yields_attempt; [done|]. intros r p ->. split; [auto with changelog|by left]. Qed.

Lemma git_yields args s h :
  yields judge (git repo args) s h (λ out h', later h h' ∧ Exists (git_said repo args out) h').
Proof.
  eapply yields_bind; [apply run_yields|]. intros p s' h' [Hl He]. apply yields_ret. split; [done|].
  eapply Exists_impl; [exact He|]. intros e Hr. by exists p.
Qed.

Lemma resolve_tags_yields tags found s h :
  Forall (λ r, Exists (git_said repo (tag_args (fst r)) (snd r)) h) found →
  yields judge (resolve_tags repo tags found) s h (λ found' h', later h h' ∧
    Forall (λ r, Exists (git_said repo (tag_args (fst r)) (snd r)) h') found' ∧
    (∀ tag, tag ∈ map fst found ∨ tag ∈ tags ∧ is_stable_tag tag = true → tag ∈ map fst found')).
Proof.
  revert found s h. induction tags as [|tag tags IH]; simpl; intros found s h Hf.
  { apply yields_ret. split_and!; [auto with changelog|done|]. intros tag [?|[[]%not_elem_of_nil _]]; done. }
  destruct (is_stable_tag tag) eqn:Hs.
  - eapply yields_bind; [apply git_yields|]. intros sha s1 h1 [Hl He].
    eapply yields_mono; [apply IH|].
    + apply Forall_forall. intros r Hr. apply set_release_elem in Hr as [->|Hr]; [done|].
      rewrite Forall_forall in Hf. eauto with changelog.
    + intros found' h' (Hl' & Hf' & Hin). split_and!; [eauto with changelog|done|]. intros t Ht. apply Hin.
      rewrite set_release_fst. destruct Ht as [Ht|[Ht Hst]]; [auto|].
      apply elem_of_cons in Ht as [->|Ht]; auto.
  - eapply yields_mono; [by apply IH|]. intros found' h' (Hl' & Hf' & Hin). split_and!; [done..|].
    intros t [Ht|[Ht Hst]]; apply Hin; [auto|]. apply elem_of_cons in Ht as [->|Ht]; [congruence|auto].
Qed.

Lemma stable_releases_yields s h :
  yields judge (stable_releases repo stable_ref) s h (λ expected h', published_history repo stable_ref expected h').
Proof.
  eapply yields_bind; [apply git_yields|]. intros sha s1 h1 [_ Hsha].
  eapply yields_bind; [apply git_yields|]. intros tags s2 h2 [Hl2 Htags].
  eapply yields_bind; [by apply resolve_tags_yields|]. intros found s3 h3 (Hl3 & Hfound & Hin).
  eapply yields_bind; [apply git_yields|]. intros head s4 h4 [Hl4 Hhead].
  cbv zeta. destruct (sorted_strs _) as [|m missing] eqn:E; [|apply yields_raise]. apply sorted_strs_nil in E.
  apply map_eq_nil, filter_nil_forallb in E. apply yields_ret. exists sha, tags, head.
  split_and!; try done; eauto with changelog.
  rewrite Forall_forall in Hfound, E. apply Forall_forall. intros [tag s'] Hr. split.
  - eapply later_exists; [by apply (Hfound (tag, s'))|done].
  - specialize (E _ Hr). apply negb_false_iff in E. by apply str_in_elem in E.
Qed.

Lemma validate_releases_yields context expected published s h :
  yields judge (validate_releases repo context expected published) s h (λ published' h', later h h' ∧
    published ⊆ published' ∧ Forall (attributed repo context published' h') expected).
Proof.
  revert published s h. induction expected as [|[version sha] expected IH]; simpl; intros published s h.
  { apply yields_ret. split_and!; [auto with changelog|done|constructor]. }
  apply yields_bind_lift. intros found Hfound. destruct found as [release|]; [|apply yields_raise].
  apply by_version_spec in Hfound as [Hin Hv].
  apply yields_bind_lift. intros commit_id Hid. destruct (py_neqb _ _) eqn:Hne; [apply yields_raise|].
  apply negb_false_iff in Hne. change (eq_str commit_id sha = true) in Hne. apply eq_str_true in Hne. subst.
  eapply yields_bind; [apply git_yields|]. intros listed s1 h1 [Hl1 Hlisted]. cbv zeta.
  apply yields_bind_lift. intros commits Hc. apply yields_bind_lift. intros foreign Hforeign.
  destruct foreign; [apply yields_raise|]. apply any_commit_none in Hforeign.
  eapply yields_mono; [apply IH|]. intros published' h' (Hl' & Hsub & Hrest).
  split_and!; [eauto with changelog|set_solver|]. constructor; [|done].
  exists release, commits, listed. split_and!; eauto with changelog; [set_solver|].
  eapply Forall_impl; [exact Hforeign|]. intros commit (id & member & Hi & Hm & Hp).
  apply negb_false_iff in Hp. subst member. apply in_strs_member in Hm as (i & -> & Hk). by exists i.
Qed.

Lemma validate_context_yields decoded expected s h :
  yields judge (validate_context repo decoded expected) s h (λ _ h', later h h' ∧
    ∃ context, iter decoded = Ok context ∧ validated repo context expected h').
Proof.
  apply yields_bind_lift. intros context Hc. apply yields_bind_lift. intros all Ha. cbv zeta.
  apply yields_bind_lift. intros [] _. destruct (has_duplicate _) eqn:Hd; [apply yields_raise|].
  apply yields_bind_lift. intros [] _. destruct (sorted_strs _); [|apply yields_raise].
  eapply yields_bind; [apply validate_releases_yields|]. intros published s1 h1 (Hl & _ & Hatt).
  apply yields_bind_lift. intros again Hagain. destruct again; [apply yields_raise|].
  apply yields_ret. split; [done|]. exists context. split; [done|]. exists all, published.
  split_and!; try done. by apply any_republished_none.
Qed.
End walk.

Section files.
Context (repo stable_ref output git_cliff : string).
Abbreviation judge := (guarded_write repo stable_ref output git_cliff).

Lemma render_yields context s h :
  yields judge (render repo git_cliff context) s h (λ rendered h', later h h' ∧
    ∃ file q, rendered = text q ∧ Exists (wrote file context) h' ∧
      Exists (ran repo (cliff_command repo git_cliff ++ ["--from-context"; file]) q) h').
Proof.
  eapply (yields_bind _ _ _ _ _ (λ d h', later h h' ∧ Exists (made_directory d) h')).
  { apply yields_attempt; [done|]. intros r d ->. split; [auto with changelog|by left]. }
  intros d s1 h1 [Hl Hd]. apply msafe_finally. apply msafe_bind, msafe_attempt.
  { right. by exists d. }
  intros r _. destruct r as [[]|e]; [|by apply msafe_attempt; [|intros [] _]].
  eapply msafe_mono.
  { eapply yields_bind; [apply run_yields|]. intros q s2 h2 [Hl2 Hq].
    apply (yields_ret _ _ _ _ (λ rendered h', later h h' ∧
      ∃ file q, rendered = text q ∧ Exists (wrote file context) h' ∧
        Exists (ran repo (cliff_command repo git_cliff ++ ["--from-context"; file]) q) h')).
    simpl in Hl2. split; [eauto 6 with changelog|]. exists (path_join d "context.json"), q. split_and!; [done| |done].
    eapply later_exists; [|exact Hl2]. by left. }
  intros r2 s2 h2 Hr2. apply msafe_attempt; [done|]. intros [[]|e] _; [|done].
  intros rendered ->. destruct (Hr2 _ eq_refl) as (Hl2 & file & q & Hq & Hw & Hran).
  split; [by apply later_cons|]. exists file, q. split_and!; [done|by right..].
Qed.

Lemma replace_output_yields p decoded context expected file q s h :
  Exists (ran repo (cliff_command repo git_cliff ++ ["--context"]) p) h →
  json p = Ok decoded → iter decoded = Ok context →
  published_history repo stable_ref expected h → validated repo context expected h →
  Exists (wrote file (text p)) h →
  Exists (ran repo (cliff_command repo git_cliff ++ ["--from-context"; file]) q) h →
  yields judge (replace_output (path_join repo output) (text q)) s h (λ _ _, True).
Proof.
  intros Hp Hj Hi Hpub Hval Hw Hq.
  eapply (yields_bind _ _ _ _ _ (λ f h', later h h' ∧ Exists (created (dirname (path_join repo output)) f) h')).
  { apply yields_attempt; [done|]. intros r f ->. split; [auto with changelog|by left]. }
  intros f s1 h1 [Hl Hf]. apply msafe_finally. apply msafe_bind, msafe_attempt; [left; by eexists|].
  intros [[]|e] _; [|by apply msafe_attempt; [|intros [] _]].
  apply msafe_attempt; [|by intros r _; apply msafe_attempt; [|intros [] _]].
  cbn [observe history]. split; [done|]. exists p, decoded, context, expected, file, q.
  split_and!; try (by left); eauto 6 with changelog.
Qed.
End files.

(** C34.  The changelog file changes only by an atomic replacement with the complete
    rendering of a validated context: whenever the generator is about to write a file,
    it writes a temporary file it created or the context copy in its temporary
    directory, or it replaces the output by a finished temporary file whose text
    git-cliff rendered from exactly the context that was checked, every stable tag of
    the stable ref present there with its own commit and only its ancestors, and no
    unreleased commit already published. *)
Theorem changelog_only_from_published_history repo stable_ref output s t c :
  issues (changelog_main repo stable_ref output s) t c →
  guarded_write repo stable_ref output "git-cliff" (rev t) c.
Proof.
  apply history_issues. apply (yields_any _ _ _ _ (λ _ _, True)), yields_try.
  assert (Hcatch : ∀ e p' s h, match e with
    | OSError _ | TimeoutError _ | ValueError _ | KeyError _ | TypeError _ =>
        Some (mret (Some ("Changelog generation refused: " +:+ exn_str e)))
    | OtherError cls _ =>
        if String.eqb cls "HistoryError" || String.eqb cls "CalledProcessError"
        then Some (mret (Some ("Changelog generation refused: " +:+ exn_str e))) else None
    | _ => None
    end = Some p' → yields (guarded_write repo stable_ref output "git-cliff") p' s h (λ _ _, True)).
  { intros e p' s' h'. destruct e; try discriminate; try (intros [= <-]; by apply yields_ret).
    destruct (_ || _); [|done]. intros [= <-]. by apply yields_ret. }
  eapply msafe_mono; [|intros [a|e] s' h' _; [exact I|intros p'; apply Hcatch]].
  apply (yields_any _ _ _ _ (λ _ _, True)).
  eapply yields_bind; [|by intros [] ? ? _; apply yields_ret].
  eapply yields_bind; [apply stable_releases_yields|]. intros expected s1 h1 Hpub.
  eapply yields_bind; [apply run_yields|]. intros p s2 h2 [Hl2 Hp].
  apply yields_bind_lift. intros decoded Hj.
  eapply yields_bind; [apply validate_context_yields|]. intros [] s3 h3 (Hl3 & context & Hi & Hval).
  eapply yields_bind; [apply render_yields|]. intros rendered s4 h4 (Hl4 & file & q & -> & Hw & Hq).
  eapply replace_output_yields; eauto 7 with changelog.
Qed.

(** *** Witness: one release, one unreleased commit *)

Definition cliff_context : value :=
  VList [VDict [("version", VNone); ("commit_id", VStr "c3"); ("commits", VList [VDict [("id", VStr "c3")]])];
         VDict [("version", VStr "v0.4.8"); ("commit_id", VStr "c2");
                ("commits", VList [VDict [("id", VStr "c1")]; VDict [("id", VStr "c2")]])]].

Definition changelog_reply (args : list string) : res payload :=
  let says s := Ok (Payload (s +:+ nl) (Err (ValueError "no JSON"))) in
  let asks l := bool_decide (args = l) in
  if asks ["git"; "tag"; "--merged"; "c2"] then says ("nightly" +:+ nl +:+ "v0.4.8")
  else if asks ["git"; "rev-list"; "HEAD"] then says ("c3" +:+ nl +:+ "c2" +:+ nl +:+ "c1")
  else if asks ["git"; "rev-list"; "c2"] then says ("c2" +:+ nl +:+ "c1")
  else if asks (cliff_command "/repo" "git-cliff" ++ ["--context"])
  then Ok (Payload "the context" (Ok cliff_context))
  else if asks (cliff_command "/repo" "git-cliff" ++ ["--from-context"; "/tmp/x/context.json"]) then says "# Changelog"
  else says "c2".

Definition changelog_handler (c : call) (w : unit) : reply c * unit :=
  match c return reply c * unit with
  | External op =>
      (match op return external_reply op with
       | Run _ args _ => changelog_reply args
       | MakeDirectory _ => Ok "/tmp/x"
       | CreateTemporary _ => Ok "/repo/tmp1"
       | RemoveTree _ | WriteFile _ _ | ReplaceFile _ _ | Unlink _ => Ok tt
       | op => no_system op
       end, w)
  | c => let '(r, _) := fake_handler c (fake_world fresh_store) in (r, w)
  end.

Definition is_replace (c : call) : bool := match c with External (ReplaceFile _ _) => true | _ => false end.

Lemma changelog_only_from_published_history_witness :
  ∃ t c, is_replace c = true ∧ guarded_write "/repo" "origin/main" "CHANGELOG.md" "git-cliff" (rev t) c.
Proof.
  destruct (run_issues changelog_handler is_replace (changelog_main "/repo" "origin/main" "CHANGELOG.md" empty_patch) tt)
    as (t & c & Hi & Hc); [vm_compute; reflexivity|].
  exists t, c. split; [exact Hc|]. exact (changelog_only_from_published_history _ _ _ _ _ _ Hi).
Defined.
