(* ===== verification/MergeGate.v ===== *)
(** What has to be on record before the changelog pull request is merged, that the
    polling loop ends, and what a loaded policy demands. *)

From S2P Require Import Prelude Py PyStr Effects Monitors ApiIO Readiness ChangelogMerge FakeApi.
Open Scope Z_scope.

(** ** Evidence of one round *)

(** The events since the clock was last read, that is, of the current round. *)
Fixpoint this_round (h : list event) : list event :=
  match h with
  | [] => []
  | Ev (External Monotonic) _ :: _ => []
  | e :: h => e :: this_round h
  end.

(** [gh args] succeeded and printed this value. *)
Definition answered (args : list string) (v : value) (e : event) : Prop :=
  match e with
  | Ev (External (Run _ run_args _)) (Ok p) => run_args = "gh" :: args ∧ json p = Ok v
  | _ => False
  end.

Definition seen (args : list string) (v : value) (h : list event) : Prop :=
  Exists (answered args v) (this_round h).

(** An open, unmerged, up to date pull request of the generated branch of this very
    repository into develop, at the expected commit. *)
Definition eligible_pr (repository expected_head : string) (pr : value) : Prop :=
  ∃ head base state merged draft mergeable_state repo stale,
    item pr "head" = Ok head ∧ item head "sha" = Ok (VStr expected_head) ∧
    item head "ref" = Ok (VStr "chore/changelog-update") ∧
    get head "repo" = Ok repo ∧ get (por repo (VDict [])) "full_name" = Ok (VStr repository) ∧
    item pr "base" = Ok base ∧ item base "ref" = Ok (VStr "develop") ∧
    get pr "merged" = Ok merged ∧ truthy merged = false ∧
    item pr "state" = Ok state ∧ state = VStr "open" ∧ get pr "draft" = Ok draft ∧ truthy draft = false ∧
    get pr "mergeable_state" = Ok mergeable_state ∧
    in_strs mergeable_state ["behind"; "dirty"] = Ok stale ∧ stale = false.

(** A run of the named check, at the expected commit, by the policy's integration. *)
Definition required_run (policy : Policy) (expected_head name : string) (check : value) : Prop :=
  item check "name" = Ok (VStr name) ∧ get check "head_sha" = Ok (VStr expected_head) ∧
  ∃ app id, get check "app" = Ok app ∧ get (por app (VDict [])) "id" = Ok id ∧
    py_eqb id (integration_id policy) = true.

(** The latest run of a required check at the expected commit passed. *)
Definition check_passed (policy : Policy) (expected_head : string) (runs : list value) (name : string) : Prop :=
  ∃ check id, check ∈ runs ∧ required_run policy expected_head name check ∧
    item check "id" = Ok id ∧
    item check "status" = Ok (VStr "completed") ∧ get check "conclusion" = Ok (VStr "success") ∧
    ∀ other z z', other ∈ runs → required_run policy expected_head name other →
      id = VInt z → item other "id" = Ok (VInt z') → z' ≤ z.

(** The reviewers' decision on the expected commit: outstanding for a queued merge,
    given, or not required, for an immediate one. *)
Definition reviewed (policy : Policy) (expected_head : string) (queued : bool) (review : value) : Prop :=
  ∃ d v, review = VDict d ∧ get review "headRefOid" = Ok (VStr expected_head) ∧
    dget d "reviewDecision" = Some v ∧
    if queued then v = VStr "REVIEW_REQUIRED"
    else v = VStr "APPROVED" ∨ approval_required policy = false ∧ (v = VNone ∨ v = VStr EmptyString).

(** The only file is the changelog, added or modified. *)
Definition changelog_only (files : value) : Prop :=
  ∃ file status, files = VList [file] ∧ item file "filename" = Ok (VStr "CHANGELOG.md") ∧
    item file "status" = Ok (VStr status) ∧ status ∈ ["added"; "modified"].

(** GitHub reports the pull request as mergeable and clean. *)
Definition clean_pr (pr : value) : Prop :=
  get pr "mergeable" = Ok (VBool true) ∧ get pr "mergeable_state" = Ok (VStr "clean").

(** Both are based on the same commit. *)
Definition same_base (pr pr' : value) : Prop :=
  ∃ base base' sha sha', item pr "base" = Ok base ∧ item base "sha" = Ok sha ∧
    item pr' "base" = Ok base' ∧ item base' "sha" = Ok sha' ∧ py_eqb sha sha' = true.

Section gate.
Context (repository : string) (number : Z) (expected_head : string) (policy : Policy).

Definition pr_args : list string := api_args repository (pull_request_path number).

Definition authorized (queued : bool) (h : list event) : Prop :=
  ∃ pr files pages listed runs review,
    seen pr_args pr h ∧ eligible_pr repository expected_head pr ∧
    seen (api_args repository (files_path number)) files h ∧ changelog_only files ∧
    seen (checks_args repository expected_head) pages h ∧ iter pages = Ok listed ∧
    check_runs listed = Ok runs ∧ Forall (check_passed policy expected_head runs) (checks policy) ∧
    seen (review_args repository number) review h ∧ reviewed policy expected_head queued review ∧
    (queued = false → clean_pr pr ∧
       ∃ current, seen pr_args current h ∧ eligible_pr repository expected_head current ∧
         clean_pr current ∧ same_base current pr).

(** What follows [gh pr merge]: squash this pull request if its head is the expected
    commit, now or once GitHub's queue lets it. *)
Definition merge_options (queued : bool) : list string :=
  [str_Z number; "--repo"; repository] ++ (if queued then ["--auto"] else []) ++
  ["--squash"; "--match-head-commit"; expected_head].

(** The commands that merge are issued with authority, and name the commit. *)
Definition gated (h : list event) (c : call) : Prop :=
  match c with
  | External (Run _ ("gh" :: "pr" :: "merge" :: rest) _) =>
      ∃ queued, authorized queued h ∧
        rest = merge_options queued
  | _ => True
  end.
End gate.

(** ** From the code's tests to the evidence *)

(** Finishes the inversion of nested conditions, and reads the comparisons. *)
Ltac tests :=
  repeat match goal with
  | H : (if _ then _ else _) = Ok _ |- _ => progress res_inv H
  | H : mret _ = Ok _ |- _ => progress res_inv H
  | H : true = false |- _ => discriminate H
  | H : negb _ = false |- _ => apply negb_false_iff in H
  | H : negb _ = true |- _ => apply negb_true_iff in H
  | H : eq_str _ _ = true |- _ => apply eq_str_true in H
  | H : py_neqb _ _ = false |- _ => apply negb_false_iff in H
  | H : py_eqb ?v (VStr ?s) = true |- _ => change (eq_str v s = true) in H
  end; subst.

Lemma validated_eligible repository expected_head pr merged :
  validate_pull_request repository pr expected_head = Ok tt →
  get pr "merged" = Ok merged → truthy merged = false → eligible_pr repository expected_head pr.
Proof.
  intros H Hm Hf. unfold validate_pull_request in H. res_inv H; [congruence|].
  tests; simplify_eq.
  do 8 eexists. split_and!; try eassumption; eauto; congruence.
Qed.

(** The number a check run's id orders by. *)
Definition rank (v : value) : option Z :=
  match v with VInt z => Some z | VBool b => Some (Z.b2z b) | _ => None end.

Lemma py_gt_rank a b greater :
  py_gt a b = Ok greater →
  match rank a, rank b with
  | Some x, Some y => greater = (y <? x)
  | None, None => True
  | _, _ => False
  end.
Proof. destruct a, b; simpl; intros H; first [exact I|discriminate H|by injection H as <-]. Qed.

Lemma latest_from_spec current id l best :
  item current "id" = Ok id → latest_from current id l = Ok best →
  best ∈ current :: l ∧ ∃ top, item best "id" = Ok top ∧
    ∀ z, rank top = Some z → Forall (λ other, ∃ i z', item other "id" = Ok i ∧ rank i = Some z' ∧ z' ≤ z) (current :: l).
Proof.
  revert current id. induction l as [|check l IH]; simpl; intros current id Hid H.
  { injection H as <-. split; [left|]. exists id. split; [done|]. intros z Hz.
    apply Forall_singleton. by exists id, z. }
  apply res_bind_ok in H as (its & Hits & H). apply res_bind_ok in H as (greater & Hgt & H).
  apply py_gt_rank in Hgt. destruct greater.
  - destruct (IH _ _ Hits H) as [Hin (top & Htop & Hmax)]. split; [by right|].
    exists top. split; [done|]. intros z Hz. specialize (Hmax z Hz).
    constructor; [|done]. apply Forall_cons in Hmax as [(i & z' & Hi & Hr & Hle) _].
    rewrite Hits in Hi. injection Hi as <-. rewrite Hr in Hgt. destruct (rank id) as [y|] eqn:Hy; [|done].
    symmetry in Hgt. apply Z.ltb_lt in Hgt. exists id, y. split_and!; [done..|lia].
  - destruct (IH _ _ Hid H) as [Hin (top & Htop & Hmax)].
    split; [apply elem_of_cons in Hin as [->|Hin]; [left|by right; right]|].
    exists top. split; [done|]. intros z Hz. specialize (Hmax z Hz).
    apply Forall_cons in Hmax as [Hc Hmax]. constructor; [done|]. constructor; [|done].
    destruct Hc as (i & z' & Hi & Hr & Hle). rewrite Hid in Hi. injection Hi as <-. rewrite Hr in Hgt.
    destruct (rank its) as [y|] eqn:Hy; [|done]. symmetry in Hgt. apply Z.ltb_ge in Hgt.
    exists its, y. split_and!; [done..|lia].
Qed.

Lemma only_changelog_file files : only_changelog files = Ok true → changelog_only files.
Proof.
  intros H. unfold only_changelog in H. apply res_bind_ok in H as (n & Hn & H).
  destruct (n =? 1) eqn:E; [|discriminate H]. apply Z.eqb_eq in E as ->.
  apply res_bind_ok in H as (file & Hfile & H). rewrite Hfile in H.
  apply res_bind_ok in H as (filename & Hf & H). destruct (eq_str filename "CHANGELOG.md") eqn:Ef; [|discriminate H].
  apply eq_str_true in Ef as ->. apply res_bind_ok in H as (file' & [= <-] & H).
  apply res_bind_ok in H as (status & Hs & H).
  assert (files = VList [file]) as ->.
  { destruct files as [| | |[|c s]|[|x [|y l]]|]; try discriminate Hfile; injection Hfile as <-;
      [discriminate Hf|done|]. injection Hn as Hn. cbn [length] in Hn. lia. }
  destruct status as [| | |st| |]; try discriminate H. assert (Hin : existsb (String.eqb st) ["added"; "modified"] = true) by by injection H.
  apply existsb_exists in Hin as (st' & Hin & ->%String.eqb_eq). exists file, st'.
  split_and!; [done..|]. by apply list_elem_of_In.
Qed.

Lemma is_clean_pr pr : is_clean pr = Ok true → clean_pr pr.
Proof.
  intros H. unfold is_clean in H. res_inv H; try discriminate H. tests. split; [|done].
  destruct x as [|[]| | | |]; try discriminate. done.
Qed.

Lemma still_clean_pr current pr : still_clean current pr = Ok true → clean_pr current ∧ same_base current pr.
Proof.
  intros H. unfold still_clean, base_sha in H. apply res_bind_ok in H as (sha & Hs & H).
  apply res_bind_ok in H as (sha' & Hs' & H). apply res_bind_ok in Hs as (base & Hb & Hs).
  apply res_bind_ok in Hs' as (base' & Hb' & Hs'). destruct (py_eqb sha sha') eqn:E; [|discriminate H].
  split; [by apply is_clean_pr|]. by exists base, base', sha, sha'.
Qed.

Lemma is_required_run_true policy expected_head name check :
  is_required_run policy expected_head name check = Ok true ↔ required_run policy expected_head name check.
Proof.
  unfold is_required_run, required_run. split.
  - intros H. apply res_bind_ok in H as (n & -> & H). destruct (eq_str n name) eqn:En; [|discriminate H].
    apply res_bind_ok in H as (sha & -> & H). destruct (eq_str sha expected_head) eqn:Es; [|discriminate H].
    apply res_bind_ok in H as (app & Happ & H). apply res_bind_ok in H as (id & Hid & H).
    apply eq_str_true in En, Es. subst. injection H as H. eauto 10.
  - intros (-> & Hsha & app & id & Happ & Hid & Heq). cbn [mbind res_bind].
    rewrite (proj2 (eq_str_true _ _) eq_refl). cbn [negb]. rewrite Hsha. cbn [mbind res_bind].
    rewrite (proj2 (eq_str_true _ _) eq_refl). cbn [negb]. rewrite Happ. cbn [mbind res_bind].
    rewrite Hid. cbn. by rewrite Heq.
Qed.

Lemma required_ready_passed ready names runs policy expected_head :
  required_ready ready names runs policy expected_head = Ok true →
  ready = true ∧ Forall (check_passed policy expected_head runs) names.
Proof.
  revert ready. induction names as [|name names IH]; simpl; intros ready H; [by injection H as ->|].
  apply res_bind_ok in H as (found & Hf & H). pose proof (filter_res_spec _ _ _ Hf) as Hin.
  destruct found as [|check others]; [by destruct (IH _ H)|].
  apply res_bind_ok in H as (current & Hl & H). apply res_bind_ok in H as (status & Hs & H).
  destruct (negb (eq_str status "completed")) eqn:Hb; [by destruct (IH _ H)|].
  apply res_bind_ok in H as (conclusion & Hc & H).
  destruct (negb (eq_str conclusion "success")) eqn:Hb'; [done|].
  apply negb_false_iff, eq_str_true in Hb, Hb'. subst.
  destruct (IH _ H) as [-> Hnames]. split; [done|]. constructor; [|done].
  setoid_rewrite is_required_run_true in Hin. apply res_bind_ok in Hl as (id & Hid & Hl).
  destruct (latest_from_spec _ _ _ _ Hid Hl) as [Hcur (top & Htop & Hmax)].
  apply Hin in Hcur as [Hcur Hreq]. exists current, top. split_and!; try done.
  intros other z z' Ho Hor -> Hz'. specialize (Hmax z eq_refl). rewrite Forall_forall in Hmax.
  destruct (Hmax other) as (i & y & Hi & Hy & Hle); [by apply Hin|].
  rewrite Hi in Hz'. injection Hz' as ->. by injection Hy as ->.
Qed.

Lemma decided_reviewed review policy expected_head d :
  decide_review review policy expected_head = Ok d → d ≠ Leave →
  reviewed policy expected_head (if d is Queue then true else false) review.
Proof.
  unfold decide_review. intros H Hd. apply res_bind_ok in H as (head & Hh & H).
  destruct (negb _) eqn:Hb in H; [done|]. destruct review as [| | | | |fields]; try done.
  destruct (dget fields "reviewDecision") as [v|] eqn:Hv; [|done].
  apply negb_false_iff, eq_str_true in Hb. subst head.
  exists fields, v. split_and!; [done..|].
  destruct (eq_str v "REVIEW_REQUIRED") eqn:E1 in H; [injection H as <-; by apply eq_str_true|].
  destruct (eq_str v "CHANGES_REQUESTED") eqn:E2 in H; [by injection H as <-|].
  destruct (eq_str v "APPROVED") eqn:E3 in H; [injection H as <-; left; by apply eq_str_true|].
  apply res_bind_ok in H as (absent & Ha & H). destruct absent; [done|]. injection H as <-. right.
  destruct (approval_required policy); [done|]. split; [done|].
  destruct v as [| | |s| |]; simpl in Ha; try (by left); try discriminate Ha.
  right. destruct (String.eqb_spec s EmptyString); [by subst|done].
Qed.

(** ** The gate *)

Definition not_clock (e : event) : Prop := match e with Ev (External Monotonic) _ => False | _ => True end.

(** Later in the same round. *)
Definition extends (h h' : list event) : Prop := ∃ t, h' = t ++ h ∧ Forall not_clock t.

Lemma extends_refl h : extends h h.
Proof. by exists []. Qed.
Lemma extends_trans h h' h'' : extends h h' → extends h' h'' → extends h h''.
Proof.
  intros [t [-> Ht]] [t' [-> Ht']]. exists (t' ++ t). split; [by rewrite app_assoc|by apply Forall_app].
Qed.
Lemma extends_cons h e : not_clock e → extends h (e :: h).
Proof. intros He. exists [e]. split; [done|by apply Forall_singleton]. Qed.

Lemma this_round_app t h : Forall not_clock t → this_round (t ++ h) = t ++ this_round h.
Proof.
  induction 1 as [|e t He Ht IH]; [done|]. simpl. rewrite IH.
  destruct e as [c r]; destruct c; try done. by destruct op.
Qed.

Lemma seen_extends args v h h' : seen args v h → extends h h' → seen args v h'.
Proof.
  intros Hs [t [-> Ht]]. unfold seen. rewrite this_round_app by done. by apply Exists_app; right.
Qed.

Create HintDb merge.
#[export] Hint Resolve extends_refl extends_trans seen_extends : merge.

Section gate_proof.
Context (repository : string) (number : Z) (expected_head : string) (policy : Policy) (interval : Z).
Abbreviation judge := (gated repository number expected_head policy).

Lemma command_yields args s h (R : payload → list event → Prop) :
  judge h (External (Run None ("gh" :: args) (Some 45))) →
  (∀ p h', extends h h' → (∀ v, json p = Ok v → seen args v h') → R p h') →
  yields judge (command args) s h R.
Proof.
  intros Hok HR. apply yields_try, msafe_attempt; [done|]. intros [p|e] _.
  - apply HR; [by apply extends_cons|]. intros v Hv. by left.
  - intros p'. destruct (is_failed_process e); [|done]. intros [= <-]. apply yields_raise.
Qed.

Lemma read_yields args s h :
  judge h (External (Run None ("gh" :: args) (Some 45))) →
  yields judge (p ← command args; lift (json p)) s h (λ v h', extends h h' ∧ seen args v h').
Proof.
  intros Hok. eapply yields_bind; [apply (command_yields _ _ _ (λ p h', extends h h' ∧ ∀ v, json p = Ok v → seen args v h')); [done|auto]|].
  intros p s' h' [He Hs]. apply yields_lift. intros v Hv. auto.
Qed.

Lemma print_yields line s h : yields judge (print line) s h (λ _ h', extends h h').
Proof. apply yields_perform; [done|]. intros r. by apply extends_cons. Qed.

Lemma pause_yields d s h : yields judge (pause d) s h (λ _ h', extends h h').
Proof. apply yields_perform; [done|]. intros r. by apply extends_cons. Qed.

(** A pull request read in this round, validated. *)
Definition valid_read (pr : value) (h : list event) : Prop :=
  seen (pr_args repository number) pr h ∧ validate_pull_request repository pr expected_head = Ok tt.

Lemma validated_read_yields s h :
  yields judge (read_validated_pull_request repository number expected_head interval) s h
    (λ pr h', extends h h' ∧ valid_read pr h').
Proof.
  eapply yields_bind; [by apply read_yields|]. intros pr s1 h1 [He Hs].
  apply yields_try. destruct (validate_pull_request repository pr expected_head) as [[]|e] eqn:Ev.
  { apply msafe_bind, msafe_lift, msafe_ret. split; [done|by split]. }
  apply msafe_bind, msafe_lift. intros p'. destruct (is_PullRequestStateBlocked e); [|done]. intros [= <-].
  apply yields_bind_lift. intros st _. apply yields_bind_lift. intros ms _.
  eapply yields_bind; [apply print_yields|]. intros [] s2 h2 He2.
  eapply yields_bind; [apply pause_yields|]. intros [] s3 h3 He3.
  eapply yields_bind; [by apply read_yields|]. intros pr' s4 h4 [He4 Hs4].
  apply yields_bind_lift. intros [] Hv. apply yields_ret. split; [eauto with merge|by split].
Qed.

(** The evidence every merging command needs, gathered in this round. *)
Definition evidence (queued : bool) (h : list event) : Prop :=
  ∃ files pages listed runs review,
    seen (api_args repository (files_path number)) files h ∧ changelog_only files ∧
    seen (checks_args repository expected_head) pages h ∧ iter pages = Ok listed ∧
    check_runs listed = Ok runs ∧ Forall (check_passed policy expected_head runs) (checks policy) ∧
    seen (review_args repository number) review h ∧ reviewed policy expected_head queued review.

Lemma evidence_extends queued h h' : evidence queued h → extends h h' → evidence queued h'.
Proof. intros (f & pa & l & rs & rv & ?) He. exists f, pa, l, rs, rv. naive_solver eauto with merge. Qed.

Lemma valid_extends pr h h' : valid_read pr h → extends h h' → valid_read pr h'.
Proof. intros [? ?] ?. split; eauto with merge. Qed.

Lemma evidence_authorized queued pr merged h :
  valid_read pr h → get pr "merged" = Ok merged → truthy merged = false → evidence queued h →
  (queued = false → is_clean pr = Ok true ∧
     ∃ current merged', valid_read current h ∧ get current "merged" = Ok merged' ∧ truthy merged' = false ∧
       still_clean current pr = Ok true) →
  authorized repository number expected_head policy queued h.
Proof.
  intros [Hs Hv] Hm Hf (f & pa & l & rs & rv & He) Hc. exists pr, f, pa, l, rs, rv.
  split_and!; try apply He; [done|by eapply validated_eligible|].
  intros Hq. destruct (Hc Hq) as (Hcl & cur & m' & [Hsc Hvc] & Hm' & Hf' & Hst). split; [by apply is_clean_pr|].
  apply still_clean_pr in Hst. exists cur. split_and!; [done| |apply Hst..]. by eapply validated_eligible.
Qed.

(** The checks passed on the listed runs. *)
Definition checks_seen (runs : list value) (h : list event) : Prop :=
  ∃ pages listed, seen (checks_args repository expected_head) pages h ∧ iter pages = Ok listed ∧
    check_runs listed = Ok runs.

Lemma checks_yields s h :
  yields judge (github_checks repository expected_head) s h
    (λ runs h', extends h h' ∧ checks_seen runs h').
Proof.
  eapply yields_bind.
  { apply (command_yields _ _ _ (λ p h', extends h h' ∧
      ∀ v, json p = Ok v → seen (checks_args repository expected_head) v h')); [done|auto]. }
  intros p s' h' [He Hs]. apply yields_bind_lift. intros pages Hp. apply yields_bind_lift. intros listed Hl.
  apply yields_lift. intros runs Hr. split; [done|]. exists pages, listed. auto.
Qed.

Lemma wait_again_yields s h : yields judge (wait_again number expected_head interval) s h (λ _ _, True).
Proof.
  eapply yields_bind; [apply print_yields|]. intros [] s1 h1 _.
  eapply yields_bind; [apply pause_yields|]. intros [] s2 h2 _. by apply yields_ret.
Qed.

Lemma merge_clean_yields pr merged s h :
  valid_read pr h → get pr "merged" = Ok merged → truthy merged = false → is_clean pr = Ok true →
  evidence false h →
  yields judge (merge_clean repository number expected_head interval pr) s h (λ _ _, True).
Proof.
  intros Hv Hm Hf Hc He. eapply yields_bind; [apply validated_read_yields|].
  intros current s1 h1 [He1 Hv1]. apply yields_bind_lift. intros m' Hm'.
  destruct (truthy m') eqn:Hf'; [by apply yields_ret|]. apply yields_bind_lift. intros [] Hst; [|apply wait_again_yields].
  eapply yields_bind.
  { eapply yields_bind; [apply (command_yields _ _ _ (λ _ _, True)); [|done]|].
    - exists false. split; [|done]. eapply (evidence_authorized _ pr); [by eapply valid_extends|done..| |].
      + by eapply evidence_extends.
      + intros _. split; [done|]. by exists current, m'.
    - intros p s2 h2 _. by apply (yields_ret _ _ _ _ (λ _ _, True)). }
  intros [] s2 h2 _. eapply yields_bind; [apply print_yields|]. intros [] s3 h3 _. by apply yields_ret.
Qed.

Lemma merge_if_clean_yields passed pr merged s h :
  valid_read pr h → get pr "merged" = Ok merged → truthy merged = false → (passed = true → evidence false h) →
  yields judge (merge_if_clean repository number expected_head interval passed pr) s h (λ _ _, True).
Proof.
  intros Hv Hm Hf He. apply yields_bind_lift. intros [] Hc; [|apply wait_again_yields].
  destruct passed; [|done]. eapply merge_clean_yields; eauto.
Qed.

Lemma merge_round_yields s h :
  yields judge (merge_round repository number expected_head policy interval) s h (λ _ _, True).
Proof.
  eapply yields_bind; [apply validated_read_yields|]. intros pr s1 h1 [_ Hv].
  apply yields_bind_lift. intros merged Hm. destruct (truthy merged) eqn:Hf.
  { eapply yields_bind; [apply print_yields|]. intros [] s2 h2 _. by apply yields_ret. }
  eapply yields_bind; [by apply read_yields|]. intros files s2 h2 [He2 Hs2].
  apply yields_bind_lift. intros only Ho. destruct only; [|apply yields_raise]. cbn [negb].
  eapply yields_bind; [apply checks_yields|]. intros runs s3 h3 [He3 (pages & listed & Hpa & Hl & Hr)].
  apply yields_bind_lift. intros passed Hp. destruct passed; cbn [negb].
  2: { eapply merge_if_clean_yields; [|done..]. eauto using valid_extends, extends_trans. }
  eapply yields_bind; [by apply read_yields|]. intros review s4 h4 [He4 Hs4].
  apply yields_bind_lift. intros d Hd.
  assert (Hev : d ≠ Leave → evidence (if d is Queue then true else false) h4).
  { intros Hl'. exists files, pages, listed, runs, review. split_and!; eauto with merge.
    - by apply only_changelog_file.
    - by eapply required_ready_passed.
    - by eapply decided_reviewed. }
  assert (Hv4 : valid_read pr h4) by eauto 6 using valid_extends, extends_trans.
  destruct d.
  - eapply yields_bind.
    { eapply yields_bind; [apply (command_yields _ _ _ (λ _ _, True)); [|done]|].
      - exists true. split; [|done]. eapply (evidence_authorized _ pr); [done..|by apply Hev|done].
      - intros p s5 h5 _. by apply (yields_ret _ _ _ _ (λ _ _, True)). }
    intros [] s5 h5 _. eapply yields_bind; [apply print_yields|]. intros [] s6 h6 _. by apply yields_ret.
  - eapply yields_bind; [apply print_yields|]. intros [] s6 h6 _. by apply yields_ret.
  - eapply merge_if_clean_yields; [done..|]. intros _. by apply Hev.
Qed.

Lemma clock_yields s h : yields judge monotonic s h (λ _ _, True).
Proof. by apply (yields_perform judge (External Monotonic) s h (λ _ _, True)). Qed.

Lemma merge_loop_yields fuel deadline s h :
  yields judge (merge_loop repository number expected_head policy interval fuel deadline) s h (λ _ _, True).
Proof.
  revert s h. induction fuel as [|fuel IH]; intros s h; [apply yields_raise|]. simpl.
  eapply yields_bind; [apply clock_yields|]. intros now s1 h1 _.
  destruct (negb (now <? deadline)); [apply yields_raise|].
  eapply yields_bind; [apply merge_round_yields|]. intros [o|] s2 h2 _; [by apply yields_ret|apply IH].
Qed.
End gate_proof.

(** ** The policy *)

(** [path] was read and holds this JSON document. *)
Definition file_read (path : string) (v : value) (e : event) : Prop :=
  match e with
  | Ev (External (ReadFile p)) (Ok file) => p = path ∧ json file = Ok v
  | _ => False
  end.

(** The policy the two files of the repository configure: at least one check, each
    named once, of one GitHub App; an approval unless the review policy asks none. *)
Definition configured_policy (path : string) (policy : Policy) (h : list event) : Prop :=
  ∃ data listed reviews count flags,
    Exists (file_read path data) h ∧ item data "checks" = Ok listed ∧
    iter listed = Ok (VStr <$> checks policy) ∧ checks policy ≠ [] ∧ NoDup (checks policy) ∧
    Forall (λ name, name ≠ EmptyString) (checks policy) ∧
    item data "integration_id" = Ok (integration_id policy) ∧ positive_int (integration_id policy) = true ∧
    Exists (file_read (with_name path "required-reviews.json") reviews) h ∧
    read_reviews reviews = Ok (VInt count, flags) ∧ 0 ≤ count ≤ 10 ∧ Forall (λ f, is_bool f = true) flags ∧
    approval_required policy = (0 <? count) || existsb truthy flags.

Lemma nonempty_strs_spec l names :
  nonempty_strs l = Some names → l = VStr <$> names ∧ Forall (λ name, name ≠ EmptyString) names.
Proof.
  revert names. induction l as [|v l IH]; simpl; intros names; [by intros [= <-]|].
  destruct v as [| | |s| |]; try done. destruct (String.eqb_spec s EmptyString) as [|Hs]; [done|].
  destruct (nonempty_strs l) as [rest|]; [|done]. intros [= <-].
  destruct (IH rest eq_refl) as [-> Hr]. by split; [|constructor].
Qed.

Lemma no_duplicate_NoDup names : has_duplicate (VStr <$> names) = false → NoDup names.
Proof.
  induction names as [|s names IH]; simpl; intros H; [constructor|]. bool_hyps.
  constructor; [|by apply IH]. intros Hin. apply not_true_iff_false in H0. apply H0.
  apply existsb_exists. exists (VStr s). split; [|simpl; apply String.eqb_refl].
  apply list_elem_of_In. by apply list_elem_of_fmap_2.
Qed.

Section main_proof.
Context (path repository : string) (number : Z) (expected_head : string).

(** The commands of [main] that merge. *)
Definition gated_main (h : list event) (c : call) : Prop :=
  match c with
  | External (Run _ ("gh" :: "pr" :: "merge" :: rest) _) =>
      ∃ policy, configured_policy path policy h ∧ gated repository number expected_head policy h c
  | _ => True
  end.

Lemma read_file_yields p s h :
  yields gated_main (read_file p) s h
    (λ file h', ∀ v, json file = Ok v → ∃ e, h' = e :: h ∧ file_read p v e).
Proof.
  apply yields_attempt; [done|]. intros r file -> v Hv. eexists. by split.
Qed.

Lemma load_policy_yields s h :
  yields gated_main (load_policy path None) s h (configured_policy path).
Proof.
  eapply yields_bind; [apply read_file_yields|]. intros file s1 h1 Hfile.
  apply yields_bind_lift. intros data Hd. destruct (Hfile _ Hd) as (e1 & -> & He1).
  apply yields_bind_lift. intros listed Hl. apply yields_bind_lift. intros names Hn.
  destruct names as [|n names]; [apply yields_raise|].
  apply yields_bind_lift. intros [] _. destruct (has_duplicate (n :: names)) eqn:Hdup; [apply yields_raise|].
  destruct (nonempty_strs (n :: names)) as [required|] eqn:Hreq; [|apply yields_raise].
  apply nonempty_strs_spec in Hreq as [Heq Hne]. rewrite Heq in Hn, Hdup.
  apply yields_bind_lift. intros id Hid. destruct (negb (positive_int id)) eqn:Hpos; [apply yields_raise|].
  apply negb_false_iff in Hpos.
  eapply (yields_bind _ _ _ _ _ (λ r h', ∃ e2 reviews, h' = e2 :: e1 :: h ∧
    file_read (with_name path "required-reviews.json") reviews e2 ∧ read_reviews reviews = Ok r)).
  { apply yields_try. eapply msafe_mono.
    - eapply yields_bind; [apply read_file_yields|]. intros file2 s2 h2 Hfile2.
      apply yields_bind_lift. intros reviews Hr. destruct (Hfile2 _ Hr) as (e2 & -> & He2).
      apply (yields_lift _ _ _ _ (λ r h', ∃ e2 reviews, h' = e2 :: e1 :: h ∧
        file_read (with_name path "required-reviews.json") reviews e2 ∧ read_reviews reviews = Ok r)).
      intros r Hread. by exists e2, reviews.
    - intros [r|e] s2 h2 Hpost; [by apply Hpost|]. intros p' Hp'. destruct e; try discriminate Hp';
        injection Hp' as <-; apply yields_raise. }
  intros [count flags] s2 h2 (e2 & reviews & -> & He2 & Hread). simpl.
  destruct count as [| |count| | |]; try apply yields_raise.
  destruct (negb _ || _) eqn:Hb; [apply yields_raise|]. apply orb_false_iff in Hb as [Hc Hf].
  apply negb_false_iff, andb_true_iff in Hc as [Hc1 Hc2]. apply Z.leb_le in Hc1, Hc2.
  apply yields_ret. exists data, listed, reviews, count, flags. simpl.
  split_and!; try done.
  - right. by left.
  - intros ->. discriminate Heq.
  - by apply no_duplicate_NoDup.
  - by left.
  - rewrite Forall_forall. intros f Hin. destruct (is_bool f) eqn:Hbf; [done|].
    apply not_true_iff_false in Hf. destruct Hf. apply existsb_exists. exists f.
    split; [by apply list_elem_of_In|by rewrite Hbf].
Qed.
End main_proof.

Lemma configured_policy_cons path policy h e :
  configured_policy path policy h → configured_policy path policy (e :: h).
Proof.
  intros (d & l & r & c & f & H1 & H2 & H3 & H4 & H5 & H6 & H7 & H8 & H9 & H10).
  exists d, l, r, c, f. split_and!; try apply H10; try done; by right.
Qed.

Lemma merge_when_ready_gated path repository number expected_head policy interval timeout s h :
  configured_policy path policy h →
  yields (gated_main path repository number expected_head)
    (merge_when_ready repository number expected_head policy interval timeout) s h (λ _ _, True).
Proof.
  intros Hp.
  apply (history_under (gated repository number expected_head policy) _ (configured_policy path policy));
    [intros; by apply configured_policy_cons| |done|].
  { intros h' c Hp' Hg. destruct c; try done. destruct op as [| | | | |dir args l| | | | | | | | |]; try done.
    unfold gated_main, gated in *. repeat case_match; try done. by exists policy. }
  eapply yields_bind; [apply clock_yields|]. intros now s1 h1 _. apply merge_loop_yields.
Qed.


(** *** Witness: one round that merges *)

Definition github_pr : value :=
  VDict [("head", VDict [("sha", VStr "c0ffee"); ("ref", VStr "chore/changelog-update");
                         ("repo", VDict [("full_name", VStr "acme/provider")])]);
         ("base", VDict [("sha", VStr "base"); ("ref", VStr "develop")]);
         ("merged", VBool false); ("state", VStr "open"); ("draft", VBool false);
         ("mergeable", VBool true); ("mergeable_state", VStr "clean")].

Definition check_run (id : Z) (conclusion : value) : value :=
  VDict [("id", VInt id); ("name", VStr "tests"); ("head_sha", VStr "c0ffee");
         ("app", VDict [("id", VInt 15368)]); ("status", VStr "completed"); ("conclusion", conclusion)].

(** The first run failed, and was run again. *)
Definition github_reply (args : list string) : res payload :=
  let answer v := Ok (Payload EmptyString (Ok v)) in
  let asks l := bool_decide (args = "gh" :: l) in
  if asks (api_args "acme/provider" (pull_request_path 7)) then answer github_pr
  else if asks (api_args "acme/provider" (files_path 7))
  then answer (VList [VDict [("filename", VStr "CHANGELOG.md"); ("status", VStr "modified")]])
  else if asks (checks_args "acme/provider" "c0ffee")
  then answer (VList [VDict [("check_runs", VList [check_run 1 (VStr "failure"); check_run 2 (VStr "success")])]])
  else if asks (review_args "acme/provider" 7)
  then answer (VDict [("headRefOid", VStr "c0ffee"); ("reviewDecision", VStr "APPROVED")])
  else Ok (Payload EmptyString (Err (ValueError "no JSON"))).

Definition policy_file (path : string) : res payload :=
  Ok (Payload EmptyString (Ok
    (if String.eqb path ".github/required-checks.json"
     then VDict [("integration_id", VInt 15368); ("checks", VList [VStr "tests"])]
     else VDict [("required_approving_review_count", VInt 1); ("require_code_owner_review", VBool true);
                 ("require_last_push_approval", VBool true);
                 ("require_extra_approval_for_unattributed_changes", VBool true)]))).

(** The clock is the state. *)
Definition github_handler (c : call) (now : Z) : reply c * Z :=
  match c return reply c * Z with
  | External op =>
      (match op return external_reply op with
       | ReadFile path => policy_file path
       | Run _ args _ => github_reply args
       | Monotonic => now
       | op => no_system op
       end, match op with Pause d => now + d | _ => now end)
  | c => let '(r, _) := fake_handler c (fake_world fresh_store) in (r, now)
  end.

Definition is_merge (c : call) : bool :=
  match c with External (Run _ ("gh" :: "pr" :: "merge" :: _) _) => true | _ => false end.

Definition gate_run : prog (res (option string) * patch) :=
  merge_main ".github/required-checks.json" "acme/provider" 7 "c0ffee" 2400000000 empty_patch.

