(* ===== verification/Timekeeping.v ===== *)
(** Termination of the polling loops.  The loops are bounded by a deadline, not by a
    counter; the model bounds them by fuel.  Under a clock that advances at least as
    much as the program sleeps, the fuel of the definitions is never exhausted. *)

From S2P Require Import Prelude Py PyStr PyTime Config Effects Monitors ApiIO Ssh Operations Readiness ChangelogMerge.
From S2P Require Import FakeApi MergeGate.
Open Scope Z_scope.

(** ** Results that are Python's *)

(** [OutOfFuel] is the model's alone: no operation and no reply produces it. *)
Definition fuelless {A} (r : res A) : Prop := r ≠ Err OutOfFuel.

Section fuelless.
Context {A B : Type}.
Lemma fuelless_ok (a : A) : fuelless (Ok a).
Proof. done. Qed.
Lemma fuelless_ret (a : A) : fuelless (mret a : res A).
Proof. done. Qed.
Lemma fuelless_err e : e ≠ OutOfFuel → fuelless (Err e : res A).
Proof. by intros He [= ->]. Qed.
Lemma fuelless_bind (m : res A) (f : A → res B) :
  fuelless m → (∀ a, fuelless (f a)) → fuelless (m ≫= f).
Proof. intros Hm Hf. destruct m as [a|e]; [apply Hf|]. intros [= ->]. by apply Hm. Qed.
Lemma fuelless_fmap (f : A → B) (m : res A) : fuelless m → fuelless (f <$> m).
Proof. intros Hm. destruct m as [a|e]; [done|]. intros [= ->]. by apply Hm. Qed.
End fuelless.

Create HintDb fuelless.
#[export] Hint Resolve fuelless_ok fuelless_ret fuelless_fmap : fuelless.
#[export] Hint Extern 1 (fuelless (Err _)) => (apply fuelless_err; discriminate) : fuelless.

(** Walks the syntax of a pure computation. *)
Ltac fuelless :=
  repeat first
    [ lazymatch goal with
      | |- ∀ _, _ => intro
      | |- fuelless (mbind _ _) => apply fuelless_bind
      | |- fuelless (let _ := _ in _) => cbv zeta
      | |- fuelless (match ?x with _ => _ end) => destruct x
      end
    | solve [auto with fuelless nocore] ].

Lemma item_fuelless v k : fuelless (item v k).
Proof. unfold item. fuelless. Qed.
Lemma get_or_fuelless v k d : fuelless (get_or v k d).
Proof. unfold get_or. fuelless. Qed.
Lemma get_fuelless v k : fuelless (get v k).
Proof. apply get_or_fuelless. Qed.
Lemma iter_fuelless v : fuelless (iter v).
Proof. unfold iter. fuelless. Qed.
Lemma in_strs_fuelless v l : fuelless (in_strs v l).
Proof. unfold in_strs. fuelless. Qed.
Lemma py_len_fuelless v : fuelless (py_len v).
Proof. unfold py_len. fuelless. Qed.
Lemma py_first_fuelless v : fuelless (py_first v).
Proof. unfold py_first. fuelless. Qed.
#[export] Hint Resolve item_fuelless get_or_fuelless get_fuelless iter_fuelless in_strs_fuelless
  py_len_fuelless py_first_fuelless : fuelless.

Lemma py_gt_fuelless a b : fuelless (py_gt a b).
Proof.
  revert b. induction a using value_ind'; intros []; simpl; fuelless.
  rename H into IH, l0 into l'. revert l'. induction IH as [|v l Hv _ IH]; intros [|w l']; fuelless.
Qed.
#[export] Hint Resolve py_gt_fuelless : fuelless.

(** ** The clock *)

(** A reply a Python call can give. *)
Definition proper_reply (c : call) : reply c → Prop :=
  match c return reply c → Prop with
  | Api _ op => λ r : res (api_answer op), fuelless r
  | ImportPrivateKey _ | ImportKnownHosts _ | SshConnect _ _ _ _ _ _ => λ r : res unit, fuelless r
  | SshRun _ _ _ => λ r : res completed, fuelless r
  | SshUpload _ _ _ _ | SshClose _ | Sleep _ => λ r : res unit, fuelless r
  | External op =>
      match op return external_reply op → Prop with
      | ReadFile _ | Run _ _ _ => λ r : res payload, fuelless r ∧ ∀ p, r = Ok p → fuelless (json p)
      | HttpGet _ _ _ _ _ _ => λ r : res (Z * payload), fuelless r ∧ ∀ p, r = Ok p → fuelless (json (snd p))
      | MakeDirectory _ | CreateTemporary _ => λ r : res string, fuelless r
      | LoadConfig _ | RemoveTree _ | WriteFile _ _ | ReplaceFile _ _ | Unlink _ | AppendFile _ _ => λ r : res unit, fuelless r
      | _ => λ _, True
      end
  | _ => λ _, True
  end.

(** The ghost state is a time the monotonic clock has reached. *)
Definition on_time (g : Z) (c : call) : reply c → Prop :=
  match c return reply c → Prop with
  | LoopTime => λ now : Z, g ≤ now
  | External op =>
      match op return external_reply op → Prop with Monotonic => λ now : Z, g ≤ now | _ => λ _, True end
  | _ => λ _, True
  end.

Definition advance (c : call) (g : Z) : reply c → Z :=
  match c return reply c → Z with
  | LoopTime => λ now : Z, now
  | Sleep seconds => λ r : res unit, match r with Ok _ => g + Z.max 0 (seconds * second) | Err _ => g end
  | External op =>
      match op return external_reply op → Z with
      | Monotonic => λ now : Z, now
      | Pause d => λ _, g + Z.max 0 d
      | _ => λ _, g
      end
  | _ => λ _, g
  end.

Definition timekeeper : monitor := {|
    ghost := Z;
    allowed _ _ := True;
    assumed g c r := proper_reply c r ∧ on_time g c r;
    observe c r g := advance c g r
  |}.

(** From [start] on, the replies of [t] are proper and its clock readings are at
    least the time slept. *)
Definition steady (t : list event) (start : Z) : Prop := assumed_all timekeeper t start.

Lemma advance_le c g r : on_time g c r → g ≤ advance c g r.
Proof.
  destruct c; simpl; try lia; [destruct r; lia|]. destruct op; simpl; lia.
Qed.

(** ** Code without loops *)

Definition ends {A} (p : M A) : Prop :=
  ∀ s g, msafe timekeeper p s g (λ r _ g', g ≤ g' ∧ fuelless r).

Lemma ends_ret {A} (a : A) : ends (mret a).
Proof. by intros s g; split. Qed.
Lemma ends_lift {A} (r : res A) : fuelless r → ends (lift r).
Proof. by intros Hr s g; split. Qed.
Lemma ends_raise {A} e : e ≠ OutOfFuel → ends (raise e : M A).
Proof. intros He s g. split; [done|by apply fuelless_err]. Qed.
Lemma ends_bind {A B} (p : M A) (f : A → M B) : ends p → (∀ a, ends (f a)) → ends (mbind f p).
Proof.
  intros Hp Hf s g. apply msafe_bind. eapply msafe_mono; [apply Hp|]. intros [a|e] s' g' [Hg Hr].
  - eapply msafe_mono; [apply Hf|]. intros r s'' g'' [? ?]. split; [lia|done].
  - split; [done|]. intros [= ->]. by apply Hr.
Qed.
Lemma ends_try {A} (p : M A) clauses :
  ends p → (∀ e p', clauses e = Some p' → ends p') → ends (try_except p clauses).
Proof.
  intros Hp Hc s g. apply msafe_try. eapply msafe_mono; [apply Hp|]. intros [a|e] s' g' [Hg Hr]; [done|].
  destruct (clauses e) as [p'|] eqn:E; [|done].
  eapply msafe_mono; [by eapply Hc|]. intros r s'' g'' [? ?]. split; [lia|done].
Qed.
Lemma ends_attempt {A} c (conv : reply c → res A) :
  (∀ r, proper_reply c r → fuelless (conv r)) → ends (attempt_call c conv).
Proof.
  intros Hc s g. apply msafe_attempt; [done|]. intros r [Hr Ht]. split; [by apply advance_le|by apply Hc].
Qed.
Lemma ends_perform c : ends (perform c).
Proof. intros s g. apply msafe_perform; [done|]. intros r [Hr Ht]. split; [by apply advance_le|done]. Qed.

Lemma steady_finishes {A} (p : M A) s t start r s' :
  msafe timekeeper p s start (λ r _ _, fuelless r) → steady t start → finishes (p s) t (r, s') → fuelless r.
Proof. intros Hp Ht Hf. exact (safe_finishes timekeeper _ _ _ _ _ Hf Ht Hp). Qed.

Create HintDb ends.

(** Walks the syntax of a program without loops. *)
Ltac ends_step :=
  first
    [ assumption
    | solve [auto with ends nocore]
    | lazymatch goal with
      | |- ∀ _, _ => intro
      | |- ends (mbind _ _) => apply ends_bind
      | |- ends (mret _) => apply ends_ret
      | |- ends (raise _) => apply ends_raise; discriminate
      | |- ends (lift _) => apply ends_lift; try solve [fuelless; eauto with fuelless]
      | |- ends (perform _) => apply ends_perform
      | |- ends (let _ := _ in _) => cbv zeta
      | |- ends (match ?x with _ => _ end) => destruct x
      end ].
Ltac ends := repeat ends_step.

(** ** The merge gate *)

Section merge.
Context (repository : string) (number : Z) (expected_head : string) (policy : Policy) (interval : Z).

Lemma validate_fuelless pr : fuelless (validate_pull_request repository pr expected_head).
Proof. unfold validate_pull_request. fuelless. Qed.

Lemma filter_res_fuelless f l : (∀ v, fuelless (f v)) → fuelless (filter_res f l).
Proof. intros Hf. induction l as [|x l IH]; simpl; fuelless. Qed.

Lemma is_required_run_fuelless name check : fuelless (is_required_run policy expected_head name check).
Proof. unfold is_required_run. fuelless. Qed.

Lemma latest_from_fuelless current id l : fuelless (latest_from current id l).
Proof. revert current id. induction l as [|x l IH]; simpl; fuelless. Qed.

Lemma checks_ready_fuelless runs : fuelless (checks_ready runs policy expected_head).
Proof.
  unfold checks_ready. generalize true. induction (checks policy) as [|name names IH]; simpl; intros ready; fuelless.
  - apply filter_res_fuelless, is_required_run_fuelless.
  - unfold latest. fuelless. apply latest_from_fuelless.
Qed.

Lemma check_runs_fuelless pages : fuelless (check_runs pages).
Proof. induction pages; simpl; fuelless. Qed.

Lemma only_changelog_fuelless files : fuelless (only_changelog files).
Proof. unfold only_changelog. fuelless. Qed.

Lemma decide_review_fuelless review : fuelless (decide_review review policy expected_head).
Proof. unfold decide_review, no_decision. fuelless. Qed.

Lemma is_clean_fuelless pr : fuelless (is_clean pr).
Proof. unfold is_clean. fuelless. Qed.

Lemma still_clean_fuelless current pr : fuelless (still_clean current pr).
Proof. unfold still_clean, base_sha. pose proof is_clean_fuelless. fuelless. Qed.

Hint Resolve validate_fuelless checks_ready_fuelless check_runs_fuelless only_changelog_fuelless
  decide_review_fuelless is_clean_fuelless still_clean_fuelless : fuelless.

Lemma command_ends args s g (Q : res payload → patch → Z → Prop) :
  (∀ p s' g', g ≤ g' → fuelless (json p) → Q (Ok p) s' g') →
  (∀ e s' g', g ≤ g' → e ≠ OutOfFuel → Q (Err e) s' g') →
  msafe timekeeper (command args) s g Q.
Proof.
  intros Ho He. apply msafe_try, msafe_attempt; [done|]. intros r [[Hr Hj] _]. destruct r as [p|e].
  - apply Ho; [done|by apply Hj].
  - destruct (is_failed_process e); [by apply msafe_raise, He|]. apply He; [done|]. intros ->. by apply Hr.
Qed.

Lemma read_ends {A} args (f : value → M A) :
  (∀ v, ends (f v)) → ends (p ← command args; v ←? json p; f v).
Proof.
  intros Hf s g. apply msafe_bind, command_ends.
  - intros p s' g' Hg Hj. apply msafe_bind, msafe_lift. destruct (json p) as [v|e].
    2: { split; [done|]. intros [= ->]. by apply Hj. }
    eapply msafe_mono; [apply Hf|]. intros r s'' g'' [? ?]. split; [lia|done].
  - intros e s' g' Hg He. split; [done|by apply fuelless_err].
Qed.

Lemma command_ok_ends args : ends (command args).
Proof. intros s g. apply command_ends; [by intros; split|]. intros. split; [done|by apply fuelless_err]. Qed.

Lemma github_json_ends args : ends (p ← command args; lift (json p)).
Proof.
  intros s g. apply msafe_bind, command_ends; [by intros; split|].
  intros e s' g' Hg He. split; [done|by apply fuelless_err].
Qed.

Lemma pull_request_ends : ends (pull_request repository number).
Proof. apply github_json_ends. Qed.
Lemma files_ends : ends (github_files repository number).
Proof. apply github_json_ends. Qed.
Lemma review_ends : ends (review_state repository number).
Proof. apply github_json_ends. Qed.
Lemma checks_ends : ends (github_checks repository expected_head).
Proof. apply read_ends. intros v. ends. Qed.
Lemma print_ends line : ends (print line).
Proof. apply ends_perform. Qed.
Lemma pause_ends d : ends (pause d).
Proof. apply ends_perform. Qed.

Hint Resolve command_ok_ends pull_request_ends files_ends review_ends checks_ends print_ends pause_ends : ends.

Lemma read_pr_ends : ends (read_validated_pull_request repository number expected_head interval).
Proof.
  unfold read_validated_pull_request. ends. apply ends_try; [ends|].
  intros e p'. destruct (is_PullRequestStateBlocked e); [|done]. intros [= <-]. ends.
Qed.

(** A round ends, and sleeps [interval] unless it returns. *)
Definition round_ends (p : M round_result) : Prop :=
  ∀ s g, msafe timekeeper p s g (λ r _ g',
    g ≤ g' ∧ fuelless r ∧ (r = Ok Again → g + interval ≤ g')).

Lemma round_bind {A} (p : M A) (f : A → M round_result) :
  ends p → (∀ a, round_ends (f a)) → round_ends (mbind f p).
Proof.
  intros Hp Hf s g. apply msafe_bind. eapply msafe_mono; [apply Hp|]. intros [a|e] s' g' [Hg Hr].
  - eapply msafe_mono; [apply Hf|]. intros r s'' g'' (? & ? & Ha). split_and!; [lia|done|].
    intros ->. specialize (Ha eq_refl). lia.
  - split_and!; [done| |done]. intros [= ->]. by apply Hr.
Qed.

Lemma round_return {A} (p : M A) outcome : ends p → round_ends (p ;; mret (Return outcome)).
Proof. intros Hp. apply round_bind; [done|]. by intros a s g; split_and!. Qed.

Lemma round_raise e : e ≠ OutOfFuel → round_ends (raise e).
Proof. intros He s g. split_and!; [done|by apply fuelless_err|done]. Qed.

Lemma wait_again_ends : round_ends (wait_again number expected_head interval).
Proof.
  apply round_bind; [apply ends_perform|]. intros [] s g.
  apply msafe_bind, msafe_perform; [done|]. intros [] _. split_and!; [simpl; lia|done|]. intros _. simpl. lia.
Qed.

Lemma merge_if_clean_ends passed pr : round_ends (merge_if_clean repository number expected_head interval passed pr).
Proof.
  apply round_bind; [ends|]. intros []; [|apply wait_again_ends].
  apply round_bind; [apply read_pr_ends|]. intros current. apply round_bind; [ends|]. intros merged.
  destruct (truthy merged); [by intros s g; split_and!|]. apply round_bind; [ends|].
  intros []; [|apply wait_again_ends]. unfold merge_pr, print.
  apply round_bind; [ends|]. intros []. apply round_return, ends_perform.
Qed.

Lemma merge_round_ends : round_ends (merge_round repository number expected_head policy interval).
Proof.
  apply round_bind; [apply read_pr_ends|]. intros pr. apply round_bind; [ends|]. intros merged.
  destruct (truthy merged); [apply round_return, ends_perform|].
  apply round_bind; [apply files_ends|]. intros files. apply round_bind; [ends|]. intros [];
    [|by apply round_raise]. cbn [negb].
  apply round_bind; [apply checks_ends|]. intros runs. apply round_bind; [ends|]. intros [];
    [|apply merge_if_clean_ends]. cbn [negb].
  apply round_bind; [apply review_ends|]. intros review. apply round_bind; [ends|].
  intros []; [| |apply merge_if_clean_ends].
  - unfold queue_merge. apply round_bind; [ends|]. intros []. apply round_return, ends_perform.
  - apply round_return, ends_perform.
Qed.

Lemma merge_loop_ends fuel deadline s g :
  0 ≤ interval → deadline ≤ g + Z.of_nat fuel * interval →
  msafe timekeeper (merge_loop repository number expected_head policy interval (S fuel) deadline) s g
    (λ r _ _, fuelless r).
Proof.
  intros Hi. revert s g. induction fuel as [|fuel IH]; intros s g Hd;
    apply msafe_bind, msafe_perform; try done; intros now [_ Hnow]; simpl in now, Hnow.
  - assert ((now <? deadline) = false) as -> by (apply Z.ltb_ge; lia). by apply msafe_raise, fuelless_err.
  - destruct (negb (now <? deadline)); [by apply msafe_raise, fuelless_err|].
    apply msafe_bind. eapply msafe_mono; [apply merge_round_ends|].
    intros [[outcome|]|e] s' g' (Hg & Hr & Ha); [by apply msafe_ret| |intros [= ->]; by apply Hr].
    apply IH. specialize (Ha eq_refl). simpl in Ha. lia.
Qed.
End merge.

(** C32.  The merge gate stops: on a clock that advances at least as long as the
    script sleeps, polling ends within the rounds the timeout allows, with a merge, an
    outcome or an error of Python's. *)
Theorem merge_gate_stops repository number expected_head policy interval timeout s t start r s' :
  0 < interval → steady t start →
  finishes (merge_when_ready repository number expected_head policy interval timeout s) t (r, s') →
  r ≠ Err OutOfFuel.
Proof.
  intros Hi. apply steady_finishes. apply msafe_bind, msafe_perform; [done|]. intros now [_ Hnow].
  apply merge_loop_ends; [lia|]. simpl in now, Hnow |- *.
  pose proof (Z.div_mod timeout interval). pose proof (Z.mod_pos_bound timeout interval Hi). nia.
Qed.

(** *** Witness *)

(** Evaluates a run and inspects its replies. *)
Ltac steady_trace :=
  vm_compute; repeat split; intros; try match goal with H : Ok _ = Ok _ |- _ => injection H as <- end;
  repeat intro; discriminate.

Lemma merge_gate_stops_witness :
  ∃ t r s', finishes (merge_when_ready "acme/provider" 7 "c0ffee"
                        {| integration_id := VInt 15368; checks := ["lint"]; approval_required := true |}
                        15000000 60000000 empty_patch) t (r, s') ∧ r ≠ Err OutOfFuel.
Proof.
  set (p := merge_when_ready _ _ _ _ _ _ _).
  assert (Hs : steady (run_trace github_handler p 0) 0).
  { steady_trace. }
  pose proof (run_finishes github_handler p 0) as Hf.
  destruct (run github_handler p 0) as [[r s'] w] eqn:Hr. exists (run_trace github_handler p 0), r, s'.
  split; [exact Hf|]. refine (merge_gate_stops _ _ _ _ _ _ _ _ _ _ _ _ Hs Hf). lia.
Defined.

(** ** Waiting for the bootstrap receipt *)

Section bootstrap.
Context `{Config}.

Lemma owned_command_fuelless uid cmd a b c : fuelless (owned_command uid cmd a b c).
Proof. unfold owned_command. fuelless. Qed.

Lemma read_observation_fuelless r : fuelless (read_observation r).
Proof. unfold read_observation. fuelless. Qed.

Lemma execute_ends conn cmd t : ends (execute conn cmd t).
Proof. unfold execute. ends. by apply ends_attempt. Qed.

Lemma sleep_msafe seconds s g (Q : res unit → patch → Z → Prop) :
  Q (Ok tt) s (g + Z.max 0 (seconds * second)) → (∀ e, e ≠ OutOfFuel → Q (Err e) s g) →
  msafe timekeeper (attempt_call (Sleep seconds) (λ r : res unit, r)) s g Q.
Proof.
  intros Ho He. apply msafe_attempt; [done|]. intros r [Hr _]. simpl in r, Hr. destruct r as [[]|e]; [done|].
  apply He. intros ->. by apply Hr.
Qed.

Lemma observe_loop_ends fuel conn cmd deadline s g :
  deadline ≤ g + Z.of_nat fuel * (2 * second) →
  msafe timekeeper (observe_loop fuel conn cmd deadline) s g (λ r _ _, fuelless r).
Proof.
  revert s g. induction fuel as [|fuel IH]; intros s g Hd;
    apply msafe_bind, msafe_perform; try done; intros now [_ Hnow]; simpl in now, Hnow.
  - assert ((now <? deadline) = false) as -> by (apply Z.ltb_ge; lia). by apply msafe_raise, fuelless_err.
  - destruct (negb (now <? deadline)); [by apply msafe_raise, fuelless_err|].
    apply msafe_bind. eapply msafe_mono; [apply execute_ends|].
    intros [result|e] s' g' [Hg Hr]; [|intros [= ->]; by apply Hr].
    apply msafe_bind, msafe_lift. pose proof (read_observation_fuelless result) as Hf.
    destruct (read_observation result) as [[r|]|e]; [done| |intros [= ->]; by apply Hf].
    apply msafe_bind, sleep_msafe; [|by intros; apply fuelless_err]. apply IH.
    simpl in Hg. unfold second in *. lia.
Qed.
End bootstrap.

(** C33.  Waiting for the bootstrap receipt stops: on a clock that advances at least
    as long as the task sleeps, polling ends within the rounds the timeout allows,
    with the receipt or an error the controller retries. *)
Theorem bootstrap_wait_stops `{Config} conn uid path command timeout s t start r s' :
  steady t start → finishes (durable_bootstrap conn uid path command timeout s) t (r, s') →
  r ≠ Err OutOfFuel.
Proof.
  apply steady_finishes. apply msafe_bind, msafe_lift.
  pose proof (owned_command_fuelless uid (bootstrap_job path command) false false true) as Hf.
  destruct (owned_command _ _ _ _ _); [|intros [= ->]; by apply Hf].
  apply msafe_bind. eapply msafe_mono; [apply execute_ends|].
  intros [submitted|e] s1 g1 [Hg Hr]; [|intros [= ->]; by apply Hr].
  destruct (negb (success submitted)); [by apply msafe_raise, fuelless_err|].
  apply msafe_bind, msafe_perform; [done|]. intros now [_ Hnow]. apply observe_loop_ends.
  simpl in now, Hnow |- *. unfold observe_fuel, timedelta, second.
  pose proof (Z.div_mod timeout 2). pose proof (Z.mod_pos_bound timeout 2). lia.
Qed.

(** *** Witness: a job that never finishes *)

(** The clock is the state; the host always answers that the job is running. *)
Definition pending_handler (c : call) (now : Z) : reply c * Z :=
  match c return reply c * Z with
  | SshRun _ _ _ => (finished 0 ("CAPI_PENDING" +:+ nl) EmptyString, now)
  | Sleep seconds => (Ok tt, now + seconds * second)
  | LoopTime => (now, now)
  | c => let '(r, _) := fake_handler c (fake_world fresh_store) in (r, now)
  end.

Lemma bootstrap_wait_stops_witness :
  ∃ t r s', finishes (@durable_bootstrap replica (Connection (VStr "host-a.test") (VInt 22)) (VStr "uid")
                        "/tmp/b.sh" "sh /tmp/b.sh" 5 empty_patch) t (r, s') ∧ r ≠ Err OutOfFuel.
Proof.
  set (p := durable_bootstrap _ _ _ _ _ _).
  assert (Hs : steady (run_trace pending_handler p 0) 0).
  { steady_trace. }
  pose proof (run_finishes pending_handler p 0) as Hf.
  destruct (run pending_handler p 0) as [[r s'] w] eqn:Hr. exists (run_trace pending_handler p 0), r, s'.
  split; [exact Hf|]. exact (bootstrap_wait_stops _ _ _ _ _ _ _ _ _ _ Hs Hf).
Defined.
