(* ===== verification/LeaseSafety.v ===== *)
(** What the host Lease guarantees whatever the API server replies: it is taken only
    when free, and renewed and released only by its holder. *)

From S2P Require Import Prelude Py PyStr Config Effects Monitors ApiIO Ssh Operations.
From S2P Require Import ContractSafety FakeApi.
Open Scope Z_scope.

(** The last reply to a read of the Lease [name]: the Lease, or the error. *)
Fixpoint last_lease (name : string) (h : list event) : option (res lease) :=
  match h with
  | [] => None
  | Ev (Api _ (ReadLease n _)) r :: h => if String.eqb n name then Some r else last_lease name h
  | _ :: h => last_lease name h
  end.

(** The object a call writes to the Lease API, if any. *)
Definition writes_lease (c : call) : bool :=
  match c with Api _ (CreateLease _ _) | Api _ (ReplaceLease _ _ _) => true | _ => false end.

(** How long a Lease lasts after its last renewal, in seconds. *)
Definition lasts (l : lease) : Z :=
  match l_duration l with Some d => if d =? 0 then 60 else d | None => 60 end.

(** Nobody holds the Lease at [now]: it names no holder, was never taken, or has
    expired since it was renewed, or taken if it never was. *)
Definition lease_free (l : lease) (now : Z) : Prop :=
  l_holder l = None ∨ l_holder l = Some EmptyString ∨ (l_renew l = None ∧ l_acquire l = None) ∨
  ∃ since, (l_renew l = Some since ∨ l_renew l = None ∧ l_acquire l = Some since) ∧
    since + lasts l * 1000000 ≤ now.

Lemma not_held_free l now : lease_held l now = false → lease_free l now.
Proof.
  assert (Hd : timedelta (or_default (l_duration l) 60) = lasts l * 1000000).
  { unfold timedelta, lasts. by destruct (l_duration l) as [[]|]. }
  unfold lease_held, lease_free. intros Hheld. destruct (l_holder l) as [h|]; [right|by left].
  destruct (decide (h = EmptyString)) as [->|Hh%String.eqb_neq]; [by left|right].
  destruct (l_renew l) as [r|]; [|destruct (l_acquire l) as [a|]; [|by left]];
    (unfold first_some in Hheld; rewrite Hh, Hd in Hheld; apply Z.ltb_ge in Hheld; right; eexists;
     split; [|exact Hheld]; auto).
Qed.

Section leases.
Context `{Config} (self : HostLease).

Lemma holds_holder l : holds self l = true → l_holder l = Some (holder self).
Proof. unfold holds. destruct (l_holder l) as [h|]; [|done]. by intros ->%String.eqb_eq. Qed.

(** An acquisition writes this holder's fresh Lease: a new one when there was none,
    else over a Lease that is free or expired at the last clock reading. *)
Definition may_take_lease (h : list event) (c : call) : Prop :=
  writes_lease c = true →
  ∃ now, last_clock h = Some now ∧
    ((∃ e, last_lease (hl_name self) h = Some (Err (ApiException 404 e)) ∧
           c = Api API_TIMEOUT (CreateLease LEASE_NAMESPACE (fresh_lease self None now))) ∨
     (∃ cur, last_lease (hl_name self) h = Some (Ok cur) ∧ lease_free cur now ∧
           c = Api API_TIMEOUT (ReplaceLease (hl_name self) LEASE_NAMESPACE
                                  (fresh_lease self (l_resourceVersion cur) now)))).

(** A renewal or a release rewrites the Lease this holder just saw as its own. *)
Definition may_update_lease (update : lease → Z → lease) (h : list event) (c : call) : Prop :=
  writes_lease c = true →
  ∃ cur now, last_lease (hl_name self) h = Some (Ok cur) ∧ l_holder cur = Some (holder self) ∧
    c = Api API_TIMEOUT (ReplaceLease (hl_name self) LEASE_NAMESPACE (update cur now)).

Lemma lease_read_safe ok s h (Q : res lease → patch → list event → Prop) :
  (∀ h t, ok h (Api t (ReadLease (hl_name self) LEASE_NAMESPACE))) →
  (∀ r : res lease, let r' := match r with Err e => if is_transport e then Err transport_failed else Err e | _ => r end in
     Q r' s (Ev (Api API_TIMEOUT (ReadLease (hl_name self) LEASE_NAMESPACE)) r :: h)) →
  msafe (history ok) (lease_read self) s h Q.
Proof.
  intros Hok HQ. apply (msafe_request (history ok) (ReadLease _ _)); [apply Hok|].
  intros [l|e] _; [apply (HQ (Ok l))|]. specialize (HQ (Err e)). simpl in HQ. by destruct (is_transport e).
Qed.

Lemma acquire_safe s h : msafe (history may_take_lease) (lease_acquire self) s h (λ _ _ _, True).
Proof.
  unfold lease_acquire. apply msafe_bind, msafe_perform; [done|]. intros now _.
  apply msafe_bind, msafe_try, msafe_bind, lease_read_safe; [done|].
  intros [cur|e]; cbv zeta beta iota.
  - apply msafe_ret. destruct (lease_held cur now) eqn:El; [exact I|].
    apply msafe_try. apply msafe_bind, (msafe_request (history may_take_lease) (ReplaceLease _ _ _)).
    + intros _. exists now. split; [done|]. right. exists cur. split; [|by eauto using not_held_free].
      simpl. by rewrite String.eqb_refl.
    + intros [l|e] _; [exact I|]. destruct (is_transport e); [exact I|].
      destruct e; try exact I. simpl. repeat case_match; simplify_eq; exact I.
  - destruct (is_transport e) eqn:Et; [exact I|]. destruct e as [| |status msg| | | | | | | | | | | |]; try exact I.
    destruct (status =? 404) eqn:Es; [|exact I]. apply Z.eqb_eq in Es as ->. cbn [negb].
    apply msafe_ret, msafe_try. apply msafe_bind, (msafe_request (history may_take_lease) (CreateLease _ _)).
    + intros _. exists now. split; [done|]. left. exists msg. split; [|done].
      simpl. by rewrite String.eqb_refl.
    + intros [l|e] _; [exact I|]. destruct (is_transport e); [exact I|].
      destruct e; try exact I. simpl. repeat case_match; simplify_eq; exact I.
Qed.

Lemma renew_safe s h : msafe (history (may_update_lease with_renew)) (lease_renew self) s h (λ _ _ _, True).
Proof.
  unfold lease_renew. apply msafe_bind, lease_read_safe; [done|]. intros [cur|e]; cbv zeta beta iota.
  2:{ by destruct (is_transport e). }
  destruct (holds self cur) eqn:Eh; [|exact I]. cbn [negb].
  apply msafe_bind, msafe_perform; [done|]. intros now _.
  apply msafe_bind, (msafe_request (history _) (ReplaceLease _ _ _)).
  - intros _. exists cur, now. split; [|by eauto using holds_holder]. simpl. by rewrite String.eqb_refl.
  - intros [l|e] _; [exact I|]. by destruct (is_transport e).
Qed.

(** The renewal task writes nothing but renewals, however often it wakes up. *)
Lemma heartbeat_safe fuel s h :
  msafe (history (may_update_lease with_renew)) (heartbeat fuel self) s h (λ _ _ _, True).
Proof.
  revert s h. induction fuel as [|fuel IH]; intros s h; [exact I|]. cbn [heartbeat].
  apply msafe_bind, msafe_perform; [done|]. intros stopped _. destruct stopped; [exact I|].
  apply msafe_bind, msafe_except, msafe_bind, msafe_perform; [done|]. intros waiting _.
  assert (Hnext : ∀ (renewed : bool) s h,
    msafe (history (may_update_lease with_renew))
      (if renewed then heartbeat fuel self else perform CancelParent ;; mret true) s h (λ _ _ _, True)).
  { intros [] s1 h1; [apply IH|]. apply msafe_bind, msafe_perform; [done|]. intros [] _. exact I. }
  destruct waiting; [exact I|].
  apply msafe_bind, msafe_outcome. eapply msafe_mono; [apply renew_safe|]. intros r s1 h1 _.
  apply msafe_bind, msafe_perform; [done|]. intros cancelled _. destruct cancelled; [exact I|].
  apply msafe_lift. destruct r as [renewed|e]; [apply Hnext|].
  destruct (is_Exception e); [apply msafe_ret, (Hnext false)|exact I].
Qed.

Lemma release_safe s h :
  msafe (history (may_update_lease (λ l _, without_holder l))) (lease_release self) s h (λ _ _ _, True).
Proof.
  unfold lease_release. apply msafe_bind, lease_read_safe; [done|]. intros [cur|e]; cbv zeta beta iota.
  2:{ by destruct (is_transport e). }
  destruct (holds self cur) eqn:Eh; [|exact I]. cbn [negb].
  apply msafe_bind, (msafe_request (history _) (ReplaceLease _ _ _)).
  - intros _. exists cur, 0. split; [|by eauto using holds_holder]. simpl. by rewrite String.eqb_refl.
  - intros [l|e] _; [exact I|]. by destruct (is_transport e).
Qed.
End leases.

(** C25.  A host Lease is never stolen: an acquisition writes only when the Lease it
    just read did not exist, or was free or expired at the clock reading it records,
    and under that Lease's resourceVersion; a renewal, and so the renewal task
    however often it wakes up, changes only the renew time and a release only the holder,
    of a Lease just seen as this holder's own. *)
Theorem host_lease_never_stolen `{Config} self s t c :
  (issues (lease_acquire self s) t c → may_take_lease self (rev t) c) ∧
  (issues (lease_renew self s) t c → may_update_lease self with_renew (rev t) c) ∧
  (∀ fuel, issues (heartbeat fuel self s) t c → may_update_lease self with_renew (rev t) c) ∧
  (issues (lease_release self s) t c → may_update_lease self (λ l _, without_holder l) (rev t) c).
Proof.
  split_and!; [|..|intros fuel|]; apply history_issues;
    [apply acquire_safe|apply renew_safe|apply heartbeat_safe|apply release_safe].
Qed.

(** *** Witness: an acquisition against the model API writes *)

Definition fixture_lease : HostLease := {| hl_name := "ssh-host-a"; holder := "machine-uid/uuid-0" |}.

Definition fixture_lease_acquire : prog (res bool * patch) :=
  @lease_acquire replica fixture_lease empty_patch.

Lemma host_lease_never_stolen_witness :
  ∃ t c, issues fixture_lease_acquire t c ∧ writes_lease c = true ∧
         @may_take_lease replica fixture_lease (rev t) c.
Proof.
  destruct (run_issues fake_handler writes_lease fixture_lease_acquire (fake_world fresh_store))
    as (t & c & Hi & Hc); [vm_compute; reflexivity|].
  exists t, c. split; [exact Hi|]. split; [exact Hc|].
  exact (proj1 (@host_lease_never_stolen replica fixture_lease empty_patch t c) Hi).
Defined.

(** Two operations on one host exclude each other until the Lease expires. *)
Example lease_excludes_second_holder :
  let other := {| hl_name := "ssh-host-a"; holder := "other-uid/uuid-1" |} in
  let w := snd (run fake_handler fixture_lease_acquire (fake_world fresh_store)) in
  fst (fst (run fake_handler (@lease_acquire replica other empty_patch) w)) = Ok false ∧
  fst (fst (run fake_handler (@lease_acquire replica other empty_patch) (tick w 61000000))) = Ok true.
Proof. split; vm_compute; reflexivity. Qed.
