(* ===== verification/LockSafety.v ===== *)
(** What the distributed reconcile lock guarantees whatever the API server
    replies, and its behaviour against the model API. *)

From S2P Require Import Prelude Py PyStr PyTime Config Effects Monitors ApiIO Contracts ContractSafety Locks FakeApi.
Open Scope Z_scope.

Lemma parse_lock_value holder expires :
  holder ≠ EmptyString →
  parse_distributed_reconcile_lock_value (VStr (distributed_reconcile_lock_value holder expires)) =
    Ok (Some (holder, expires)).
Proof.
  intros Hh. unfold parse_distributed_reconcile_lock_value, distributed_reconcile_lock_value.
  assert (truthy (VStr (holder +:+ "|" +:+ str_Z expires)) = true) as -> by by destruct holder.
  change ("|" +:+ str_Z expires) with (String "|"%char (str_Z expires)).
  rewrite rpartition_last by (apply str_Z_chars; done).
  simpl. rewrite py_int_str_Z. by destruct (String.eqb_spec holder EmptyString).
Qed.

Section lock_safety.
Context `{Config} (namespace name : string).

(** Nobody else's lock is live. *)
Definition takeable (parsed : option (string * Z)) (now_epoch : Z) : Prop :=
  ∀ holder expires, parsed = Some (holder, expires) → holder = RECONCILE_LOCK_HOLDER ∨ expires ≤ now_epoch.

Lemma not_held_takeable parsed now_epoch : held_elsewhere parsed now_epoch = false → takeable parsed now_epoch.
Proof.
  intros Hh holder expires ->. simpl in Hh. destruct (String.eqb_spec holder RECONCILE_LOCK_HOLDER); [by left|].
  right. simpl in Hh. by apply Z.ltb_ge.
Qed.

(** What the last read and the clock say when the lock is taken. *)
Definition may_take (h : list event) (c : call) : Prop :=
  match c with
  | Api _ (PatchObject _ _ _ _ _ _ as op) =>
      ∃ obj version parsed now,
        last_read namespace name h = Some obj ∧ last_clock h = Some now ∧
        lock_state obj = Ok (Some (version, parsed)) ∧ takeable parsed (epoch now) ∧
        op = lock_op namespace name version
               (VStr (distributed_reconcile_lock_value RECONCILE_LOCK_HOLDER (epoch now + lock_ttl)))
  | _ => True
  end.

Definition may_drop (h : list event) (c : call) : Prop :=
  match c with
  | Api _ (PatchObject _ _ _ _ _ _ as op) =>
      ∃ obj version expires,
        last_read namespace name h = Some obj ∧
        lock_state obj = Ok (Some (version, Some (RECONCILE_LOCK_HOLDER, expires))) ∧
        op = lock_op namespace name version VNone
  | _ => True
  end.

(** A round is safe from any history when its last patch is. *)
Lemma lock_patch_safe ok version annotation gone s h :
  ok h (Api API_TIMEOUT (lock_op namespace name version annotation)) →
  msafe (history ok) (lock_patch namespace name version annotation gone) s h (λ _ _ _, True).
Proof.
  intros Hok. apply msafe_try. apply msafe_bind, msafe_request; [exact Hok|].
  intros [a|e] _; [exact I|]. destruct (is_transport e); [exact I|].
  destruct e; try exact I. simpl. repeat case_match; simplify_eq; exact I.
Qed.

Lemma rounds_safe ok n round s h :
  (∀ s h, msafe (history ok) round s h (λ _ _ _, True)) →
  msafe (history ok) (rounds n round) s h (λ _ _ _, True).
Proof.
  intros Hr. revert s h. induction n as [|n IH]; intros s h; [done|].
  apply msafe_bind. eapply msafe_mono; [apply Hr|]. intros [[b|]|e] s' h' _; [done|apply IH|done].
Qed.

Lemma acquire_round_safe s h :
  msafe (history may_take) (acquire_round namespace name) s h (λ _ _ _, True).
Proof.
  apply msafe_bind, read_machine_safe; [done..|]. intros obj s1 h1 Ho.
  bind_lift; [|done]. destruct a as [[version parsed]|]; [|exact I].
  apply msafe_bind, msafe_perform; [done|]. intros now _.
  cbv zeta. destruct (held_elsewhere parsed (epoch now)) eqn:E; [exact I|].
  apply lock_patch_safe. exists obj, version, parsed, now. by split_and!; auto using not_held_takeable.
Qed.

Lemma release_round_safe s h :
  msafe (history may_drop) (release_round namespace name) s h (λ _ _ _, True).
Proof.
  apply msafe_bind, msafe_try, msafe_bind, read_machine_safe; [done| |].
  - intros [] s1 h1; try exact I. simpl. repeat case_match; simplify_eq; exact I.
  - intros obj s1 h1 Ho. apply msafe_ret.
    bind_lift; [|done]. destruct a as [[version [[holder expires]|]]|]; [|exact I..].
    destruct (String.eqb_spec holder RECONCILE_LOCK_HOLDER) as [->|]; [|exact I].
    apply lock_patch_safe. by exists obj, version, expires.
Qed.
End lock_safety.

Lemma acquire_writes `{Config} namespace name s t c :
  issues (acquire_distributed_reconcile_lock namespace name s) t c → may_take namespace name (rev t) c.
Proof.
  apply history_issues. unfold acquire_distributed_reconcile_lock.
  destruct (negb _); [exact I|]. apply rounds_safe, acquire_round_safe.
Qed.

Lemma release_writes `{Config} namespace name s t c :
  issues (release_distributed_reconcile_lock namespace name s) t c → may_drop namespace name (rev t) c.
Proof.
  apply history_issues. unfold release_distributed_reconcile_lock.
  destruct (negb _); [exact I|]. apply rounds_safe, release_round_safe.
Qed.

(** The accepted write of this controller's lock, expiring [lock_ttl] after the clock
    reading [now]. *)
Definition wrote_lock `{Config} (namespace name : string) (now : Z) (e : event) : Prop :=
  match e with
  | Ev (Api _ (PatchObject _ _ _ _ _ _ as op)) (Ok _) =>
      ∃ version, op = lock_op namespace name version
                        (VStr (distributed_reconcile_lock_value RECONCILE_LOCK_HOLDER (epoch now + lock_ttl)))
  | _ => False
  end.

(** An acquisition that won ended with that write. *)
Definition won `{Config} (namespace name : string) (h : list event) : Prop :=
  match h with
  | e :: h => ∃ now, last_clock h = Some now ∧ wrote_lock namespace name now e
  | [] => False
  end.

Lemma acquire_round_wins `{Config} namespace name s h :
  msafe (history (λ _ _, True)) (acquire_round namespace name) s h
    (λ r _ h', r = Ok (Some true) → won namespace name h').
Proof.
  apply msafe_bind. apply history_free; [by apply (get_provider_object_fp (λ _, ∀ _, True)); auto|].
  intros [obj|e] s1 h1; [|done]. bind_lift; [|done]. destruct a as [[version parsed]|]; [|done].
  apply msafe_bind, msafe_perform; [done|]. intros now _.
  cbv zeta. destruct (held_elsewhere parsed (epoch now)); [done|].
  apply msafe_try, msafe_bind, msafe_request; [done|].
  intros [a|e] _; [exists now; split; [done|by exists version]|].
  destruct (is_transport e); [done|]. destruct e; try done. by repeat case_match; simplify_eq.
Qed.

Lemma acquire_wins `{Config} namespace name s t s' :
  SSHMACHINE_DISTRIBUTED_LOCK_ENABLED = true →
  finishes (acquire_distributed_reconcile_lock namespace name s) t (Ok true, s') →
  won namespace name (rev t).
Proof.
  intros He Hf. refine (history_finishes (λ _ _, True) _ _ _ _ _ (λ r _ h, r = Ok true → won namespace name h) _ Hf eq_refl).
  unfold acquire_distributed_reconcile_lock. rewrite He. cbn [negb].
  clear Hf. generalize (@nil event). revert s. generalize 5%nat. intros n. induction n as [|n IH]; intros s h; [done|].
  apply msafe_bind. eapply msafe_mono; [apply acquire_round_wins|].
  intros [[b|]|e] s1 h1 Hw; [|apply IH|done]. intros [= ->]. by apply Hw.
Qed.

(** C3.  The reconcile lock is never stolen: whenever an acquisition is about to
    write to the machine, the last object it read showed no other controller's
    unexpired lock at the last clock reading, and the write is this controller's
    value, expiring [lock_ttl] later, fenced by that object's resourceVersion. *)
Theorem acquire_never_steals `{Config} namespace name s t c :
  issues (acquire_distributed_reconcile_lock namespace name s) t c → may_take namespace name (rev t) c.
Proof. apply acquire_writes. Qed.

(** C4.  A release only ever clears this controller's own lock, fenced by the
    resourceVersion of the object in which it saw it. *)
Theorem release_drops_only_own `{Config} namespace name s t c :
  issues (release_distributed_reconcile_lock namespace name s) t c → may_drop namespace name (rev t) c.
Proof. apply release_writes. Qed.

(** C5.  What one controller writes, every controller reads back: the lock value
    parses to its holder, even one containing the separator, and its expiry. *)
Theorem lock_value_roundtrip holder expires :
  holder ≠ EmptyString →
  parse_distributed_reconcile_lock_value (VStr (distributed_reconcile_lock_value holder expires)) =
    Ok (Some (holder, expires)).
Proof. apply parse_lock_value. Qed.

Lemma lock_value_roundtrip_witness :
  parse_distributed_reconcile_lock_value
    (VStr (distributed_reconcile_lock_value "pod|0-uuid" 1790000120)) = Ok (Some ("pod|0-uuid", 1790000120)).
Proof. apply lock_value_roundtrip. discriminate. Defined.

(** *** Witnesses: a fresh machine, and one this controller holds *)

Definition lock_config : Config := default_config "replica-1".
Definition lock_store : store := fake_store (connection_fields "host-a.test") [] [] [].

Definition fixture_acquire : prog (res bool * patch) :=
  @acquire_distributed_reconcile_lock lock_config "test" "machine-a" empty_patch.

Definition is_lock_write (c : call) : bool :=
  match c with Api _ (PatchObject _ _ _ _ _ _) => true | _ => false end.

Definition locked_world : world := snd (run fake_handler fixture_acquire (fake_world lock_store)).

Definition fixture_release : prog (res bool * patch) :=
  @release_distributed_reconcile_lock lock_config "test" "machine-a" empty_patch.

Lemma acquire_never_steals_witness :
  ∃ t c, issues fixture_acquire t c ∧ is_lock_write c = true ∧
         @may_take lock_config "test" "machine-a" (rev t) c.
Proof.
  destruct (run_issues fake_handler is_lock_write fixture_acquire (fake_world lock_store))
    as (t & c & Hi & Hc); [vm_compute; reflexivity|].
  exists t, c. split; [exact Hi|]. split; [exact Hc|].
  exact (@acquire_never_steals lock_config _ _ _ _ _ Hi).
Defined.

Lemma release_drops_only_own_witness :
  ∃ t c, issues fixture_release t c ∧ is_lock_write c = true ∧
         @may_drop lock_config "test" "machine-a" (rev t) c.
Proof.
  destruct (run_issues fake_handler is_lock_write fixture_release locked_world)
    as (t & c & Hi & Hc); [vm_compute; reflexivity|].
  exists t, c. split; [exact Hi|]. split; [exact Hc|].
  exact (@release_drops_only_own lock_config _ _ _ _ _ Hi).
Defined.

(** Another replica is refused while the lock is live and takes it over after. *)
Example lock_excludes_other_replica :
  let other := @acquire_distributed_reconcile_lock (default_config "replica-2") "test" "machine-a" empty_patch in
  fst (fst (run fake_handler other locked_world)) = Ok false ∧
  fst (fst (run fake_handler other (tick locked_world (121 * second)))) = Ok true.
Proof. split; vm_compute; reflexivity. Qed.
