(* ===== verification/WriteFences.v ===== *)
(** What fences the writes of the SSHMachine handlers: every patch carries the
    identity and the resourceVersion of an object the API server showed to the same
    run. *)

From S2P Require Import Prelude Py PyStr PyTime Config Effects Monitors ApiIO Conditions Contracts ContractSafety.
From S2P Require Import Inventory Ssh Operations Lifecycle Locks LockSafety MachineStatus Bootstrap Diagnostics Machine.
From S2P Require Import SshHost FakeApi LifecycleSafety MachineWrites InventorySafety.

(** ** What the API server has shown *)

(** The hosts of a reply to a read of them, or to a write of one. *)
Definition shown_hosts (namespace : string) (e : event) : option (list value) :=
  match e with
  | Ev (Api _ (ListObjects group _ ns plural)) (Ok l) =>
      if String.eqb group API_GROUP && String.eqb ns namespace && String.eqb plural "sshhosts"
      then match items ← item l "items"; iter items with Ok hosts => Some hosts | Err _ => None end
      else None
  | Ev (Api _ (GetObject group _ ns plural _)) (Ok o)
  | Ev (Api _ (PatchObject group _ ns plural _ _)) (Ok o)
  | Ev (Api _ (PatchObjectStatus group _ ns plural _ _)) (Ok o) =>
      if String.eqb group API_GROUP && String.eqb ns namespace && String.eqb plural "sshhosts"
      then Some [o] else None
  | _ => None
  end.

(** The hosts of a namespace last shown; the history has the latest event first. *)
Fixpoint last_hosts (namespace : string) (h : list event) : list value :=
  match h with
  | [] => []
  | e :: h => match shown_hosts namespace e with Some hosts => hosts | None => last_hosts namespace h end
  end.

(** ** The fences *)

(** The patch of a host [name] is for the UID and at the resourceVersion of a host of
    that name among those last shown. *)
Definition host_fence (namespace : string) (h : list event) (name body : value) : Prop :=
  ∃ o meta uid version, o ∈ last_hosts namespace h ∧ item o "metadata" = Ok meta ∧
    item meta "name" = Ok name ∧ item meta "uid" = Ok uid ∧ item meta "resourceVersion" = Ok version ∧
    item body "metadata" = Ok (VDict [("uid", uid); ("resourceVersion", version)]).

(** The patch of the machine is for the UID and at the resourceVersion of the machine
    last read; or at its resourceVersion, and of the lock annotation alone. *)
Definition machine_fence (namespace name : string) (h : list event) (body : value) : Prop :=
  ∃ o, last_read namespace name h = Some o ∧
    ((∃ meta live_uid uid version, item o "metadata" = Ok meta ∧ get meta "uid" = Ok live_uid ∧
        py_eqb live_uid uid = true ∧ item meta "resourceVersion" = Ok version ∧
        item body "metadata" = Ok (VDict [("uid", uid); ("resourceVersion", version)])) ∨
     (∃ meta version annotation, get_or o "metadata" (VDict []) = Ok meta ∧
        get meta "resourceVersion" = Ok version ∧ truthy version = true ∧
        body = VDict [("metadata", VDict [("resourceVersion", version);
          ("annotations", VDict [("infrastructure.cluster.x-k8s.io/reconcile-lock", annotation)])])])).

(** What a handler of [namespace/name] may patch after the history [h]. *)
Definition fenced (namespace name : string) (h : list event) (c : call) : Prop :=
  match c with
  | Api _ (PatchObject group _ ns plural target body)
  | Api _ (PatchObjectStatus group _ ns plural target body) =>
      group = API_GROUP ∧
      (plural = "sshhosts" ∧ host_fence ns h target body ∨
       plural = "sshmachines" ∧ ns = namespace ∧ target = VStr name ∧ machine_fence namespace name h body)
  | _ => True
  end.

Definition is_patch (c : call) : bool :=
  match c with Api _ (PatchObject _ _ _ _ _ _) | Api _ (PatchObjectStatus _ _ _ _ _ _) => true | _ => false end.

Definition is_status_patch (c : call) : bool :=
  match c with Api _ (PatchObjectStatus _ _ _ _ _ _) => true | _ => false end.

Lemma not_patch_fenced ns n h c : is_patch c = false → fenced ns n h c.
Proof. by destruct c as [t []| | | | | | | | | | | | | | |]. Qed.

Lemma covers_not_patch : covers (λ c, is_patch c = false).
Proof. by intros [t []| | | | | | | | | | | | | | |]. Qed.

Lemma covers_not_status_patch : covers (λ c, is_status_patch c = false).
Proof. by intros [t []| | | | | | | | | | | | | | |]. Qed.

(** ** The writes *)

Section write_sites.
Context `{Config} `{Yaml} (ns n : string).

Abbreviation fencing := (secure (history (fenced ns n))).

Lemma fencing_plain {A} (p : M A) : footprint (λ c, is_patch c = false) p → fencing p.
Proof.
  intros Hp. apply secure_footprint. eapply footprint_mono; [exact Hp|]. intros c Hc h. by apply not_patch_fenced.
Qed.

(** *** The machine *)

Lemma persist_fencing uid ch : fencing (persist_machine_status ns n uid ch).
Proof.
  intros s h. apply (history_under (may_persist ns n uid ch) _ (λ _, True)); [done| |done|].
  - intros h' c _ Hc. destruct (is_patch c) eqn:Ep; [|by apply not_patch_fenced].
    destruct c as [t op| | | | | | | | | | | | | | |]; try done.
    assert (Hw : ∃ obj meta cu version ch', last_read ns n h' = Some obj ∧ item obj "metadata" = Ok meta ∧
      get meta "uid" = Ok cu ∧ py_eqb cu uid = true ∧ item meta "resourceVersion" = Ok version ∧
      op = persist_op ns n uid version ch').
    { destruct op; try done; destruct Hc as (o & meta & cu & v & ch' & ? & ? & ? & ? & ? & _ & ?);
        by exists o, meta, cu, v, ch'. }
    destruct Hw as (o & meta & cu & v & ch' & Ho & Hm & Hcu & He & Hv & ->).
    split; [done|]. right. split_and!; [done..|]. exists o. split; [done|]. left. by exists meta, cu, uid, v.
  - eapply msafe_mono; [apply persist_safe|done].
Qed.

Lemma commit_binding_fencing binding uid : fencing (commit_binding binding n ns uid).
Proof.
  intros s h. unfold commit_binding.
  apply msafe_bind, read_machine_safe; [done..|]. intros obj s1 h1 Ho.
  bind_lift; [|done]. rename a into meta. bind_lift; [|done]. rename a into live.
  split_if; [by apply msafe_raise|]. apply negb_false_iff in Hb.
  bind_lift; [|done]. bind_lift; [|done]. cbv zeta. bind_lift; [|done]. rename a1 into version.
  apply msafe_bind, msafe_request.
  - split; [done|]. right. split_and!; [done..|]. exists obj. split; [done|]. left.
    by exists meta, live, uid, version.
  - intros [?|e] _; [|by case_match]. apply msafe_bind.
    eapply msafe_mono; [apply persist_fencing|]. intros [] ? ? _; [|done]. by apply msafe_ret.
Qed.

(** The parsed lock is that of the object's resourceVersion. *)
Lemma lock_state_fence h obj version parsed annotation :
  last_read ns n h = Some obj → lock_state obj = Ok (Some (version, parsed)) →
  fenced ns n h (Api API_TIMEOUT (lock_op ns n version annotation)).
Proof.
  intros Ho Hs. apply res_bind_ok in Hs as (meta & Hm & Hs). apply res_bind_ok in Hs as (v & Hv & Hs).
  destruct (truthy v) eqn:Ht; [|done]. cbn [negb] in Hs.
  apply res_bind_ok in Hs as (? & _ & Hs). apply res_bind_ok in Hs as (? & _ & Hs).
  apply res_bind_ok in Hs as (? & _ & [= -> _]).
  split; [done|]. right. split_and!; [done..|]. exists obj. split; [done|]. right. by exists meta, version, annotation.
Qed.

Lemma rounds_fencing k round : fencing round → fencing (rounds k round).
Proof. intros Hr s h. by apply rounds_safe. Qed.

Lemma acquire_round_fencing : fencing (acquire_round ns n).
Proof.
  intros s h. apply (history_narrow (may_take ns n) _ (λ c, is_status_patch c = false)).
  - intros h' [t []| | | | | | | | | | | | | | |]; try done.
    intros (o & v & parsed & now & Ho & _ & Hs & _ & ->) _. by eapply lock_state_fence.
  - unfold acquire_round. pose proof covers_not_status_patch. fp; first [done | by apply lock_patch_fp].
  - apply acquire_round_safe.
Qed.

Lemma release_round_fencing : fencing (release_round ns n).
Proof.
  intros s h. apply (history_narrow (may_drop ns n) _ (λ c, is_status_patch c = false)).
  - intros h' [t []| | | | | | | | | | | | | | |]; try done.
    intros (o & v & expires & Ho & Hs & ->) _. by eapply lock_state_fence.
  - unfold release_round. pose proof covers_not_status_patch. fp; first [done | by apply lock_patch_fp].
  - apply release_round_safe.
Qed.

(** *** Hosts *)

Lemma get_host_fencing hns hn s h (Q : res value → patch → list event → Prop) :
  (∀ e s' h', Q (Err e) s' h') →
  (∀ o s' h', last_hosts hns h' = [o] → Q (Ok o) s' h') →
  msafe (history (fenced ns n)) (get_provider_object "sshhosts" hns hn) s h Q.
Proof.
  intros He Ho. apply msafe_request; [exact I|]. intros [o|e] _.
  - apply Ho. simpl. by rewrite !String.eqb_refl.
  - destruct (is_transport e); apply He.
Qed.

(** What is known after [host_patch], of what it returns and of the hosts shown. *)
Definition patched (hns : string) (shown : list value) (r : res value) (h : list event) : Prop :=
  match r with Ok o => last_hosts hns h = [o] | Err _ => last_hosts hns h = shown end.

Lemma host_patch_fencing hns host k v status s h :
  k ≠ "metadata" → host ∈ last_hosts hns h →
  msafe (history (fenced ns n)) (host_patch host hns [(k, v)] status) s h
    (λ r _ h', patched hns (last_hosts hns h) r h').
Proof.
  intros Hk Hin. unfold host_patch.
  bind_lift; [|done]. rename a into meta. bind_lift; [|done]. rename a into uid.
  bind_lift; [|done]. rename a into version. bind_lift; [|done]. rename a into name. cbv zeta.
  assert (Hf : host_fence hns h name
    (VDict (dset [(k, v)] "metadata" (VDict [("uid", uid); ("resourceVersion", version)])))).
  { exists host, meta, uid, version. split_and!; [done..|]. unfold item. by rewrite dget_dset_eq. }
  destruct status; (apply msafe_request; [split; [done|]; by left|]);
    intros [o|e] _; simpl; rewrite ?String.eqb_refl; try done; by destruct (is_transport e).
Qed.

Lemma host_phase_fencing binding uid phase reason : fencing (set_host_phase binding n ns uid phase reason).
Proof.
  intros s h. unfold set_host_phase. bind_lift; [|done]. split_if; [exact I|].
  bind_lift; [|done]. destruct a0 as [hns hn].
  apply msafe_bind, get_host_fencing; [done|]. intros o s1 h1 Ho.
  bind_lift; [|done]. split_if; [exact I|].
  apply msafe_bind. eapply msafe_mono; [apply host_patch_fencing; [done|rewrite Ho; by left]|].
  intros [] ? ? _; [|done]. by apply msafe_ret.
Qed.

Lemma release_host_fencing binding uid : fencing (release_host binding n ns uid).
Proof.
  intros s h. unfold release_host. bind_lift; [|done]. split_if; [exact I|].
  bind_lift; [|done]. destruct a0 as [hns hn].
  apply msafe_bind, get_host_fencing; [done|]. intros o s1 h1 Ho.
  bind_lift; [|done]. split_if; [exact I|].
  bind_lift; [|done]. split_if; [exact I|]. bind_lift; [|done]. split_if; [exact I|].
  apply msafe_bind. eapply msafe_mono; [apply host_patch_fencing; [done|rewrite Ho; by left]|].
  intros [o'|e] s2 h2 Hp; [|done].
  apply msafe_bind. eapply msafe_mono; [apply host_patch_fencing; [done|rewrite Hp; by left]|].
  intros [] ? ? _; [|done]. by apply msafe_ret.
Qed.

Lemma claim_first_fencing candidates labels uid s h :
  (∀ o, o ∈ candidates → o ∈ last_hosts ns h) →
  msafe (history (fenced ns n)) (claim_first candidates labels n ns uid) s h (λ _ _ _, True).
Proof.
  revert s h. induction candidates as [|host candidates IH]; intros s h Hin; [exact I|]. simpl.
  assert (Hrest : ∀ o, o ∈ candidates → o ∈ last_hosts ns h) by (intros; apply Hin; by right).
  bind_lift; [|done]. split_if; [by apply IH|].
  apply msafe_bind, msafe_try. bind_lift; [|apply lost_claim; [by apply IH|done]].
  apply msafe_bind. eapply msafe_mono; [apply host_patch_fencing; [done|apply Hin; by left]|].
  intros [o|e] s1 h1 Hp; [exact I|]. apply lost_claim; [|done].
  apply IH. intros o Ho. rewrite Hp. by apply Hrest.
Qed.

Lemma select_host_fencing sp st uid : fencing (select_host sp st n ns uid).
Proof.
  intros s h. unfold select_host, list_hosts. apply msafe_bind, msafe_bind, msafe_request; [done|].
  intros [listing|e] _; [|by destruct (is_transport e)].
  bind_lift; [|done]. apply msafe_lift. destruct (iter a) as [items|] eqn:Ei; [|done].
  bind_lift; [|done]. destruct a0 as [|? []]; [|done..].
  bind_lift; [|done]. split_if; [done|]. bind_lift; [|done]. cbv zeta. split_if; [done|].
  bind_lift; [|done]. apply claim_first_fencing. intros o Ho. simpl.
  rewrite !String.eqb_refl, Hr. simpl. rewrite Ei. by rewrite <- (sort_hosts_perm _ _ Hr3).
Qed.
End write_sites.

(** ** Everything a handler does *)

Create HintDb fencing.
#[export] Hint Resolve persist_fencing commit_binding_fencing rounds_fencing acquire_round_fencing
  release_round_fencing host_phase_fencing release_host_fencing select_host_fencing : fencing.

(** Walks a program, unfolding its definitions; the hints know the writes and the
    loops. *)
Ltac fencing_step :=
  first
    [ assumption
    | solve [auto with fencing nocore]
    | lazymatch goal with
      | |- ∀ _, _ => intro
      | |- secure _ (mbind _ _) => apply secure_bind
      | |- secure _ (mret _) => apply secure_ret
      | |- secure _ (raise _) => apply secure_raise
      | |- secure _ (lift _) => apply secure_lift
      | |- secure _ get_patch => apply secure_get_patch
      | |- secure _ (put_patch _) => apply secure_put_patch
      | |- secure _ (perform _) => apply secure_perform; intros; exact I
      | |- secure _ (api_call _ _) => apply secure_api; intros; exact I
      | |- secure _ (attempt_call _ _) => apply secure_attempt; intros; exact I
      | |- secure _ (except_Exception _ _) => apply secure_except
      | |- secure _ (try_finally _ _) => apply secure_finally
      | |- secure _ (outcome _) => apply secure_outcome
      | |- secure _ (try_except _ _) =>
          apply secure_try;
          [| let e := fresh "e" in let p' := fresh "p" in let He := fresh "He" in
             intros e p' He; cbv beta in He; destruct e; simplify_eq He;
             try (intros <-); repeat case_match; simplify_eq ]
      | |- secure _ (let _ := _ in _) => cbv zeta
      | |- secure _ (match ?x with _ => _ end) => destruct x
      | |- secure _ ?p => let h := head_of p in unfold h; cbv beta
      end ].
Ltac fencing := repeat fencing_step.

Section handlers.
Context `{Config} `{Yaml} (ns n : string).

Abbreviation fencing_code := (secure (history (fenced ns n))).

Lemma merge_updates_fencing result updates generation : fencing_code (merge_updates result updates generation).
Proof. revert result. induction updates as [|u updates IH]; intros result; simpl; fencing. Qed.

Lemma stage_fields_fencing fields binding : fencing_code (stage_fields fields binding).
Proof. induction fields as [|f fields IH]; simpl; fencing. Qed.

Lemma observe_loop_fencing fuel conn cmd deadline : fencing_code (observe_loop fuel conn cmd deadline).
Proof. induction fuel as [|fuel IH]; simpl; fencing. Qed.

Lemma pause_of_owners_fencing owners hns cn cv : fencing_code (pause_of_owners owners hns cn cv).
Proof. revert cn cv. induction owners as [|o owners IH]; intros cn cv; simpl; fencing. Qed.

Hint Resolve merge_updates_fencing stage_fields_fencing observe_loop_fencing pause_of_owners_fencing : fencing.

Lemma bind_machine_fencing sp st uid : fencing_code (bind_machine sp st n ns uid).
Proof. fencing. Qed.
Hint Resolve bind_machine_fencing : fencing.

Lemma is_paused_fencing sp me : fencing_code (is_paused sp me ns).
Proof. fencing. Qed.
Hint Resolve is_paused_fencing : fencing.

Lemma stage_failure_fencing st me r fm m b : fencing_code (stage_failure st me r fm m b).
Proof. fencing. Qed.
Hint Resolve stage_failure_fencing : fencing.

Lemma or_stage_fencing {A} st me r m (x : res A) : fencing_code (or_stage st me r m x).
Proof. fencing. Qed.
Hint Resolve or_stage_fencing : fencing.

Lemma bootstrap_on_host_fencing st me b uid e s sg o c :
  fencing_code (bootstrap_on_host st me b uid n ns e s sg o c).
Proof. fencing. Qed.
Hint Resolve bootstrap_on_host_fencing : fencing.

Lemma reconcile_impl_fencing sp st me : fencing_code (sshmachine_reconcile_impl sp st n ns me).
Proof. fencing. Qed.
Hint Resolve reconcile_impl_fencing : fencing.

Lemma reconcile_reboot_fencing sp st me obs : fencing_code (reconcile_reboot sp st n ns me obs).
Proof. fencing. Qed.
Hint Resolve reconcile_reboot_fencing : fencing.

Lemma record_cleanup_fencing me st phase reason msg : fencing_code (record_cleanup ns n me st phase reason msg).
Proof. fencing. Qed.
Hint Resolve record_cleanup_fencing : fencing.

Lemma delete_machine_fencing sp st me : fencing_code (delete_machine sp st n ns me).
Proof. fencing. Qed.
Hint Resolve delete_machine_fencing : fencing.

Lemma handler_fencing sp st me delete : fencing_code (sshmachine_reconcile sp st n ns me delete).
Proof. fencing. Qed.
End handlers.

(** C22.  No handler writes blindly: every patch it sends, on every branch and error
    path, goes to its own SSHMachine or to an SSHHost.  A host is patched for the UID
    and at the resourceVersion of the host of that name in the last answer about that
    namespace's hosts; the machine for the UID and at the resourceVersion of the machine
    last read, or, to change the reconcile lock's annotation and nothing else, at that
    resourceVersion alone.  So the API server refuses the patch whenever anyone changed
    the object since it was shown. *)
Theorem handler_writes_are_fenced `{Config} `{Yaml} spec status name namespace meta delete s t c :
  issues (sshmachine_reconcile spec status name namespace meta delete s) t c →
  fenced namespace name (rev t) c.
Proof. apply history_issues, handler_fencing. Qed.

Definition patches_host (c : call) : bool :=
  match c with Api _ (PatchObjectStatus _ _ _ plural _ _) => String.eqb plural "sshhosts" | _ => false end.

Lemma handler_writes_are_fenced_witness :
  ∃ t c, issues fixture_deletion t c ∧ patches_host c = true ∧ fenced "test" "machine-a" (rev t) c.
Proof.
  destruct (run_issues fake_handler patches_host fixture_deletion (fake_world provisioned_store))
    as (t & c & Hi & Hc); [vm_compute; reflexivity|].
  exists t, c. split; [exact Hi|]. split; [exact Hc|].
  exact (@handler_writes_are_fenced replica plain_yaml _ _ _ _ _ _ _ t c Hi).
Defined.
