(* ===== verification/LockProtocol.v ===== *)
(** The reconcile lock between replicas: any number of controller processes run
    acquisitions and releases against one API server, interleaved call by call.
    Of the server only optimistic concurrency is assumed: a write applies when it
    names the stored resourceVersion, and every applied write gets a new one.  Reads
    may be stale, other clients may write other fields, and a call is served some time
    after it is issued and its reply delivered some time after that, or lost; a call
    that timed out may still be served later, however often. *)

From stdpp Require Import relations.
From S2P Require Import Prelude Py PyStr PyTime Config Effects Monitors Contracts ContractSafety Locks LockSafety FakeApi.
Open Scope Z_scope.

(** ** The stored object *)

Definition version_of (obj : value) : res value :=
  meta ← get_or obj "metadata" (VDict []); get meta "resourceVersion".

(** The annotation as [_acquire_distributed_reconcile_lock] reads it; [VNone] when absent. *)
Definition raw_lock (obj : value) : res value :=
  meta ← get_or obj "metadata" (VDict []);
  annotations ← get meta "annotations";
  get (por annotations (VDict [])) SSHMACHINE_DISTRIBUTED_LOCK_ANNOTATION.

Definition stored_lock (obj : value) : option (string * Z) :=
  match raw_lock obj with
  | Ok v => match parse_distributed_reconcile_lock_value v with Ok l => l | Err _ => None end
  | Err _ => None
  end.

Lemma lock_state_stored obj version parsed :
  lock_state obj = Ok (Some (version, parsed)) → version_of obj = Ok version ∧ stored_lock obj = parsed.
Proof.
  unfold lock_state, version_of, stored_lock, raw_lock.
  destruct (get_or obj "metadata" (VDict [])) as [meta|]; simpl; [|done].
  destruct (get meta "resourceVersion") as [v|]; simpl; [|done].
  destruct (negb (truthy v)); [done|].
  destruct (get meta "annotations") as [a|]; simpl; [|done].
  destruct (get (por a (VDict [])) _) as [x|]; simpl; [|done].
  destruct (parse_distributed_reconcile_lock_value x); simpl; [|done]. by intros [= -> ->].
Qed.

(** ** Replicas and the server *)

(** What a replica runs: an acquisition or a release. *)
Inductive action := Acquire | Release.

Record replica_state := Replica {
  r_config : Config;
  r_action : action;
  r_history : list event;           (* since the action began, newest first *)
  r_reply : option event;           (* the call it waits for was served, with this reply *)
  r_rest : prog (res bool * patch)
}.

Record cluster := Cluster {
  current : value;                  (* the stored machine *)
  past : list value;                (* earlier versions of it *)
  time : Z;                         (* microseconds *)
  replicas : list replica_state;
  late : list replica_state         (* as they were when they gave up a call still on its way *)
}.

Section protocol.
Context (namespace name : string).

Definition action_prog (cfg : Config) (a : action) : prog (res bool * patch) :=
  match a with
  | Acquire => @acquire_distributed_reconcile_lock cfg namespace name empty_patch
  | Release => @release_distributed_reconcile_lock cfg namespace name empty_patch
  end.

Definition with_replica (st : cluster) (i : nat) (r : replica_state) : cluster :=
  Cluster (current st) (past st) (time st) (<[i := r]> (replicas st)) (late st).
Definition store_object (st : cluster) (o : value) : cluster :=
  Cluster o (current st :: past st) (time st) (replicas st) (late st).

(** A version never seen before. *)
Definition fresh_version (st : cluster) (o : value) : Prop :=
  Forall (λ o', version_of o' ≠ version_of o) (current st :: past st).

(** The server's replies, and what it stores: [serve st c r st']. *)
Inductive serve (st : cluster) : ∀ c, reply c → cluster → Prop :=
| serve_get t op (r : res (api_answer op)) :
    (match op as op return res (api_answer op) → Prop with
     | GetObject _ _ _ _ _ => λ r, match r with Ok o => o ∈ current st :: past st | Err _ => True end
     | PatchObject _ _ _ _ _ _ => λ r, ∃ e, r = Err e
     | _ => λ _, True
     end) r →
    serve st (Api t op) r st
| serve_patch t version annotation o (r : res value) :
    version_of (current st) = Ok version → fresh_version st o → raw_lock o = Ok annotation →
    serve st (Api t (lock_op namespace name version annotation)) r (store_object st o)
| serve_now : serve st Now (time st) st
| serve_other c r :
    (match c with Api _ _ | Now => False | _ => True end) → serve st c r st.

(** Whose move a step is: nobody's (time, another client), replica [i]'s, or that of the
    replica that was [r] when it issued a call that only arrives now. *)
Inductive mover := Nobody | Moves (i : nat) | Arrives (r : replica_state).

(** The server serves a replica's call in one step; the replica learns of it in a later
    one, and anything may happen in between. *)
Inductive cluster_step (st : cluster) : mover → cluster → Prop :=
| step_tick t :
    time st ≤ t → cluster_step st Nobody (Cluster (current st) (past st) t (replicas st) (late st))
| step_other o :
    fresh_version st o → raw_lock o = raw_lock (current st) → cluster_step st Nobody (store_object st o)
| step_begin i r a x :
    replicas st !! i = Some r → r_rest r = Ret x →
    cluster_step st (Moves i) (with_replica st i (Replica (r_config r) a [] None (action_prog (r_config r) a)))
| step_serve i r c k v st' :
    replicas st !! i = Some r → r_rest r = Call c k → r_reply r = None → serve st c v st' →
    cluster_step st (Moves i)
      (with_replica st' i (Replica (r_config r) (r_action r) (r_history r) (Some (Ev c v)) (r_rest r)))
| step_deliver i r c k v :
    replicas st !! i = Some r → r_rest r = Call c k → r_reply r = Some (Ev c v) →
    cluster_step st (Moves i)
      (with_replica st i (Replica (r_config r) (r_action r) (Ev c v :: r_history r) None (k v)))
| step_timeout i r t op k e :
    replicas st !! i = Some r → r_rest r = Call (Api t op) k → r_reply r = None →
    let v : res (api_answer op) := Err e in
    cluster_step st (Moves i)
      (Cluster (current st) (past st) (time st)
         (<[i := Replica (r_config r) (r_action r) (Ev (Api t op) v :: r_history r) None (k v)]> (replicas st))
         (r :: late st))
| step_late r c k v st' :
    r ∈ late st → r_rest r = Call c k → serve st c v st' → cluster_step st (Arrives r) st'.

(** Every replica starts with one of the two actions before it. *)
Definition initial (o : value) (t : Z) (cfgs : list Config) : cluster :=
  Cluster o [] t (map (λ cfg, Replica cfg Acquire [] None (action_prog cfg Acquire)) cfgs) [].

Definition reachable (st : cluster) : Prop :=
  ∃ o t cfgs, rtc (λ st st', ∃ a, cluster_step st a st') (initial o t cfgs) st.

(** A move of anyone but the controller with identity [holder]. *)
Definition moves_other_than (holder : string) (st st' : cluster) : Prop :=
  ∃ a, cluster_step st a st' ∧
    match a with
    | Nobody => True
    | Moves i => ∀ r, replicas st !! i = Some r → @RECONCILE_LOCK_HOLDER (r_config r) ≠ holder
    | Arrives r => @RECONCILE_LOCK_HOLDER (r_config r) ≠ holder
    end.

(** ** The invariant *)

Definition objects_of (st : cluster) : list value := current st :: past st.

(** What a reply tells, apart from what was known before: what the server once stored
    and an earlier time. *)
Definition told_ok (st : cluster) (e : event) : Prop :=
  (∀ h o, last_read namespace name (e :: h) = Some o → o ∈ objects_of st ∨ last_read namespace name h = Some o) ∧
  (∀ h t, last_clock (e :: h) = Some t → t ≤ time st ∨ last_clock h = Some t).

(** A replica knows only what the server once stored and an earlier time. *)
Record replica_ok (st : cluster) (r : replica_state) : Prop := {
  ok_run : steps (action_prog (r_config r) (r_action r)) (rev (r_history r)) (r_rest r);
  ok_read : ∀ o, last_read namespace name (r_history r) = Some o → o ∈ objects_of st;
  ok_clock : ∀ t, last_clock (r_history r) = Some t → t ≤ time st;
  ok_reply : ∀ e, r_reply r = Some e → told_ok st e
}.

Record cluster_ok (st : cluster) : Prop := {
  ok_versions : ∀ o1 o2, o1 ∈ objects_of st → o2 ∈ objects_of st → version_of o1 = version_of o2 → o1 = o2;
  ok_replicas : ∀ i r, replicas st !! i = Some r → replica_ok st r;
  ok_late : ∀ r, r ∈ late st → replica_ok st r
}.

Lemma replica_ok_mono st st' r :
  replica_ok st r → objects_of st ⊆ objects_of st' → time st ≤ time st' → replica_ok st' r.
Proof.
  intros [Hr Ho Hc Ha] Hs Ht. split; [done|eauto| |].
  - intros t Hl. apply Hc in Hl. lia.
  - intros e He. destruct (Ha e He) as [H1 H2]. split.
    + intros h o [Hin|Hl]%H1; [left; by apply Hs|by right].
    + intros h t [Hle|Hl]%H2; [left; lia|by right].
Qed.

Lemma steps_snoc {A} (p : prog A) t c k r : steps p t (Call c k) → steps p (t ++ [Ev c r]) (k r).
Proof.
  intros Hs. remember (Call c k) as q eqn:Eq. revert Eq.
  induction Hs as [q|c' k' r' t q Hs IH]; intros ->; simpl; [do 2 constructor|].
  constructor. by apply IH.
Qed.

Lemma store_versions st o :
  (∀ o1 o2, o1 ∈ objects_of st → o2 ∈ objects_of st → version_of o1 = version_of o2 → o1 = o2) →
  fresh_version st o →
  ∀ o1 o2, o1 ∈ o :: objects_of st → o2 ∈ o :: objects_of st → version_of o1 = version_of o2 → o1 = o2.
Proof.
  intros Hv Hf o1 o2. unfold fresh_version in Hf. rewrite Forall_forall in Hf.
  rewrite !(elem_of_cons (objects_of st)). intros [->|H1] [->|H2] He; [done|..|by apply Hv].
  - by destruct (Hf o2).
  - by destruct (Hf o1).
Qed.

Lemma serve_grows st c r st' :
  serve st c r st' →
  objects_of st ⊆ objects_of st' ∧ time st' = time st ∧ replicas st' = replicas st ∧ late st' = late st ∧
  (st' = st ∨ ∃ o, st' = store_object st o ∧ fresh_version st o).
Proof.
  destruct 1; split_and!; try done; eauto. unfold objects_of. simpl. set_solver.
Qed.

(** What a served call can tell the replica. *)
Lemma serve_told st c r st' : serve st c r st' → told_ok st (Ev c r).
Proof.
  destruct 1 as [t op r Hr|t v a o' r Hv Hf Hl| |c r Hc]; split; intros h x; simpl; auto.
  - destruct op; auto. destruct r as [o'|e]; auto. case_match; auto. intros [= ->]. auto.
  - intros [= ->]. left. lia.
  - destruct c; auto; done.
  - destruct c; auto; done.
Qed.

Lemma serve_versions st c v st' :
  cluster_ok st → serve st c v st' →
  ∀ o1 o2, o1 ∈ objects_of st' → o2 ∈ objects_of st' → version_of o1 = version_of o2 → o1 = o2.
Proof.
  intros [Hv _ _] Hs. destruct (serve_grows _ _ _ _ Hs) as (_ & _ & _ & _ & [->|(o & -> & Hf)]); [done|].
  by apply (store_versions st o).
Qed.

(** A step adds objects and time; every replica it changes is consistent with them. *)
Lemma grow_ok st st' :
  cluster_ok st → objects_of st ⊆ objects_of st' → time st ≤ time st' →
  (∀ o1 o2, o1 ∈ objects_of st' → o2 ∈ objects_of st' → version_of o1 = version_of o2 → o1 = o2) →
  (∀ i r, replicas st' !! i = Some r → (∃ j, replicas st !! j = Some r) ∨ replica_ok st' r) →
  (∀ r, r ∈ late st' → r ∈ late st ∨ ∃ j, replicas st !! j = Some r) →
  cluster_ok st'.
Proof.
  intros [_ Hr Hl] Hob Ht Hv' Hr' Hl'. split; [done|..].
  - intros i r [[j Hj]|Hok]%Hr'; [|done]. apply (replica_ok_mono st); [by apply (Hr j)|done..].
  - intros r [Hin|[j Hj]]%Hl'; (apply (replica_ok_mono st); [|done..]); [by apply Hl|by apply (Hr j)].
Qed.

(** The replicas of a state in which one was replaced. *)
Lemma replaced_ok st st' (l : list replica_state) i r :
  replica_ok st' r → l = replicas st →
  ∀ j r', <[i := r]> l !! j = Some r' → (∃ j', replicas st !! j' = Some r') ∨ replica_ok st' r'.
Proof.
  intros Hr -> j r' Hj. apply list_lookup_insert_Some in Hj as [(_ & <- & _)|[_ Hj]]; [by right|left; by exists j].
Qed.

(** A replica resumes with a reply. *)
Lemma resume_ok st r c k v :
  replica_ok st r → r_rest r = Call c k → told_ok st (Ev c v) →
  replica_ok st (Replica (r_config r) (r_action r) (Ev c v :: r_history r) None (k v)).
Proof.
  intros [Hrun Hread Hclock _] Hk [H1 H2].
  split; cbn [r_config r_action r_history r_rest r_reply]; [| | |done].
  - rewrite Hk in Hrun. by apply steps_snoc.
  - intros o [Ho|Ho]%H1; [done|by apply Hread].
  - intros t [Ht|Ht]%H2; [done|by apply Hclock].
Qed.

Lemma serve_ok st i r c k v st' :
  cluster_ok st → replicas st !! i = Some r → r_rest r = Call c k → serve st c v st' →
  cluster_ok (with_replica st' i (Replica (r_config r) (r_action r) (r_history r) (Some (Ev c v)) (r_rest r))).
Proof.
  intros Hok Hi Hk Hs. destruct (serve_grows _ _ _ _ Hs) as (Hob & Ht & Hrs & Hl & _).
  assert (Hle : time st ≤ time st') by (rewrite Ht; lia).
  apply (grow_ok st); try done; [exact (serve_versions _ _ _ _ Hok Hs)| |by simpl; rewrite Hl; auto].
  apply replaced_ok; [|done].
  apply (replica_ok_mono st); [|done..]. destruct (ok_replicas _ Hok _ _ Hi) as [Hrun Hread Hclock _].
  split; cbn [r_config r_action r_history r_rest r_reply]; [done..|].
  intros e [= <-]. exact (serve_told _ _ _ _ Hs).
Qed.

Lemma late_ok st c v st' : cluster_ok st → serve st c v st' → cluster_ok st'.
Proof.
  intros Hok Hs. destruct (serve_grows _ _ _ _ Hs) as (Hob & Ht & Hrs & Hl & _).
  apply (grow_ok st); try done; [rewrite Ht; lia|by eapply serve_versions|rewrite Hrs; eauto|rewrite Hl; auto].
Qed.

Lemma error_told st t op e : told_ok st (Ev (Api t op) (Err e : res (api_answer op))).
Proof. split; intros h x; simpl; [destruct op|]; auto. Qed.

Lemma step_ok st a st' : cluster_ok st → cluster_step st a st' → cluster_ok st'.
Proof.
  intros Hok Hs.
  destruct Hs as [t Ht|o Hf Ho|i r a x Hi Hx|i r c k v st' Hi Hk Hn Hs|i r c k v Hi Hk Hv|i r t op k e Hi Hk Hn v
    |r c k v st' Hin Hk Hs]; [| | |by eapply serve_ok| | |by eapply late_ok].
  - apply (grow_ok st); try done; [by apply Hok|eauto|auto].
  - apply (grow_ok st); try done; [|by apply store_versions, Hf; apply Hok|eauto|auto].
    unfold objects_of. simpl. set_solver.
  - apply (grow_ok st); try done; [by apply Hok| |auto].
    apply replaced_ok; [|done]. by split; [constructor|..].
  - apply (grow_ok st); try done; [by apply Hok| |auto].
    apply replaced_ok; [|done]. apply (replica_ok_mono st); [|done..].
    pose proof (ok_replicas _ Hok _ _ Hi) as Hr. apply resume_ok; [done..|]. by apply Hr.
  - apply (grow_ok st); try done; [by apply Hok| |].
    + apply replaced_ok; [|done]. apply (replica_ok_mono st); [|done..].
      apply (resume_ok _ _ (Api t op)); [by eapply ok_replicas|done|apply error_told].
    + simpl. intros r' [->|Hin]%elem_of_cons; [right; by exists i|by left].
Qed.

Lemma reachable_ok st : reachable st → cluster_ok st.
Proof.
  intros (o & t & cfgs & Hr).
  assert (Hi : cluster_ok (initial o t cfgs)).
  { split.
    - unfold objects_of. simpl. intros o1 o2 ->%list_elem_of_singleton ->%list_elem_of_singleton. done.
    - simpl. intros i r (cfg & -> & _)%list_lookup_fmap_Some. by split; [constructor|..].
    - simpl. by intros r ?%not_elem_of_nil. }
  induction Hr as [st|st1 st2 st3 [a Hs] Hr IH]; [done|]. apply IH. by eapply step_ok.
Qed.

(** A served write of another controller finds no live lock. *)
Lemma write_spares_live_lock st r c k v st' holder expires :
  cluster_ok st → replica_ok st r → r_rest r = Call c k → serve st c v st' →
  stored_lock (current st) = Some (holder, expires) →
  @RECONCILE_LOCK_HOLDER (r_config r) ≠ holder → epoch (time st) < expires →
  stored_lock (current st') = stored_lock (current st).
Proof.
  intros Hok Hr Hk Hs Hlock Hne Hlive.
  destruct Hs as [t op v Hv|t version annotation o v Hver Hf Ho| |c v Hc]; [done| |done..]. exfalso.
  destruct Hr as [Hrun Hread Hclock _].
  assert (Hc : issues (action_prog (r_config r) (r_action r)) (rev (r_history r))
                 (Api t (lock_op namespace name version annotation))).
  { exists k. by rewrite <- Hk. }
  assert (Hsame : ∀ o p, last_read namespace name (r_history r) = Some o →
                         lock_state o = Ok (Some (version, p)) → p = Some (holder, expires)).
  { intros o' p Hl [Hvo Hp]%lock_state_stored. apply Hread in Hl.
    assert (o' = current st) as ->; [|by rewrite <- Hp].
    apply (ok_versions _ Hok); [done|left|]. by rewrite Hvo, Hver. }
  destruct (r_action r); cbn [action_prog] in Hc.
  - apply acquire_writes in Hc as (obj & version' & parsed & now & Hl & Hnow & Hst & Hfree & [= <- _]).
    rewrite rev_involutive in *. rewrite (Hsame _ _ Hl Hst) in Hfree.
    apply Hclock in Hnow. destruct (Hfree _ _ eq_refl) as [|Hle]; [done|].
    assert (epoch now ≤ epoch (time st)) by (by apply Z.quot_le_mono). lia.
  - apply release_writes in Hc as (obj & version' & exp & Hl & Hst & [= <- _]).
    rewrite rev_involutive in *. apply (Hsame _ _ Hl) in Hst. by simplify_eq.
Qed.

Lemma others_spare_live_lock st st' holder expires :
  cluster_ok st → moves_other_than holder st st' →
  stored_lock (current st) = Some (holder, expires) → epoch (time st) < expires →
  stored_lock (current st') = stored_lock (current st).
Proof.
  intros Hok (a & Hs & Ha) Hlock Hlive.
  destruct Hs as [|o Hf Ho| |i r c k v st' Hi Hk _ Hs| | |r c k v st' Hin Hk Hs]; [done| |done| |done..|].
  - unfold stored_lock. simpl. by rewrite Ho.
  - cbn [with_replica current]. eapply write_spares_live_lock; eauto using ok_replicas.
  - eapply write_spares_live_lock; eauto using ok_late.
Qed.
End protocol.

Lemma step_time namespace name st a st' : cluster_step namespace name st a st' → time st ≤ time st'.
Proof.
  destruct 1 as [| | |i r c k v st' _ _ _ Hs| | |r c k v st' _ _ Hs]; simpl; [done|lia|lia| |lia|lia|];
    destruct (serve_grows _ _ _ _ _ _ Hs) as (_ & -> & _); lia.
Qed.

Lemma epoch_mono t t' : t ≤ t' → epoch t ≤ epoch t'.
Proof. by apply Z.quot_le_mono. Qed.

(** C18.  No replica overwrites another's live lock: from any state that any number
    of replicas can reach together, once the machine carries [holder]'s lock, nothing
    the other replicas and clients do changes it before it expires, however their
    reads, writes, late writes and lost replies interleave. *)
Theorem live_lock_survives namespace name st st' holder expires :
  reachable namespace name st → stored_lock (current st) = Some (holder, expires) →
  rtc (moves_other_than namespace name holder) st st' → epoch (time st') < expires →
  stored_lock (current st') = Some (holder, expires).
Proof.
  intros Hr Hlock Hs. apply reachable_ok in Hr.
  assert (Htime : ∀ st st', rtc (moves_other_than namespace name holder) st st' → time st ≤ time st').
  { induction 1 as [|x y z (a & Ha & _) _ IH]; [lia|]. apply step_time in Ha. lia. }
  induction Hs as [st|st1 st2 st3 Hm Hs IH]; intros Hlive; [done|].
  destruct Hm as (a & Ha & Hna). apply IH; [by eapply step_ok| |done]. rewrite <- Hlock.
  eapply others_spare_live_lock; [done|by exists a|done|].
  pose proof (epoch_mono _ _ (Htime _ _ Hs)). pose proof (epoch_mono _ _ (step_time _ _ _ _ _ Ha)). lia.
Qed.

(** ** A reply on its way *)

Section acquired.
Context (namespace name : string).

Definition holder_of (st : cluster) (i : nat) : option string :=
  (λ r, @RECONCILE_LOCK_HOLDER (r_config r)) <$> replicas st !! i.

(** No replica but [i] has the identity [holder]. *)
Definition alone (st : cluster) (i : nat) (holder : string) : Prop :=
  ∀ j, holder_of st j = Some holder → j = i.

Lemma holder_with_replica st i r r' j :
  replicas st !! i = Some r → r_config r' = r_config r → holder_of (with_replica st i r') j = holder_of st j.
Proof.
  intros Hi Hc. unfold holder_of. simpl. destruct (decide (i = j)) as [<-|Hne].
  - rewrite list_lookup_insert_eq by by eapply lookup_lt_Some. by rewrite Hi; simpl; rewrite Hc.
  - by rewrite list_lookup_insert_ne.
Qed.

Lemma step_holders st a st' j : cluster_step namespace name st a st' → holder_of st' j = holder_of st j.
Proof.
  destruct 1 as [| |i r a x Hi _|i r c k v st' Hi _ _ Hs|i r c k v Hi _ _|i r t op k e Hi _ _ v|r c k v st' _ _ Hs];
    [done..| | | | |].
  - by erewrite holder_with_replica.
  - destruct (serve_grows _ _ _ _ _ _ Hs) as (_ & _ & Hrs & _).
    erewrite holder_with_replica; [|by rewrite Hrs|done]. unfold holder_of. by rewrite Hrs.
  - by erewrite holder_with_replica.
  - change (holder_of (with_replica st i (Replica (r_config r) (r_action r) (Ev (Api t op) v :: r_history r) None (k v))) j
      = holder_of st j). by erewrite holder_with_replica.
  - destruct (serve_grows _ _ _ _ _ _ Hs) as (_ & _ & Hrs & _). unfold holder_of. by rewrite Hrs.
Qed.

(** The machine carries [holder]'s lock until [expires]. *)
Definition holds_until (st : cluster) (holder : string) (expires : Z) : Prop :=
  stored_lock (current st) = Some (holder, expires) ∨ expires ≤ epoch (time st).

(** The reply says that [holder]'s lock was written, until [expires]. *)
Definition says_written (holder : string) (expires : Z) (e : event) : Prop :=
  match e with
  | Ev (Api _ (PatchObject _ _ _ _ _ _ as op)) (Ok _) =>
      ∃ version, op = lock_op namespace name version (VStr (distributed_reconcile_lock_value holder expires))
  | _ => False
  end.

Lemma serve_written st c v st' holder expires :
  serve namespace name st c v st' → says_written holder expires (Ev c v) → holder ≠ EmptyString →
  stored_lock (current st') = Some (holder, expires) ∧ ∃ o, st' = store_object st o ∧ fresh_version st o.
Proof.
  intros Hs Hw Hh. destruct Hs as [t op v Hv|t version annotation o v Hver Hf Ho| |c v Hc].
  - destruct op; try done. destruct Hv as [e ->]. done.
  - destruct v as [o'|]; [|done]. destruct Hw as [version' Hop]. simplify_eq/=.
    split; [|by exists o]. unfold stored_lock. simpl. rewrite Ho. by rewrite parse_lock_value.
  - done.
  - by destruct c.
Qed.

(** A lock write names a version that was stored when it was issued. *)
Lemma issued_version st r t version annotation k :
  replica_ok namespace name st r → r_rest r = Call (Api t (lock_op namespace name version annotation)) k →
  ∃ o, o ∈ objects_of st ∧ version_of o = Ok version.
Proof.
  intros [Hrun Hread _ _] Hk.
  assert (Hc : issues (action_prog namespace name (r_config r) (r_action r)) (rev (r_history r))
                 (Api t (lock_op namespace name version annotation))) by (exists k; by rewrite <- Hk).
  destruct (r_action r); cbn [action_prog] in Hc.
  - apply acquire_writes in Hc as (obj & v & parsed & now & Hl & _ & Hst & _ & [= <- _]).
    rewrite rev_involutive in Hl. apply lock_state_stored in Hst as [Hv _]. exists obj. auto.
  - apply release_writes in Hc as (obj & v & exp & Hl & Hst & [= <- _]).
    rewrite rev_involutive in Hl. apply lock_state_stored in Hst as [Hv _]. exists obj. auto.
Qed.

(** [holder]'s own late writes name versions that are gone. *)
Definition late_behind (st : cluster) (holder : string) : Prop :=
  ∀ r t version annotation k, r ∈ late st → @RECONCILE_LOCK_HOLDER (r_config r) = holder →
    r_rest r = Call (Api t (lock_op namespace name version annotation)) k → version_of (current st) ≠ Ok version.

Lemma store_behind st o holder :
  cluster_ok namespace name st → fresh_version st o → late_behind (store_object st o) holder.
Proof.
  intros Hok Hf r t version annotation k Hin _ Hk. simpl.
  destruct (issued_version st r _ _ _ _ (ok_late _ _ _ Hok _ Hin) Hk) as (o' & Ho' & <-).
  unfold fresh_version in Hf. rewrite Forall_forall in Hf. intros He. by apply (Hf o' Ho').
Qed.

Lemma serve_behind st c v st' holder :
  cluster_ok namespace name st → serve namespace name st c v st' → late_behind st holder → late_behind st' holder.
Proof.
  intros Hok Hs Hb. destruct (serve_grows _ _ _ _ _ _ Hs) as (_ & _ & _ & _ & [->|(o & -> & Hf)]); [done|].
  by apply store_behind.
Qed.

Lemma step_behind st a st' i holder :
  cluster_ok namespace name st → cluster_step namespace name st a st' → a ≠ Moves i → alone st i holder →
  late_behind st holder → late_behind st' holder.
Proof.
  intros Hok Hs Ha Hal Hb.
  destruct Hs as [|o Hf _| |j r c k v st' _ _ _ Hs| |j r t op k e Hj _ _ v|r c k v st' _ _ Hs]; try done.
  - by apply store_behind.
  - by apply (serve_behind st c v st').
  - intros r' t' version annotation k' [->|Hin]%elem_of_cons Hr'; [|by apply Hb].
    exfalso. apply Ha. f_equal. apply Hal. unfold holder_of. rewrite Hj. simpl. by rewrite Hr'.
  - by eapply serve_behind.
Qed.

(** So they change nothing when they arrive. *)
Lemma late_own_idle st r c k v st' :
  late_behind st (@RECONCILE_LOCK_HOLDER (r_config r)) → r ∈ late st → r_rest r = Call c k →
  serve namespace name st c v st' → st' = st.
Proof. intros Hb Hin Hk Hs. destruct Hs as [|t version annotation o v Hver _ _| |]; try done. by edestruct Hb. Qed.

(** Such a reply on its way is true, or the lock has expired meanwhile. *)
Definition replies_hold (st : cluster) : Prop :=
  ∀ i r expires, replicas st !! i = Some r → @RECONCILE_LOCK_HOLDER (r_config r) ≠ EmptyString →
    alone st i (@RECONCILE_LOCK_HOLDER (r_config r)) →
    (∃ e, r_reply r = Some e ∧ says_written (@RECONCILE_LOCK_HOLDER (r_config r)) expires e) →
    holds_until st (@RECONCILE_LOCK_HOLDER (r_config r)) expires ∧
    late_behind st (@RECONCILE_LOCK_HOLDER (r_config r)).

Lemma others_spare_held st st' holder expires :
  cluster_ok namespace name st → moves_other_than namespace name holder st st' →
  holds_until st holder expires → holds_until st' holder expires.
Proof.
  intros Hok Hm [Hl|He].
  - destruct (Z.le_gt_cases expires (epoch (time st))) as [Hle|Hlive].
    + right. destruct Hm as (a & Hs & _). etrans; [exact Hle|]. by eapply epoch_mono, step_time.
    + left. by rewrite (others_spare_live_lock _ _ _ _ _ _ Hok Hm Hl Hlive).
  - right. destruct Hm as (a & Hs & _). etrans; [exact He|]. by eapply epoch_mono, step_time.
Qed.

(** The other replicas' steps, and late calls. *)
Lemma others_keep_held st a i r st' expires :
  cluster_ok namespace name st → cluster_step namespace name st a st' → replicas st !! i = Some r → a ≠ Moves i →
  alone st i (@RECONCILE_LOCK_HOLDER (r_config r)) →
  late_behind st (@RECONCILE_LOCK_HOLDER (r_config r)) →
  holds_until st (@RECONCILE_LOCK_HOLDER (r_config r)) expires →
  holds_until st' (@RECONCILE_LOCK_HOLDER (r_config r)) expires.
Proof.
  intros Hok Hs Hi Hne Hal Hb Hh.
  destruct a as [|j|r'].
  - apply (others_spare_held st); [done| |done]. by exists Nobody.
  - apply (others_spare_held st); [done| |done]. exists (Moves j). split; [done|]. intros r' Hr' He.
    apply Hne. f_equal. apply Hal. unfold holder_of. rewrite Hr'. simpl. by rewrite He.
  - destruct (decide (@RECONCILE_LOCK_HOLDER (r_config r') = @RECONCILE_LOCK_HOLDER (r_config r))) as [He|].
    + inversion Hs as [| | | | | |r0 c k v st1 Hin Hk Hserve]; subst. rewrite <- He in Hb.
      by rewrite (late_own_idle _ _ _ _ _ _ Hb Hin Hk Hserve).
    + apply (others_spare_held st); [done| |done]. by exists (Arrives r').
Qed.

Lemma others_keep_replica st a i r st' :
  cluster_step namespace name st a st' → replicas st !! i = Some r → a ≠ Moves i → replicas st' !! i = Some r.
Proof.
  intros Hs Hi Hne.
  destruct Hs as [| |j r' a x _ _|j r' c k v st' _ _ _ Hs|j r' c k v _ _ _|j r' t op k e _ _ _ v|r' c k v st' _ _ Hs];
    [done..| | | | |]; simpl;
    try (rewrite list_lookup_insert_ne; [|congruence]); try done;
    by destruct (serve_grows _ _ _ _ _ _ Hs) as (_ & _ & -> & _).
Qed.

Lemma step_replies st a st' :
  cluster_ok namespace name st → replies_hold st → cluster_step namespace name st a st' → replies_hold st'.
Proof.
  intros Hok Hp Hs i r expires Hi Hh Ha (e & Hr & Hw).
  assert (Ha' : alone st i (@RECONCILE_LOCK_HOLDER (r_config r))).
  { intros j Hj. apply Ha. by rewrite (step_holders _ _ _ _ Hs). }
  assert (Hd : a = Moves i ∨ a ≠ Moves i).
  { destruct a as [|j|]; [by right| |by right]. destruct (decide (j = i)) as [->|]; [by left|right; congruence]. }
  destruct Hd as [->|Hne].
  - inversion Hs as [| |j r0 a x Hj Hx|j r0 c k v st1 Hj Hk Hn Hserve|j r0 c k v Hj Hk Hv|j r0 t op k e0 Hj Hk Hn v|];
      subst; (apply list_lookup_insert_Some in Hi as [(_ & <- & _)|[? _]]; [|done]); [done| |done..].
    cbn [r_reply r_config] in *. injection Hr as <-.
    destruct (serve_written st c v st1 _ _ Hserve Hw Hh) as [Hst (o & -> & Hf)].
    split; [by left|]. by apply (store_behind st o).
  - assert (H0 : holder_of st i = Some (@RECONCILE_LOCK_HOLDER (r_config r))).
    { rewrite <- (step_holders _ _ _ _ Hs). unfold holder_of. by rewrite Hi. }
    unfold holder_of in H0. destruct (replicas st !! i) as [r0|] eqn:Hi0; [|done].
    pose proof (others_keep_replica _ _ _ _ _ Hs Hi0 Hne) as Hi'. rewrite Hi in Hi'. injection Hi' as <-.
    destruct (Hp i r expires Hi0 Hh Ha') as [Hheld Hb]; [by exists e|].
    split; [by eapply others_keep_held|by eapply step_behind].
Qed.

Lemma reachable_replies st : reachable namespace name st → replies_hold st.
Proof.
  intros (o & t & cfgs & Hr).
  assert (Hi : cluster_ok namespace name (initial namespace name o t cfgs)) by (by apply reachable_ok; exists o, t, cfgs; apply rtc_refl).
  assert (Hp : replies_hold (initial namespace name o t cfgs)).
  { intros i r expires (cfg & -> & _)%list_lookup_fmap_Some _ _ (e & He & _). done. }
  induction Hr as [st|st1 st2 st3 [a Hs] Hr IH]; [done|]. apply IH; [by eapply step_ok|by eapply step_replies].
Qed.
End acquired.

(** C19.  Whoever is told that it acquired the lock holds it.  With the lock enabled
    (otherwise an acquisition returns [True] at once and stores nothing) and an identity
    no other replica has (it ends in a fresh uuid), at the step at which an acquisition
    returns [True] the stored machine carries the replica's own lock, [lock_ttl] seconds
    from a clock reading of this acquisition, unless that time has passed: however long
    the accepting reply took, nobody else's write and no late write of its own can have
    replaced it before.  By the previous theorem nobody else's will until it expires. *)
Theorem acquired_lock_is_stored namespace name st i st' r s :
  reachable namespace name st → cluster_step namespace name st (Moves i) st' →
  replicas st' !! i = Some r → r_action r = Acquire → r_rest r = Ret (Ok true, s) →
  @SSHMACHINE_DISTRIBUTED_LOCK_ENABLED (r_config r) = true →
  @RECONCILE_LOCK_HOLDER (r_config r) ≠ EmptyString →
  alone st' i (@RECONCILE_LOCK_HOLDER (r_config r)) →
  ∃ now, last_clock (r_history r) = Some now ∧ now ≤ time st' ∧
    let expires := epoch now + @lock_ttl (r_config r) in
    stored_lock (current st') = Some (@RECONCILE_LOCK_HOLDER (r_config r), expires) ∨
    expires ≤ epoch (time st').
Proof.
  intros Hr Hs Hi Ha Hret Hen Hh Hal. pose proof (reachable_replies _ _ _ Hr) as Hp.
  pose proof (step_ok _ _ _ _ _ (reachable_ok _ _ _ Hr) Hs) as Hok'.
  destruct (ok_replicas _ _ _ Hok' _ _ Hi) as [Hrun _ Hclock _].
  rewrite Ha, Hret in Hrun. apply acquire_wins in Hrun; [|done]. rewrite rev_involutive in Hrun.
  assert (Hal' : alone st i (@RECONCILE_LOCK_HOLDER (r_config r))).
  { intros j Hj. apply Hal. by rewrite (step_holders _ _ _ _ _ _ Hs). }
  inversion Hs as [| |j r0 a x Hj Hx|j r0 c k v st1 Hj Hk Hn Hserve|j r0 c k v Hj Hk Hv|j r0 t op k e Hj Hk Hn v|];
    subst; (apply list_lookup_insert_Some in Hi as [(_ & <- & _)|[? _]]; [|done]); [done| | |];
    cbn [r_history r_config r_rest r_action] in *; [congruence| |destruct op; by destruct Hrun as (? & _ & [])].
  destruct Hrun as (now & Hl & Hw). exists now.
  assert (Hlast : last_clock (Ev c v :: r_history r0) = Some now) by by destruct c.
  split; [done|]. split; [by apply Hclock|].
  refine (proj1 (Hp i r0 (epoch now + @lock_ttl (r_config r0)) Hj Hh Hal' _)). by exists (Ev c v).
Qed.

(** *** Witnesses: a machine locked by one replica while another tries *)

Definition locked_machine (version lock : value) : value :=
  VDict [("metadata", VDict [("resourceVersion", version);
    ("annotations", VDict [(SSHMACHINE_DISTRIBUTED_LOCK_ANNOTATION, lock)])])].

Definition two_replicas : list Config := [default_config "replica-1"; default_config "replica-2"].

Definition live_lock : value := VStr (distributed_reconcile_lock_value "replica-2" 1790000120).

(** Replica 1 reads the machine while replica 2 holds its lock. *)
Definition contended : cluster :=
  initial "test" "machine-a" (locked_machine (VStr "7") live_lock) (1790000000 * second) two_replicas.

Lemma contended_reachable : reachable "test" "machine-a" contended.
Proof. eexists _, _, _. apply rtc_refl. Qed.

Lemma live_lock_survives_witness :
  ∃ st', rtc (moves_other_than "test" "machine-a" "replica-2") contended st' ∧
         (∃ e, r_history <$> (replicas st' !! 0%nat) = Some [e]) ∧
         stored_lock (current st') = Some ("replica-2", 1790000120).
Proof.
  eassert (Hm : rtc (moves_other_than "test" "machine-a" "replica-2") contended _).
  { eapply rtc_l; [|eapply rtc_once]; exists (Moves 0).
    - split; [|by intros r [= <-]]. eapply step_serve; [reflexivity|reflexivity|reflexivity|].
      apply (serve_get _ _ contended _ (GetObject _ _ _ _ _) (Ok (current contended))). left.
    - split; [eapply step_deliver; reflexivity|by intros r [= <-]]. }
  eexists. split; [exact Hm|]. split; [by eexists|].
  apply (live_lock_survives "test" "machine-a" contended _ "replica-2" 1790000120);
    [exact contended_reachable|reflexivity|exact Hm|reflexivity].
Defined.

(** Replica 1 reads an unlocked machine and the clock, and its write applies. *)
Definition unlocked : cluster :=
  initial "test" "machine-a" (locked_machine (VStr "7") VNone) (1790000000 * second) two_replicas.

Definition own_lock : value := VStr (distributed_reconcile_lock_value "replica-1" 1790000120).
Definition written : value := locked_machine (VStr "8") own_lock.

Ltac served := exists (Moves 0); eapply step_serve; [reflexivity|reflexivity|reflexivity|].
Ltac delivered := exists (Moves 0); eapply step_deliver; [reflexivity|reflexivity|reflexivity].

(** Its reply arrives two seconds after the write. *)
Lemma acquiring_run :
  ∃ st st' r s, reachable "test" "machine-a" st ∧ cluster_step "test" "machine-a" st (Moves 0) st' ∧
    replicas st' !! 0%nat = Some r ∧ r_action r = Acquire ∧ r_rest r = Ret (Ok true, s) ∧
    r_config r = default_config "replica-1" ∧ alone st' 0 "replica-1".
Proof.
  eexists _, _, _, _. split_and!.
  - eexists _, _, two_replicas. eapply rtc_l; [|eapply rtc_l; [|eapply rtc_l; [|eapply rtc_l; [|eapply rtc_l;
      [|eapply rtc_l; [|apply rtc_refl]]]]]].
    + served. apply (serve_get _ _ unlocked _ (GetObject _ _ _ _ _) (Ok (current unlocked))). left.
    + delivered.
    + served. apply serve_now.
    + delivered.
    + served. apply (serve_patch _ _ _ _ (VStr "7") own_lock written (Ok written : res value)).
      * reflexivity.
      * repeat constructor; discriminate.
      * reflexivity.
    + exists Nobody. apply (step_tick _ _ _ (1790000002 * second)). discriminate.
  - eapply step_deliver; reflexivity.
  - reflexivity.
  - reflexivity.
  - reflexivity.
  - reflexivity.
  - intros [|[|j]] Hj; [done|discriminate Hj|discriminate Hj].
Qed.

Lemma acquired_lock_is_stored_witness :
  ∃ st' r now, last_clock (r_history r) = Some now ∧ now ≤ time st' ∧
    (stored_lock (current st') = Some ("replica-1", epoch now + 120) ∨ epoch now + 120 ≤ epoch (time st')).
Proof.
  destruct acquiring_run as (st & st' & r & s & Hr & Hs & Hi & Ha & Hret & Hc & Hal).
  destruct (acquired_lock_is_stored "test" "machine-a" st 0 st' r s Hr Hs Hi Ha Hret) as (now & Hl & Ht & Hst);
    [rewrite Hc; reflexivity|rewrite Hc; discriminate|rewrite Hc; exact Hal|].
  rewrite Hc in Hst. by exists st', r, now.
Defined.
