(* ===== verification/MachineSafety.v ===== *)
(** What every SSHMachine handler guarantees, whatever the API server, the host,
    the clock and concurrent controllers reply. *)

From S2P Require Import Prelude Py PyStr PyTime Config Effects Monitors ApiIO Conditions Contracts.
From S2P Require Import Inventory Ssh Operations Lifecycle Locks MachineStatus Bootstrap Machine.
From S2P Require Import FakeApi RemoteFence LifecycleSafety MachineWrites.

(** ** The entry point's skeleton

    Locking, refreshing and dispatching make only reads and lock writes; a
    monitor that ignores those sees just the handlers. *)

Section entry.
Context `{Config} `{Yaml} (ns n : string).

Lemma reconcile_latch_open {A} trigger guarded (p : M A) s (Q : res A → patch → bool → Prop) :
  (∀ r s', Q r s' true) → msafe (latch trigger guarded) p s true Q.
Proof. apply latch_open. Qed.

(** A latch established by both handlers is established by the entry point. *)
Lemma sshmachine_reconcile_latch trigger guarded spec st me delete s g :
  (∀ c, benign c → guarded c = false) →
  (∀ w v, guarded (Api API_TIMEOUT (lock_op ns n w v)) = false) →
  (∀ spec st me s g, delete = true →
     msafe (latch trigger guarded) (delete_machine spec st n ns me) s g (λ _ _ _, True)) →
  (∀ spec st me s g, delete = false →
     msafe (latch trigger guarded) (sshmachine_reconcile_impl spec st n ns me) s g (λ _ _ _, True)) →
  (∀ spec st me s g, delete = false →
     msafe (latch trigger guarded) (reconcile_reboot spec st n ns me false) s g (λ _ _ _, True)) →
  msafe (latch trigger guarded) (sshmachine_reconcile spec st n ns me delete) s g (λ _ _ _, True).
Proof.
  intros Hb Hl Hd Hi Hr.
  assert (Hun : ∀ A (p : M A) s g, footprint (λ c, guarded c = false) p →
    msafe (latch trigger guarded) p s g (λ _ _ _, True)).
  { intros A p s' g' Hp. apply latch_unguarded; [exact Hp|done]. }
  assert (Hcov : covers (λ c, guarded c = false)) by exact Hb.
  apply msafe_bind, msafe_perform; [intros Hc; rewrite Hb in Hc; done|]. intros cancelled _.
  destruct cancelled; [done|].
  apply msafe_bind. apply latch_unguarded.
  { apply footprint_run_api; [by apply Hb|]. by apply acquire_distributed_lock_or_requeue_fp. }
  intros [[]|e] s1 g1 _; [|done].
  apply msafe_finally. eapply msafe_mono.
  - instantiate (1 := λ _ _ _, True). unfold reconcile_locked. bind_lift; [|done].
    apply msafe_bind, latch_unguarded; [fp; by apply refresh_fp|].
    intros [[[[sp' st'] me']|]|e] s2 g2 _; [|done..].
    destruct delete; [by apply Hd|].
    apply msafe_bind. eapply msafe_mono; [by apply Hi|]. intros [[]|e] s3 g3 _; [|done].
    bind_lift; [|done]. case_match; [done|]. by apply Hr.
  - intros r s2 g2 _. apply latch_unguarded; [|by intros [] ? ?].
    apply footprint_run_api; [by apply Hb|]. by apply release_distributed_lock_with_logging_fp.
Qed.
End entry.

(** ** The claim outlives everything but a committed receipt *)

Lemma reconcile_impl_keeps `{Config} `{Yaml} sp st ns n me :
  footprint keeps (sshmachine_reconcile_impl sp st n ns me).
Proof.
  apply sshmachine_reconcile_impl_fp; eauto using keeps_covers, keeps_lease_write, keeps_ssh_setup,
    keeps_binding_write; try done.
  intros c (ns' & hn & u & w & reason & ->). by apply keeps_phase.
Qed.

(** C1.  A host is freed, its claim cleared or its phase set to Available, only
    after the API server accepted the durable receipt
    [status.cleanup.phase = 'Succeeded'] of this very machine in the same run: for
    every handler of an SSHMachine, at every point of every run, whatever failed,
    was cancelled or was lost before. *)
Theorem host_freed_only_after_receipt `{Config} `{Yaml} spec status name namespace meta delete s t c :
  issues (sshmachine_reconcile spec status name namespace meta delete s) t c →
  releases c = true →
  ∃ e, In e t ∧ commits_cleanup namespace name "Succeeded" e = true.
Proof.
  apply latch_issues. apply sshmachine_reconcile_latch; [apply keeps_covers|done|..].
  - intros. eapply msafe_mono; [apply delete_machine_closed|done].
  - intros. apply latch_unguarded; [apply reconcile_impl_keeps|done].
  - intros. apply latch_unguarded; [apply reconcile_reboot_keeps|done].
Qed.

(** ** No action on a host outside its Lease *)

Section lease.
Context `{Config} `{Yaml} (ns n : string).

Lemma idle_write c : object_write ns n c → idle c.
Proof. by intros []. Qed.

Ltac idle := apply idle_secure; pose proof idle_covers; fp;
  try first [ apply host_phase_api | apply record_cleanup_api | apply release_cleaned_api
        | apply delete_prologue_api | apply delete_unowned_api | apply cleanup_failed_api
        | apply lock_acquire_api | apply lock_release_api ];
  try done; eauto using idle_write with capi.
Ltac step := lazymatch goal with
  | |- secure _ (host_operation _ _ _) => apply host_operation_secure
  | |- secure _ (lift _) => apply secure_lift
  | |- secure _ (raise _) => apply secure_raise
  | _ => secure_step
  end.

Lemma reconcile_reboot_leased sp st me obs : secure lease_latch (reconcile_reboot sp st n ns me obs).
Proof.
  unfold reconcile_reboot. repeat step; idle.
  apply bind_machine_fp; [done|]. intros; eapply object_binding_write; [apply idle_write|eassumption].
Qed.

Lemma delete_owned_leased sp st b o me uid : secure lease_latch (delete_owned sp st b o n ns me uid).
Proof.
  unfold delete_owned, cleanup_host, record_succeeded, raise_blocked.
  repeat first [ apply reconcile_reboot_leased | step ]; idle.
Qed.

Lemma delete_machine_leased sp st me : secure lease_latch (delete_machine sp st n ns me).
Proof.
  unfold delete_machine, raise_blocked.
  repeat first [ apply delete_owned_leased | step ]; idle.
Qed.
End lease.

(** ** One walk over the reconciliation for every latch on host actions *)

Section reconcile.
Context `{Config} `{Yaml} (ns n : string) (trigger : event → bool).
Abbreviation m := (latch trigger acts_on_host).
Context (me : value).
Context (Hhost : ∀ st b uid a p u key kh etcd script strategy,
  get me "uid" = Ok uid →
  secure m (host_operation b uid (λ op, with_connection (ssh_connect a p u key None kh) (λ conn,
              bootstrap_on_host st me b uid n ns etcd script strategy op conn)))).

(** [footprint idle] of the stages around the bootstrap. *)
Ltac idle_part lem := apply idle_secure, lem; first [apply idle_covers | apply idle_write | apply idle_ssh_setup].

Lemma provision_secure sp st b uid mn a p u strategy :
  get me "uid" = Ok uid → secure m (provision sp st me b uid n ns mn a p u strategy).
Proof.
  intros Hu. unfold provision, wait_for_bootstrap_data.
  repeat lazymatch goal with
    | |- secure _ (read_bootstrap_data _ _) => idle_part read_bootstrap_data_fp
    | |- secure _ (publish_unready _ _ _ _ _ _) => idle_part publish_unready_fp
    | |- secure _ (prepare_payload _ _ _ _ _) => idle_part prepare_payload_fp
    | |- secure _ (read_credentials _ _ _ _ _) => idle_part read_credentials_fp
    | |- secure _ (dry_run _ _ _ _ _ _) => idle_part dry_run_fp
    | |- secure _ (publish_success _ _ _ _ _) => idle_part publish_success_fp
    | |- secure _ (status_set _ _) => idle_part status_set_fp
    | |- secure _ (host_operation _ _ _) => by apply Hhost
    | |- secure _ (try_except _ _) => apply secure_try
    | |- bootstrap_error _ _ _ = Some _ → _ =>
        intros He; apply idle_secure; eapply bootstrap_error_fp, He; apply idle_covers
    | |- _ => secure_step
    end.
Qed.

Lemma reconcile_impl_secure sp st : secure m (sshmachine_reconcile_impl sp st n ns me).
Proof.
  unfold sshmachine_reconcile_impl, wait_for_owner, reconcile_bound.
  repeat lazymatch goal with
    | |- secure _ (provision _ _ _ _ _ _ _ _ _ _ _ _) => by apply provision_secure
    | |- secure _ (mbind _ (lift _)) => apply secure_bind_lift
    | |- secure _ (mbind _ _) => apply secure_bind
    | |- secure _ (if _ then _ else _) => secure_step
    | |- ∀ _, _ => intro
    | |- secure _ _ => apply idle_secure; pose proof idle_covers
    | |- footprint _ (publish_unready _ _ _ _ _ _) => by apply publish_unready_fp
    | |- footprint _ (or_stage _ _ _ _ _) => by apply or_stage_fp
    | |- footprint _ (bind_machine _ _ _ _ _) =>
        apply bind_machine_fp; [done|intros; eapply object_binding_write; [apply idle_write|eassumption]]
    | |- footprint _ (backfill_provisioned_fields _ _ _ _ _) => by apply backfill_provisioned_fields_fp
    | |- _ => progress fp
    end.
Qed.
End reconcile.

Lemma sshmachine_reconcile_leased `{Config} `{Yaml} ns n sp st me delete :
  secure lease_latch (sshmachine_reconcile sp st n ns me delete).
Proof.
  intros s g. apply sshmachine_reconcile_latch; [apply idle_covers|done|..]; intros.
  - apply delete_machine_leased.
  - apply reconcile_impl_secure. intros. apply host_operation_secure.
  - apply reconcile_reboot_leased.
Qed.

(** C8.  No handler of an SSHMachine runs a command or writes a file on a host
    before the API server accepted a host Lease naming a holder in the same run. *)
Theorem host_touched_only_under_lease `{Config} `{Yaml} spec status name namespace meta delete s t c :
  issues (sshmachine_reconcile spec status name namespace meta delete s) t c →
  acts_on_host c = true →
  ∃ e, In e t ∧ lease_taken e = true.
Proof. apply latch_issues. apply sshmachine_reconcile_leased. Qed.

(** ** Ownership is recorded before anything runs *)

(** The accepted status write that records [uid] as the owner of the bootstrap. *)
Definition records_ownership (namespace name : string) (uid : value) (e : event) : bool :=
  match e with
  | Ev (Api _ (PatchObjectStatus group _ ns plural n body)) (Ok _) =>
      String.eqb group API_GROUP && String.eqb ns namespace && String.eqb plural "sshmachines" &&
      eq_str n name &&
      match foldl (λ r k, v ← r; item v k) (Ok body) ["status"; "bootstrapOwnership"; "machineUID"] with
      | Ok owner => py_eqb owner uid
      | Err _ => false
      end
  | _ => false
  end.

Section ownership.
Context `{Config} `{Yaml} (ns n : string) (uid : value).
Abbreviation m := (latch (records_ownership ns n uid) acts_on_host).

Lemma records_persisted t w ownership owner cur :
  get ownership "machineUID" = Ok owner → py_eqb owner uid = true → truthy uid = true →
  records_ownership ns n uid
    (Ev (Api t (persist_op ns n uid w [("bootstrapOwnership", ownership)])) (Ok cur : res value)) = true.
Proof.
  intros Ho He Ht. simpl. unfold eq_str. simpl. rewrite !String.eqb_refl. simpl.
  destruct ownership as [| | | | |d]; try done. simpl in Ho. simpl.
  destruct (dget d "machineUID") as [v|]; simplify_eq/=; [done|].
  by destruct uid as [|[]| | | |].
Qed.

Lemma ensure_ownership_recorded conn b st s g :
  msafe m (ensure_bootstrap_ownership conn b uid ns n st) s g (λ r _ g', is_ok r = true → g' = true).
Proof.
  assert (Hq : covers (quiet m)).
  { apply latch_covers; [apply idle_covers|]. by intros [t []| | | | | | | | | | | | | | |]. }
  unfold ensure_bootstrap_ownership, new_ownership, now_iso.
  bind_lift; [|done].
  apply msafe_bind, quiet_msafe; [fp|]. intros [ownership|e] s1; [|done].
  bind_lift; [|done]. split_if; [done|].
  apply msafe_bind, msafe_run_api; [by apply Hq| |done].
  destruct (truthy uid) eqn:Et.
  - apply persist_machine_status_msafe; [done|done|].
    intros w ch ->. split_and!; [done| |by split].
    intros cur s2. split; [|done]. cbn [observe latch].
    rewrite (records_persisted _ _ _ a0), orb_true_r; [|done|by apply negb_false_iff|done].
    by apply latch_open.
  - unfold persist_machine_status. rewrite Et. by apply msafe_raise.
Qed.

Lemma bootstrap_on_host_owned st me b etcd script strategy op conn :
  secure m (bootstrap_on_host st me b uid n ns etcd script strategy op conn).
Proof.
  unfold bootstrap_on_host. pose proof idle_covers.
  apply secure_bind; [by apply idle_secure, may_proceed_fp|]. intros go.
  destruct (negb go); [done|].
  apply secure_bind; [apply idle_secure, lease_check_fp; [done|apply idle_lease_write]|].
  intros _ s g. apply msafe_bind. eapply msafe_mono; [apply ensure_ownership_recorded|].
  intros [[]|e] s1 g1 Hg; [|done]. rewrite Hg by done. apply secure_latch_open.
Qed.
End ownership.

(** C9.  A reconciliation runs a command or writes a file on a host only after the
    API server accepted a status write recording this Machine's UID as the owner
    of the bootstrap: a crash can never leave a mutated host without an owner. *)
Theorem bootstrap_owned_before_host_touched `{Config} `{Yaml} spec status name namespace meta uid s t c :
  get meta "uid" = Ok uid →
  issues (sshmachine_reconcile_impl spec status name namespace meta s) t c →
  acts_on_host c = true →
  ∃ e, In e t ∧ records_ownership namespace name uid e = true.
Proof.
  intros Hu. apply latch_issues, reconcile_impl_secure. intros st b uid' * Hu'.
  assert (uid' = uid) as -> by congruence.
  apply host_operation_through. intros op. apply with_connection_through.
  - apply ssh_connect_fp, idle_ssh_setup.
  - intros conn. apply bootstrap_on_host_owned.
Qed.

(** *** Witnesses *)

Definition fixture_handler (delete : bool) (s : store) : prog (res unit * patch) :=
  @sshmachine_reconcile replica plain_yaml (machine_view s "spec") (machine_view s "status")
    "machine-a" "test" (machine_view s "metadata") delete empty_patch.

Lemma host_freed_only_after_receipt_witness :
  ∃ t c, issues (fixture_handler true provisioned_store) t c ∧ releases c = true ∧
         ∃ e, In e t ∧ commits_cleanup "test" "machine-a" "Succeeded" e = true.
Proof.
  destruct (run_issues fake_handler releases (fixture_handler true provisioned_store)
              (fake_world provisioned_store)) as (t & c & Hi & Hc); [vm_compute; reflexivity|].
  exists t, c. split; [exact Hi|]. split; [exact Hc|].
  exact (@host_freed_only_after_receipt replica plain_yaml _ _ _ _ _ _ _ t c Hi Hc).
Defined.

Lemma host_touched_only_under_lease_witness :
  ∃ t c, issues (fixture_handler false fresh_store) t c ∧ acts_on_host c = true ∧
         ∃ e, In e t ∧ lease_taken e = true.
Proof.
  destruct (run_issues fake_handler acts_on_host (fixture_handler false fresh_store)
              (fake_world fresh_store)) as (t & c & Hi & Hc); [vm_compute; reflexivity|].
  exists t, c. split; [exact Hi|]. split; [exact Hc|].
  exact (@host_touched_only_under_lease replica plain_yaml _ _ _ _ _ _ _ t c Hi Hc).
Defined.

Definition fixture_impl : prog (res unit * patch) :=
  @sshmachine_reconcile_impl replica plain_yaml (machine_view fresh_store "spec")
    (machine_view fresh_store "status") "machine-a" "test" (machine_view fresh_store "metadata") empty_patch.

Lemma bootstrap_owned_before_host_touched_witness :
  ∃ t c, issues fixture_impl t c ∧ acts_on_host c = true ∧
         ∃ e, In e t ∧ records_ownership "test" "machine-a" (VStr "machine-uid") e = true.
Proof.
  destruct (run_issues fake_handler acts_on_host fixture_impl (fake_world fresh_store))
    as (t & c & Hi & Hc); [vm_compute; reflexivity|].
  exists t, c. split; [exact Hi|]. split; [exact Hc|].
  refine (@bootstrap_owned_before_host_touched replica plain_yaml _ _ _ _ _ _ _ t c _ Hi Hc).
  vm_compute. reflexivity.
Defined.

(** The whole bootstrap of the fixture succeeds. *)
Example fixture_provisions :
  let '(r, w) := run fake_handler fixture_impl (fake_world fresh_store) in
  fst r = Ok tt ∧ dget (p_status (snd r)) "ready" = Some (VBool true) ∧
  dget (p_spec (snd r)) "providerID" = Some (VStr "ssh://host-a.test").
Proof. vm_compute. repeat split. Qed.
