(* ===== verification/ResetSafety.v ===== *)
(** When a host is reset: only between the receipts Running and Succeeded. *)

From S2P Require Import Prelude Py PyStr PyTime Config Effects Monitors ApiIO Conditions Contracts.
From S2P Require Import Inventory Ssh Operations Lifecycle FakeApi RemoteFence LifecycleSafety MachineWrites MachineSafety.

(** The command that wipes the Kubernetes state of a host, fenced for [uid]. *)
Definition runs_reset (uid : value) (c : call) : bool :=
  match c with
  | SshRun _ text _ =>
      match owned_command uid RESET_COMMAND false true false with
      | Ok reset => String.eqb text reset
      | Err _ => false
      end
  | _ => false
  end.

Section resets.
Context `{Config} (ns n : string) (uid : value).

Definition harmless (c : call) : Prop := runs_reset uid c = false.

Lemma harmless_covers : covers harmless.
Proof. by intros [t []| | | | | | | | | | | | | | |]. Qed.
Lemma harmless_api t op : harmless (Api t op).
Proof. done. Qed.
Lemma harmless_ssh_setup c : ssh_setup c → harmless c.
Proof. by destruct c. Qed.

Lemma harmless_owned conn uid' c cmd claim retry blocking text t :
  last_char (String c cmd) ≠ last_char RESET_COMMAND →
  owned_command uid' (String c cmd) claim retry blocking = Ok text → harmless (SshRun conn text t).
Proof.
  intros Hne Ht. unfold harmless, runs_reset.
  destruct (owned_command uid RESET_COMMAND false true false) as [reset|] eqn:E; [|done].
  apply String.eqb_neq. intros ->.
  by eapply (owned_command_differ uid' uid c cmd), E; [|exact Ht].
Qed.

Lemma harmless_reboot conn uid' cmd text t :
  cmd = BOOT_ID_COMMAND ∨ cmd = REBOOT_COMMAND →
  owned_command uid' cmd false false false = Ok text → harmless (SshRun conn text t).
Proof. intros [-> | ->]; by apply harmless_owned. Qed.

Abbreviation m := (latch (commits_cleanup ns n "Running") (runs_reset uid)).

Lemma harmless_secure {A} (p : M A) : footprint harmless p → secure m p.
Proof.
  intros Hp. apply secure_footprint. eapply footprint_mono; [exact Hp|].
  intros c Hc g Hg. unfold harmless in Hc. congruence.
Qed.

Lemma running_quiet : covers (quiet m).
Proof. apply latch_covers; [apply harmless_covers|]. by intros [t []| | | | | | | | | | | | | | |]. Qed.

Lemma reconcile_reboot_harmless sp st me obs : footprint harmless (reconcile_reboot sp st n ns me obs).
Proof.
  apply reconcile_reboot_fp; eauto using harmless_covers, harmless_ssh_setup, harmless_reboot, harmless_api.
  - intros c. apply lease_write_api. apply harmless_api.
  - intros u c. apply binding_write_api, harmless_api.
Qed.

Ltac harmless_leaf :=
  first [ apply host_phase_api | apply record_cleanup_api | apply release_cleaned_api
        | apply delete_prologue_api | apply delete_unowned_api ];
  first [apply harmless_covers | apply object_write_api, harmless_api].

(** Everything in a deletion but the guarded reset. *)
Lemma delete_owned_secure sp st b o me uid' :
  secure m (delete_owned sp st b o n ns me uid').
Proof.
  intros s g. unfold delete_owned, raise_blocked. pose proof harmless_covers. pose proof running_quiet.
  bind_lift; [|done]. split_if; [apply harmless_secure; fp|].
  bind_lift; [|done]. split_if; [apply harmless_secure; fp|].
  bind_lift; [|done]. split_if; [apply harmless_secure; unfold record_succeeded; fp; harmless_leaf|].
  do 3 (bind_lift; [|done]). split_if.
  { apply harmless_secure. fp. apply reconcile_reboot_harmless. }
  apply secure_bind; [apply harmless_secure; fp; harmless_leaf|]. intros _ s1 g1.
  apply msafe_bind, msafe_run_api; [by apply running_quiet| |done].
  apply record_cleanup_commits; [done|done|done|].
  intros s2. split; [apply secure_latch_open|done].
Qed.

Lemma delete_machine_secure sp st me : secure m (delete_machine sp st n ns me).
Proof.
  unfold delete_machine, raise_blocked. pose proof harmless_covers.
  apply secure_bind; [apply harmless_secure; harmless_leaf|]. intros _.
  repeat lazymatch goal with
    | |- secure _ (mbind _ (lift _)) => apply secure_bind_lift; intros ? ?
    | |- secure _ (let _ := _ in _) => cbv zeta
    | |- secure _ (if _ then _ else _) => secure_step
    | |- secure _ (delete_owned _ _ _ _ _ _ _ _) => apply delete_owned_secure
    | |- secure _ _ => apply harmless_secure; fp; harmless_leaf
    end.
Qed.

(** With a committed receipt no part of a deletion resets the host. *)
Lemma delete_owned_finished sp st b o me uid' :
  cleanup_phase st = Ok (VStr "Succeeded") → footprint harmless (delete_owned sp st b o n ns me uid').
Proof.
  intros Hp. unfold delete_owned, raise_blocked, record_succeeded. rewrite Hp. pose proof harmless_covers.
  do 2 (apply footprint_bind_lift; intros ? _; case_match; [fp|]).
  apply footprint_bind_lift. intros p [= <-]. simpl. fp; harmless_leaf.
Qed.

Lemma delete_machine_finished sp st me :
  cleanup_phase st = Ok (VStr "Succeeded") → footprint harmless (delete_machine sp st n ns me).
Proof.
  intros Hp. unfold delete_machine, raise_blocked. pose proof harmless_covers.
  apply footprint_bind; [harmless_leaf|]. intros _.
  do 4 (apply footprint_bind_lift; intros ? _). cbv zeta.
  case_match; [fp|]. case_match; [harmless_leaf|by apply delete_owned_finished].
Qed.
End resets.

(** C10.  A deletion resets a host only after the API server accepted the receipt
    [status.cleanup.phase = 'Running'] in the same run. *)
Theorem reset_only_after_running_receipt `{Config} spec status name namespace meta uid s t c :
  issues (delete_machine spec status name namespace meta s) t c →
  runs_reset uid c = true →
  ∃ e, In e t ∧ commits_cleanup namespace name "Running" e = true.
Proof. apply latch_issues. apply delete_machine_secure. Qed.

(** C11.  A deletion that starts from the receipt [Succeeded], a retry after a lost
    response or a failed release, never resets the host again. *)
Theorem no_second_reset `{Config} spec status name namespace meta uid s t c :
  cleanup_phase status = Ok (VStr "Succeeded") →
  issues (delete_machine spec status name namespace meta s) t c →
  runs_reset uid c = false.
Proof.
  intros Hp. apply (footprint_issues (harmless uid)). by apply delete_machine_finished.
Qed.

(** *** Witnesses *)

Definition machine_uid : value := VStr "machine-uid".

Definition fixture_cleanup (s : store) : prog (res unit * patch) :=
  @delete_machine replica (machine_view s "spec") (machine_view s "status")
    "machine-a" "test" (machine_view s "metadata") empty_patch.

Lemma reset_only_after_running_receipt_witness :
  ∃ t c, issues (fixture_cleanup provisioned_store) t c ∧ runs_reset machine_uid c = true ∧
         ∃ e, In e t ∧ commits_cleanup "test" "machine-a" "Running" e = true.
Proof.
  destruct (run_issues fake_handler (runs_reset machine_uid) (fixture_cleanup provisioned_store)
              (fake_world provisioned_store)) as (t & c & Hi & Hc); [vm_compute; reflexivity|].
  exists t, c. split; [exact Hi|]. split; [exact Hc|].
  exact (@reset_only_after_running_receipt replica _ _ _ _ _ _ _ t c Hi Hc).
Defined.

Lemma no_second_reset_witness :
  ∃ t c, issues (fixture_cleanup cleaned_store) t c ∧ releases c = true ∧ runs_reset machine_uid c = false.
Proof.
  destruct (run_issues fake_handler releases (fixture_cleanup cleaned_store)
              (fake_world cleaned_store)) as (t & c & Hi & Hc); [vm_compute; reflexivity|].
  exists t, c. split; [exact Hi|]. split; [exact Hc|].
  refine (@no_second_reset replica _ _ _ _ _ machine_uid _ t c _ Hi). vm_compute. reflexivity.
Defined.
