(* ===== verification/RebootSafety.v ===== *)
(** When a host is rebooted: once per request, after its intent was persisted. *)

From S2P Require Import Prelude Py PyStr PyTime Config Effects Monitors ApiIO Conditions Contracts.
From S2P Require Import Inventory Ssh Operations Lifecycle FakeApi RemoteFence LifecycleSafety MachineWrites MachineSafety.

(** The reboot command fenced for [uid]. *)
Definition runs_reboot (uid : value) (c : call) : bool :=
  match c with
  | SshRun _ text _ =>
      match owned_command uid REBOOT_COMMAND false false false with
      | Ok reboot => String.eqb text reboot
      | Err _ => false
      end
  | _ => false
  end.

(** The accepted status write whose reboot record has this phase and request. *)
Definition records_reboot (namespace name phase : string) (requested : value) (e : event) : bool :=
  match e with
  | Ev (Api _ (PatchObjectStatus group _ ns plural n body)) (Ok _) =>
      String.eqb group API_GROUP && String.eqb ns namespace && String.eqb plural "sshmachines" &&
      eq_str n name && body_says body ["status"; "remediation"; "reboot"; "phase"] phase &&
      match foldl (λ r k, v ← r; item v k) (Ok body) ["status"; "remediation"; "reboot"; "lastRequestedAt"] with
      | Ok r => py_eqb r requested
      | Err _ => false
      end
  | _ => false
  end.

Section reboots.
Context `{Config} (ns n : string) (uid requested : value) (Hself : py_eqb requested requested = true).

Definition calm (c : call) : Prop := runs_reboot uid c = false.

Lemma calm_covers : covers calm.
Proof. by intros [t []| | | | | | | | | | | | | | |]. Qed.
Lemma calm_api t op : calm (Api t op).
Proof. done. Qed.
Lemma calm_ssh_setup c : ssh_setup c → calm c.
Proof. by destruct c. Qed.
Lemma calm_lease_write c : lease_write c → calm c.
Proof. apply lease_write_api, calm_api. Qed.

Lemma calm_boot_id conn uid' text t :
  owned_command uid' BOOT_ID_COMMAND false false false = Ok text → calm (SshRun conn text t).
Proof.
  intros Ht. unfold calm, runs_reboot.
  destruct (owned_command uid REBOOT_COMMAND false false false) as [reboot|] eqn:E; [|done].
  apply String.eqb_neq. intros ->. revert Ht. eapply owned_command_differ; [|exact E]. done.
Qed.

Abbreviation m := (single (records_reboot ns n "Prepared" requested) (runs_reboot uid)).

Lemma prepared_quiet : covers (quiet m).
Proof. apply single_covers; [apply calm_covers|]. by intros [t []| | | | | | | | | | | | | | |]. Qed.

Lemma prepared_recorded t w boot_id now cur :
  records_reboot ns n "Prepared" requested
    (Ev (Api t (persist_op ns n uid w
           [("remediation", VDict [("reboot", VDict (prepared_state requested boot_id now))])]))
        (Ok cur : res value)) = true.
Proof. simpl. unfold eq_str, body_says. simpl. by rewrite !String.eqb_refl, Hself. Qed.

Lemma write_reboot_calm v : footprint calm (write_reboot ns n uid v).
Proof. apply write_reboot_fp; [apply calm_covers|]. intros; apply calm_api. Qed.

Lemma calm_unguarded {A} (p : M A) s (g : bool * bool) (Q : res A → patch → bool * bool → Prop) :
  footprint calm p →
  (∀ r s' g', (fst g = true → fst g' = true) → snd g' = snd g → Q r s' g') → msafe m p s g Q.
Proof. apply single_unguarded. Qed.

Lemma calm_safe {A} (p : M A) : footprint calm p → secure m p.
Proof. intros Hp s g. by apply calm_unguarded. Qed.

Lemma execute_reboot_single conn cmd retry s :
  msafe m (execute_owned conn uid cmd retry) s (true, false) (λ _ _ _, True).
Proof.
  unfold execute_owned, execute. bind_lift; [|done].
  apply msafe_bind, msafe_attempt; [done|]. by intros [r|e] _.
Qed.

Lemma stage_and_write_calm v : footprint calm (stage_reboot v ;; run_api (write_reboot ns n uid v)).
Proof.
  pose proof calm_covers.
  fp; [by apply stage_reboot_fp|apply write_reboot_calm].
Qed.

(** A persisted intent is on record. *)
Lemma write_prepared_single boot_id now s g (Q : res unit → patch → bool * bool → Prop) :
  snd g = false → (∀ e s' g', Q (Err e) s' g') → (∀ s', Q (Ok tt) s' (true, false)) →
  msafe m (run_api (write_reboot ns n uid (VDict (prepared_state requested boot_id now)))) s g Q.
Proof.
  intros Hg He Ho. pose proof prepared_quiet.
  apply msafe_run_api; [by apply prepared_quiet| |by apply He].
  unfold write_reboot. apply msafe_bind, persist_machine_status_msafe; [done|by split|].
  intros w ch ->. split_and!; [done| |by split].
  intros cur s2. cbn [observe single]. rewrite prepared_recorded, orb_true_r. simpl.
  eapply (calm_unguarded _ _ (true, _)); [by apply stage_reboot_fp|].
  intros [[]|e] s3 [p d] Hp Hd; (split; [|done]); [|done]. simpl in Hp, Hd.
  rewrite Hp, Hd, Hg by done. apply Ho.
Qed.

(** The intent is recorded before the command, and nothing follows it. *)
Lemma submit_reboot_single op conn boot_id s g :
  snd g = false → msafe m (submit_reboot op conn requested boot_id ns n uid) s g (λ _ _ _, True).
Proof.
  intros Hg. unfold submit_reboot, now_iso. pose proof calm_covers. pose proof prepared_quiet.
  bind_quiet; [|done]. cbv zeta.
  apply msafe_bind, write_prepared_single; [done|done|]. intros s3.
  apply msafe_bind. eapply (calm_unguarded _ _ (true, false)).
  { apply lease_check_fp; [apply calm_covers|apply calm_lease_write]. }
  intros [[]|e] s4 [p' d'] Hp' Hd'; [|done]. simpl in Hp', Hd'. rewrite Hp', Hd' by done.
  assert (Htail : ∀ v, secure m (stage_reboot v ;; run_api (write_reboot ns n uid v))).
  { intros v. apply calm_safe, stage_and_write_calm. }
  apply msafe_bind, msafe_except. eapply msafe_mono; [apply execute_reboot_single|].
  intros [r|e] s5 g5 _; [apply Htail|]. destruct (is_Exception e); [|done].
  eapply calm_unguarded.
  { fp; [by apply stage_reboot_fp|apply write_reboot_calm]. }
  intros [r|e'] s6 g6 _ _; [apply Htail|done].
Qed.

Lemma observe_boot_id_calm conn u : footprint calm (observe_boot_id conn u).
Proof.
  pose proof calm_covers. unfold observe_boot_id. fp. apply execute_owned_fp. apply calm_boot_id.
Qed.

Lemma resolve_pending_calm prev same boot u : footprint calm (resolve_pending prev same boot ns n u).
Proof.
  pose proof calm_covers. unfold resolve_pending, now_iso. fp; apply write_reboot_fp; auto using calm_api.
Qed.

Lemma reboot_on_host_single prev same pend obs op conn s g :
  snd g = false →
  msafe m (reboot_on_host prev requested same pend obs ns n uid op conn) s g (λ _ _ _, True).
Proof.
  intros Hg. unfold reboot_on_host. pose proof calm_covers.
  apply msafe_bind. apply calm_unguarded; [fp; by apply check_current_fp|].
  intros [cur|e] s1 g1 _ H1; [|done]. rewrite Hg in H1.
  apply msafe_bind. apply calm_unguarded; [by apply lease_check_fp, calm_lease_write|].
  intros [[]|e] s2 g2 _ H2; [|done]. rewrite H1 in H2.
  apply msafe_bind. apply calm_unguarded; [apply observe_boot_id_calm|].
  intros [boot|e] s3 g3 _ H3; [|done]. rewrite H2 in H3.
  apply msafe_bind. apply calm_unguarded; [fp; apply resolve_pending_calm|].
  intros [resolved|e] s4 g4 _ H4; [|done]. rewrite H3 in H4.
  split_if; [done|]. split_if; [done|]. by apply submit_reboot_single.
Qed.

(** The Lease and the connection around the body. *)
Lemma host_operation_single {A} b u (body : HostLease → M A) s g :
  (∀ l s g, snd g = false → msafe m (body l) s g (λ _ _ _, True)) → snd g = false →
  msafe m (host_operation b u body) s g (λ _ _ _, True).
Proof.
  intros Hb Hg. unfold host_operation, new_lease. pose proof calm_covers.
  do 2 (bind_lift; [|done]).
  apply msafe_bind. apply calm_unguarded; [fp|]. intros [l|e] s1 g1 _ H1; [|done]. rewrite Hg in H1.
  apply msafe_bind. apply calm_unguarded; [fp; by apply lease_acquire_fp, calm_lease_write|].
  intros [[]|e] s2 g2 _ H2; [|done..]. rewrite H1 in H2. cbn [negb].
  assert (Hfin : secure m (cancelled ← perform Await;
    if (cancelled : bool) then raise CancelledError
    else suppress_Exception (run_coordination (lease_release l)))).
  { apply calm_safe. unfold suppress_Exception. fp. by apply lease_release_fp, calm_lease_write. }
  apply msafe_finally.
  assert (Hafter : ∀ s g, msafe m (cancelled ← perform Await;
    if (cancelled : bool) then raise CancelledError
    else suppress_Exception (run_coordination (lease_release l))) s g
    (λ r' _ _, match r' with Ok _ => True | Err _ => True end)).
  { intros s' g'. eapply msafe_mono; [by apply Hfin|]. by intros [] ? ?. }
  apply msafe_try. eapply msafe_mono; [by apply Hb|].
  intros [x|e] s3 g3 _; [by apply Hafter|]. destruct e; try by apply Hafter.
  eapply (calm_unguarded _ _ g3); [fp|]. intros r s4 g4 _ _. by apply Hafter.
Qed.

Lemma reconcile_reboot_single sp st me s g :
  getp sp ["remediation"; "reboot"; "requestedAt"] = Ok requested →
  item me "uid" = Ok uid → snd g = false →
  msafe m (reconcile_reboot sp st n ns me false) s g (λ _ _ _, True).
Proof.
  intros Hreq Huid Hg. unfold reconcile_reboot. pose proof calm_covers. 
  do 3 (cbv zeta; bind_lift; [|done]). simplify_eq. injection Hr1 as <-. cbv zeta; split_if; [done|].
  apply msafe_bind. apply calm_unguarded; [fp|]. intros [paused|e] s1 g1 _ H1; [|done]. rewrite Hg in H1.
  cbv zeta; split_if; [done|]. bind_lift; [|done]. cbv zeta; split_if; [done|].
  do 3 (cbv zeta; bind_lift; [|done]). simplify_eq/=. cbv zeta; split_if; [done|].
  apply msafe_bind. apply calm_unguarded.
  { fp. apply bind_machine_fp; [done|]. apply binding_write_api, calm_api. }
  intros [b|e] s2 g2 _ H2; [|done]. rewrite H1 in H2.
  do 3 (cbv zeta; bind_lift; [|done]). cbv zeta; split_if; [done|]. bind_lift; [|done].
  apply host_operation_single; [|done]. intros op s3 g3 H3.
  apply msafe_bind. apply calm_unguarded; [apply connect_fp; [done|apply calm_ssh_setup]|].
  intros [conn|e] s4 g4 _ H4; [|done]. rewrite H3 in H4.
  apply msafe_finally. eapply msafe_mono; [by apply reboot_on_host_single|].
  intros r s5 g5 _. unfold close. apply msafe_attempt; [done|]. by intros [].
Qed.
End reboots.

(** ** No replay *)

(** The conditional at the head of the program; its first branch is pure. *)
Ltac fp_if :=
  lazymatch goal with |- footprint _ (if ?b then _ else _) => let E := fresh "Hb" in destruct b eqn:E end;
  [by fp|].

Section replay.
Context `{Config} (ns n : string) (uid : value).
Abbreviation calm := (calm uid).

(** A pending request is resolved, or waits: it never falls through. *)
Lemma resolve_pending_same prev boot u :
  values (resolve_pending prev true boot ns n u) (λ resolved, resolved = true).
Proof.
  unfold resolve_pending. do 2 (apply values_bind; intros ?). cbn [negb].
  case_match.
  - do 2 (apply values_bind; intros ?). by apply values_ret.
  - do 3 (apply values_bind; intros ?). case_match.
    + apply values_bind; intros ?. by apply values_ret.
    + by intros s.
Qed.

Lemma reboot_on_host_observing prev req same pend op conn u :
  footprint calm (reboot_on_host prev req same pend true ns n u op conn).
Proof.
  pose proof (calm_covers uid). unfold reboot_on_host.
  fp; first [ by apply check_current_fp | by apply lease_check_fp, calm_lease_write
            | apply observe_boot_id_calm | apply resolve_pending_calm ].
Qed.

Lemma reboot_on_host_waiting prev req obs op conn u :
  footprint calm (reboot_on_host prev req true true obs ns n u op conn).
Proof.
  pose proof (calm_covers uid). unfold reboot_on_host.
  do 3 (apply footprint_bind;
    [first [ fp; by apply check_current_fp | by apply lease_check_fp, calm_lease_write
           | apply observe_boot_id_calm ]|intros ?]).
  eapply footprint_bind_values; [apply resolve_pending_calm|apply resolve_pending_same|].
  by intros ? ->.
Qed.

(** The reconciliation is calm when its body on the host is. *)
Lemma reconcile_reboot_calm sp st me obs (R : value → value → bool → bool → Prop) :
  (∀ prev req same pend op conn u, R prev req same pend →
     footprint calm (reboot_on_host prev req same pend obs ns n u op conn)) →
  (∀ prev req last phase pend,
     getp st ["remediation"; "reboot"] = Ok prev →
     (obs = false → getp sp ["remediation"; "reboot"; "requestedAt"] = Ok req) →
     get (por prev (VDict [])) "lastRequestedAt" = Ok last →
     get (por prev (VDict [])) "phase" = Ok phase →
     in_strs phase ["Prepared"; "Submitted"; "Unknown"] = Ok pend →
     (py_eqb last req = true → in_strs phase ["Succeeded"; "Failed"] = Ok false) →
     R (por prev (VDict [])) req (py_eqb last req) pend) →
  footprint calm (reconcile_reboot sp st n ns me obs).
Proof.
  intros Hbody HR. unfold reconcile_reboot. pose proof (calm_covers uid).
  apply footprint_bind_lift; intros prev Hprev. cbv zeta.
  apply footprint_bind_lift; intros asked Hasked.
  apply footprint_bind_lift; intros req Hreq.
  fp_if. apply footprint_bind; [fp|]. intros paused. fp_if.
  apply footprint_bind_lift; intros dry Hdry. fp_if.
  do 3 (apply footprint_bind_lift; intros ? ?). fp_if.
  apply footprint_bind.
  { fp. apply bind_machine_fp; [done|]. apply binding_write_api, calm_api. }
  intros b. apply footprint_bind_lift; intros last Hlast. cbv zeta.
  apply footprint_bind_lift; intros phase Hphase.
  apply footprint_bind_lift; intros fin Hfin. fp_if.
  apply footprint_bind_lift; intros pend Hpend.
  apply host_operation_fp; [done|apply calm_lease_write|]. intros op.
  apply with_connection_fp; [apply calm_ssh_setup|apply connect_fp; [done|apply calm_ssh_setup]|].
  intros conn. apply Hbody. eapply HR; eauto.
  - intros ->. by injection Hreq as <-.
  - intros Hs. rewrite Hs in Hfin. congruence.
Qed.
End replay.

(** C12.  A reboot command is submitted at most once per run, and only after the
    API server accepted the intent [status.remediation.reboot] with phase
    [Prepared] for this very request: a crash after submission leaves a record
    from which the outcome can be observed. *)
Theorem reboot_once_after_intent `{Config} spec status name namespace meta uid requested s t c :
  getp spec ["remediation"; "reboot"; "requestedAt"] = Ok (VStr requested) →
  item meta "uid" = Ok uid →
  issues (reconcile_reboot spec status name namespace meta false s) t c →
  runs_reboot uid c = true →
  (∃ e, In e t ∧ records_reboot namespace name "Prepared" (VStr requested) e = true) ∧
  Forall (λ '(Ev c' _), runs_reboot uid c' = false) t.
Proof.
  intros Hreq Huid. apply single_issues. apply reconcile_reboot_single; [|done..].
  simpl. apply String.eqb_refl.
Qed.

(** C13.  A request already on record is never replayed: while it is pending
    (Prepared, Submitted or of unknown outcome) the host is only observed, and once
    it succeeded or failed nothing is run. *)
Theorem reboot_never_replayed `{Config} spec status name namespace meta uid prev requested last phase s t c :
  getp status ["remediation"; "reboot"] = Ok prev →
  getp spec ["remediation"; "reboot"; "requestedAt"] = Ok requested →
  get (por prev (VDict [])) "lastRequestedAt" = Ok last → py_eqb last requested = true →
  get (por prev (VDict [])) "phase" = Ok (VStr phase) →
  In phase ["Prepared"; "Submitted"; "Unknown"; "Succeeded"; "Failed"] →
  issues (reconcile_reboot spec status name namespace meta false s) t c →
  runs_reboot uid c = false.
Proof.
  intros Hprev Hreq Hlast Hsame Hphase Hin. apply (footprint_issues (calm uid)).
  apply (reconcile_reboot_calm _ _ _ _ _ _ _ (λ _ _ same pend, same = true ∧ pend = true)).
  - intros ? ? ? ? ? ? ? [-> ->]. apply reboot_on_host_waiting.
  - intros prev' req last' phase' pend Hp Hr Hl Hph Hpend Hfin. specialize (Hr eq_refl).
    rewrite Hprev in Hp. injection Hp as <-. rewrite Hreq in Hr. injection Hr as <-.
    rewrite Hlast in Hl. injection Hl as <-. rewrite Hphase in Hph. injection Hph as <-.
    split; [done|]. specialize (Hfin Hsame). clear - Hin Hpend Hfin.
    repeat destruct Hin as [<-|Hin]; simpl in *; first [done | congruence].
Qed.

(** C14.  The observation a deletion makes of a pending reboot never submits one. *)
Theorem observation_never_reboots `{Config} spec status name namespace meta uid s t c :
  issues (reconcile_reboot spec status name namespace meta true s) t c →
  runs_reboot uid c = false.
Proof.
  apply (footprint_issues (calm uid)).
  apply (reconcile_reboot_calm _ _ _ _ _ _ _ (λ _ _ _ _, True)); [|by intros].
  intros. apply reboot_on_host_observing.
Qed.

(** *** Witnesses *)

Definition fixture_reboot (observe_only : bool) (s : store) : prog (res unit * patch) :=
  @reconcile_reboot replica (machine_view s "spec") (machine_view s "status")
    "machine-a" "test" (machine_view s "metadata") observe_only empty_patch.

Definition requested_at : string := "2026-09-20T10:00:00Z".

Lemma reboot_once_after_intent_witness :
  ∃ t c, issues (fixture_reboot false (reboot_store [])) t c ∧ runs_reboot (VStr "machine-uid") c = true ∧
    (∃ e, In e t ∧ records_reboot "test" "machine-a" "Prepared" (VStr requested_at) e = true) ∧
    Forall (λ '(Ev c' _), runs_reboot (VStr "machine-uid") c' = false) t.
Proof.
  destruct (run_issues fake_handler (runs_reboot (VStr "machine-uid")) (fixture_reboot false (reboot_store []))
              (fake_world (reboot_store []))) as (t & c & Hi & Hc); [vm_compute; reflexivity|].
  exists t, c. split; [exact Hi|]. split; [exact Hc|].
  refine (@reboot_once_after_intent replica _ _ _ _ _ _ requested_at _ t c _ _ Hi Hc); vm_compute; reflexivity.
Defined.

Lemma reboot_never_replayed_witness :
  ∃ t c, issues (fixture_reboot false (reboot_store submitted_record)) t c ∧ acts_on_host c = true ∧
         runs_reboot (VStr "machine-uid") c = false.
Proof.
  destruct (run_issues fake_handler acts_on_host (fixture_reboot false (reboot_store submitted_record))
              (fake_world (reboot_store submitted_record))) as (t & c & Hi & Hc); [vm_compute; reflexivity|].
  exists t, c. split; [exact Hi|]. split; [exact Hc|].
  refine (@reboot_never_replayed replica _ _ _ _ _ _ (VDict submitted_record) (VStr requested_at)
            (VStr requested_at) "Submitted" _ t c _ _ _ _ _ _ Hi);
    first [right; left; reflexivity | vm_compute; reflexivity].
Defined.

Lemma observation_never_reboots_witness :
  ∃ t c, issues (fixture_reboot true (reboot_store submitted_record)) t c ∧ acts_on_host c = true ∧
         runs_reboot (VStr "machine-uid") c = false.
Proof.
  destruct (run_issues fake_handler acts_on_host (fixture_reboot true (reboot_store submitted_record))
              (fake_world (reboot_store submitted_record))) as (t & c & Hi & Hc); [vm_compute; reflexivity|].
  exists t, c. split; [exact Hi|]. split; [exact Hc|].
  exact (@observation_never_reboots replica _ _ _ _ _ _ _ t c Hi).
Defined.
